(* ===== verification/_CoqProject ===== *)
-Q . S2P
Prelude.v
Cxx.v
StdMap.v
Database.v
MemDatabase.v
Utf8.v
JsonValue.v
Rational.v
Grisu.v
GrisuDigits.v
GrisuScale.v
JsonDump.v
JsonRender.v
JsonLexer.v
Strtod.v
FloatText.v
JsonLexerSpec.v
JsonGrammar.v
JsonNumber.v
JsonReads.v
JsonSound.v
JsonSax.v
JsonParser.v
JsonParserSpec.v
JsonAccepts.v
JsonCorrect.v
JsonRoundtrip.v
JsonBinary.v
BinaryReader.v
BinaryFormat.v
Cbor.v
MsgPack.v
Ubjson.v
UbjsonCorrect.v
UbjsonTotal.v
JsonSaxParser.v
JsonEvents.v
JsonCallback.v
JsonEqual.v
JsonPointer.v
JsonPatch.v
JsonPatchCorrect.v
JsonMerge.v
JsonFlatten.v
JsonIter.v
JsonModify.v
JsonOrder.v
AnonymBE.v
AnonymBESpec.v
Demo.v
AnonymBECorrect.v
Envelope.v
Args.v
Concurrent.v
Linearizable.v
Locks.v
Client.v
WriterProxy.v
TlsConfig.v
TlsOwnership.v
TlsContext.v
Ecalls.v
Profile.v
Server.v
ServerLive.v
EventLoop.v
