(* ===== verification/Prelude.v ===== *)
(** * A-SKY: anonymous and confidential file sharing

    A-SKY lets the users of an untrusted object store share files without
    telling the store who can read them.  A key manager inside an SGX enclave
    ([src/anonymBE]) keeps the users, their keys and the groups, and seals a
    bucket key in an envelope that only the members of a group can open.  A
    writer proxy, in an enclave too, uploads objects under a common identity
    and hands out temporary credentials.  Clients ([src/anonymbe-client],
    [src/client]) open the envelopes.  This library models these programs and
    proves what makes them correct.  Paths below are relative to
    [src/anonymBE/src] unless they start with [src].

    ** The parts and their files

    Shared ground:
    - [Prelude]: scopes, tactics, hint databases, bytes and strings.
    - [Cxx]: computations with state, C++ exceptions, divergence and undefined
      behaviour ([outcome], [M]), weakest preconditions [wp], machine integers
      ([wrap], [wrap_signed]), C strings, decimal printing.
    - [StdMap]: [std::map] and [std::set] with string keys as ordered
      association lists, and their abstraction to finite maps and sets.

    The key manager:
    - [Database]: the interface of [enclave/database.h] as the class
      [Database], the abstract store of users and groups, and the contract
      [DatabaseSpec] an implementation owes to the service.
    - [MemDatabase]: [enclave/memory_database.cpp], operation by operation
      ([mem_create_user], ...), and the proof that it meets the contract.
    - [Concurrent]: the same operations as the steps of threads that share the
      database and the mutexes [gmutex_] and [umutex_], one step per call on a
      container; [Linearizable]: the interleaved operations against an atomic
      database, by rely and guarantee; [Locks]: the order of the mutexes.
    - [AnonymBE]: [enclave/anonymbe_service.hpp]; the record [AnonymBE] is the
      class, [process_input] and the [process_*] handlers its methods.  The
      compile-time options are the class [Build], the cryptographic library is
      the class [Crypto], the header names of the HTTP library are
      [HttpStrings].
    - [AnonymBESpec]: what the service should do ([command], [route],
      [st_exec], [serve]), what it should answer ([answer_spec]), the envelopes
      as pure functions ([envelope]), and the handlers against this
      specification.
    - [AnonymBECorrect]: the properties clients rely on, for any database that
      meets the contract; [Demo] has the instances for the examples.
    - [Server]: requests handled by several threads on one service object: a
      handler up to its call of the shared database and after it;
      [ServerLive]: every request of such a server is answered.
    - [Ecalls]: [enclave/ecalls_anonymbe.cpp] and
      [enclave/ecalls_writeproxy.cpp]: bytes of a connection to requests.

    JSON ([json/json.hpp], the copy in the repository with its local changes):
    - [JsonValue]: values, exceptions, [at], [operator[]], [get].
    - [Utf8], [JsonDump]: the UTF-8 automaton and the serializer with its
      buffers; [JsonRender]: the text it prints.
    - [Grisu]: the printer of doubles ([dtoa_impl] and [to_chars]) on 64-bit
      integers; [Rational], [GrisuDigits], [GrisuScale]: its arithmetic over
      the rationals, the digits it generates, the interval they lie in.
    - [Strtod], [FloatText]: the correctly rounded reader of decimal text, the
      grammar of number literals, and printing followed by reading.
    - [JsonLexer], [JsonLexerSpec]: the lexer; [JsonSax]: the handler that
      builds values from events; [JsonParser], [JsonParserSpec]: the parser.
    - [JsonSaxParser]: the parser for any handler (the class [SaxHandler] is the
      interface [json_sax]), [accept], and [parse] without exceptions: what a
      handler is told does not depend on the handler; [JsonEvents]: it is told
      the events of one document; [JsonCallback]: the handler that asks a
      callback what to keep, and the recursion over the document it follows.
    - [JsonGrammar]: the grammar of RFC 8259 as relations between texts and
      values; [JsonNumber]: the number states of the lexer against it;
      [JsonReads], [JsonSound]: the lexer reads the tokens of the grammar, and
      nothing else; [JsonAccepts], [JsonCorrect]: so does the parser.
    - [JsonRoundtrip]: printed texts are in the grammar, hence read back.
    - [JsonBinary]: numbers in network byte order on a machine of either byte
      order (the class [Machine]), doubles as bits; [BinaryReader]: the class
      [binary_reader] up to its formats; [BinaryFormat]: what a format promises
      (the classes [BinaryFormatTotal] and [BinaryFormatSpec]); [Cbor],
      [MsgPack]: two instances; [Ubjson], [UbjsonCorrect], [UbjsonTotal]: the
      third format, whose writer throws.
    - [JsonEqual]: [operator==]; [JsonPointer]: the class [json_pointer];
      [JsonPatch]: [patch], [diff] and [merge_patch]; [JsonPatchCorrect],
      [JsonMerge]: what they compute; [JsonFlatten]: [unflatten] inverts
      [flatten].
    - [JsonIter]: iterators, reverse iterators and [items()]; [JsonModify]:
      types, constructors, lookup and every modification of a value;
      [JsonOrder]: [operator<] against a total order.

    The network:
    - [TlsConfig]: [enclave/tls_config.cpp]: the table of connections, who owns
      which [SSL] object and descriptor, the loops on reads and writes;
      [TlsOwnership]: each [SSL] object has one owner or was freed;
      [TlsContext]: the context, its key and its certificate.
    - [EventLoop]: [event_loop.cpp] and [sgxserver_bootstrap.cpp]: epoll, the
      queue of ready descriptors and the threads.

    Clients and the proxy:
    - [Envelope]: [src/anonymbe-client/.../Envelope.kt], opening envelopes.
    - [Client]: [src/client], the reference client with its threads.
    - [WriterProxy]: [enclave/writerproxy_service.cpp].
    - [Profile]: [enclave/profile.cpp], a workload driven through the texts of
      HTTP requests.
    - [Args]: the options of both servers ([anonymbe.cpp], [writeproxy.cpp])
      and their fixed-size arrays.

    ** What the theorems show

    - The service: every request to an initialized service is answered, the
      answer and the new state are those of the abstract service, error answers
      change nothing, every body is empty or parses as a JSON object, a
      membership query sees the last update, and a removed user gets no key in
      later envelopes ([AnonymBECorrect]).  The in-memory
      database refines the abstract store over any sequence of calls
      ([MemDatabase]).  Sessions do not depend on how bytes arrive ([Ecalls]).
      A whole workload, from the texts of its requests to the envelope of the
      group it builds, is computed in [Profile].
    - Envelopes: members recover the bucket key from the ciphertext in the
      parsed body of the answer, others get nothing, and opening always ends
      ([Envelope], [Client]).
    - JSON: the parser is total and builds well-formed values; it accepts
      exactly the documents of the grammar and returns their values.  The
      automaton decides UTF-8, [dump] prints the expected text or throws.  A finite
      double is printed with at most 17 digits that read back as the same
      bits, parsing a printed value gives it back, and what the parser built
      from any text survives printing and parsing again.  [accept] and
      [parse] without exceptions agree with [parse]; with a callback [parse]
      leaves what a recursion over the document leaves, which may hold
      discarded values or write through a null pointer.
    - JSON in binary: each of CBOR, MessagePack and UBJSON reads back what it
      wrote, up to the types of integers, and its reader ends on every input
      with a well-formed value or an exception of the library.
    - JSON pointers and patches: the text of a pointer and its tokens determine
      each other; patching with a diff gives the target; a merge patch is that
      of RFC 7396; [unflatten] restores what [flatten] took apart.
    - JSON values: loops forward, backward and over [items()] visit each part
      of a value once ([JsonIter]); no sequence of modifications, failed ones
      included, breaks the invariant of values, and erasing undoes inserting
      ([JsonModify]); where integers are doubles and there is no NaN, the
      comparison operators are those of one total order ([JsonOrder]).
    - Concurrency: the shared database is linearizable and its containers are
      accessed under their mutexes, except for the membership query, which can
      answer what no atomic database would; so requests of several threads are
      answered as by the abstract service; calls that lock in order always
      return, and with them every request of a server, the two deletions can
      deadlock; no event of the loop is lost or served twice.  The number of threads, [N] in [anonymbe.cpp], is any
      number in these theorems and 1 in the repository.
    - Resources: whatever the event loop asks of the TLS connections, [SSL]
      objects are owned by one connection or freed once, except for the use after a
      failed handshake; the reuse of a descriptor can remove a new connection.
    - Behaviour that surprises is stated as such: wrong types and unknown verbs
      answered with "ok", a deleted user cut at a NUL byte, a retry whose
      failure is dropped, an unterminated array.

    ** Bounds and fuel

    Loops that are not structural take fuel, and a theorem shows that the fuel
    given is enough: [scan] and [parse_strict] use the characters left to read
    (each turn consumes one), [open_linear] and [search] the length of the
    envelope, [send_loop] the million tries of the source, [forward] two levels
    under the hypothesis that buckets last, [request_loop] the bytes not yet
    decoded; [normalize] shifts a 64-bit significand at most 64 times,
    [fractional_digits] has 20 turns and stops by the 17th digit,
    [grisu2_round] has one turn per multiple of the last digit's weight.
    The readers of CBOR and MessagePack have the length of the input plus two
    turns ([binary_fuel]); a UBJSON array of nulls takes no bytes, so its reader
    has as many turns as the largest array has elements besides
    ([ubjson_fuel]); [replace_substring] leaves a character behind each turn.
    [wp] fails on [OutOfFuel] and [Undefined], so theorems stated with results
    [Ok] are proofs of termination and safety.  64-bit counters, [int]
    conversions and ports wrap as in C++.

    ** What is not modelled

    MongoDB, SGX, the HTTP and object store libraries and OpenSSL are not part
    of the repository: they are parameters, with the documented behaviour the
    code relies on as class laws ([CryptoSpec], [DecoderSpec]) or hypotheses.
    [strtod] is modelled as the correctly rounded conversion.  Clocks, the
    Kotlin storage clients and benchmarks are left out, and so are the parts of
    the JSON library the program never calls and that are only plumbing:
    constructors from other types and conversions to them, streams
    as inputs and outputs.  Memory is not
    exhausted in the model: sizes are limited by [max_size] only.

    ** Plan

    Done: the key manager, its database, the database and the service shared by
    threads, JSON with its grammar, the printer and reader of doubles, its
    binary formats, pointers and patches, envelopes, the TLS table, the event
    loop, the proxy, the options, the reference client and the profiling
    program.  Next: the token endpoint of the proxy on every branch, the loop of
    threads composed with the service. *)

From stdpp Require Import base gmap strings list sorting.
From Stdlib Require Import ZArith Ascii Lia OrderedTypeEx.

Declare Scope cxx_scope.
Delimit Scope cxx_scope with cxx.
#[global] Open Scope string_scope.
#[global] Open Scope list_scope.
#[global] Open Scope Z_scope.

(** Automation shared by the components: [cxx] holds resolution hints for
    invariants, [bytes] the rewriting rules on byte strings. *)
Create HintDb cxx discriminated.
Create Rewrite HintDb bytes.

(** ** Tactics *)

(** Case analysis on every [match] and [if] of the goal or of a hypothesis,
    keeping the equations. *)
Ltac case_all :=
  repeat (case_match; simplify_eq/=; try done).

(** Destruct the decision procedures for integer comparisons. *)
Ltac zify_cmp :=
  repeat match goal with
  | H : (_ && _)%bool = true |- _ => apply andb_true_iff in H as [? ?]
  | H : (_ || _)%bool = false |- _ => apply orb_false_iff in H as [? ?]
  | H : (_ =? _)%Z = true |- _ => apply Z.eqb_eq in H
  | H : (_ =? _)%Z = false |- _ => apply Z.eqb_neq in H
  | H : (_ <=? _)%Z = true |- _ => apply Z.leb_le in H
  | H : (_ <=? _)%Z = false |- _ => apply Z.leb_gt in H
  | H : (_ <? _)%Z = true |- _ => apply Z.ltb_lt in H
  | H : (_ <? _)%Z = false |- _ => apply Z.ltb_ge in H
  end.

(** ** Byte strings

    A [std::string] is a [string]: a sequence of 8-bit characters that may
    contain NUL. *)

#[global] Arguments String.append !_ _ / : simpl nomatch.

Lemma append_nil_r (s : string) : s +:+ "" = s.
Proof. induction s as [|c s IH]; simpl; congruence. Qed.

Lemma append_assoc (s1 s2 s3 : string) : (s1 +:+ s2) +:+ s3 = s1 +:+ (s2 +:+ s3).
Proof. induction s1 as [|c s1 IH]; simpl; congruence. Qed.

Lemma length_append (s1 s2 : string) :
  String.length (s1 +:+ s2) = (String.length s1 + String.length s2)%nat.
Proof. induction s1 as [|c s1 IH]; simpl; congruence. Qed.

Lemma append_cons c s1 s2 : String c s1 +:+ s2 = String c (s1 +:+ s2).
Proof. done. Qed.

Lemma append_inj_l (s1 s2 t1 t2 : string) :
  String.length s1 = String.length t1 → s1 +:+ s2 = t1 +:+ t2 → s1 = t1 ∧ s2 = t2.
Proof.
  revert t1. induction s1 as [|c s1 IH]; intros [|d t1] Hl He; simplify_eq/=; try done.
  destruct (IH t1) as [-> ->]; [lia|done|done].
Qed.

#[export] Hint Rewrite append_nil_r append_assoc length_append : bytes.

(** The value of a character as an [unsigned char], and back. *)
Definition byte_of (c : ascii) : Z := Z.of_N (N_of_ascii c).
Definition char_of (z : Z) : ascii := ascii_of_N (Z.to_N (z mod 256)).

Lemma byte_of_range c : 0 ≤ byte_of c < 256.
Proof. unfold byte_of. pose proof (N_ascii_bounded c). lia. Qed.

Lemma char_of_byte_of c : char_of (byte_of c) = c.
Proof.
  unfold char_of. pose proof (byte_of_range c). rewrite Z.mod_small by lia.
  unfold byte_of. rewrite N2Z.id. apply ascii_N_embedding.
Qed.

Lemma byte_of_char_of z : 0 ≤ z < 256 → byte_of (char_of z) = z.
Proof.
  intros Hz. unfold byte_of, char_of. rewrite Z.mod_small by lia.
  rewrite N_ascii_embedding; lia.
Qed.

Lemma byte_of_inj c d : byte_of c = byte_of d → c = d.
Proof. intros H. by rewrite <-(char_of_byte_of c), <-(char_of_byte_of d), H. Qed.

(** [char] as a C++ [char] on a platform where it is signed (x86-64). *)
Definition signed_char (c : ascii) : Z :=
  let b := byte_of c in if b <? 128 then b else b - 256.

(** The bytes of a string as integers. *)
Fixpoint bytes_of (s : string) : list Z :=
  match s with
  | EmptyString => []
  | String c s => byte_of c :: bytes_of s
  end.

Fixpoint string_of (l : list Z) : string :=
  match l with
  | [] => ""
  | b :: l => String (char_of b) (string_of l)
  end.

Lemma string_of_bytes_of s : string_of (bytes_of s) = s.
Proof. induction s as [|c s IH]; simpl; [done|]. by rewrite char_of_byte_of, IH. Qed.

Lemma bytes_of_app s1 s2 : bytes_of (s1 +:+ s2) = bytes_of s1 ++ bytes_of s2.
Proof. induction s1 as [|c s1 IH]; simpl; congruence. Qed.

Lemma string_of_app l1 l2 : string_of (l1 ++ l2) = string_of l1 +:+ string_of l2.
Proof. induction l1 as [|b l1 IH]; simpl; congruence. Qed.

Lemma length_bytes_of s : length (bytes_of s) = String.length s.
Proof. induction s as [|c s IH]; simpl; congruence. Qed.

Lemma length_string_of l : String.length (string_of l) = length l.
Proof. induction l as [|b l IH]; simpl; congruence. Qed.

Definition is_byte (z : Z) : Prop := 0 ≤ z < 256.

Lemma bytes_of_is_byte s : Forall is_byte (bytes_of s).
Proof.
  induction s as [|c s IH]; simpl; constructor; [apply byte_of_range|done].
Qed.

Lemma bytes_of_string_of l : Forall is_byte l → bytes_of (string_of l) = l.
Proof.
  induction 1 as [|b l Hb _ IH]; simpl; [done|].
  by rewrite byte_of_char_of, IH.
Qed.

#[export] Hint Rewrite bytes_of_app string_of_app length_bytes_of length_string_of
  string_of_bytes_of char_of_byte_of : bytes.

(** Text written with [|] for the double quote: JSON documents and messages
    stay readable. *)
Definition dquote : ascii := "034"%char.
Fixpoint quoted (s : string) : string :=
  match s with
  | EmptyString => ""
  | String c s => String (if Ascii.eqb c "|" then dquote else c) (quoted s)
  end.

(** [s.find(p) == 0]. *)
Fixpoint starts_with (p s : string) : bool :=
  match p, s with
  | EmptyString, _ => true
  | String c p, String d s => Ascii.eqb c d && starts_with p s
  | String _ _, EmptyString => false
  end.

(** ** The order of [std::string]

    [char_traits<char>::compare] orders characters as [unsigned char] and a
    proper prefix before its extensions; this is [String.compare]. *)
Definition str_lt (s t : string) : Prop := String.compare s t = Lt.

#[global] Instance str_lt_dec s t : Decision (str_lt s t).
Proof. unfold str_lt. solve_decision. Defined.

#[global] Instance str_lt_trans : Transitive str_lt.
Proof.
  intros x y z Hxy Hyz. unfold str_lt in *.
  apply (proj2 (String_as_OT.cmp_lt x z)).
  eapply String_as_OT.lt_trans; apply String_as_OT.cmp_lt; eassumption.
Qed.

Lemma str_compare_refl s : String.compare s s = Eq.
Proof.
  destruct (String.compare s s) eqn:E; [done| |].
  - pose proof (String.compare_antisym s s) as H. by rewrite E in H.
  - pose proof (String.compare_antisym s s) as H. by rewrite E in H.
Qed.

Lemma str_lt_irrefl s : ¬ str_lt s s.
Proof. unfold str_lt. by rewrite str_compare_refl. Qed.

Lemma str_lt_gt s t : String.compare s t = Gt ↔ str_lt t s.
Proof.
  unfold str_lt. rewrite (String.compare_antisym s t).
  destruct (String.compare t s); simpl; intuition congruence.
Qed.

(** The three-way comparison as a specification for case analysis. *)
Inductive str_cmp_spec (s t : string) : comparison → Prop :=
| str_cmp_eq : s = t → str_cmp_spec s t Eq
| str_cmp_lt : str_lt s t → str_cmp_spec s t Lt
| str_cmp_gt : str_lt t s → str_cmp_spec s t Gt.

Lemma str_compareP s t : str_cmp_spec s t (String.compare s t).
Proof.
  destruct (String.compare s t) eqn:E; constructor.
  - by apply String.compare_eq_iff.
  - done.
  - by apply str_lt_gt.
Qed.

#[export] Hint Resolve str_lt_irrefl byte_of_range bytes_of_is_byte : cxx.

(** Close a goal whose hypotheses on [str_lt] are contradictory. *)
Ltac str_order :=
  solve [ exfalso;
    match goal with
    | H : str_lt ?x ?x |- _ => exact (str_lt_irrefl x H)
    | H1 : str_lt ?x ?y, H2 : str_lt ?y ?x |- _ =>
        exact (str_lt_irrefl x (transitivity H1 H2))
    end ].
