(* ===== verification/Cxx.v ===== *)
(** * The C++ run-time the program relies on

    Exceptions and control flow (a state, exception and fuel monad), machine
    integers, [std::string] helpers and the ordered associative containers
    [std::map<std::string, V>] and [std::set<std::string>]. *)

From stdpp Require Import base gmap strings list sorting.
From Stdlib Require Import ZArith Ascii Lia.
From S2P Require Import Prelude.

(** ** Outcomes

    A C++ call returns a value, throws, or has undefined behaviour.  A loop
    translated with fuel may also run out of it; theorems of termination say
    that this does not happen. *)
Inductive outcome (E A : Type) : Type :=
| Ok (a : A)
| Throw (e : E)
| OutOfFuel
| Undefined.
Arguments Ok {E A} a.
Arguments Throw {E A} e.
Arguments OutOfFuel {E A}.
Arguments Undefined {E A}.

Definition obind {E A B} (m : outcome E A) (k : A → outcome E B) : outcome E B :=
  match m with
  | Ok a => k a
  | Throw e => Throw e
  | OutOfFuel => OutOfFuel
  | Undefined => Undefined
  end.

(** State survives an exception: what was mutated before the [throw] stays. *)
Definition M (E S A : Type) : Type := S → outcome E A * S.

Definition ret {E S A} (a : A) : M E S A := λ s, (Ok a, s).
Definition throw {E S A} (e : E) : M E S A := λ s, (Throw e, s).
Definition get_state {E S} : M E S S := λ s, (Ok s, s).
Definition put_state {E S} (s : S) : M E S unit := λ _, (Ok tt, s).
Definition modify {E S} (f : S → S) : M E S unit := λ s, (Ok tt, f s).
Definition gets {E S A} (f : S → A) : M E S A := λ s, (Ok (f s), s).
Definition lift {E S A} (o : outcome E A) : M E S A := λ s, (o, s).
Definition out_of_fuel {E S A} : M E S A := λ s, (OutOfFuel, s).

Definition bind {E S A B} (m : M E S A) (k : A → M E S B) : M E S B := λ s,
  match m s with
  | (Ok a, s') => k a s'
  | (Throw e, s') => (Throw e, s')
  | (OutOfFuel, s') => (OutOfFuel, s')
  | (Undefined, s') => (Undefined, s')
  end.

Notation "x <- m ;; k" := (bind m (λ x, k))
  (at level 100, m at next level, right associativity) : cxx_scope.
Notation "m ;; k" := (bind m (λ _, k))
  (at level 100, right associativity) : cxx_scope.
Open Scope cxx_scope.

(** Run a computation on a component of the state. *)
Definition zoom {E S T A} (get : S → T) (set : T → S → S) (m : M E T A) : M E S A :=
  λ s, let '(o, t) := m (get s) in (o, set t s).

Lemma bind_ok {E S A B} (m : M E S A) (k : A → M E S B) s s' b :
  bind m k s = (Ok b, s') ↔ ∃ a s0, m s = (Ok a, s0) ∧ k a s0 = (Ok b, s').
Proof.
  unfold bind. destruct (m s) as [[a| | |] s0]; split; intros H; eauto;
    try done; destruct H as (? & ? & ? & ?); by simplify_eq.
Qed.

Lemma bind_ret_l {E S A B} (a : A) (k : A → M E S B) s : bind (ret a) k s = k a s.
Proof. done. Qed.

Lemma bind_run {E S A B} (m : M E S A) (k : A → M E S B) s a s' :
  m s = (Ok a, s') → bind m k s = k a s'.
Proof. unfold bind. by intros ->. Qed.

(** ** Weakest preconditions

    [wp m s Q X]: run from [s], the computation ends; a normal result
    satisfies [Q] and an exception [X].  Running out of fuel or undefined
    behaviour satisfies nothing, so a proof of [wp] is a proof of termination
    and of safety. *)
Definition wp {E S A} (m : M E S A) (s : S) (Q : A → S → Prop) (X : E → S → Prop) : Prop :=
  match m s with
  | (Ok a, s') => Q a s'
  | (Throw e, s') => X e s'
  | _ => False
  end.

Section wp.
Context {E S A B : Type}.
Implicit Types (m : M E S A) (Q : A → S → Prop) (X : E → S → Prop).

Lemma wp_bind m (k : A → M E S B) s (Q : B → S → Prop) X :
  wp m s (λ a s', wp (k a) s' Q X) X → wp (bind m k) s Q X.
Proof. unfold wp, bind. destruct (m s) as [[a| | |] s']; done. Qed.

Lemma wp_ret (a : A) s Q X : Q a s → wp (ret a) s Q X.
Proof. done. Qed.

Lemma wp_throw (e : E) s Q X : X e s → wp (throw e) s Q X.
Proof. done. Qed.

Lemma wp_gets (f : S → A) s Q X : Q (f s) s → wp (gets f) s Q X.
Proof. done. Qed.

Lemma wp_mono m s Q Q' X X' :
  wp m s Q' X' → (∀ a s', Q' a s' → Q a s') → (∀ e s', X' e s' → X e s') → wp m s Q X.
Proof. unfold wp. destruct (m s) as [[a| | |] s']; eauto. Qed.

Lemma wp_run m s Q X a s' : m s = (Ok a, s') → Q a s' → wp m s Q X.
Proof. unfold wp. by intros ->. Qed.

Lemma wp_inv m s Q X : wp m s Q X →
  (∃ a s', m s = (Ok a, s') ∧ Q a s') ∨ (∃ e s', m s = (Throw e, s') ∧ X e s').
Proof. unfold wp. destruct (m s) as [[a| | |] s']; naive_solver. Qed.
End wp.

Lemma wp_get_state {E S} (s : S) (Q : S → S → Prop) (X : E → S → Prop) :
  Q s s → wp get_state s Q X.
Proof. done. Qed.

Lemma wp_modify {E S} (f : S → S) s (Q : unit → S → Prop) (X : E → S → Prop) :
  Q tt (f s) → wp (modify f) s Q X.
Proof. done. Qed.

Lemma wp_zoom {E S T A} (get : S → T) (set : T → S → S) (m : M E T A) s
    (Q : A → S → Prop) (X : E → S → Prop) :
  wp m (get s) (λ a t, Q a (set t s)) (λ e t, X e (set t s)) → wp (zoom get set m) s Q X.
Proof. unfold wp, zoom. destruct (m (get s)) as [[a| | |] t]; done. Qed.

(** Exceptions that a computation does not throw. *)
Definition no_exn {E S} (e : E) (s : S) : Prop := False.

(** Take one step of a computation under [wp]. *)
Ltac wp_step :=
  lazymatch goal with
  | |- wp (bind _ _) _ _ _ => apply wp_bind
  | |- wp (ret _) _ _ _ => apply wp_ret
  | |- wp (throw _) _ _ _ => apply wp_throw
  | |- wp (gets _) _ _ _ => apply wp_gets
  | |- wp get_state _ _ _ => apply wp_get_state
  | |- wp (modify _) _ _ _ => apply wp_modify
  | |- wp (zoom _ _ _) _ _ _ => apply wp_zoom
  end; cbv beta.

(** ** Exceptions

    The classes the sources throw or catch.  [std::invalid_argument] is a
    [std::logic_error]; the five classes of [nlohmann::detail] derive from
    [nlohmann::detail::exception], which derives from [std::exception] only. *)
Inductive json_exn : Type :=
| parse_error | invalid_iterator | type_error | out_of_range | other_error.

Inductive exn : Type :=
| std_invalid_argument (msg : string)
| std_logic_error (msg : string)
| std_runtime_error (msg : string)
| json_exception (k : json_exn) (id : Z) (msg : string)
| bson_error_t (code : Z) (message : string)
| thrown_uint32 (e : Z).

#[global] Instance json_exn_eq_dec : EqDecision json_exn.
Proof. solve_decision. Defined.
#[global] Instance exn_eq_dec : EqDecision exn.
Proof. solve_decision. Defined.

(** A C string: the bytes before the first NUL. *)
Fixpoint c_str (s : string) : string :=
  match s with
  | EmptyString => ""
  | String c s => if Ascii.eqb c "000" then "" else String c (c_str s)
  end.

Definition no_nul (s : string) : Prop := c_str s = s.

#[global] Instance no_nul_dec s : Decision (no_nul s).
Proof. unfold no_nul. apply _. Defined.

Lemma c_str_idemp s : c_str (c_str s) = c_str s.
Proof.
  induction s as [|c s IH]; simpl; [done|].
  destruct (Ascii.eqb c "000") eqn:E; simpl; [done|]. by rewrite E, IH.
Qed.

Lemma no_nul_app s t : no_nul s → c_str (s +:+ t) = s +:+ c_str t.
Proof.
  unfold no_nul. induction s as [|c s IH]; simpl; [done|].
  destruct (Ascii.eqb c "000"); [done|]. intros [= H]. by rewrite IH.
Qed.

(** [what()] of a standard or library exception. *)
Definition what (e : exn) : string :=
  match e with
  | std_invalid_argument m | std_logic_error m | std_runtime_error m
  | json_exception _ _ m => c_str m
  | bson_error_t _ _ | thrown_uint32 _ => ""
  end.

(** ** Integers *)

Definition wrap (bits : Z) (z : Z) : Z := z mod 2 ^ bits.
Definition wrap_signed (bits : Z) (z : Z) : Z :=
  let r := z mod 2 ^ bits in if r <? 2 ^ (bits - 1) then r else r - 2 ^ bits.

Lemma wrap_small bits z : 0 ≤ z < 2 ^ bits → wrap bits z = z.
Proof. apply Z.mod_small. Qed.

Lemma wrap_signed_range bits z : 0 < bits → - 2 ^ (bits - 1) ≤ wrap_signed bits z < 2 ^ (bits - 1).
Proof.
  intros Hb. unfold wrap_signed. assert (Hp : 2 ^ bits = 2 * 2 ^ (bits - 1)) by (rewrite <-Z.pow_succ_r by lia; f_equal; lia).
  pose proof (Z.mod_pos_bound z (2 ^ bits) ltac:(apply Z.pow_pos_nonneg; lia)).
  destruct (z mod 2 ^ bits <? 2 ^ (bits - 1)) eqn:E; zify_cmp; lia.
Qed.

(** A number that was written in two's complement. *)
Lemma wrap_signed_wrap bits z :
  0 < bits → - 2 ^ (bits - 1) ≤ z < 2 ^ (bits - 1) → wrap_signed bits (wrap bits z) = z.
Proof.
  intros Hb Hz. unfold wrap_signed, wrap.
  assert (Hp : 2 ^ bits = 2 * 2 ^ (bits - 1)) by (rewrite <-Z.pow_succ_r by lia; f_equal; lia).
  rewrite Z.mod_mod by lia. destruct (decide (0 ≤ z)).
  - rewrite Z.mod_small by lia. by rewrite (proj2 (Z.ltb_lt _ _)) by lia.
  - rewrite <-(Z.mod_add z 1), Z.mul_1_l, Z.mod_small by lia. rewrite (proj2 (Z.ltb_ge _ _)) by lia. lia.
Qed.

Lemma wrap_signed_small bits z :
  0 < bits → - 2 ^ (bits - 1) ≤ z < 2 ^ (bits - 1) → wrap_signed bits z = z.
Proof.
  intros Hb Hz. rewrite <-(wrap_signed_wrap bits z) at 2 by done. unfold wrap_signed, wrap.
  rewrite Z.mod_mod; [done|]. apply Z.pow_nonzero; lia.
Qed.

Definition digit (d : Z) : ascii := char_of (48 + d).

(** Decimal digits of a non-negative integer, most significant first. *)
Fixpoint dec_digits (fuel : nat) (n : Z) (acc : string) : string :=
  match fuel with
  | O => acc
  | S f =>
      let acc := String (digit (n mod 10)) acc in
      if n / 10 =? 0 then acc else dec_digits f (n / 10) acc
  end.

Definition dec_fuel (n : Z) : nat := S (Z.to_nat (Z.log2 n)).

(** [std::to_string] on the integer types. *)
Definition to_string (z : Z) : string :=
  if z <? 0 then String "-" (dec_digits (dec_fuel (- z)) (- z) "")
  else dec_digits (dec_fuel z) z "".

(** The number a string of decimal digits denotes. *)
Fixpoint dec_value (acc : Z) (s : string) : Z :=
  match s with
  | EmptyString => acc
  | String c s => dec_value (10 * acc + (byte_of c - 48)) s
  end.

Definition is_digit (z : Z) : bool := (48 <=? z) && (z <=? 57).

Fixpoint all_digits (s : string) : bool :=
  match s with
  | EmptyString => true
  | String c s => is_digit (byte_of c) && all_digits s
  end.

Lemma digit_byte d : 0 ≤ d < 10 → byte_of (digit d) = 48 + d.
Proof. intros. apply byte_of_char_of. lia. Qed.

Lemma dec_digits_app f n acc :
  dec_digits f n acc = dec_digits f n "" +:+ acc.
Proof.
  revert n acc. induction f as [|f IH]; intros n acc; simpl; [done|].
  destruct (n / 10 =? 0); [done|].
  rewrite (IH _ (String _ "")), (IH _ (String _ acc)), append_assoc. done.
Qed.

Lemma dec_value_app s t acc : dec_value acc (s +:+ t) = dec_value (dec_value acc s) t.
Proof. revert acc. induction s as [|c s IH]; intros acc; simpl; [done|]. apply IH. Qed.

Lemma all_digits_app s t : all_digits (s +:+ t) = all_digits s && all_digits t.
Proof.
  induction s as [|c s IH]; simpl; [done|]. rewrite IH. by rewrite andb_assoc.
Qed.

(** The fuel of [to_string] is enough: the digits denote the number. *)
Lemma dec_digits_spec f n :
  0 ≤ n < 2 ^ Z.of_nat f →
  dec_value 0 (dec_digits f n "") = n ∧ all_digits (dec_digits f n "") = true
  ∧ (f ≠ O → dec_digits f n "" ≠ "").
Proof.
  revert n. induction f as [|f IH]; intros n Hn.
  { simpl in *. split_and!; [lia|done|done]. }
  cbn [dec_digits]. pose proof (Z.mod_pos_bound n 10 ltac:(lia)) as Hm.
  pose proof (Z.div_mod n 10 ltac:(lia)) as Hdm.
  assert (Hd : byte_of (digit (n mod 10)) = 48 + n mod 10) by (apply digit_byte; lia).
  destruct (n / 10 =? 0) eqn:E; zify_cmp.
  - simpl. rewrite Hd. unfold is_digit. split_and!; [lia| |done].
    rewrite andb_true_r. apply andb_true_iff. split; apply Z.leb_le; lia.
  - destruct (IH (n / 10)) as (Hv & Ha & _).
    { rewrite Nat2Z.inj_succ, Z.pow_succ_r in Hn by lia.
      split; [apply Z.div_pos; lia|]. apply Z.div_lt_upper_bound; lia. }
    rewrite dec_digits_app, dec_value_app, all_digits_app, Hv, Ha. simpl. rewrite Hd.
    split_and!; [lia| |].
    + unfold is_digit. rewrite andb_true_r. apply andb_true_iff.
      split; apply Z.leb_le; lia.
    + intros _ H. apply (f_equal String.length) in H.
      rewrite length_append in H. simpl in H. lia.
Qed.

(** No zero in front of a positive number. *)
Lemma dec_digits_head f n acc :
  0 < n < 2 ^ Z.of_nat f →
  ∃ d ds, dec_digits f n acc = String (digit d) ds ∧ 1 ≤ d ≤ 9.
Proof.
  revert n acc. induction f as [|f IH]; intros n acc Hn; [simpl in Hn; lia|]. cbn [dec_digits].
  pose proof (Z.mod_pos_bound n 10 ltac:(lia)). pose proof (Z.div_mod n 10 ltac:(lia)).
  destruct (n / 10 =? 0) eqn:E; zify_cmp.
  - eexists _, _. split; [done|]. lia.
  - apply IH. rewrite Nat2Z.inj_succ, Z.pow_succ_r in Hn by lia.
    pose proof (Z.div_pos n 10 ltac:(lia) ltac:(lia)). lia.
Qed.

Lemma dec_fuel_enough n : 0 ≤ n → n < 2 ^ Z.of_nat (dec_fuel n).
Proof.
  intros Hn. unfold dec_fuel. destruct (decide (n = 0)) as [->|]; [done|].
  rewrite Nat2Z.inj_succ, Z2Nat.id by apply Z.log2_nonneg.
  apply Z.log2_spec. lia.
Qed.

Lemma to_string_nonneg n :
  0 ≤ n →
  dec_value 0 (to_string n) = n ∧ all_digits (to_string n) = true ∧ to_string n ≠ "".
Proof.
  intros Hn. unfold to_string. rewrite (proj2 (Z.ltb_ge n 0)) by lia.
  destruct (dec_digits_spec (dec_fuel n) n) as (? & ? & ?).
  { split; [done|]. by apply dec_fuel_enough. }
  split_and!; auto.
Qed.

Lemma to_string_inj_nonneg m n : 0 ≤ m → 0 ≤ n → to_string m = to_string n → m = n.
Proof.
  intros Hm Hn He. destruct (to_string_nonneg m Hm) as [<- _].
  destruct (to_string_nonneg n Hn) as [<- _]. by rewrite He.
Qed.

(** ** [std::string::resize] *)

Fixpoint str_take (n : nat) (s : string) : string :=
  match n, s with
  | S n, String c s => String c (str_take n s)
  | _, _ => ""
  end.

Fixpoint str_drop (n : nat) (s : string) : string :=
  match n, s with
  | S n, String _ s => str_drop n s
  | O, s => s
  | _, EmptyString => ""
  end.

Fixpoint str_repeat (n : nat) (c : ascii) : string :=
  match n with
  | O => ""
  | S n => String c (str_repeat n c)
  end.

Definition resize (s : string) (n : nat) (c : ascii) : string :=
  str_take n s +:+ str_repeat (n - String.length s) c.

Lemma length_str_take n s : String.length (str_take n s) = Nat.min n (String.length s).
Proof. revert s. induction n as [|n IH]; intros [|c s]; simpl; congruence. Qed.

Lemma length_str_repeat n c : String.length (str_repeat n c) = n.
Proof. induction n; simpl; congruence. Qed.

Lemma length_resize s n c : String.length (resize s n c) = n.
Proof.
  unfold resize. rewrite length_append, length_str_take, length_str_repeat. lia.
Qed.

Lemma str_take_app n s t : n = String.length s → str_take n (s +:+ t) = s.
Proof.
  intros ->. induction s as [|c s IH]; simpl; [by destruct t|congruence].
Qed.

Lemma str_drop_app n s t : n = String.length s → str_drop n (s +:+ t) = t.
Proof. intros ->. induction s as [|c s IH]; simpl; [by destruct t|congruence]. Qed.

Lemma str_take_all n s : (String.length s ≤ n)%nat → str_take n s = s.
Proof.
  revert s. induction n as [|n IH]; intros [|c s] H; simpl in *; try done; [lia|].
  f_equal. apply IH. lia.
Qed.

Lemma resize_id s n c : String.length s = n → resize s n c = s.
Proof.
  intros <-. unfold resize. rewrite str_take_all, Nat.sub_diag by lia.
  apply append_nil_r.
Qed.

Lemma length_str_drop n s : String.length (str_drop n s) = (String.length s - n)%nat.
Proof. revert s. induction n as [|n IH]; intros [|c s]; simpl; auto. Qed.

Lemma str_drop_add n k s : str_drop (n + k) s = str_drop k (str_drop n s).
Proof. revert s. induction n as [|n IH]; intros [|c s]; simpl; auto. by destruct k. Qed.

Lemma str_drop_ge n s : (String.length s ≤ n)%nat → str_drop n s = "".
Proof. revert s. induction n as [|n IH]; intros [|c s] H; simpl in *; auto with lia. Qed.

(** ** [std::stoi]

    Leading white space, a sign and decimal digits; what follows is ignored. *)

Inductive stoi_result : Type :=
| Stoi (z : Z)
| StoiInvalid        (** [std::invalid_argument] *)
| StoiOutOfRange.    (** [std::out_of_range] *)

Definition is_c_space (c : ascii) : bool :=
  let b := byte_of c in (b =? 32) || ((9 <=? b) && (b <=? 13)).

Fixpoint skip_spaces (s : string) : string :=
  match s with
  | String c s' => if is_c_space c then skip_spaces s' else s
  | EmptyString => ""
  end.

Fixpoint leading_digits (s : string) : string :=
  match s with
  | String c s => if is_digit (byte_of c) then String c (leading_digits s) else ""
  | EmptyString => ""
  end.

Definition int_range (z : Z) : bool := (- 2 ^ 31 <=? z) && (z <? 2 ^ 31).

(** A sign, and what follows it. *)
Definition split_sign (s : string) : bool * string :=
  match s with
  | String "-" s => (true, s)
  | String "+" s => (false, s)
  | _ => (false, s)
  end.

Definition stoi (s : string) : stoi_result :=
  let '(neg, s) := split_sign (skip_spaces (c_str s)) in
  match leading_digits s with
  | "" => StoiInvalid
  | ds => let v := if (neg : bool) then - dec_value 0 ds else dec_value 0 ds in
          if int_range v then Stoi v else StoiOutOfRange
  end.

Example stoi_samples :
  stoi "4444" = Stoi 4444 ∧ stoi " -1x" = Stoi (-1) ∧ stoi "x" = StoiInvalid
  ∧ stoi "99999999999" = StoiOutOfRange.
Proof. vm_compute. done. Qed.

(** The characters [std::stoi] reads. *)
Definition stoi_processed (s : string) : Z :=
  let after := (split_sign (skip_spaces (c_str s))).2 in
  Z.of_nat (String.length (c_str s) - String.length after + String.length (leading_digits after)).

Example stoi_processed_samples :
  stoi_processed "4444" = 4 ∧ stoi_processed " -1x" = 3 ∧ stoi_processed "+7" = 2.
Proof. vm_compute. done. Qed.
