(* ===== verification/StdMap.v ===== *)
(** * [std::map<std::string, V>] and [std::set<std::string>]

    A red-black tree is observed through its ordered sequence of elements, so
    a map is an association list with strictly increasing keys.  Every
    operation is related to the finite map [gmap string V] that the abstract
    specifications use; a set is a map to [unit]. *)

From stdpp Require Import base gmap strings list sorting fin_maps.
From Stdlib Require Import ZArith Lia.
From S2P Require Import Prelude Cxx.

Definition std_map (V : Type) : Type := list (string * V).
Definition std_set : Type := std_map unit.

Section std_map.
Context {V : Type}.
Implicit Types (m : list (string * V)) (k : string) (v : V).

(** [find]: [None] is [end()]. *)
Fixpoint map_find k m : option V :=
  match m with
  | [] => None
  | (k', v) :: m =>
      match String.compare k k' with
      | Lt => None
      | Eq => Some v
      | Gt => map_find k m
      end
  end.

(** [m[k] = v]. *)
Fixpoint map_put k v m : list (string * V) :=
  match m with
  | [] => [(k, v)]
  | (k', v') :: m' =>
      match String.compare k k' with
      | Lt => (k, v) :: m
      | Eq => (k, v) :: m'
      | Gt => (k', v') :: map_put k v m'
      end
  end.

(** [m.erase(k)]. *)
Fixpoint map_erase k m : list (string * V) :=
  match m with
  | [] => []
  | (k', v') :: m' =>
      match String.compare k k' with
      | Lt => m
      | Eq => m'
      | Gt => (k', v') :: map_erase k m'
      end
  end.

Definition map_mem k m : bool :=
  match map_find k m with Some _ => true | None => false end.

Definition map_keys m : list string := m.*1.

(** The representation invariant: keys strictly increase. *)
Definition map_wf m : Prop := StronglySorted str_lt m.*1.

(** [all_gt k m]: [k] is below every key of [m]. *)
Definition all_gt k m : Prop := Forall (str_lt k) m.*1.

Lemma map_wf_nil : map_wf [].
Proof. constructor. Qed.

Lemma map_wf_cons k v m : map_wf ((k, v) :: m) ↔ all_gt k m ∧ map_wf m.
Proof.
  unfold map_wf, all_gt. split; [intros H; by inversion H|].
  intros []; by constructor.
Qed.

Lemma all_gt_lt k k' m : str_lt k k' → all_gt k' m → all_gt k m.
Proof.
  intros Hlt Hg. eapply Forall_impl; [exact Hg|]. intros x Hx. by transitivity k'.
Qed.

Lemma map_find_all_gt k m : all_gt k m → map_find k m = None.
Proof.
  destruct m as [|[k' v'] m]; [done|]. intros Hg. inversion Hg as [|?? Hlt]; subst.
  simpl in *. by rewrite Hlt.
Qed.

Lemma all_gt_put k0 k v m : str_lt k0 k → all_gt k0 m → all_gt k0 (map_put k v m).
Proof.
  unfold all_gt. induction m as [|[k' v'] m IH]; intros Hlt Hg; simpl.
  { by repeat constructor. }
  inversion Hg; subst. destruct (str_compareP k k'); simpl; constructor; auto.
Qed.

Lemma all_gt_erase k0 k m : all_gt k0 m → all_gt k0 (map_erase k m).
Proof.
  unfold all_gt. induction m as [|[k' v'] m IH]; intros Hg; simpl; [done|].
  inversion Hg; subst. destruct (str_compareP k k'); simpl; auto.
Qed.

Lemma map_put_wf k v m : map_wf m → map_wf (map_put k v m).
Proof.
  induction m as [|[k' v'] m IH]; intros Hwf; simpl.
  { apply map_wf_cons. split; [constructor|done]. }
  apply map_wf_cons in Hwf as [Hg Hwf].
  destruct (str_compareP k k') as [->|Hlt|Hgt]; apply map_wf_cons; split; auto.
  - constructor; [done|]. by eapply all_gt_lt.
  - by apply map_wf_cons.
  - by apply all_gt_put.
Qed.

Lemma map_erase_wf k m : map_wf m → map_wf (map_erase k m).
Proof.
  induction m as [|[k' v'] m IH]; intros Hwf; simpl; [done|].
  pose proof Hwf as [Hg Hwf']%map_wf_cons.
  destruct (str_compareP k k') as [->|Hlt|Hgt]; auto.
  apply map_wf_cons. split; [by apply all_gt_erase|auto].
Qed.

Lemma map_find_put k k' v m :
  map_wf m → map_find k (map_put k' v m) = if decide (k = k') then Some v else map_find k m.
Proof.
  induction m as [|[k0 v0] m IH]; intros Hwf; simpl.
  { destruct (str_compareP k k') as [->|Hlt|Hlt]; case_decide; simplify_eq; done || str_order. }
  apply map_wf_cons in Hwf as [Hg Hwf].
  destruct (str_compareP k' k0) as [->|Hlt|Hgt]; simpl;
    destruct (str_compareP k k0) as [->|Hl|Hl]; rewrite ?IH by done;
    try destruct (str_compareP k k') as [->|Hl'|Hl'];
    try destruct (str_compareP k0 k') as [->|Hl'|Hl'];
    repeat case_decide; simplify_eq; try done; try str_order.
  by destruct (str_lt_irrefl k); transitivity k'; [|transitivity k0].
Qed.

Lemma map_find_erase k k' m :
  map_wf m → map_find k (map_erase k' m) = if decide (k = k') then None else map_find k m.
Proof.
  induction m as [|[k0 v0] m IH]; intros Hwf; simpl; [by case_decide|].
  apply map_wf_cons in Hwf as [Hg Hwf].
  destruct (str_compareP k' k0) as [->|Hlt|Hgt]; simpl;
    destruct (str_compareP k k0) as [->|Hl|Hl]; rewrite ?IH by done;
    repeat case_decide; simplify_eq; try done; try str_order;
    apply map_find_all_gt; eauto using all_gt_lt.
Qed.

(** *** The finite map a [std::map] stands for *)
Definition to_gmap m : gmap string V := list_to_map m.

Lemma to_gmap_lookup k m : map_wf m → to_gmap m !! k = map_find k m.
Proof.
  unfold to_gmap. induction m as [|[k0 v0] m IH]; intros Hwf; simpl; [done|].
  apply map_wf_cons in Hwf as [Hg Hwf].
  destruct (str_compareP k k0) as [->|Hl|Hl].
  - apply lookup_insert_eq.
  - rewrite lookup_insert_ne by (intros ->; by apply str_lt_irrefl in Hl).
    rewrite IH by done. apply map_find_all_gt. by eapply all_gt_lt.
  - rewrite lookup_insert_ne by (intros ->; by apply str_lt_irrefl in Hl). auto.
Qed.

Lemma to_gmap_put k v m : map_wf m → to_gmap (map_put k v m) = <[k := v]> (to_gmap m).
Proof.
  intros Hwf. apply map_eq. intros i.
  rewrite to_gmap_lookup, map_find_put by auto using map_put_wf.
  rewrite lookup_insert, to_gmap_lookup by done. repeat case_decide; congruence.
Qed.

Lemma to_gmap_erase k m : map_wf m → to_gmap (map_erase k m) = delete k (to_gmap m).
Proof.
  intros Hwf. apply map_eq. intros i.
  rewrite to_gmap_lookup, map_find_erase by auto using map_erase_wf.
  rewrite lookup_delete, to_gmap_lookup by done. repeat case_decide; congruence.
Qed.

Lemma map_find_elem_of k v m : map_wf m → map_find k m = Some v ↔ (k, v) ∈ m.
Proof.
  intros Hwf. rewrite <-to_gmap_lookup by done. unfold to_gmap. symmetry.
  apply elem_of_list_to_map. unfold map_wf in Hwf.
  assert (Hs : StronglySorted str_lt m.*1) by done. clear Hwf.
  induction Hs as [|k0 l Hs IH Hf]; constructor; [|done].
  intros Hin. rewrite Forall_forall in Hf.
  by apply (str_lt_irrefl k0), Hf.
Qed.

(** Two well-formed maps with the same lookups are the same sequence. *)
Lemma map_wf_ext m1 m2 :
  map_wf m1 → map_wf m2 → (∀ k, map_find k m1 = map_find k m2) → m1 = m2.
Proof.
  revert m2. induction m1 as [|[k1 v1] m1 IH]; intros [|[k2 v2] m2] H1 H2 He; [done| | |].
  { specialize (He k2). simpl in He. by rewrite str_compare_refl in He. }
  { specialize (He k1). simpl in He. by rewrite str_compare_refl in He. }
  apply map_wf_cons in H1 as [Hg1 H1]. apply map_wf_cons in H2 as [Hg2 H2].
  assert (k1 = k2) as ->.
  { pose proof (He k1) as E1. pose proof (He k2) as E2. simpl in E1, E2.
    rewrite str_compare_refl in E1, E2.
    destruct (str_compareP k1 k2) as [|Hl|Hl]; [done|done|].
    unfold str_lt in Hl. by rewrite Hl in E2. }
  pose proof (He k2) as E. simpl in E. rewrite str_compare_refl in E.
  simplify_eq. f_equal. apply IH; [done|done|]. intros k. specialize (He k). simpl in He.
  destruct (str_compareP k k2) as [Heq|Hl|Hl]; [subst k| |done];
    by rewrite !map_find_all_gt by eauto using all_gt_lt.
Qed.

Lemma map_put_id k v m : map_wf m → map_find k m = Some v → map_put k v m = m.
Proof.
  intros Hwf Hf. apply map_wf_ext; [by apply map_put_wf|done|].
  intros i. rewrite map_find_put by done. case_decide; congruence.
Qed.

Lemma map_put_put k v v' m : map_wf m → map_put k v (map_put k v' m) = map_put k v m.
Proof.
  intros Hwf. apply map_wf_ext; auto using map_put_wf.
  intros i. rewrite !map_find_put by auto using map_put_wf. by repeat case_decide.
Qed.

Lemma map_erase_id k m : map_wf m → map_find k m = None → map_erase k m = m.
Proof.
  intros Hwf Hf. apply map_wf_ext; [by apply map_erase_wf|done|].
  intros i. rewrite map_find_erase by done. case_decide; congruence.
Qed.

Lemma map_mem_true k m : map_mem k m = true ↔ is_Some (map_find k m).
Proof. unfold map_mem. destruct (map_find k m); split; naive_solver. Qed.

Lemma map_mem_false k m : map_mem k m = false ↔ map_find k m = None.
Proof. unfold map_mem. destruct (map_find k m); split; naive_solver. Qed.
End std_map.

#[export] Hint Resolve map_wf_nil map_put_wf map_erase_wf : cxx.

(** [for (auto &kv : m) kv.second = f(kv.second)]. *)
Definition map_values {V W} (f : V → W) (m : list (string * V)) : list (string * W) :=
  (λ kv, (kv.1, f kv.2)) <$> m.

Lemma map_values_keys {V W} (f : V → W) (m : list (string * V)) :
  (map_values f m).*1 = m.*1.
Proof. unfold map_values. rewrite <-list_fmap_compose. by apply list_fmap_ext. Qed.

Lemma map_values_wf {V W} (f : V → W) m : map_wf m → map_wf (map_values f m).
Proof. unfold map_wf. by rewrite map_values_keys. Qed.

Lemma map_find_values {V W} (f : V → W) k m :
  map_find k (map_values f m) = f <$> map_find k m.
Proof.
  induction m as [|[k' v] m IH]; simpl; [done|]. by destruct (String.compare k k').
Qed.

Lemma to_gmap_values {V W} (f : V → W) m :
  map_wf m → to_gmap (map_values f m) = f <$> to_gmap m.
Proof.
  intros Hwf. apply map_eq. intros k.
  by rewrite lookup_fmap, !to_gmap_lookup, map_find_values by auto using map_values_wf.
Qed.

(** The members of an ordered map, inserted one by one. *)
Lemma map_put_last {V} (seen : std_map V) k v w rest :
  map_wf (seen ++ (k, v) :: rest) → map_put k w seen = seen ++ [(k, w)].
Proof.
  induction seen as [|[k' v'] seen IH]; [done|]. cbn [app map_put].
  intros [Hgt Hwf]%map_wf_cons. unfold all_gt in Hgt. rewrite fmap_app in Hgt.
  apply Forall_app in Hgt as [_ Hgt]. cbn in Hgt. apply Forall_cons in Hgt as [Hlt _].
  destruct (str_compareP k k') as [->|Hlt'|Hgt'].
  - by apply str_lt_irrefl in Hlt.
  - exfalso. eapply str_lt_irrefl. by etransitivity.
  - by rewrite IH.
Qed.

(** ** Sets *)

Definition set_insert (k : string) (s : std_set) : std_set := map_put k tt s.
Definition set_erase (k : string) (s : std_set) : std_set := map_erase k s.
Definition set_mem (k : string) (s : std_set) : bool := map_mem k s.

Definition to_gset (s : std_set) : gset string := dom (to_gmap s).

Lemma set_mem_spec k s : map_wf s → set_mem k s = true ↔ k ∈ to_gset s.
Proof.
  intros Hwf. unfold set_mem, to_gset. rewrite map_mem_true, elem_of_dom.
  by rewrite to_gmap_lookup.
Qed.

Lemma set_mem_false k s : map_wf s → set_mem k s = false ↔ k ∉ to_gset s.
Proof.
  intros Hwf. rewrite <-set_mem_spec by done. by rewrite not_true_iff_false.
Qed.

Lemma to_gset_insert k s : map_wf s → to_gset (set_insert k s) = {[k]} ∪ to_gset s.
Proof.
  intros Hwf. unfold to_gset, set_insert. by rewrite to_gmap_put, dom_insert_L.
Qed.

Lemma to_gset_erase k s : map_wf s → to_gset (set_erase k s) = to_gset s ∖ {[k]}.
Proof.
  intros Hwf. unfold to_gset, set_erase. by rewrite to_gmap_erase, dom_delete_L.
Qed.

Lemma to_gset_nil : to_gset [] = ∅.
Proof. unfold to_gset, to_gmap. simpl. apply dom_empty_L. Qed.

Lemma to_gset_keys k s : map_wf s → k ∈ map_keys s ↔ k ∈ to_gset s.
Proof.
  intros Hwf. rewrite <-set_mem_spec by done. unfold set_mem.
  rewrite map_mem_true. unfold map_keys. rewrite list_elem_of_fmap. split.
  - intros ([k' []] & -> & Hin). exists tt. by apply map_find_elem_of.
  - intros [[] Hf]. exists (k, tt). split; [done|]. by apply map_find_elem_of.
Qed.

Lemma map_keys_NoDup {V} (m : list (string * V)) : map_wf m → NoDup (map_keys m).
Proof.
  unfold map_wf, map_keys. induction 1 as [|k l Hs IH Hf]; constructor; [|done].
  intros Hin. rewrite Forall_forall in Hf. by apply (str_lt_irrefl k), Hf.
Qed.
