(* ===== verification/Database.v ===== *)
(** * The database interface

    [class Database] (database.h) as the operations a key manager needs, the
    abstract store they act on, and the contract an implementation owes to
    its clients: a simulation of every operation by the abstract one. *)

From stdpp Require Import base gmap strings list.
From Stdlib Require Import ZArith Ascii Lia.
From S2P Require Import Prelude Cxx.

(** [KEY_SIZE] and [KeyArray]: a key is an array of 32 bytes. *)
Definition KEY_SIZE : nat := 32.
Definition KeyArray : Type := list string.

(** The member functions of [class Database]; they may throw and mutate. *)
Class Database (DB : Type) : Type := {
  init : string → M exn DB bool;
  add_user_to_group : string → string → M exn DB unit;
  create_user : string → string → M exn DB unit;
  delete_user : string → M exn DB unit;
  create_group : string → string → M exn DB unit;
  is_user_part_of_group : string → string → M exn DB bool;
  remove_user_from_group : string → string → M exn DB unit;
  get_keys_of_group : string → M exn DB KeyArray;
  delete_all_data : M exn DB unit;
}.

(** ** The abstract store *)

Record store : Type := Store {
  st_users : gmap string string;
  st_groups : gmap string (gset string);
}.

(** What an operation answers: success, a refused argument, or the warning
    that the request changed nothing. *)
Inductive verdict (A : Type) : Type :=
| Done (a : A)
| Refused
| Already.
Arguments Done {A} a.
Arguments Refused {A}.
Arguments Already {A}.

Definition empty_store : store := Store ∅ ∅.

(** Members are registered users. *)
Definition store_inv (s : store) : Prop :=
  ∀ g X, st_groups s !! g = Some X → X ⊆ dom (st_users s).

Definition st_create_user (u k : string) (s : store) : verdict unit * store :=
  match st_users s !! u with
  | Some _ => (Refused, s)
  | None => (Done tt, Store (<[u := k]> (st_users s)) (st_groups s))
  end.

Definition st_delete_user (u : string) (s : store) : verdict unit * store :=
  (Done tt, Store (delete u (st_users s)) ((λ X, X ∖ {[u]}) <$> st_groups s)).

Definition st_create_group (g u : string) (s : store) : verdict unit * store :=
  match st_groups s !! g, st_users s !! u with
  | None, Some _ => (Done tt, Store (st_users s) (<[g := {[u]}]> (st_groups s)))
  | _, _ => (Refused, s)
  end.

Definition st_add (g u : string) (s : store) : verdict unit * store :=
  match st_groups s !! g, st_users s !! u with
  | Some X, Some _ =>
      if decide (u ∈ X) then (Already, s)
      else (Done tt, Store (st_users s) (<[g := {[u]} ∪ X]> (st_groups s)))
  | _, _ => (Refused, s)
  end.

Definition st_remove (g u : string) (s : store) : verdict unit * store :=
  match st_groups s !! g, st_users s !! u with
  | Some X, Some _ =>
      if decide (u ∈ X)
      then (Done tt, Store (st_users s) (<[g := X ∖ {[u]}]> (st_groups s)))
      else (Refused, s)
  | _, _ => (Refused, s)
  end.

Definition st_member (u g : string) (s : store) : verdict bool * store :=
  match st_groups s !! g with
  | Some X => (Done (bool_decide (u ∈ X)), s)
  | None => (Refused, s)
  end.

Definition st_delete_all (s : store) : verdict unit * store := (Done tt, empty_store).

(** The key array a stored key is copied into: truncated or zero padded. *)
Definition key_array (k : string) : string := resize k KEY_SIZE "000"%char.

(** [keys] lists, once per member, the key arrays of the group [X]. *)
Definition keys_of (s : store) (X : gset string) (keys : KeyArray) : Prop :=
  ∃ us : list string,
    us ≡ₚ elements X
    ∧ Forall2 (λ u k, ∃ v, st_users s !! u = Some v ∧ k = key_array v) us keys.

(** ** The contract *)

(** An outcome of the implementation matches the abstract verdict. *)
Definition matches {A} (o : outcome exn A) (v : verdict A) : Prop :=
  match v with
  | Done a => o = Ok a
  | Refused => ∃ msg, o = Throw (std_invalid_argument msg)
  | Already => ∃ msg, o = Throw (std_logic_error msg)
  end.

(** [simulates R op spec]: from related states, the operation answers what the
    abstract one answers and ends in related states. *)
Definition simulates {DB A} (R : DB → store → Prop)
    (op : M exn DB A) (spec : store → verdict A * store) : Prop :=
  ∀ d s, R d s → matches (op d).1 (spec s).1 ∧ R (op d).2 (spec s).2.

Class DatabaseSpec (DB : Type) `{Database DB} : Type := {
  represents : DB → store → Prop;
  represents_inv d s : represents d s → store_inv s;
  sim_create_user u k : simulates represents (create_user u k) (st_create_user u k);
  sim_delete_user u : simulates represents (delete_user u) (st_delete_user u);
  sim_create_group g u : simulates represents (create_group g u) (st_create_group g u);
  sim_add g u : simulates represents (add_user_to_group g u) (st_add g u);
  sim_remove g u : simulates represents (remove_user_from_group g u) (st_remove g u);
  sim_member u g : simulates represents (is_user_part_of_group u g) (st_member u g);
  sim_delete_all : simulates represents delete_all_data st_delete_all;
  get_keys_ok g d s :
    represents d s →
    (get_keys_of_group g d).2 = d ∧
    match st_groups s !! g with
    | Some X =>
        if decide (X = ∅) then ∃ msg, (get_keys_of_group g d).1 = Throw (std_invalid_argument msg)
        else ∃ keys, (get_keys_of_group g d).1 = Ok keys ∧ keys_of s X keys
    | None => ∃ msg, (get_keys_of_group g d).1 = Throw (std_invalid_argument msg)
    end;
}.

(** ** Facts about the abstract store that clients share *)

Lemma store_inv_empty : store_inv empty_store.
Proof. intros g X. simpl. by rewrite lookup_empty. Qed.

Lemma st_create_user_inv u k s : store_inv s → store_inv (st_create_user u k s).2.
Proof.
  intros Hinv. unfold st_create_user. case_match; [done|].
  intros g X HX. simpl in *. rewrite dom_insert_L. apply Hinv in HX. set_solver.
Qed.

Lemma st_delete_user_inv u s : store_inv s → store_inv (st_delete_user u s).2.
Proof.
  intros Hinv g X. simpl. rewrite lookup_fmap, dom_delete_L.
  destruct (st_groups s !! g) as [Y|] eqn:E; simpl; intros [= <-].
  apply Hinv in E. set_solver.
Qed.

Lemma st_create_group_inv g u s : store_inv s → store_inv (st_create_group g u s).2.
Proof.
  intros Hinv. unfold st_create_group.
  destruct (st_groups s !! g) eqn:Eg; [done|].
  destruct (st_users s !! u) eqn:Eu; [|done].
  intros g' X. simpl. rewrite lookup_insert. case_decide; [|apply Hinv].
  intros [= <-]. apply elem_of_dom_2 in Eu. set_solver.
Qed.

Lemma st_add_inv g u s : store_inv s → store_inv (st_add g u s).2.
Proof.
  intros Hinv. unfold st_add.
  destruct (st_groups s !! g) as [Y|] eqn:Eg; [|done].
  destruct (st_users s !! u) eqn:Eu; [|done].
  case_decide; [done|]. intros g' X. simpl. rewrite lookup_insert.
  case_decide; [|apply Hinv]. intros [= <-].
  apply elem_of_dom_2 in Eu. apply Hinv in Eg. set_solver.
Qed.

Lemma st_remove_inv g u s : store_inv s → store_inv (st_remove g u s).2.
Proof.
  intros Hinv. unfold st_remove.
  destruct (st_groups s !! g) as [Y|] eqn:Eg; [|done].
  destruct (st_users s !! u) eqn:Eu; [|done].
  case_decide; [|done]. intros g' X. simpl. rewrite lookup_insert.
  case_decide; [|apply Hinv]. intros [= <-]. apply Hinv in Eg. set_solver.
Qed.

(** A refused or redundant request leaves the store as it is. *)
Lemma st_create_group_unchanged g u s :
  (st_create_group g u s).1 ≠ Done tt → (st_create_group g u s).2 = s.
Proof. unfold st_create_group. by repeat case_match. Qed.

Lemma st_add_unchanged g u s : (st_add g u s).1 ≠ Done tt → (st_add g u s).2 = s.
Proof. unfold st_add. by repeat (case_match || case_decide). Qed.

Lemma st_remove_unchanged g u s :
  (st_remove g u s).1 ≠ Done tt → (st_remove g u s).2 = s.
Proof. unfold st_remove. by repeat (case_match || case_decide). Qed.

Lemma keys_of_length s X keys : keys_of s X keys → length keys = size X.
Proof.
  intros (us & Hp & Hf). apply Forall2_length in Hf. rewrite <-Hf, Hp. done.
Qed.

Lemma keys_of_nonempty s X keys : X ≠ ∅ → keys_of s X keys → keys ≠ [].
Proof.
  intros Hne Hk ->. apply keys_of_length in Hk. simpl in Hk.
  symmetry in Hk. by apply size_empty_inv, leibniz_equiv in Hk.
Qed.

(** The key of every member is listed. *)
Lemma keys_of_member s X keys u v :
  keys_of s X keys → u ∈ X → st_users s !! u = Some v → key_array v ∈ keys.
Proof.
  intros (us & Hp & Hf) Hu Hv.
  assert (Hin : u ∈ us) by (rewrite Hp; by apply elem_of_elements).
  apply list_elem_of_lookup in Hin as [i Hi].
  destruct (Forall2_lookup_l _ _ _ _ _ Hf Hi) as (k & Hk & v' & Hv' & ->).
  simplify_eq. apply list_elem_of_lookup. eauto.
Qed.

(** Only keys of members are listed. *)
Lemma keys_of_only s X keys k :
  keys_of s X keys → k ∈ keys → ∃ u v, u ∈ X ∧ st_users s !! u = Some v ∧ k = key_array v.
Proof.
  intros (us & Hp & Hf) Hk. apply list_elem_of_lookup in Hk as [i Hi].
  destruct (Forall2_lookup_r _ _ _ _ _ Hf Hi) as (u & Hu & v & Hv & ->).
  exists u, v. split_and!; [|done|done].
  apply elem_of_elements. rewrite <-Hp. apply list_elem_of_lookup. eauto.
Qed.

#[export] Hint Resolve store_inv_empty st_create_user_inv st_delete_user_inv
  st_create_group_inv st_add_inv st_remove_inv : cxx.
