(* ===== verification/MemDatabase.v ===== *)
(** * The in-memory database (memory_database.h, memory_database.cpp)

    The two containers of [class MemDatabase], every member function with its
    guards, exceptions and messages in the order of the source, the invariant
    that members are registered users, and the proof that the class meets the
    contract of [Database].  The mutexes only delimit critical sections and
    are the subject of a separate component. *)

From stdpp Require Import base gmap strings list sorting fin_maps.
From Stdlib Require Import ZArith Ascii Lia.
From S2P Require Import Prelude Cxx StdMap Database.

Record MemDatabase : Type := Mem {
  groups_ : std_map std_set;
  users_ : std_map string;
}.

Definition mem_empty : MemDatabase := Mem [] [].

Definition set_groups (g : std_map std_set) (d : MemDatabase) : MemDatabase :=
  Mem g (users_ d).
Definition set_users (u : std_map string) (d : MemDatabase) : MemDatabase :=
  Mem (groups_ d) u.

Definition invalid_argument {A} (msg : string) : M exn MemDatabase A :=
  throw (std_invalid_argument msg).

(** [groups_.find(g) == groups_.end()] and [users_.find(u) == users_.end()]. *)
Definition no_group (g : string) : M exn MemDatabase bool :=
  gets (λ d, negb (map_mem g (groups_ d))).
Definition no_user (u : string) : M exn MemDatabase bool :=
  gets (λ d, negb (map_mem u (users_ d))).

(** [groups_[g]]: an absent group is created empty. *)
Definition groups_at (g : string) : M exn MemDatabase std_set := λ d,
  match map_find g (groups_ d) with
  | Some s => (Ok s, d)
  | None => (Ok [], set_groups (map_put g [] (groups_ d)) d)
  end.

Definition groups_store (g : string) (s : std_set) : M exn MemDatabase unit :=
  modify (λ d, set_groups (map_put g s (groups_ d)) d).

Definition mem_init (initdata : string) : M exn MemDatabase bool := ret true.

Definition mem_add_user_to_group (gname new_uid : string) : M exn MemDatabase unit :=
  ng <- no_group gname ;;
  if (ng : bool) then
    invalid_argument ("attempt to add user '" +:+ new_uid +:+ "' to" +:+
                      "non existing group: '" +:+ gname +:+ "'")
  else
  nu <- no_user new_uid ;;
  if (nu : bool) then
    invalid_argument ("attempt to add unknown user '" +:+ new_uid +:+
                      "' to group '" +:+ gname +:+ "'")
  else
  members <- groups_at gname ;;
  let second := negb (set_mem new_uid members) in
  groups_store gname (set_insert new_uid members) ;;
  if negb second then
    throw (std_logic_error ("'" +:+ new_uid +:+ "' was already a member of " +:+
                            "group '" +:+ gname +:+ "'"))
  else ret tt.

Definition mem_create_user (uid key : string) : M exn MemDatabase unit :=
  nu <- no_user uid ;;
  if (nu : bool) then modify (λ d, set_users (map_put uid key (users_ d)) d)
  else invalid_argument ("attempt to create an existing user: '" +:+ uid +:+ "'").

Definition mem_create_group (gname uid : string) : M exn MemDatabase unit :=
  ng <- no_group gname ;;
  if (ng : bool) then
    nu <- no_user uid ;;
    if (nu : bool) then
      invalid_argument ("tried to create group '" +:+ gname +:+
                        "' with an unknown user:'" +:+ uid +:+ "'")
    else
    members <- groups_at gname ;;
    groups_store gname (set_insert uid members)
  else
    invalid_argument ("attempt to create an existing group: '" +:+ gname +:+ "'").

Definition mem_delete_user (uid : string) : M exn MemDatabase unit :=
  modify (λ d, set_groups (map_values (set_erase uid) (groups_ d)) d) ;;
  modify (λ d, set_users (map_erase uid (users_ d)) d).

Definition mem_delete_all_data : M exn MemDatabase unit :=
  modify (set_users []) ;;
  modify (set_groups []).

Definition mem_is_user_part_of_group (uname gname : string) : M exn MemDatabase bool :=
  ng <- no_group gname ;;
  if negb ng then
    members <- groups_at gname ;;
    ret (set_mem uname members)
  else invalid_argument ("unknown group '" +:+ gname +:+ "'").

Definition mem_remove_user_from_group (gname uid : string) : M exn MemDatabase unit :=
  ng <- no_group gname ;;
  if negb ng then
    nu <- no_user uid ;;
    if (nu : bool) then
      invalid_argument ("tried to remove an unknown user '" +:+ uid +:+
                        "' from group '" +:+ gname +:+ "'")
    else
    members <- groups_at gname ;;
    if negb (set_mem uid members) then
      invalid_argument ("attempt to remove user '" +:+ uid +:+ "' from group '" +:+ gname +:+
                        "' to which he or she does not belong")
    else
    groups_store gname (set_erase uid members) ;;
    if negb (set_mem uid members) then
      invalid_argument ("run to the hills: " +:+ "this should not ever happen")
    else ret tt
  else
    invalid_argument ("attempt to remove user '" +:+ uid +:+ "' from" +:+
                      " inexistent group: '" +:+ gname +:+ "'").

(** The loop over the members: [key.fill(0)], then [memcpy] of at most
    [KEY_SIZE] bytes. *)
Definition collect_keys (users : std_map string) (uids : list string) : KeyArray :=
  omap (λ uid, key_array <$> map_find uid users) uids.

Definition mem_get_keys_of_group (gname : string) : M exn MemDatabase KeyArray :=
  ng <- no_group gname ;;
  if negb ng then
    members <- groups_at gname ;;
    match members with
    | [] => invalid_argument ("group '" +:+ gname +:+ "' is empty")
    | _ => gets (λ d, collect_keys (users_ d) (map_keys members))
    end
  else invalid_argument ("unknown group '" +:+ gname +:+ "'").

#[global] Instance mem_database : Database MemDatabase := {
  init := mem_init;
  add_user_to_group := mem_add_user_to_group;
  create_user := mem_create_user;
  delete_user := mem_delete_user;
  create_group := mem_create_group;
  is_user_part_of_group := mem_is_user_part_of_group;
  remove_user_from_group := mem_remove_user_from_group;
  get_keys_of_group := mem_get_keys_of_group;
  delete_all_data := mem_delete_all_data;
}.

(** ** The invariant *)

Record mem_inv (d : MemDatabase) : Prop := {
  inv_users_wf : map_wf (users_ d);
  inv_groups_wf : map_wf (groups_ d);
  inv_sets_wf g s : map_find g (groups_ d) = Some s → map_wf s;
  inv_members g s u : map_find g (groups_ d) = Some s → set_mem u s = true →
    map_mem u (users_ d) = true;
}.

(** The store a database stands for. *)
Definition abstraction (d : MemDatabase) : store :=
  Store (to_gmap (users_ d)) (to_gset <$> to_gmap (groups_ d)).

Definition mem_represents (d : MemDatabase) (s : store) : Prop :=
  mem_inv d ∧ s = abstraction d.

Section lookups.
Context (d : MemDatabase) (Hinv : mem_inv d).

Lemma abs_user u : st_users (abstraction d) !! u = map_find u (users_ d).
Proof. simpl. apply to_gmap_lookup, Hinv. Qed.

Lemma abs_group g : st_groups (abstraction d) !! g = to_gset <$> map_find g (groups_ d).
Proof. simpl. rewrite lookup_fmap, to_gmap_lookup; [done|apply Hinv]. Qed.

Lemma abs_inv : store_inv (abstraction d).
Proof.
  intros g X. rewrite abs_group.
  destruct (map_find g (groups_ d)) as [s|] eqn:E; simpl; intros [= <-] u Hu.
  pose proof (inv_sets_wf d Hinv g s E) as Hs.
  apply set_mem_spec in Hu; [|done].
  apply (inv_members d Hinv g s u E), map_mem_true in Hu as [v Hv].
  apply elem_of_dom. rewrite abs_user, Hv. eauto.
Qed.
End lookups.

(** Writing one group: what is needed to keep the invariant, and its effect. *)
Lemma put_group_inv d g s :
  mem_inv d → map_wf s → (∀ u, set_mem u s = true → map_mem u (users_ d) = true) →
  mem_inv (set_groups (map_put g s (groups_ d)) d).
Proof.
  intros [Hu Hg Hs Hm] Hwf Hsub. constructor; simpl; [done|by apply map_put_wf| |].
  - intros g' s'. rewrite map_find_put by done. case_decide; [congruence|eauto].
  - intros g' s' u. rewrite map_find_put by done. case_decide; [|eauto].
    intros [= <-]. apply Hsub.
Qed.

Lemma put_group_abs d g s :
  mem_inv d →
  abstraction (set_groups (map_put g s (groups_ d)) d)
  = Store (st_users (abstraction d)) (<[g := to_gset s]> (st_groups (abstraction d))).
Proof.
  intros Hinv. unfold abstraction. simpl.
  by rewrite to_gmap_put, fmap_insert by apply Hinv.
Qed.

Lemma set_insert_sub d g s u :
  mem_inv d → map_find g (groups_ d) = Some s → map_mem u (users_ d) = true →
  ∀ w, set_mem w (set_insert u s) = true → map_mem w (users_ d) = true.
Proof.
  intros Hinv Hg Hu w. unfold set_mem, set_insert. rewrite map_mem_true, map_find_put
    by (by eapply inv_sets_wf).
  case_decide as E; [by subst|]. rewrite <-map_mem_true. by eapply inv_members.
Qed.

Lemma set_erase_sub d g s u :
  mem_inv d → map_find g (groups_ d) = Some s →
  ∀ w, set_mem w (set_erase u s) = true → map_mem w (users_ d) = true.
Proof.
  intros Hinv Hg w. unfold set_mem, set_erase. rewrite map_mem_true, map_find_erase
    by (by eapply inv_sets_wf).
  case_decide as E; [by intros [? [=]]|]. rewrite <-map_mem_true. by eapply inv_members.
Qed.

Lemma singleton_set u : to_gset (set_insert u []) = {[u]}.
Proof. rewrite to_gset_insert by constructor. rewrite to_gset_nil. set_solver. Qed.

Lemma mem_empty_inv : mem_inv mem_empty.
Proof. constructor; simpl; [constructor|constructor|done|done]. Qed.

Lemma mem_empty_represents : mem_represents mem_empty empty_store.
Proof.
  split; [apply mem_empty_inv|]. unfold abstraction, empty_store, to_gmap. simpl.
  by rewrite fmap_empty.
Qed.

#[export] Hint Resolve put_group_inv mem_empty_inv abs_inv : cxx.
#[export] Hint Resolve inv_users_wf inv_groups_wf inv_sets_wf : cxx.

(** ** The operations simulate the abstract ones *)

(** Run a straight-line operation on the state in the goal. *)
Ltac mem_run :=
  unfold bind, no_group, no_user, gets, groups_at, groups_store, modify,
    invalid_argument, throw, ret, map_mem; simpl.

(** Case analysis on the lookups the operation and its specification share. *)
Ltac mem_cases g u d :=
  let Eg := fresh "Eg" in let Eu := fresh "Eu" in
  destruct (map_find g (groups_ d)) as [members|] eqn:Eg;
  destruct (map_find u (users_ d)) as [ukey|] eqn:Eu;
  repeat first [progress simpl | rewrite Eg | rewrite Eu].

Lemma user_known d u k : map_find u (users_ d) = Some k → map_mem u (users_ d) = true.
Proof. intros H. apply map_mem_true. eauto. Qed.

Lemma mem_create_user_sim u k :
  simulates mem_represents (mem_create_user u k) (st_create_user u k).
Proof.
  intros d s [Hinv ->]. unfold st_create_user, mem_create_user. rewrite abs_user by done.
  mem_run. destruct (map_find u (users_ d)) as [v|] eqn:E; simpl.
  { split; [by eexists|by split]. }
  split; [done|]. split.
  - destruct Hinv as [Hu Hg Hs Hm]. constructor; simpl; [by apply map_put_wf|done|done|].
    intros g m w Hf Hw. apply map_mem_true. rewrite map_find_put by done.
    case_decide; [eauto|]. apply map_mem_true. eauto.
  - unfold abstraction. simpl. by rewrite to_gmap_put by apply Hinv.
Qed.

Lemma mem_create_group_sim g u :
  simulates mem_represents (mem_create_group g u) (st_create_group g u).
Proof.
  intros d s [Hinv ->]. unfold st_create_group, mem_create_group.
  rewrite abs_user, abs_group by done. mem_run. mem_cases g u d.
  all: try (split; [by eexists|by split]).
  split; [done|]. simpl.
  rewrite map_put_put by auto with cxx.
  change (mem_represents (set_groups (map_put g (set_insert u []) (groups_ d)) d)
    (Store (st_users (abstraction d)) (<[g:={[u]}]> (st_groups (abstraction d))))).
  split; [|by rewrite put_group_abs, singleton_set].
  apply put_group_inv; [done|by apply map_put_wf, map_wf_nil|].
  intros w. unfold set_mem, set_insert. rewrite map_mem_true, map_find_put by constructor.
  case_decide as Ew; [subst; intros _; by eapply user_known|by intros [? [=]]].
Qed.

Lemma mem_add_sim g u :
  simulates mem_represents (mem_add_user_to_group g u) (st_add g u).
Proof.
  intros d s [Hinv ->]. unfold st_add, mem_add_user_to_group.
  rewrite abs_user, abs_group by done. mem_run. mem_cases g u d.
  all: try (split; [by eexists|by split]).
  pose proof (inv_sets_wf d Hinv g members Eg) as Hwf.
  destruct (set_mem u members) eqn:Em; simpl.
  - rewrite decide_True by (by apply set_mem_spec). split; [by eexists|].
    unfold set_mem in Em. apply map_mem_true in Em as [[] Em].
    unfold set_insert. rewrite (map_put_id u tt members) by done.
    rewrite (map_put_id g members) by auto with cxx. by destruct d; split.
  - rewrite decide_False by (by apply set_mem_false). split; [done|]. simpl. split.
    + apply put_group_inv; [done|by apply map_put_wf|].
      eapply set_insert_sub; eauto using user_known.
    + by rewrite put_group_abs, to_gset_insert.
Qed.

Lemma mem_remove_sim g u :
  simulates mem_represents (mem_remove_user_from_group g u) (st_remove g u).
Proof.
  intros d s [Hinv ->]. unfold st_remove, mem_remove_user_from_group.
  rewrite abs_user, abs_group by done. mem_run. mem_cases g u d.
  all: try (split; [by eexists|by split]).
  pose proof (inv_sets_wf d Hinv g members Eg) as Hwf.
  destruct (set_mem u members) eqn:Em; simpl.
  - rewrite decide_True by (by apply set_mem_spec). split; [done|]. simpl. split.
    + apply put_group_inv; [done|by apply map_erase_wf|]. by eapply set_erase_sub.
    + by rewrite put_group_abs, to_gset_erase.
  - rewrite decide_False by (by apply set_mem_false). split; [by eexists|by split].
Qed.

Lemma mem_member_sim u g :
  simulates mem_represents (mem_is_user_part_of_group u g) (st_member u g).
Proof.
  intros d s [Hinv ->]. unfold st_member, mem_is_user_part_of_group.
  rewrite abs_group by done. mem_run.
  destruct (map_find g (groups_ d)) as [members|] eqn:Eg; simpl; rewrite ?Eg; simpl;
    [|split; [by eexists|by split]].
  pose proof (inv_sets_wf d Hinv g members Eg) as Hwf. split; [|by split].
  simpl. f_equal. destruct (set_mem u members) eqn:Em; symmetry.
  - apply bool_decide_eq_true. by apply set_mem_spec.
  - apply bool_decide_eq_false. by apply set_mem_false.
Qed.

Lemma mem_delete_user_sim u :
  simulates mem_represents (mem_delete_user u) (st_delete_user u).
Proof.
  intros d s [Hinv ->]. split; [done|]. simpl. split.
  - destruct Hinv as [Hu Hg Hs Hm].
    constructor; simpl; [by apply map_erase_wf|by apply map_values_wf| |].
    + intros g s. rewrite map_find_values. destruct (map_find g (groups_ d)) eqn:E;
        simpl; intros [= <-]. apply map_erase_wf. eauto.
    + intros g s w. rewrite map_find_values. destruct (map_find g (groups_ d)) eqn:E;
        simpl; intros [= <-]. unfold set_mem, set_erase.
      rewrite !map_mem_true, !map_find_erase by eauto.
      case_decide; [done|]. rewrite <-!map_mem_true. eauto.
  - unfold abstraction, st_delete_user. simpl.
    rewrite to_gmap_erase, to_gmap_values by apply Hinv. f_equal.
    apply map_eq. intros g. rewrite !lookup_fmap.
    rewrite to_gmap_lookup by apply Hinv.
    destruct (map_find g (groups_ d)) eqn:E; simpl; [|done].
    f_equal. symmetry. apply to_gset_erase. by eapply inv_sets_wf.
Qed.

Lemma mem_delete_all_sim : simulates mem_represents mem_delete_all_data st_delete_all.
Proof. intros d s [Hinv ->]. split; [done|]. apply mem_empty_represents. Qed.

(** Under the invariant every member has a key: nothing is skipped. *)
Lemma collect_keys_all (users : std_map string) us :
  (∀ u, u ∈ us → map_mem u users = true) →
  Forall2 (λ u k, ∃ v, map_find u users = Some v ∧ k = key_array v) us (collect_keys users us).
Proof.
  unfold collect_keys. induction us as [|u us IH]; intros Hall; simpl; [constructor|].
  destruct (map_find u users) as [v|] eqn:E; simpl.
  - constructor; [eauto|]. apply IH. intros w Hw. apply Hall. by right.
  - specialize (Hall u ltac:(by left)). apply map_mem_true in Hall as [v Hv]. congruence.
Qed.

Lemma set_keys_elements (s : std_set) : map_wf s → map_keys s ≡ₚ elements (to_gset s).
Proof.
  intros Hwf. apply NoDup_Permutation; [by apply map_keys_NoDup|apply NoDup_elements|].
  intros u. rewrite elem_of_elements. by apply to_gset_keys.
Qed.

Lemma to_gset_empty_iff (s : std_set) : map_wf s → to_gset s = ∅ ↔ s = [].
Proof.
  intros Hwf. split; [|intros ->; apply to_gset_nil].
  destruct s as [|[k []] s]; [done|]. intros He.
  assert (k ∈ to_gset ((k, tt) :: s)); [|set_solver].
  apply to_gset_keys; [done|]. by left.
Qed.

Lemma mem_get_keys_ok g d s :
  mem_represents d s →
  (mem_get_keys_of_group g d).2 = d ∧
  match st_groups s !! g with
  | Some X =>
      if decide (X = ∅) then ∃ msg, (mem_get_keys_of_group g d).1 = Throw (std_invalid_argument msg)
      else ∃ keys, (mem_get_keys_of_group g d).1 = Ok keys ∧ keys_of s X keys
  | None => ∃ msg, (mem_get_keys_of_group g d).1 = Throw (std_invalid_argument msg)
  end.
Proof.
  intros [Hinv ->]. rewrite abs_group by done. unfold mem_get_keys_of_group. mem_run.
  destruct (map_find g (groups_ d)) as [members|] eqn:Eg; simpl; rewrite ?Eg; simpl; [|eauto].
  pose proof (inv_sets_wf d Hinv g members Eg) as Hwf.
  case_decide as E; rewrite to_gset_empty_iff in E by done.
  { subst. simpl. eauto. }
  split; [by destruct members|].
  exists (collect_keys (users_ d) (map_keys members)). split; [by destruct members|].
  exists (map_keys members). split; [by apply set_keys_elements|].
  eapply Forall2_impl; [apply collect_keys_all|].
  - intros u Hu. apply (inv_members d Hinv g members u Eg).
    apply set_mem_spec; [done|]. by apply to_gset_keys.
  - intros u k (v & Hv & ->). exists v. by rewrite abs_user.
Qed.

(** The in-memory database meets the contract of [Database]. *)
#[global] Instance mem_database_spec : DatabaseSpec MemDatabase.
Proof.
  refine {| represents := mem_represents |}.
  - intros d s [Hinv ->]. by apply abs_inv.
  - apply mem_create_user_sim.
  - apply mem_delete_user_sim.
  - apply mem_create_group_sim.
  - apply mem_add_sim.
  - apply mem_remove_sim.
  - apply mem_member_sim.
  - apply mem_delete_all_sim.
  - apply mem_get_keys_ok.
Defined.

(** ** Sequences of operations *)

Inductive db_op : Type :=
| OpCreateUser (uid key : string)
| OpDeleteUser (uid : string)
| OpCreateGroup (gname uid : string)
| OpAdd (gname uid : string)
| OpRemove (gname uid : string)
| OpMember (uid gname : string)
| OpDeleteAll.

(** Run an operation; only a membership query has a result. *)
Definition mem_exec (op : db_op) : M exn MemDatabase (option bool) :=
  match op with
  | OpCreateUser u k => mem_create_user u k ;; ret None
  | OpDeleteUser u => mem_delete_user u ;; ret None
  | OpCreateGroup g u => mem_create_group g u ;; ret None
  | OpAdd g u => mem_add_user_to_group g u ;; ret None
  | OpRemove g u => mem_remove_user_from_group g u ;; ret None
  | OpMember u g => b <- mem_is_user_part_of_group u g ;; ret (Some b)
  | OpDeleteAll => mem_delete_all_data ;; ret None
  end.

Definition verdict_map {A B} (f : A → B) (v : verdict A) : verdict B :=
  match v with Done a => Done (f a) | Refused => Refused | Already => Already end.

Definition spec_exec (op : db_op) (st : store) : verdict (option bool) * store :=
  let plain (r : verdict unit * store) := (verdict_map (λ _, None) r.1, r.2) in
  match op with
  | OpCreateUser u k => plain (st_create_user u k st)
  | OpDeleteUser u => plain (st_delete_user u st)
  | OpCreateGroup g u => plain (st_create_group g u st)
  | OpAdd g u => plain (st_add g u st)
  | OpRemove g u => plain (st_remove g u st)
  | OpMember u g => (verdict_map Some (st_member u g st).1, (st_member u g st).2)
  | OpDeleteAll => plain (st_delete_all st)
  end.

Lemma simulates_map {A B} (f : A → B) (op : M exn MemDatabase A) spec :
  simulates mem_represents op spec →
  simulates mem_represents (a <- op ;; ret (f a)) (λ s, (verdict_map f (spec s).1, (spec s).2)).
Proof.
  intros Hsim d s Hr. destruct (Hsim d s Hr) as [Hm Hr']. unfold bind, ret.
  destruct (op d) as [out d']. simpl in *. destruct (spec s).1; simpl in *.
  - by subst.
  - destruct Hm as [msg ->]. simpl. eauto.
  - destruct Hm as [msg ->]. simpl. eauto.
Qed.

Lemma mem_exec_sim op : simulates mem_represents (mem_exec op) (spec_exec op).
Proof.
  destruct op; simpl.
  - apply (simulates_map (λ _, None)), mem_create_user_sim.
  - apply (simulates_map (λ _, None)), mem_delete_user_sim.
  - apply (simulates_map (λ _, None)), mem_create_group_sim.
  - apply (simulates_map (λ _, None)), mem_add_sim.
  - apply (simulates_map (λ _, None)), mem_remove_sim.
  - apply (simulates_map Some), mem_member_sim.
  - apply (simulates_map (λ _, None)), mem_delete_all_sim.
Qed.

(** The answers and the final state of a sequence of operations. *)
Fixpoint run_all {S A} (f : db_op → S → A * S) (ops : list db_op) (s : S) : list A * S :=
  match ops with
  | [] => ([], s)
  | op :: ops => let '(a, s) := f op s in let '(l, s) := run_all f ops s in (a :: l, s)
  end.


(** [get_keys_of_group] does not change the database and lists the key
    of every member exactly once; an unknown or an empty group is an
    [std::invalid_argument]. *)
Theorem mem_keys_of_group g d s :
  mem_represents d s →
  (mem_get_keys_of_group g d).2 = d ∧
  match st_groups s !! g with
  | Some X =>
      if decide (X = ∅) then ∃ msg, (mem_get_keys_of_group g d).1 = Throw (std_invalid_argument msg)
      else ∃ keys, (mem_get_keys_of_group g d).1 = Ok keys ∧ keys_of s X keys
                   ∧ length keys = size X
  | None => ∃ msg, (mem_get_keys_of_group g d).1 = Throw (std_invalid_argument msg)
  end.
Proof.
  intros Hr. destruct (mem_get_keys_ok g d s Hr) as [Hd Hk]. split; [done|].
  destruct (st_groups s !! g); [|done]. case_decide; [done|].
  destruct Hk as (keys & Hk & Hof). exists keys. split_and!; try done. by eapply keys_of_length.
Qed.

Lemma mem_keys_of_group_witness :
  (mem_get_keys_of_group "g" mem_empty).2 = mem_empty ∧
  ∃ msg, (mem_get_keys_of_group "g" mem_empty).1 = Throw (std_invalid_argument msg).
Proof. exact (mem_keys_of_group "g" mem_empty empty_store mem_empty_represents). Defined.
