(* ===== verification/Utf8.v ===== *)
(** * UTF-8 (json.hpp, [serializer::decode])

    The decoder automaton as the table the source stores, the well-formedness
    of byte sequences as Unicode states it, and their equivalence. *)

From stdpp Require Import base strings list.
From Stdlib Require Import ZArith Ascii Lia.
From S2P Require Import Prelude Cxx.

(** ** Well-formed sequences *)

Definition in_range (lo hi b : Z) : bool := (lo <=? b) && (b <=? hi).
Definition is_cont (b : Z) : bool := in_range 0x80 0xBF b.

(** Unicode, table 3-7: the byte sequences of the code points. *)
Fixpoint utf8 (l : list Z) : bool :=
  match l with
  | [] => true
  | b0 :: l1 =>
      if in_range 0x00 0x7F b0 then utf8 l1 else
      match l1 with
      | [] => false
      | b1 :: l2 =>
          if in_range 0xC2 0xDF b0 then is_cont b1 && utf8 l2 else
          match l2 with
          | [] => false
          | b2 :: l3 =>
              if b0 =? 0xE0 then in_range 0xA0 0xBF b1 && is_cont b2 && utf8 l3
              else if in_range 0xE1 0xEC b0 then is_cont b1 && is_cont b2 && utf8 l3
              else if b0 =? 0xED then in_range 0x80 0x9F b1 && is_cont b2 && utf8 l3
              else if in_range 0xEE 0xEF b0 then is_cont b1 && is_cont b2 && utf8 l3
              else
              match l3 with
              | [] => false
              | b3 :: l4 =>
                  if b0 =? 0xF0 then
                    in_range 0x90 0xBF b1 && is_cont b2 && is_cont b3 && utf8 l4
                  else if in_range 0xF1 0xF3 b0 then
                    is_cont b1 && is_cont b2 && is_cont b3 && utf8 l4
                  else if b0 =? 0xF4 then
                    in_range 0x80 0x8F b1 && is_cont b2 && is_cont b3 && utf8 l4
                  else false
              end
          end
      end
  end.

Definition utf8_string (s : string) : bool := utf8 (bytes_of s).

(** ** The decoder *)

Definition UTF8_ACCEPT : Z := 0.
Definition UTF8_REJECT : Z := 1.

(** [utf8d]: 256 character classes, then nine rows of sixteen transitions. *)
Definition utf8d : list Z :=
  replicate 128 0 ++
  replicate 16 1 ++ replicate 16 9 ++
  replicate 32 7 ++
  [8; 8] ++ replicate 30 2 ++
  [0xA; 3; 3; 3; 3; 3; 3; 3; 3; 3; 3; 3; 3; 4; 3; 3] ++
  [0xB; 6; 6; 6; 5; 8; 8; 8; 8; 8; 8; 8; 8; 8; 8; 8] ++
  [0; 1; 2; 3; 5; 8; 7; 1; 1; 1; 4; 6; 1; 1; 1; 1] ++
  [1; 1; 1; 1; 1; 1; 1; 1; 1; 1; 1; 1; 1; 1; 1; 1] ++
  [1; 0; 1; 1; 1; 1; 1; 0; 1; 0; 1; 1; 1; 1; 1; 1] ++
  [1; 2; 1; 1; 1; 1; 1; 2; 1; 2; 1; 1; 1; 1; 1; 1] ++
  [1; 1; 1; 1; 1; 1; 1; 2; 1; 1; 1; 1; 1; 1; 1; 1] ++
  [1; 2; 1; 1; 1; 1; 1; 1; 1; 2; 1; 1; 1; 1; 1; 1] ++
  [1; 1; 1; 1; 1; 1; 1; 3; 1; 3; 1; 1; 1; 1; 1; 1] ++
  [1; 3; 1; 1; 1; 1; 1; 3; 1; 3; 1; 1; 1; 1; 1; 1] ++
  [1; 3; 1; 1; 1; 1; 1; 1; 1; 1; 1; 1; 1; 1; 1; 1].

Definition utf8d_at (i : Z) : Z := utf8d !!! Z.to_nat i.

(** One step: the new state and the new code point (32 bits). *)
Definition decode (state codep byte : Z) : Z * Z :=
  let type := utf8d_at byte in
  let codep :=
    if negb (state =? UTF8_ACCEPT)
    then Z.lor (Z.land byte 0x3f) (wrap 32 (Z.shiftl codep 6))
    else Z.land (Z.shiftr 0xff type) byte in
  let state := utf8d_at (256 + state * 16 + type) in
  (state, codep).

Definition dfa (state byte : Z) : Z := (decode state 0 byte).1.

Lemma decode_state state codep byte : (decode state codep byte).1 = dfa state byte.
Proof. done. Qed.

(** ** The automaton accepts exactly the well-formed sequences *)

(** A decidable fact about every byte, checked by enumeration. *)
Lemma forall_byte (P : Z → bool) :
  forallb P (Z.of_nat <$> seq 0 256) = true → ∀ b, is_byte b → P b = true.
Proof.
  intros Hall b Hb. rewrite forallb_forall in Hall. apply Hall.
  apply list_elem_of_In, list_elem_of_fmap. exists (Z.to_nat b).
  split; [unfold is_byte in Hb; lia|]. apply elem_of_seq. unfold is_byte in Hb. lia.
Qed.

Definition dfa_accept_row (b : Z) : Z :=
  if in_range 0x00 0x7F b then 0
  else if in_range 0xC2 0xDF b then 2
  else if b =? 0xE0 then 4
  else if in_range 0xE1 0xEC b then 3
  else if b =? 0xED then 5
  else if in_range 0xEE 0xEF b then 3
  else if b =? 0xF0 then 6
  else if in_range 0xF1 0xF3 b then 7
  else if b =? 0xF4 then 8
  else 1.

Lemma dfa_rows b :
  is_byte b →
  dfa 0 b = dfa_accept_row b
  ∧ dfa 1 b = 1
  ∧ dfa 2 b = (if is_cont b then 0 else 1)
  ∧ dfa 3 b = (if is_cont b then 2 else 1)
  ∧ dfa 4 b = (if in_range 0xA0 0xBF b then 2 else 1)
  ∧ dfa 5 b = (if in_range 0x80 0x9F b then 2 else 1)
  ∧ dfa 6 b = (if in_range 0x90 0xBF b then 3 else 1)
  ∧ dfa 7 b = (if is_cont b then 3 else 1)
  ∧ dfa 8 b = (if in_range 0x80 0x8F b then 3 else 1).
Proof.
  intros Hb.
  pose proof (forall_byte (λ b,
    (dfa 0 b =? dfa_accept_row b) && (dfa 1 b =? 1)
    && (dfa 2 b =? (if is_cont b then 0 else 1))
    && (dfa 3 b =? (if is_cont b then 2 else 1))
    && (dfa 4 b =? (if in_range 0xA0 0xBF b then 2 else 1))
    && (dfa 5 b =? (if in_range 0x80 0x9F b then 2 else 1))
    && (dfa 6 b =? (if in_range 0x90 0xBF b then 3 else 1))
    && (dfa 7 b =? (if is_cont b then 3 else 1))
    && (dfa 8 b =? (if in_range 0x80 0x8F b then 3 else 1)))
    ltac:(vm_compute; reflexivity) b Hb) as H.
  rewrite !andb_true_iff, !Z.eqb_eq in H. tauto.
Qed.

(** The state after a sequence of bytes. *)
Definition dfa_run (state : Z) (l : list Z) : Z := foldl dfa state l.

Lemma dfa_run_reject l : Forall is_byte l → dfa_run 1 l = 1.
Proof.
  induction 1 as [|b l Hb _ IH]; simpl; [done|].
  destruct (dfa_rows b Hb) as (_ & -> & _). exact IH.
Qed.

Definition accepts (state : Z) (l : list Z) : bool := dfa_run state l =? UTF8_ACCEPT.

Lemma accepts_cons st b l : accepts st (b :: l) = accepts (dfa st b) l.
Proof. done. Qed.

Lemma accepts_reject l : Forall is_byte l → accepts 1 l = false.
Proof. intros H. unfold accepts. by rewrite dfa_run_reject. Qed.

(** What remains to be read in the intermediate states. *)
Lemma accepts_cont st b l (p : Z → bool) st' :
  Forall is_byte (b :: l) → dfa st b = (if p b then st' else 1) →
  accepts st (b :: l) = p b && accepts st' l.
Proof.
  intros Hl Hd. inversion Hl; subst. rewrite accepts_cons, Hd.
  destruct (p b); simpl; [done|]. by apply accepts_reject.
Qed.

Lemma accepts_pending st : st ≠ 0 → accepts st [] = false.
Proof. intros H. by apply Z.eqb_neq. Qed.

(** Reading one byte in an intermediate state. *)
Ltac dfa_step Hbytes Hrow := rewrite (accepts_cont _ _ _ _ _ Hbytes Hrow).

(** The number of bytes is the measure of the induction: the automaton reads
    one to four bytes per code point. *)
Lemma accepts_utf8 n l :
  (length l ≤ n)%nat → Forall is_byte l → accepts UTF8_ACCEPT l = utf8 l.
Proof.
  revert l. induction n as [|n IH]; intros [|b0 l1] Hn Hl; simpl in Hn; try done; [lia|].
  inversion Hl as [|?? Hb0 Hl1]; subst.
  destruct (dfa_rows b0 Hb0) as (E0 & _).
  rewrite accepts_cons. unfold UTF8_ACCEPT in *. rewrite E0. unfold dfa_accept_row.
  cbn [utf8].
  destruct (in_range 0x00 0x7F b0); [apply IH; [lia|done]|].
  destruct l1 as [|b1 l2].
  { repeat case_match; done. }
  inversion Hl1 as [|?? Hb1 Hl2]; subst. simpl in Hn.
  destruct (dfa_rows b1 Hb1) as (_ & R1 & R2 & R3 & R4 & R5 & R6 & R7 & R8).
  destruct (in_range 0xC2 0xDF b0).
  { dfa_step Hl1 R2. f_equal. apply IH; [lia|done]. }
  destruct l2 as [|b2 l3].
  { rewrite accepts_cons. repeat case_match; by rewrite ?R1, ?R3, ?R4, ?R5, ?R6, ?R7, ?R8;
      repeat case_match. }
  inversion Hl2 as [|?? Hb2 Hl3]; subst. simpl in Hn.
  destruct (dfa_rows b2 Hb2) as (_ & S1 & S2 & S3 & _).
  assert (I3 : accepts 0 l3 = utf8 l3) by (apply IH; [lia|done]).
  destruct (b0 =? 0xE0).
  { dfa_step Hl1 R4. dfa_step Hl2 S2. by rewrite I3, andb_assoc. }
  destruct (in_range 0xE1 0xEC b0).
  { dfa_step Hl1 R3. dfa_step Hl2 S2. by rewrite I3, andb_assoc. }
  destruct (b0 =? 0xED).
  { dfa_step Hl1 R5. dfa_step Hl2 S2. by rewrite I3, andb_assoc. }
  destruct (in_range 0xEE 0xEF b0).
  { dfa_step Hl1 R3. dfa_step Hl2 S2. by rewrite I3, andb_assoc. }
  destruct l3 as [|b3 l4].
  { rewrite !accepts_cons. repeat case_match; rewrite ?R1, ?R6, ?R7, ?R8;
      repeat case_match; by rewrite ?S1, ?S3; repeat case_match. }
  inversion Hl3 as [|?? Hb3 Hl4]; subst. simpl in Hn.
  destruct (dfa_rows b3 Hb3) as (_ & _ & T2 & _).
  assert (I4 : accepts 0 l4 = utf8 l4) by (apply IH; [lia|done]).
  destruct (b0 =? 0xF0); [dfa_step Hl1 R6; dfa_step Hl2 S3; dfa_step Hl3 T2; by rewrite I4, !andb_assoc|].
  destruct (in_range 0xF1 0xF3 b0);
    [dfa_step Hl1 R7; dfa_step Hl2 S3; dfa_step Hl3 T2; by rewrite I4, !andb_assoc|].
  destruct (b0 =? 0xF4); [dfa_step Hl1 R8; dfa_step Hl2 S3; dfa_step Hl3 T2; by rewrite I4, !andb_assoc|].
  rewrite accepts_cons, R1. by apply accepts_reject.
Qed.

Lemma accepts_utf8_string s : accepts UTF8_ACCEPT (bytes_of s) = utf8_string s.
Proof. eapply accepts_utf8; [done|apply bytes_of_is_byte]. Qed.

(** ** Concatenation *)

Lemma dfa_run_app st l1 l2 : dfa_run st (l1 ++ l2) = dfa_run (dfa_run st l1) l2.
Proof. apply foldl_app. Qed.

Lemma utf8_app l1 l2 :
  Forall is_byte l1 → Forall is_byte l2 →
  utf8 l1 = true → utf8 (l1 ++ l2) = utf8 l2.
Proof.
  intros H1 H2 Hu. rewrite <-!(accepts_utf8 (length (l1 ++ l2)))
    by (rewrite ?length_app; auto using Forall_app_2; lia).
  rewrite <-(accepts_utf8 (length l1)) in Hu by done.
  unfold accepts in *. rewrite dfa_run_app. apply Z.eqb_eq in Hu. by rewrite Hu.
Qed.

Lemma utf8_string_app s t :
  utf8_string s = true → utf8_string t = true → utf8_string (s +:+ t) = true.
Proof.
  unfold utf8_string. rewrite bytes_of_app. intros Hs Ht.
  by rewrite utf8_app by auto with cxx.
Qed.

(** ASCII text is well formed. *)
Lemma utf8_ascii l : Forall (λ b, 0 ≤ b ≤ 127) l → utf8 l = true.
Proof.
  induction 1 as [|b l Hb _ IH]; [done|]. cbn [utf8].
  unfold in_range. rewrite (proj2 (Z.leb_le 0x00 b)), (proj2 (Z.leb_le b 0x7F)) by lia.
  simpl. exact IH.
Qed.

(** The automaton stays in its nine states, and only the accepting one reads
    an ASCII byte. *)
Lemma dfa_run_range st l :
  0 ≤ st ≤ 8 → Forall is_byte l → 0 ≤ dfa_run st l ≤ 8.
Proof.
  intros Hst Hl. revert st Hst. induction Hl as [|b l Hb Hl IH]; intros st Hst; [done|].
  apply IH. destruct (dfa_rows b Hb) as (R0 & R1 & R2 & R3 & R4 & R5 & R6 & R7 & R8).
  assert (st = 0 ∨ st = 1 ∨ st = 2 ∨ st = 3 ∨ st = 4 ∨ st = 5 ∨ st = 6 ∨ st = 7 ∨ st = 8)
    as [->|[->|[->|[->|[->|[->|[->|[->| ->]]]]]]]] by lia;
    [rewrite R0; unfold dfa_accept_row|rewrite R1|rewrite R2|rewrite R3|rewrite R4
    |rewrite R5|rewrite R6|rewrite R7|rewrite R8]; repeat case_match; lia.
Qed.

Lemma dfa_ascii st b : 0 ≤ st ≤ 8 → 0 ≤ b ≤ 127 → (dfa st b =? 0) = (st =? 0).
Proof.
  intros Hst Hb.
  pose proof (forall_byte (λ b, forallb (λ st, (127 <? b) || Bool.eqb (dfa st b =? 0) (st =? 0))
    [0; 1; 2; 3; 4; 5; 6; 7; 8]) ltac:(vm_compute; reflexivity) b ltac:(unfold is_byte; lia)) as H.
  cbv beta in H. rewrite forallb_forall in H. apply Bool.eqb_prop.
  specialize (H st). rewrite (proj2 (Z.ltb_ge 127 b)) in H by lia. apply H. simpl. lia.
Qed.

Lemma utf8_string_snoc_ascii s c :
  byte_of c ≤ 127 → utf8_string (s +:+ String c "") = utf8_string s.
Proof.
  intros Hc. pose proof (byte_of_range c). rewrite <-!accepts_utf8_string. unfold accepts.
  rewrite bytes_of_app, dfa_run_app. unfold UTF8_ACCEPT. simpl.
  apply dfa_ascii; [|lia]. apply dfa_run_range; [lia|apply bytes_of_is_byte].
Qed.

Lemma utf8_string_app_r s t : utf8_string s = true → utf8_string (s +:+ t) = utf8_string t.
Proof. unfold utf8_string. rewrite bytes_of_app. intros Hs. by apply utf8_app; auto with cxx. Qed.

(** C29: The table-driven automaton of the serializer ends in its accepting
    state exactly on the well-formed UTF-8 strings of the Unicode standard
    (no over-long forms, no surrogates, nothing above U+10FFFF). *)
Theorem utf8_automaton_correct s :
  (dfa_run UTF8_ACCEPT (bytes_of s) =? UTF8_ACCEPT) = utf8_string s.
Proof. apply accepts_utf8_string. Qed.

(** ** Code points *)

(** The UTF-8 bytes of a code point. *)
Definition encode (cp : Z) : list Z :=
  if cp <? 0x80 then [cp]
  else if cp <=? 0x7FF then [0xC0 + cp / 64; 0x80 + cp mod 64]
  else if cp <=? 0xFFFF then
    [0xE0 + cp / 4096; 0x80 + (cp / 64) mod 64; 0x80 + cp mod 64]
  else [0xF0 + cp / 262144; 0x80 + (cp / 4096) mod 64; 0x80 + (cp / 64) mod 64; 0x80 + cp mod 64].

(** Unicode scalar values: code points that are no surrogates. *)
Definition scalar_value (cp : Z) : Prop :=
  0 ≤ cp ≤ 0x10FFFF ∧ ¬ (0xD800 ≤ cp ≤ 0xDFFF).
