(* ===== verification/JsonValue.v ===== *)
(** * JSON values and their access (json.hpp)

    [nlohmann::basic_json] as an inductive type, the library's exceptions, and
    the accessors the program calls: [at], [operator[]], [get<std::string>]
    and [get<int>]. *)

From stdpp Require Import base gmap strings list.
From Stdlib Require Import ZArith Ascii Lia.
From S2P Require Import Prelude Cxx StdMap.

(** ** Exceptions *)

Definition exn_name (k : json_exn) : string :=
  match k with
  | parse_error => "parse_error"
  | invalid_iterator => "invalid_iterator"
  | type_error => "type_error"
  | out_of_range => "out_of_range"
  | other_error => "other_error"
  end.

(** [exception::name]. *)
Definition exception_name (ename : string) (id : Z) : string :=
  "[json.exception." +:+ ename +:+ "." +:+ to_string id +:+ "] ".

(** [type_error::create], [out_of_range::create]: the message goes through a
    C string. *)
Definition exception_create (k : json_exn) (id : Z) (what_arg : string) : exn :=
  json_exception k id (c_str (exception_name (exn_name k) id +:+ what_arg)).

(** [parse_error::create]. *)
Definition parse_error_create (id byte : Z) (what_arg : string) : exn :=
  let w := exception_name "parse_error" id +:+ "parse error" +:+
           (if negb (byte =? 0) then " at " +:+ to_string byte else "") +:+
           ": " +:+ what_arg in
  json_exception parse_error id (c_str w).

(** ** Floating-point numbers

    An IEEE-754 double: a signed integer times a power of two, an infinity, or
    a NaN with the 52 bits below its exponent.  ([strtod] on a number literal
    yields no NaN; the binary formats do.) *)
Inductive double : Type :=
| Dfin (neg : bool) (m e : Z)
| Dinf (neg : bool)
| Dnan (neg : bool) (payload : Z).

#[global] Instance double_eq_dec : EqDecision double.
Proof. solve_decision. Defined.

Definition isfinite (d : double) : bool :=
  match d with Dfin _ _ _ => true | Dinf _ | Dnan _ _ => false end.

(** The representations of a double: 53 bits for a normal number, fewer for a
    subnormal one at the least exponent, and one zero per sign. *)
Definition valid_double (d : double) : bool :=
  match d with
  | Dinf _ => true
  | Dnan _ payload => (0 <? payload) && (payload <? 2 ^ 52)
  | Dfin _ m e =>
      (m =? 0) && (e =? 0)
      || (0 <? m) && (m <? 2 ^ 52) && (e =? -1074)
      || (2 ^ 52 <=? m) && (m <? 2 ^ 53) && (-1074 <=? e) && (e <=? 971)
  end.

(** ** Values *)

Unset Elimination Schemes.
Inductive json : Type :=
| jnull
| jobject (m : list (string * json))
| jarray (l : list json)
| jstring (s : string)
| jboolean (b : bool)
| jnumber_integer (z : Z)
| jnumber_unsigned (z : Z)
| jnumber_float (d : double)
| jdiscarded.
Set Elimination Schemes.

(** Induction with hypotheses on the members of arrays and objects. *)
Section json_ind.
Context (P : json → Prop).
Hypothesis Pnull : P jnull.
Hypothesis Pobject : ∀ m, Forall (λ kv, P kv.2) m → P (jobject m).
Hypothesis Parray : ∀ l, Forall P l → P (jarray l).
Hypothesis Pstring : ∀ s, P (jstring s).
Hypothesis Pboolean : ∀ b, P (jboolean b).
Hypothesis Pinteger : ∀ z, P (jnumber_integer z).
Hypothesis Punsigned : ∀ z, P (jnumber_unsigned z).
Hypothesis Pfloat : ∀ d, P (jnumber_float d).
Hypothesis Pdiscarded : P jdiscarded.

Fixpoint json_ind (v : json) : P v :=
  let fix members (m : list (string * json)) : Forall (λ kv, P kv.2) m :=
    match m with
    | [] => Forall_nil_2 _
    | kv :: m => Forall_cons_2 (λ kv, P kv.2) kv m (json_ind kv.2) (members m)
    end in
  let fix items (l : list json) : Forall P l :=
    match l with
    | [] => Forall_nil_2 _
    | v :: l => Forall_cons_2 P v l (json_ind v) (items l)
    end in
  match v with
  | jnull => Pnull
  | jobject m => Pobject m (members m)
  | jarray l => Parray l (items l)
  | jstring s => Pstring s
  | jboolean b => Pboolean b
  | jnumber_integer z => Pinteger z
  | jnumber_unsigned z => Punsigned z
  | jnumber_float d => Pfloat d
  | jdiscarded => Pdiscarded
  end.
End json_ind.

(** [type_name]. *)
Definition type_name (v : json) : string :=
  match v with
  | jnull => "null"
  | jobject _ => "object"
  | jarray _ => "array"
  | jstring _ => "string"
  | jboolean _ => "boolean"
  | jdiscarded => "discarded"
  | jnumber_integer _ | jnumber_unsigned _ | jnumber_float _ => "number"
  end.

(** ** Access *)

(** [at(key)]: bounds-checked access to a member. *)
Definition at_key (v : json) (key : string) : outcome exn json :=
  match v with
  | jobject m =>
      match map_find key m with
      | Some w => Ok w
      | None => Throw (exception_create out_of_range 403 ("key '" +:+ key +:+ "' not found"))
      end
  | _ => Throw (exception_create type_error 304 ("cannot use at() with " +:+ type_name v))
  end.

(** [from_json(j, string_t &)]. *)
Definition get_string (v : json) : outcome exn string :=
  match v with
  | jstring s => Ok s
  | _ => Throw (exception_create type_error 302
                  ("type must be string, but is " +:+ type_name v))
  end.

(** [static_cast<int>(double)]: towards zero, undefined out of range. *)
Definition double_to_int (d : double) : outcome exn Z :=
  match d with
  | Dinf _ | Dnan _ _ => Undefined
  | Dfin neg m e =>
      let t := if 0 <=? e then m * 2 ^ e else m / 2 ^ (- e) in
      let t := if neg then - t else t in
      if (- 2 ^ 31 <=? t) && (t <? 2 ^ 31) then Ok t else Undefined
  end.

(** [from_json(j, int &)]: the overload for other arithmetic types, which also
    accepts booleans; integers are converted modulo 2^32. *)
Definition get_int (v : json) : outcome exn Z :=
  match v with
  | jnumber_unsigned z | jnumber_integer z => Ok (wrap_signed 32 z)
  | jnumber_float d => double_to_int d
  | jboolean b => Ok (if b then 1 else 0)
  | _ => Throw (exception_create type_error 302
                  ("type must be number, but is " +:+ type_name v))
  end.

(** The macros [json_str] and [json_int]. *)
Definition json_str (var : json) (field : string) : outcome exn string :=
  obind (at_key var field) get_string.
Definition json_int (var : json) (field : string) : outcome exn Z :=
  obind (at_key var field) get_int.

(** [j[key] = val] on a value that is null or an object: null becomes an
    object; other types throw. *)
Definition json_set (v : json) (key : string) (val : json) : outcome exn json :=
  match v with
  | jnull => Ok (jobject (map_put key val []))
  | jobject m => Ok (jobject (map_put key val m))
  | _ => Throw (exception_create type_error 305
                  ("cannot use operator[] with " +:+ type_name v))
  end.

(** ** Well-formed values: objects are ordered maps. *)
Unset Elimination Schemes.
Inductive json_wf : json → Prop :=
| wf_null : json_wf jnull
| wf_object m : map_wf m → Forall (λ kv, json_wf kv.2) m → json_wf (jobject m)
| wf_array l : Forall json_wf l → json_wf (jarray l)
| wf_string s : json_wf (jstring s)
| wf_boolean b : json_wf (jboolean b)
| wf_integer z : json_wf (jnumber_integer z)
| wf_unsigned z : json_wf (jnumber_unsigned z)
| wf_float d : json_wf (jnumber_float d)
| wf_discarded : json_wf jdiscarded.
Set Elimination Schemes.

(** The answer of [json_str] is exhaustive: the member as a string, or one of
    the three exceptions of the accessors. *)
Lemma json_str_cases v field :
  (∃ m s, v = jobject m ∧ map_find field m = Some (jstring s) ∧ json_str v field = Ok s)
  ∨ (∃ e, json_str v field = Throw e
     ∧ ∃ k id msg, e = json_exception k id msg ∧ (k = type_error ∨ k = out_of_range)).
Proof.
  unfold json_str, at_key. destruct v as [|m| | | | | | |].
  2: destruct (map_find field m) as [[]|] eqn:E.
  all: simpl; try (by right; eexists; split; [done|]; eexists _, _, _; eauto).
  left. eauto.
Qed.

(** The object with these members: a later one replaces an earlier one. *)
Definition put_members (m : std_map json) (kvs : list (string * json)) : std_map json :=
  foldl (λ m kv, map_put kv.1 kv.2 m) m kvs.

Lemma put_members_wf m kvs : map_wf m → map_wf (put_members m kvs).
Proof. revert m. induction kvs as [|kv kvs IH]; intros m Hm; [done|]. apply IH. by apply map_put_wf. Qed.

Lemma put_members_sorted (m seen : std_map json) : map_wf (seen ++ m) → put_members seen m = seen ++ m.
Proof.
  revert seen. induction m as [|[k v] m IH]; intros seen Hwf; [by rewrite app_nil_r|].
  unfold put_members in *. cbn [foldl fst snd]. rewrite (map_put_last seen k v v m Hwf).
  rewrite IH, <-app_assoc; [done|]. by rewrite <-app_assoc.
Qed.
