(* ===== verification/Rational.v ===== *)
(** * Powers of two and ten as rationals

    Floating-point numbers are compared as rationals: integers times powers
    with positive or negative exponents. *)

From stdpp Require Import base tactics numbers.
From Stdlib Require Import ZArith QArith Qpower Lqa Lia.
From S2P Require Import Prelude.

(** b^e for any integer e. *)
Definition pw (b e : Z) : Q := (inject_Z b ^ e)%Q.

#[global] Opaque inject_Z.

Lemma pw_pos b e : 0 < b → (0 < pw b e)%Q.
Proof. intros Hb. apply Qpower_0_lt. change 0%Q with (inject_Z 0). by rewrite <-Zlt_Qlt. Qed.

Lemma pw_add b e f : 0 < b → (pw b (e + f) == pw b e * pw b f)%Q.
Proof.
  intros Hb. apply Qpower_plus. intros H.
  assert ((inject_Z 0 < inject_Z b)%Q) as Hlt by (by rewrite <-Zlt_Qlt).
  rewrite H in Hlt. by apply Qlt_irrefl in Hlt.
Qed.

Lemma pw_Z b e : 0 ≤ e → (pw b e == inject_Z (b ^ e))%Q.
Proof. intros He. symmetry. by apply Zpower_Qpower. Qed.

Lemma pw_0 b : (pw b 0 == 1)%Q.
Proof. done. Qed.

Lemma pw_opp b e : 0 < b → (pw b (- e) * pw b e == 1)%Q.
Proof. intros Hb. rewrite <-pw_add by done. by replace (- e + e) with 0 by lia. Qed.

(** The numerator and denominator of b^e. *)
Lemma pw_max b e : 0 < b → (pw b e * inject_Z (b ^ Z.max (- e) 0) == inject_Z (b ^ Z.max e 0))%Q.
Proof.
  intros Hb. destruct (Z.le_ge_cases 0 e).
  - rewrite Z.max_r, Z.max_l by lia. rewrite pw_Z by done. change (inject_Z (b ^ 0)) with 1%Q. ring.
  - rewrite Z.max_l, Z.max_r by lia. rewrite <-!pw_Z by lia. rewrite <-pw_add by done.
    by replace (e + - e) with 0 by lia.
Qed.

Lemma pw_le b e f : 1 < b → e ≤ f → (pw b e <= pw b f)%Q.
Proof. intros Hb He. apply Qpower_le_compat_l; [done|]. change 1%Q with (inject_Z 1). rewrite <-Zle_Qle. lia. Qed.

Lemma pw_lt b e f : 1 < b → e < f → (pw b e < pw b f)%Q.
Proof. intros Hb He. apply Qpower_lt_compat_l; [done|]. change 1%Q with (inject_Z 1). by rewrite <-Zlt_Qlt. Qed.

(** ** From integers to rationals *)

Lemma inject_Z_minus x y : (inject_Z (x - y) = inject_Z x - inject_Z y)%Q.
Proof. unfold Z.sub, Qminus. by rewrite inject_Z_plus, inject_Z_opp. Qed.

Lemma inject_Z_pos b : 0 < b → (0 < inject_Z b)%Q.
Proof. intros Hb. change 0%Q with (inject_Z 0). by rewrite <-Zlt_Qlt. Qed.

(** Read an integer inequality as one between rationals. *)
Ltac to_Q H :=
  first [rewrite Zlt_Qlt in H | rewrite Zle_Qle in H];
  rewrite ?inject_Z_minus, ?inject_Z_plus, ?inject_Z_mult, ?inject_Z_minus, ?inject_Z_plus,
    ?inject_Z_mult in H.
Ltac goal_to_Q :=
  first [rewrite Zlt_Qlt | rewrite Zle_Qle];
  rewrite ?inject_Z_minus, ?inject_Z_plus, ?inject_Z_mult, ?inject_Z_minus, ?inject_Z_plus,
    ?inject_Z_mult.

(** ** Multiplying inequalities *)

Lemma Qmul_lt x y z : (0 < z)%Q → (x < y)%Q → (x * z < y * z)%Q.
Proof. intros Hz Hxy. by apply Qmult_lt_r. Qed.
Lemma Qmul_le x y z : (0 < z)%Q → (x <= y)%Q → (x * z <= y * z)%Q.
Proof. intros Hz Hxy. by apply Qmult_le_r. Qed.
Lemma Qmul_lt_inv x y z : (0 < z)%Q → (x * z < y * z)%Q → (x < y)%Q.
Proof. intros Hz Hxy. by apply (Qmult_lt_r x y z). Qed.
Lemma Qmul_le_inv x y z : (0 < z)%Q → (x * z <= y * z)%Q → (x <= y)%Q.
Proof. intros Hz Hxy. by apply (Qmult_le_r x y z). Qed.
