(* ===== verification/Grisu.v ===== *)
(** * Printing floating-point numbers (json.hpp, [dtoa_impl] and [to_chars])

    The Grisu2 algorithm on 64-bit integers: a double and the boundaries of
    the interval that rounds to it are scaled by a cached power of ten, and the
    digits of a number in the interval are generated and formatted. *)

From stdpp Require Import base gmap strings list.
From Stdlib Require Import ZArith Ascii Lia.
From S2P Require Import Prelude Cxx JsonValue.

(** ** [struct diyfp]: f * 2^e *)

Record diyfp : Type := Diyfp { df : Z; de : Z }.

Definition diyfp_sub (x y : diyfp) : diyfp := Diyfp (wrap 64 (df x - df y)) (de x).

Definition diyfp_mul (x y : diyfp) : diyfp :=
  let u_lo := Z.land (df x) 0xFFFFFFFF in
  let u_hi := Z.shiftr (df x) 32 in
  let v_lo := Z.land (df y) 0xFFFFFFFF in
  let v_hi := Z.shiftr (df y) 32 in
  let p0 := wrap 64 (u_lo * v_lo) in
  let p1 := wrap 64 (u_lo * v_hi) in
  let p2 := wrap 64 (u_hi * v_lo) in
  let p3 := wrap 64 (u_hi * v_hi) in
  let p0_hi := Z.shiftr p0 32 in
  let p1_lo := Z.land p1 0xFFFFFFFF in
  let p1_hi := Z.shiftr p1 32 in
  let p2_lo := Z.land p2 0xFFFFFFFF in
  let p2_hi := Z.shiftr p2 32 in
  let Q := wrap 64 (p0_hi + p1_lo + p2_lo) in
  let Q := wrap 64 (Q + Z.shiftl 1 (64 - 32 - 1)) in
  let h := wrap 64 (p3 + p2_hi + p1_hi + Z.shiftr Q 32) in
  Diyfp h (de x + de y + 64).

(** [normalize]: at most 63 shifts for a significand that is not 0. *)
Fixpoint normalize_loop (fuel : nat) (x : diyfp) : diyfp :=
  match fuel with
  | O => x
  | S fuel =>
      if Z.shiftr (df x) 63 =? 0
      then normalize_loop fuel (Diyfp (wrap 64 (Z.shiftl (df x) 1)) (de x - 1))
      else x
  end.
Definition normalize (x : diyfp) : diyfp := normalize_loop 64 x.

Definition normalize_to (x : diyfp) (target_exponent : Z) : diyfp :=
  let delta := de x - target_exponent in
  Diyfp (wrap 64 (Z.shiftl (df x) delta)) target_exponent.

(** ** Boundaries *)

Record boundaries : Type := Boundaries { b_w : diyfp; b_minus : diyfp; b_plus : diyfp }.

Definition kPrecision : Z := 53.
Definition kBias : Z := 1024 - 1 + (kPrecision - 1).
Definition kMinExp : Z := 1 - kBias.
Definition kHiddenBit : Z := Z.shiftl 1 (kPrecision - 1).

(** The exponent and fraction fields of the IEEE-754 encoding of m * 2^e. *)
Definition ieee_fields (m e : Z) : Z * Z :=
  if m <? kHiddenBit then (0, m) else (e + kBias, m - kHiddenBit).

Definition compute_boundaries (m e : Z) : boundaries :=
  let '(E, F) := ieee_fields m e in
  let is_denormal := E =? 0 in
  let v := if is_denormal then Diyfp F kMinExp else Diyfp (F + kHiddenBit) (E - kBias) in
  let lower_boundary_is_closer := (F =? 0) && (1 <? E) in
  let m_plus := Diyfp (wrap 64 (2 * df v + 1)) (de v - 1) in
  let m_minus := if lower_boundary_is_closer then Diyfp (wrap 64 (4 * df v - 1)) (de v - 2)
                 else Diyfp (wrap 64 (2 * df v - 1)) (de v - 1) in
  let w_plus := normalize m_plus in
  let w_minus := normalize_to m_minus (de w_plus) in
  Boundaries (normalize v) w_minus w_plus.

(** ** Cached powers *)

Definition kAlpha : Z := -60.
Definition kGamma : Z := -32.

Record cached_power : Type := Cached { c_f : Z; c_e : Z; c_k : Z }.

Definition kCachedPowersSize : Z := 79.
Definition kCachedPowersMinDecExp : Z := -300.
Definition kCachedPowersDecStep : Z := 8.

Definition kCachedPowers : list (Z * Z * Z) :=
  [(0xAB70FE17C79AC6CA, -1060, -300); (0xFF77B1FCBEBCDC4F, -1034, -292);
   (0xBE5691EF416BD60C, -1007, -284); (0x8DD01FAD907FFC3C, -980, -276);
   (0xD3515C2831559A83, -954, -268); (0x9D71AC8FADA6C9B5, -927, -260);
   (0xEA9C227723EE8BCB, -901, -252); (0xAECC49914078536D, -874, -244);
   (0x823C12795DB6CE57, -847, -236); (0xC21094364DFB5637, -821, -228);
   (0x9096EA6F3848984F, -794, -220); (0xD77485CB25823AC7, -768, -212);
   (0xA086CFCD97BF97F4, -741, -204); (0xEF340A98172AACE5, -715, -196);
   (0xB23867FB2A35B28E, -688, -188); (0x84C8D4DFD2C63F3B, -661, -180);
   (0xC5DD44271AD3CDBA, -635, -172); (0x936B9FCEBB25C996, -608, -164);
   (0xDBAC6C247D62A584, -582, -156); (0xA3AB66580D5FDAF6, -555, -148);
   (0xF3E2F893DEC3F126, -529, -140); (0xB5B5ADA8AAFF80B8, -502, -132);
   (0x87625F056C7C4A8B, -475, -124); (0xC9BCFF6034C13053, -449, -116);
   (0x964E858C91BA2655, -422, -108); (0xDFF9772470297EBD, -396, -100);
   (0xA6DFBD9FB8E5B88F, -369, -92); (0xF8A95FCF88747D94, -343, -84);
   (0xB94470938FA89BCF, -316, -76); (0x8A08F0F8BF0F156B, -289, -68);
   (0xCDB02555653131B6, -263, -60); (0x993FE2C6D07B7FAC, -236, -52);
   (0xE45C10C42A2B3B06, -210, -44); (0xAA242499697392D3, -183, -36);
   (0xFD87B5F28300CA0E, -157, -28); (0xBCE5086492111AEB, -130, -20);
   (0x8CBCCC096F5088CC, -103, -12); (0xD1B71758E219652C, -77, -4);
   (0x9C40000000000000, -50, 4); (0xE8D4A51000000000, -24, 12);
   (0xAD78EBC5AC620000, 3, 20); (0x813F3978F8940984, 30, 28);
   (0xC097CE7BC90715B3, 56, 36); (0x8F7E32CE7BEA5C70, 83, 44);
   (0xD5D238A4ABE98068, 109, 52); (0x9F4F2726179A2245, 136, 60);
   (0xED63A231D4C4FB27, 162, 68); (0xB0DE65388CC8ADA8, 189, 76);
   (0x83C7088E1AAB65DB, 216, 84); (0xC45D1DF942711D9A, 242, 92);
   (0x924D692CA61BE758, 269, 100); (0xDA01EE641A708DEA, 295, 108);
   (0xA26DA3999AEF774A, 322, 116); (0xF209787BB47D6B85, 348, 124);
   (0xB454E4A179DD1877, 375, 132); (0x865B86925B9BC5C2, 402, 140);
   (0xC83553C5C8965D3D, 428, 148); (0x952AB45CFA97A0B3, 455, 156);
   (0xDE469FBD99A05FE3, 481, 164); (0xA59BC234DB398C25, 508, 172);
   (0xF6C69A72A3989F5C, 534, 180); (0xB7DCBF5354E9BECE, 561, 188);
   (0x88FCF317F22241E2, 588, 196); (0xCC20CE9BD35C78A5, 614, 204);
   (0x98165AF37B2153DF, 641, 212); (0xE2A0B5DC971F303A, 667, 220);
   (0xA8D9D1535CE3B396, 694, 228); (0xFB9B7CD9A4A7443C, 720, 236);
   (0xBB764C4CA7A44410, 747, 244); (0x8BAB8EEFB6409C1A, 774, 252);
   (0xD01FEF10A657842C, 800, 260); (0x9B10A4E5E9913129, 827, 268);
   (0xE7109BFBA19C0C9D, 853, 276); (0xAC2820D9623BF429, 880, 284);
   (0x80444B5E7AA7CF85, 907, 292); (0xBF21E44003ACDD2D, 933, 300);
   (0x8E679C2F5E44FF8F, 960, 308); (0xD433179D9C8CB841, 986, 316);
   (0x9E19DB92B4E31BA9, 1013, 324)].

Definition cached_index (e : Z) : Z :=
  let f := kAlpha - e - 1 in
  let k := Z.quot (f * 78913) (Z.shiftl 1 18) + (if 0 <? f then 1 else 0) in
  Z.quot (- kCachedPowersMinDecExp + k + (kCachedPowersDecStep - 1)) kCachedPowersDecStep.

Definition get_cached_power_for_binary_exponent (e : Z) : cached_power :=
  let '(f, e, k) := nth (Z.to_nat (cached_index e)) kCachedPowers (0, 0, 0) in Cached f e k.

(** ** Digits *)

(** [find_largest_pow10]: k, and the power in [pow10]. *)
Definition find_largest_pow10 (n : Z) : nat * Z :=
  if 1000000000 <=? n then (10%nat, 1000000000)
  else if 100000000 <=? n then (9%nat, 100000000)
  else if 10000000 <=? n then (8%nat, 10000000)
  else if 1000000 <=? n then (7%nat, 1000000)
  else if 100000 <=? n then (6%nat, 100000)
  else if 10000 <=? n then (5%nat, 10000)
  else if 1000 <=? n then (4%nat, 1000)
  else if 100 <=? n then (3%nat, 100)
  else if 10 <=? n then (2%nat, 10)
  else (1%nat, 1).

(** [buf[len - 1]--]. *)
Fixpoint decrement_last (buf : string) : string :=
  match buf with
  | EmptyString => ""
  | String c EmptyString => String (char_of (byte_of c - 1)) ""
  | String c buf => String c (decrement_last buf)
  end.

(** [grisu2_round]; [rest] grows by [ten_k] in every turn and stays below
    [dist]. *)
Fixpoint grisu2_round_loop (fuel : nat) (buf : string) (dist delta rest ten_k : Z) : string :=
  match fuel with
  | O => buf
  | S fuel =>
      if (rest <? dist) && (ten_k <=? wrap 64 (delta - rest))
         && ((wrap 64 (rest + ten_k) <? dist)
             || (wrap 64 (wrap 64 (rest + ten_k) - dist) <? wrap 64 (dist - rest)))
      then grisu2_round_loop fuel (decrement_last buf) dist delta (wrap 64 (rest + ten_k)) ten_k
      else buf
  end.
Definition grisu2_round (buf : string) (dist delta rest ten_k : Z) : string :=
  grisu2_round_loop (Z.to_nat (dist / ten_k + 2)) buf dist delta rest ten_k.

Definition put_digit (buf : string) (d : Z) : string := buf +:+ String (char_of (48 + d)) "".

(** The digits of the integral part: [inl] is the buffer and exponent of an
    early end, [inr] the buffer when all were generated. *)
Fixpoint integral_digits (n : nat) (p1 p2 pow10 delta dist shift : Z) (buf : string)
    : (string * Z) + string :=
  match n with
  | O => inr buf
  | S n =>
      let d := p1 / pow10 in
      let r := p1 mod pow10 in
      let buf := put_digit buf d in
      let p1 := r in
      let rest := wrap 64 (Z.shiftl p1 shift + p2) in
      if rest <=? delta
      then inl (grisu2_round buf dist delta rest (wrap 64 (Z.shiftl pow10 shift)), Z.of_nat n)
      else integral_digits n p1 p2 (pow10 / 10) delta dist shift buf
  end.

(** The digits of the fractional part; [m] counts them. *)
Fixpoint fractional_digits (fuel : nat) (p2 delta dist shift m : Z) (buf : string)
    : outcome unit (string * Z) :=
  match fuel with
  | O => OutOfFuel
  | S fuel =>
      let p2 := wrap 64 (p2 * 10) in
      let d := Z.shiftr p2 shift in
      let r := Z.land p2 (Z.shiftl 1 shift - 1) in
      let buf := put_digit buf d in
      let p2 := r in
      let m := m + 1 in
      let delta := wrap 64 (delta * 10) in
      let dist := wrap 64 (dist * 10) in
      if p2 <=? delta
      then Ok (grisu2_round buf dist delta p2 (Z.shiftl 1 shift), m)
      else fractional_digits fuel p2 delta dist shift m buf
  end.

(** 20 digits are enough, since [delta] is not 0 and [p2] is below 2^60. *)
Definition grisu2_digit_gen (decimal_exponent : Z) (M_minus w M_plus : diyfp)
    : outcome unit (string * Z) :=
  let delta := df (diyfp_sub M_plus M_minus) in
  let dist := df (diyfp_sub M_plus w) in
  let shift := - de M_plus in
  let p1 := wrap 32 (Z.shiftr (df M_plus) shift) in
  let p2 := Z.land (df M_plus) (Z.shiftl 1 shift - 1) in
  let '(k, pow10) := find_largest_pow10 p1 in
  match integral_digits k p1 p2 pow10 delta dist shift "" with
  | inl (buf, n) => Ok (buf, decimal_exponent + n)
  | inr buf =>
      obind (fractional_digits 20 p2 delta dist shift 0 buf)
        (λ r, Ok (r.1, decimal_exponent - r.2))
  end.

Definition grisu2_scaled (m_minus v m_plus : diyfp) : outcome unit (string * Z) :=
  let cached := get_cached_power_for_binary_exponent (de m_plus) in
  let c_minus_k := Diyfp (c_f cached) (c_e cached) in
  let w := diyfp_mul v c_minus_k in
  let w_minus := diyfp_mul m_minus c_minus_k in
  let w_plus := diyfp_mul m_plus c_minus_k in
  let M_minus := Diyfp (wrap 64 (df w_minus + 1)) (de w_minus) in
  let M_plus := Diyfp (wrap 64 (df w_plus - 1)) (de w_plus) in
  grisu2_digit_gen (- c_k cached) M_minus w M_plus.

(** [grisu2] on a positive double m * 2^e: the digits and their exponent. *)
Definition grisu2 (m e : Z) : outcome unit (string * Z) :=
  let w := compute_boundaries m e in grisu2_scaled (b_minus w) (b_w w) (b_plus w).

(** ** Formatting *)

Definition append_exponent (e : Z) : string :=
  let k := Z.abs e in
  (if e <? 0 then "-" else "+") +:+
  (if k <? 10 then String "0" (String (digit k) "")
   else if k <? 100 then String (digit (k / 10)) (String (digit (k mod 10)) "")
   else String (digit (k / 100))
          (String (digit (k mod 100 / 10)) (String (digit (k mod 100 mod 10)) ""))).

Definition zero_digits (n : Z) : string := str_repeat (Z.to_nat n) "0".

Definition format_buffer (buf : string) (decimal_exponent min_exp max_exp : Z) : string :=
  let k := Z.of_nat (String.length buf) in
  let n := k + decimal_exponent in
  if (k <=? n) && (n <=? max_exp) then buf +:+ zero_digits (n - k) +:+ ".0"
  else if (0 <? n) && (n <=? max_exp) then
    str_take (Z.to_nat n) buf +:+ "." +:+ str_drop (Z.to_nat n) buf
  else if (min_exp <? n) && (n <=? 0) then "0." +:+ zero_digits (- n) +:+ buf
  else
    (if k =? 1 then buf else str_take 1 buf +:+ "." +:+ str_drop 1 buf) +:+
    "e" +:+ append_exponent (n - 1).

(** [to_chars] on a finite double. *)
Definition to_chars (d : double) : string :=
  match d with
  | Dinf _ | Dnan _ _ => ""
  | Dfin neg m e =>
      (if neg then "-" else "") +:+
      (if m =? 0 then "0.0"
       else match grisu2 m e with
            | Ok (buf, decimal_exponent) => format_buffer buf decimal_exponent (-4) 15
            | _ => ""
            end)
  end.

Example to_chars_samples :
  to_chars (Dfin false (2 ^ 52) (-52)) = "1.0"
  ∧ to_chars (Dfin true (3 * 2 ^ 51) (-52)) = "-1.5"
  ∧ to_chars (Dfin false 7205759403792794 (-56)) = "0.1"
  ∧ to_chars (Dfin false 1 (-1074)) = "5e-324"
  ∧ to_chars (Dfin false (2 ^ 53 - 1) 971) = "1.7976931348623157e+308"
  ∧ to_chars (Dfin false (2 ^ 53 / 2) 12) = "1.8446744073709552e+19"
  ∧ to_chars (Dfin true 0 0) = "-0.0".
Proof. vm_compute. repeat split; reflexivity. Qed.

(** ** Multiplication *)

Definition is_u64 (z : Z) : Prop := 0 ≤ z < 2 ^ 64.

Lemma split32 z : is_u64 z →
  ∃ lo hi, Z.land z 0xFFFFFFFF = lo ∧ Z.shiftr z 32 = hi ∧ z = lo + 2 ^ 32 * hi
    ∧ 0 ≤ lo < 2 ^ 32 ∧ 0 ≤ hi < 2 ^ 32.
Proof.
  unfold is_u64. intros Hz. exists (z mod 2 ^ 32), (z / 2 ^ 32).
  change 0xFFFFFFFF with (Z.ones 32). rewrite Z.land_ones, Z.shiftr_div_pow2 by lia.
  change (2 ^ 32) with 4294967296 in *. change (2 ^ 64) with 18446744073709551616 in Hz.
  split_and!; try done; Z.to_euclidean_division_equations; lia.
Qed.

Lemma mul32 a b : 0 ≤ a < 2 ^ 32 → 0 ≤ b < 2 ^ 32 → 0 ≤ a * b ≤ (2 ^ 32 - 1) * (2 ^ 32 - 1).
Proof. intros. nia. Qed.

(** [diyfp::mul] is the product of the significands divided by 2^64 and
    rounded to the nearest integer, ties up; no 64-bit operation of it
    overflows. *)
Lemma diyfp_mul_correct x y :
  is_u64 (df x) → is_u64 (df y) →
  diyfp_mul x y = Diyfp ((df x * df y + 2 ^ 63) / 2 ^ 64) (de x + de y + 64)
  ∧ is_u64 (df (diyfp_mul x y)).
Proof.
  intros Hx Hy. unfold diyfp_mul.
  destruct (split32 _ Hx) as (a & b & -> & -> & Ex & Ha & Hb).
  destruct (split32 _ Hy) as (c & d & -> & -> & Ey & Hc & Hd).
  pose proof (mul32 a c Ha Hc). pose proof (mul32 a d Ha Hd).
  pose proof (mul32 b c Hb Hc). pose proof (mul32 b d Hb Hd).
  change (2 ^ 32) with 4294967296 in *.
  rewrite !(wrap_small 64 (_ * _)) by lia.
  destruct (split32 (a * c)) as (p0 & p0h & _ & -> & E0 & Hp0 & Hp0h); [unfold is_u64; lia|].
  destruct (split32 (a * d)) as (p1 & p1h & -> & -> & E1 & Hp1 & Hp1h); [unfold is_u64; lia|].
  destruct (split32 (b * c)) as (p2 & p2h & -> & -> & E2 & Hp2 & Hp2h); [unfold is_u64; lia|].
  change (Z.shiftl 1 (64 - 32 - 1)) with 2147483648. change (2 ^ 32) with 4294967296 in *.
  rewrite (wrap_small 64 (p0h + p1 + p2)) by lia.
  rewrite (wrap_small 64 (p0h + p1 + p2 + _)) by lia. rewrite Z.shiftr_div_pow2 by lia.
  change (2 ^ 32) with 4294967296. change (2 ^ 64) with 18446744073709551616 in *.
  change (2 ^ 63) with 9223372036854775808.
  assert (Hq : (df x * df y + 9223372036854775808) / 18446744073709551616
    = b * d + p2h + p1h + (p0h + p1 + p2 + 2147483648) / 4294967296).
  { rewrite Ex, Ey. replace ((a + 4294967296 * b) * (c + 4294967296 * d))
      with (a * c + 4294967296 * (a * d + b * c) + 18446744073709551616 * (b * d)) by ring.
    rewrite E0, E1, E2. Z.to_euclidean_division_equations. lia. }
  assert (Hu : is_u64 (b * d + p2h + p1h + (p0h + p1 + p2 + 2147483648) / 4294967296)).
  { rewrite <-Hq. unfold is_u64 in *. split; [apply Z.div_pos; nia|].
    apply Z.div_lt_upper_bound; [lia|]. nia. }
  rewrite Hq, wrap_small by exact Hu. split; [done|exact Hu].
Qed.

(** ** Normalization *)

Lemma normalize_loop_spec fuel x :
  2 ^ (64 - Z.of_nat fuel) ≤ df x < 2 ^ 64 → (fuel ≤ 64)%nat →
  ∃ n, 0 ≤ n ∧ normalize_loop fuel x = Diyfp (df x * 2 ^ n) (de x - n)
    ∧ 2 ^ 63 ≤ df x * 2 ^ n < 2 ^ 64.
Proof.
  revert x. induction fuel as [|fuel IH]; intros x Hx Hf; [simpl in Hx; lia|].
  cbn [normalize_loop]. rewrite Z.shiftr_div_pow2 by lia.
  destruct (df x / 2 ^ 63 =? 0) eqn:E; zify_cmp.
  - assert (Hlt : df x < 2 ^ 63) by (apply Z.div_small_iff in E; lia).
    rewrite Z.shiftl_mul_pow2, Z.pow_1_r by lia. rewrite wrap_small by lia.
    destruct (IH (Diyfp (df x * 2) (de x - 1))) as (n & Hn & Hrun & Hrange).
    { cbn [df]. split; [|lia]. replace (64 - Z.of_nat fuel) with (Z.succ (64 - Z.of_nat (S fuel))) by lia.
      rewrite Z.pow_succ_r by lia. lia. }
    { lia. }
    cbn [df de] in Hrun, Hrange. exists (n + 1). rewrite Z.pow_add_r, Z.pow_1_r by lia.
    replace (df x * (2 ^ n * 2)) with (df x * 2 * 2 ^ n) by ring. split_and!; try lia.
    rewrite Hrun. f_equal. lia.
  - exists 0. rewrite Z.mul_1_r, Z.sub_0_r. split_and!; try lia; [by destruct x|].
    pose proof (Z.div_small (df x) (2 ^ 63)). lia.
Qed.

(** [normalize] keeps the value and sets the top bit. *)
Lemma normalize_spec x :
  0 < df x < 2 ^ 64 →
  ∃ n, 0 ≤ n ∧ normalize x = Diyfp (df x * 2 ^ n) (de x - n) ∧ 2 ^ 63 ≤ df x * 2 ^ n < 2 ^ 64.
Proof. intros Hx. apply normalize_loop_spec; simpl; lia. Qed.

(** ** The table of powers *)

(** f * 2^e is a normalized number within half a unit of 10^k. *)
Definition power_ok (c : Z * Z * Z) : bool :=
  let '(f, e, k) := c in
  let unit := 2 ^ Z.max e 0 * 10 ^ Z.max (- k) 0 in
  (2 ^ 63 <=? f) && (f <? 2 ^ 64)
  && (2 * Z.abs (f * unit - 10 ^ Z.max k 0 * 2 ^ Z.max (- e) 0) <=? unit).

Definition exponent_ok (e : Z) : bool :=
  let c := get_cached_power_for_binary_exponent e in
  (0 <=? cached_index e) && (cached_index e <? kCachedPowersSize)
  && (kAlpha <=? c_e c + e + 64) && (c_e c + e + 64 <=? kGamma).

Lemma all_powers_ok : forallb power_ok kCachedPowers = true.
Proof. vm_compute. reflexivity. Qed.

Lemma all_exponents_ok :
  forallb (λ n, exponent_ok (Z.of_nat n - 1137)) (seq 0 2098) = true.
Proof. vm_compute. reflexivity. Qed.

(** For every binary exponent of a normalized double, the index computed
    with 78913 / 2^18 for log10(2) is in the table, the power found there is
    10^k up to half a unit in its last place, and scaling by it brings the
    exponent into [-60, -32]. *)
Lemma cached_power_correct e :
  -1137 ≤ e ≤ 960 →
  0 ≤ cached_index e < kCachedPowersSize
  ∧ (let c := get_cached_power_for_binary_exponent e in
     power_ok (c_f c, c_e c, c_k c) = true ∧ kAlpha ≤ c_e c + e + 64 ≤ kGamma).
Proof.
  intros He. pose proof all_exponents_ok as H. rewrite forallb_forall in H.
  specialize (H (Z.to_nat (e + 1137)) ltac:(apply in_seq; lia)).
  replace (Z.of_nat (Z.to_nat (e + 1137)) - 1137) with e in H by lia.
  unfold exponent_ok in H. zify_cmp. split; [lia|]. split; [|lia].
  unfold get_cached_power_for_binary_exponent.
  pose proof all_powers_ok as Hp. rewrite forallb_forall in Hp.
  destruct (nth (Z.to_nat (cached_index e)) kCachedPowers (0, 0, 0)) as [[f ce] k] eqn:E.
  cbn [c_f c_e c_k]. apply Hp. rewrite <-E. apply nth_In. unfold kCachedPowersSize in *.
  change (length kCachedPowers) with 79%nat. lia.
Qed.
