(* ===== verification/GrisuDigits.v ===== *)
(** * The digits Grisu2 generates

    [grisu2_digit_gen] ends and yields a decimal number between [M_minus] and
    [M_plus]: the digits of [M_plus] are generated until the number they form
    is in the interval, and the rounding keeps it there.  The digits are as few
    as the width of the interval asks for. *)

From stdpp Require Import base gmap strings list.
From Stdlib Require Import ZArith Ascii Lia.
From S2P Require Import Prelude Cxx JsonValue Grisu.

(** ** Buffers of digits *)

Lemma dec_value_nonneg s acc : all_digits s = true → 0 ≤ acc → 0 ≤ dec_value acc s.
Proof.
  revert acc. induction s as [|c s IH]; intros acc Ha Hacc; [done|]. cbn [all_digits dec_value] in *.
  apply andb_true_iff in Ha as [Hc Ha]. unfold is_digit in Hc. zify_cmp. apply IH; [done|lia].
Qed.

(** No leading zero. *)
Definition head_ok (buf : string) : bool :=
  match buf with EmptyString => true | String c _ => negb (byte_of c =? 48) end.

Lemma dec_value_lower s acc :
  all_digits s = true → 0 ≤ acc → acc * 10 ^ Z.of_nat (String.length s) ≤ dec_value acc s.
Proof.
  revert acc. induction s as [|c s IH]; intros acc Ha Hacc.
  { cbn [String.length dec_value]. change (Z.of_nat 0) with 0. rewrite Z.pow_0_r. lia. }
  cbn [all_digits dec_value String.length] in *.
  apply andb_true_iff in Ha as [Hc Ha]. unfold is_digit in Hc. zify_cmp.
  rewrite Nat2Z.inj_succ, Z.pow_succ_r by lia.
  etransitivity; [|apply IH; [done|lia]].
  replace (acc * (10 * 10 ^ Z.of_nat (String.length s)))
    with (10 * acc * 10 ^ Z.of_nat (String.length s)) by ring.
  apply Z.mul_le_mono_nonneg_r; lia.
Qed.

(** A number without leading zeros is as large as its length says. *)
Lemma lead_value buf :
  all_digits buf = true → head_ok buf = true → buf ≠ "" →
  10 ^ (Z.of_nat (String.length buf) - 1) ≤ dec_value 0 buf.
Proof.
  destruct buf as [|c s]; [done|]. intros Ha Hh _. cbn [all_digits dec_value head_ok String.length] in *.
  apply andb_true_iff in Ha as [Hc Ha]. unfold is_digit in Hc. apply negb_true_iff in Hh. zify_cmp.
  rewrite Nat2Z.inj_succ. replace (Z.succ _ - 1) with (Z.of_nat (String.length s)) by lia.
  etransitivity; [|apply dec_value_lower; [done|lia]].
  rewrite <-(Z.mul_1_l (10 ^ _)) at 1. apply Z.mul_le_mono_nonneg_r; lia.
Qed.

(** A buffer with at least one digit: its number, its last digit, its length. *)
Record digits (buf : string) (D L : Z) (n : nat) : Prop := {
  digits_all : all_digits buf = true;
  digits_value : dec_value 0 buf = D;
  digits_last : ∃ b, buf = b +:+ String (digit L) "";
  digits_range : 0 ≤ L ≤ 9;
  digits_head : head_ok buf = true;
  digits_length : String.length buf = n;
}.

Lemma put_digit_digits buf d :
  all_digits buf = true → head_ok buf = true → 0 ≤ d ≤ 9 → (buf = "" → d ≠ 0) →
  digits (put_digit buf d) (dec_value 0 buf * 10 + d) d (S (String.length buf)).
Proof.
  intros Ha Hh Hd Hz. unfold put_digit. fold (digit d). constructor.
  - rewrite all_digits_app, Ha. cbn [all_digits]. rewrite digit_byte by lia. unfold is_digit.
    by rewrite (proj2 (Z.leb_le _ _)), (proj2 (Z.leb_le _ _)) by lia.
  - rewrite dec_value_app. cbn [dec_value]. rewrite digit_byte by lia. lia.
  - by exists buf.
  - done.
  - destruct buf; [|done]. cbn [String.append head_ok]. rewrite digit_byte by lia.
    apply negb_true_iff, Z.eqb_neq. specialize (Hz eq_refl). lia.
  - rewrite length_append. simpl. lia.
Qed.

Lemma decrement_last_app b c : decrement_last (b +:+ String c "") = b +:+ String (char_of (byte_of c - 1)) "".
Proof.
  induction b as [|a b IH]; [done|]. cbn [String.append]. rewrite <-IH.
  by destruct b.
Qed.

Lemma decrement_digits buf D L n :
  digits buf D L n → 1 ≤ L → 2 ≤ D → digits (decrement_last buf) (D - 1) (L - 1) n.
Proof.
  intros [Ha Hv [b ->] Hr Hh Hlen] HL HD. rewrite decrement_last_app, digit_byte by lia.
  replace (48 + L - 1) with (48 + (L - 1)) by lia. fold (digit (L - 1)).
  rewrite all_digits_app in Ha. apply andb_true_iff in Ha as [Ha _].
  rewrite dec_value_app in Hv. cbn [dec_value] in Hv. rewrite digit_byte in Hv by lia.
  destruct (put_digit_digits b (L - 1) Ha) as [H1 H2 H3 H4 H5 H6]; [by destruct b|lia| |].
  { intros ->. cbn [dec_value] in Hv. lia. }
  unfold put_digit in H1, H2, H5. fold (digit (L - 1)) in H1, H2, H5.
  constructor; [done|lia|by exists b|lia|done|]. rewrite length_append in *. done.
Qed.

(** ** Rounding *)

Section round.
Context (dist delta ten_k : Z).
Hypothesis Hdelta : dist ≤ delta < 2 ^ 64.
Hypothesis Hten : 0 < ten_k.

(** The number only moves down, by units, and stays above the lower end. *)
Lemma grisu2_round_loop_spec fuel buf D L n rest :
  digits buf D L n → 0 ≤ rest ≤ delta → delta < rest + L * ten_k → delta < rest + D * ten_k →
  ∃ j L', 0 ≤ j ∧ digits (grisu2_round_loop fuel buf dist delta rest ten_k) (D - j) L' n
    ∧ rest + j * ten_k ≤ delta.
Proof.
  revert buf D L rest. induction fuel as [|fuel IH]; intros buf D L rest Hbuf Hrest HL HD; cbn [grisu2_round_loop].
  { exists 0, L. rewrite Z.sub_0_r, Z.add_0_r. by split_and!; [lia|done|lia]. }
  destruct ((rest <? dist) && _ && _) eqn:E.
  2:{ exists 0, L. rewrite Z.sub_0_r, Z.add_0_r. by split_and!; [lia|done|lia]. }
  apply andb_true_iff in E as [E _]. zify_cmp. rewrite (wrap_small 64 (delta - rest)) in * by lia.
  rewrite wrap_small by lia.
  destruct (IH (decrement_last buf) (D - 1) (L - 1) (rest + ten_k)) as (j & L' & Hj & Hd & Hle).
  - apply decrement_digits; [done|nia|nia].
  - lia.
  - nia.
  - nia.
  - exists (j + 1), L'. replace (D - (j + 1)) with (D - 1 - j) by lia. split_and!; [lia|done|lia].
Qed.

(** More fuel than [dist / ten_k + 2] changes nothing. *)
Lemma grisu2_round_loop_fuel fuel extra buf rest :
  0 ≤ rest ≤ delta → dist - rest < Z.of_nat fuel * ten_k →
  grisu2_round_loop (fuel + extra) buf dist delta rest ten_k
  = grisu2_round_loop fuel buf dist delta rest ten_k.
Proof.
  revert buf rest. induction fuel as [|fuel IH]; intros buf rest Hrest Hf.
  { destruct extra; [done|]. cbn [Nat.add grisu2_round_loop].
    by rewrite (proj2 (Z.ltb_ge rest dist)) by lia. }
  cbn [Nat.add grisu2_round_loop]. destruct ((rest <? dist) && _ && _) eqn:E; [|done].
  apply andb_true_iff in E as [E _]. zify_cmp. rewrite (wrap_small 64 (delta - rest)) in * by lia.
  rewrite wrap_small by lia. apply IH; lia.
Qed.

Lemma grisu2_round_spec buf D L n rest :
  digits buf D L n → 0 ≤ rest ≤ delta → delta < rest + L * ten_k → delta < rest + D * ten_k →
  ∃ j L', 0 ≤ j ∧ digits (grisu2_round buf dist delta rest ten_k) (D - j) L' n
    ∧ rest + j * ten_k ≤ delta.
Proof. apply grisu2_round_loop_spec. Qed.
End round.

(** The fuel of [grisu2_round] is enough. *)
Lemma grisu2_round_fuel buf dist delta rest ten_k extra :
  dist ≤ delta < 2 ^ 64 → 0 < ten_k → 0 ≤ dist → 0 ≤ rest ≤ delta →
  grisu2_round_loop (Z.to_nat (dist / ten_k + 2) + extra) buf dist delta rest ten_k
  = grisu2_round buf dist delta rest ten_k.
Proof.
  intros Hd Ht Hdist Hr. apply grisu2_round_loop_fuel; [done|done|done|].
  pose proof (Z.div_pos dist ten_k Hdist Ht). rewrite Z2Nat.id by lia.
  pose proof (Z.mul_succ_div_gt dist ten_k Ht). nia.
Qed.

(** ** The first digit *)

Ltac pow10_case k :=
  let p := eval vm_compute in (10 ^ Z.of_nat k) in
  let q := eval vm_compute in (10 ^ Z.of_nat (S k)) in
  exists k, p; split; [reflexivity|]; split; [vm_compute; reflexivity|]; split;
  [lia|apply (Z.lt_le_trans _ q); [lia|vm_compute; discriminate]].

Lemma find_largest_pow10_spec n :
  0 < n < 2 ^ 32 →
  ∃ k pow10, find_largest_pow10 n = (S k, pow10) ∧ pow10 = 10 ^ Z.of_nat k
    ∧ pow10 ≤ n ∧ n < 10 ^ Z.of_nat (S k).
Proof.
  intros Hn. change (2 ^ 32) with 4294967296 in Hn. unfold find_largest_pow10.
  repeat match goal with |- context [if ?a <=? n then _ else _] => destruct (a <=? n) eqn:?; zify_cmp end;
    [pow10_case 9%nat|pow10_case 8%nat|pow10_case 7%nat|pow10_case 6%nat|pow10_case 5%nat
    |pow10_case 4%nat|pow10_case 3%nat|pow10_case 2%nat|pow10_case 1%nat|pow10_case 0%nat].
Qed.

(** ** Generating digits *)

(** The number in [buf], times 10^k, is between [top - delta] and [top] in
    units of [one]; without leading zeros and with no more digits than needed
    to tell numbers [delta] apart. *)
Record generated (top delta one : Z) (buf : string) (k : Z) : Prop := {
  gen_all : all_digits buf = true;
  gen_head : head_ok buf = true;
  gen_nonempty : buf ≠ "";
  gen_lower : (top - delta) * 10 ^ Z.max (- k) 0 ≤ dec_value 0 buf * 10 ^ Z.max k 0 * one;
  gen_upper : dec_value 0 buf * 10 ^ Z.max k 0 * one ≤ top * 10 ^ Z.max (- k) 0;
  gen_short : 10 ^ (Z.of_nat (String.length buf) - 2) * delta ≤ top;
}.

Lemma div_digit p P : 0 < P → 0 ≤ p < 10 * P →
  ∃ d r, p / P = d ∧ p mod P = r ∧ p = P * d + r ∧ 0 ≤ r < P ∧ 0 ≤ d ≤ 9.
Proof.
  intros HP Hp. exists (p / P), (p mod P). split_and!; try reflexivity.
  - apply Z.div_mod. lia.
  - apply Z.mod_pos_bound, HP.
  - apply Z.mod_pos_bound, HP.
  - apply Z.div_pos; lia.
  - apply Z.lt_succ_r, Z.div_lt_upper_bound; lia.
Qed.

(** One digit is taken from the number [p1 * one + p2] left. *)
Lemma digit_step one P p1 p2 d r v Mp :
  0 < one → 0 < P → 0 ≤ p2 < one → 0 ≤ v → p1 = P * d + r → 0 ≤ r < P → 0 ≤ d →
  Mp < 2 ^ 64 → Mp = v * (10 * P * one) + (p1 * one + p2) →
  0 ≤ r * one + p2 < 2 ^ 64 ∧ Mp = (v * 10 + d) * (P * one) + (r * one + p2)
  ∧ (r * one + p2 < p1 * one + p2 → P * one ≤ Mp).
Proof.
  intros Hone HP Hp2 Hv -> Hr Hd HM64 HM.
  assert (HM' : Mp = (v * 10 + d) * (P * one) + (r * one + p2)) by (rewrite HM; ring).
  assert (0 < P * one) by (apply Z.mul_pos_pos; assumption).
  assert (0 ≤ r * one) by (apply Z.mul_nonneg_nonneg; lia).
  assert (0 ≤ (v * 10 + d) * (P * one)) by (apply Z.mul_nonneg_nonneg; lia).
  split_and!; [lia|lia|exact HM'|].
  intros Hlt. assert (d ≠ 0) by (intros ->; lia).
  assert (1 * (P * one) ≤ (v * 10 + d) * (P * one)) by (apply Z.mul_le_mono_nonneg_r; lia). lia.
Qed.

Lemma short_step buf U delta Mp rest :
  all_digits buf = true → head_ok buf = true → 0 ≤ delta ≤ U → 0 ≤ rest →
  Mp = dec_value 0 buf * U + rest →
  10 ^ (Z.of_nat (S (String.length buf)) - 2) * delta ≤ Mp.
Proof.
  intros Ha Hh HU Hr ->. pose proof (dec_value_nonneg buf 0 Ha ltac:(lia)).
  assert (0 ≤ dec_value 0 buf * U) by (apply Z.mul_nonneg_nonneg; lia).
  destruct (decide (buf = "")) as [->|Hne]; [cbn; lia|].
  pose proof (lead_value buf Ha Hh Hne) as Hl.
  replace (Z.of_nat (S (String.length buf)) - 2) with (Z.of_nat (String.length buf) - 1) by lia.
  assert (10 ^ (Z.of_nat (String.length buf) - 1) * delta ≤ dec_value 0 buf * U); [|lia].
  apply Z.mul_le_mono_nonneg; try lia.
Qed.

Section digit_gen.
Context (Mp delta dist s : Z).
Hypothesis Hs : 0 ≤ s ≤ 60.
Hypothesis Hdist : 0 ≤ dist ≤ delta.
Hypothesis Hdelta : 0 < delta < Mp.
Hypothesis HMp : Mp < 2 ^ 64.
Let one := 2 ^ s.

Lemma one_pos : 0 < one.
Proof. apply Z.pow_pos_nonneg; lia. Qed.

Lemma integral_digits_spec n p1 p2 pow10 buf :
  all_digits buf = true → head_ok buf = true →
  0 ≤ p1 < 10 ^ Z.of_nat n → 0 ≤ p2 < one →
  pow10 = 10 ^ Z.of_nat n / 10 → (buf = "" → pow10 ≤ p1) → delta < p1 * one + p2 →
  (n = 0%nat → buf ≠ "") →
  Mp = dec_value 0 buf * (10 ^ Z.of_nat n * one) + (p1 * one + p2) →
  match integral_digits n p1 p2 pow10 delta dist s buf with
  | inl (buf', n') => 0 ≤ n' ∧ generated Mp delta one buf' n'
  | inr buf' => all_digits buf' = true ∧ head_ok buf' = true ∧ buf' ≠ ""
      ∧ delta < p2 ∧ Mp = dec_value 0 buf' * one + p2
  end.
Proof.
  pose proof one_pos as Hone. revert p1 pow10 buf.
  induction n as [|n IH]; intros p1 pow10 buf Ha Hh Hp1 Hp2 -> Hlead Hgt Hne HM; cbn [integral_digits].
  { change (10 ^ Z.of_nat 0) with 1 in *. assert (p1 = 0) as -> by lia.
    split_and!; [exact Ha|exact Hh|exact (Hne eq_refl)|lia|lia]. }
  rewrite Nat2Z.inj_succ, Z.pow_succ_r in * by lia.
  assert (HP : 0 < 10 ^ Z.of_nat n) by (apply Z.pow_pos_nonneg; lia).
  rewrite (Z.mul_comm 10 (10 ^ Z.of_nat n)), Z.div_mul in * by lia.
  destruct (div_digit p1 _ HP) as (d & r & -> & -> & Hdm & Hr & Hd); [lia|].
  rewrite !Z.shiftl_mul_pow2 by lia. fold one.
  pose proof (dec_value_nonneg buf 0 Ha ltac:(lia)) as Hv.
  destruct (digit_step one (10 ^ Z.of_nat n) p1 p2 d r (dec_value 0 buf) Mp)
    as (Hrest & HM' & Hd1); try assumption; try lia.
  rewrite (wrap_small 64 (r * one + p2)) by lia.
  assert (Hput : digits (put_digit buf d) (dec_value 0 buf * 10 + d) d (S (String.length buf))).
  { apply put_digit_digits; [assumption..|]. intros Hb. specialize (Hlead Hb). intros ->. lia. }
  destruct (r * one + p2 <=? delta) eqn:E; zify_cmp.
  - assert (HU : 10 ^ Z.of_nat n * one < 2 ^ 64) by (apply Z.le_lt_trans with Mp; [apply Hd1; lia|lia]).
    assert (HU0 : 0 < 10 ^ Z.of_nat n * one) by (apply Z.mul_pos_pos; assumption).
    assert (Hsh : 10 ^ (Z.of_nat (S (String.length buf)) - 2) * delta ≤ Mp).
    { apply (short_step buf (10 ^ Z.of_nat n * 10 * one) _ _ (p1 * one + p2)); [assumption..| |lia|lia].
      assert (p1 * one ≤ (10 ^ Z.of_nat n * 10 - 1) * one) by (apply Z.mul_le_mono_nonneg_r; lia). lia. }
    rewrite (wrap_small 64 (_ * one)) by lia.
    destruct (grisu2_round_spec dist delta (10 ^ Z.of_nat n * one) ltac:(lia) HU0 _ _ _ _ (r * one + p2) Hput)
      as (j & L & Hj & [Ha' Hv' [b Hb] HL Hh' Hlen] & Hle); [lia|lia|lia|].
    split; [lia|]. constructor; try assumption.
    + rewrite Hb. destruct b; discriminate.
    + rewrite Hv', (Z.max_r (- _)), (Z.max_l (Z.of_nat n)) by lia. lia.
    + rewrite Hv', (Z.max_r (- _)), (Z.max_l (Z.of_nat n)) by lia. lia.
    + rewrite Hlen. exact Hsh.
  - destruct Hput as [Ha' Hv' [b Hb] _ Hh' _].
    assert (Hne' : put_digit buf d ≠ "") by (rewrite Hb; destruct b; discriminate).
    apply IH; [exact Ha'|exact Hh'|exact Hr|exact Hp2|reflexivity|intros; contradiction|exact E|auto|].
    rewrite Hv'. exact HM'.
Qed.

Lemma fractional_digits_spec fuel p2 m buf :
  all_digits buf = true → head_ok buf = true → buf ≠ "" → 0 ≤ m →
  delta * 10 ^ m < p2 < one → Mp * 10 ^ m = dec_value 0 buf * one + p2 →
  one ≤ delta * 10 ^ m * 10 ^ Z.of_nat fuel →
  ∃ buf' m', fractional_digits fuel p2 (delta * 10 ^ m) (dist * 10 ^ m) s m buf = Ok (buf', m')
    ∧ 0 < m' ∧ generated Mp delta one buf' (- m').
Proof.
  pose proof one_pos as Hone.
  assert (Hbig : one * 10 < 2 ^ 64).
  { assert (one ≤ 2 ^ 60) by (apply Z.pow_le_mono_r; lia). lia. }
  revert p2 m buf. induction fuel as [|fuel IH]; intros p2 m buf Ha Hh Hne Hm Hp2 HM Hfuel.
  { change (10 ^ Z.of_nat 0) with 1 in Hfuel. lia. }
  cbn [fractional_digits]. rewrite Nat2Z.inj_succ, Z.pow_succ_r in Hfuel by lia.
  assert (HPm : 0 < 10 ^ m) by (apply Z.pow_pos_nonneg; lia).
  assert (H10 : 10 ^ (m + 1) = 10 ^ m * 10) by (rewrite Z.pow_add_r, Z.pow_1_r by lia; ring).
  assert (Hd0 : 0 ≤ dist * 10 ^ m ≤ delta * 10 ^ m)
    by (split; [apply Z.mul_nonneg_nonneg|apply Z.mul_le_mono_nonneg_r]; lia).
  rewrite !wrap_small by lia. rewrite Z.shiftl_1_l, Z.shiftr_div_pow2 by lia. fold one.
  replace (one - 1) with (Z.ones s) by (rewrite Z.ones_equiv; unfold one; lia).
  rewrite Z.land_ones by lia. fold one.
  destruct (div_digit (p2 * 10) one Hone) as (d & r & -> & -> & Hdm & Hr & Hd); [lia|].
  assert (Hput : digits (put_digit buf d) (dec_value 0 buf * 10 + d) d (S (String.length buf)))
    by (apply put_digit_digits; [assumption..|intros; contradiction]).
  pose proof (dec_value_nonneg buf 0 Ha ltac:(lia)) as Hv.
  assert (HM' : Mp * 10 ^ (m + 1) = (dec_value 0 buf * 10 + d) * one + r) by (rewrite H10; lia).
  replace (delta * 10 ^ m * 10) with (delta * 10 ^ (m + 1)) by (rewrite H10; ring).
  replace (dist * 10 ^ m * 10) with (dist * 10 ^ (m + 1)) by (rewrite H10; ring).
  destruct (r <=? delta * 10 ^ (m + 1)) eqn:E; zify_cmp.
  - assert (Hsh : 10 ^ (Z.of_nat (S (String.length buf)) - 2) * delta ≤ Mp).
    { assert (10 ^ (Z.of_nat (S (String.length buf)) - 2) * (delta * 10 ^ m) ≤ Mp * 10 ^ m)
        by (apply (short_step buf one _ _ p2); [assumption..|lia|lia|lia]).
      apply (Z.mul_le_mono_pos_r _ _ (10 ^ m)); lia. }
    destruct (grisu2_round_spec (dist * 10 ^ (m + 1)) (delta * 10 ^ (m + 1)) one ltac:(lia) Hone _ _ _ _ r Hput)
      as (j & L & Hj & [Ha' Hv' [b Hb] HL Hh' Hlen] & Hle); [lia|lia|nia|].
    eexists _, _. split; [reflexivity|]. split; [lia|]. constructor; try assumption.
    + rewrite Hb. destruct b; discriminate.
    + rewrite Hv', Z.opp_involutive, (Z.max_l (m + 1)), (Z.max_r (- _)) by lia. lia.
    + rewrite Hv', Z.opp_involutive, (Z.max_l (m + 1)), (Z.max_r (- _)) by lia. lia.
    + rewrite Hlen. exact Hsh.
  - destruct Hput as [Ha' Hv' [b Hb] _ Hh' _].
    apply IH; [exact Ha'|exact Hh'|rewrite Hb; destruct b; discriminate|lia|lia| |].
    + rewrite Hv'. exact HM'.
    + rewrite H10. lia.
Qed.
End digit_gen.

(** Digit generation ends for every interval, and what it generates is a
    decimal number between [M_minus] and [M_plus], without leading zeros and
    with at most one digit more than the width of the interval asks for: [s]
    is minus the common binary exponent, between 32 and 60 as the cached power
    ensures. *)
Lemma digit_gen_correct k Mm w Mp s :
  32 ≤ s ≤ 60 → 0 < Mm < Mp → Mm ≤ w ≤ Mp → 2 ^ s ≤ Mp < 2 ^ 64 →
  ∃ buf e, grisu2_digit_gen k (Diyfp Mm (- s)) (Diyfp w (- s)) (Diyfp Mp (- s)) = Ok (buf, k + e)
    ∧ generated Mp (Mp - Mm) (2 ^ s) buf e.
Proof.
  intros Hs HM Hw Hp. unfold grisu2_digit_gen, diyfp_sub. cbn [df de].
  rewrite Z.opp_involutive, !(wrap_small 64) by lia. rewrite Z.shiftl_1_l.
  replace (2 ^ s - 1) with (Z.ones s) by (rewrite Z.ones_equiv; lia).
  rewrite Z.land_ones, Z.shiftr_div_pow2 by lia.
  assert (Hone : 0 < 2 ^ s) by (apply Z.pow_pos_nonneg; lia).
  assert (H64 : 2 ^ 64 = 2 ^ (64 - s) * 2 ^ s) by (rewrite <-Z.pow_add_r by lia; f_equal; lia).
  assert (H32 : 2 ^ (64 - s) ≤ 2 ^ 32) by (apply Z.pow_le_mono_r; lia).
  pose proof (Z.div_mod Mp (2 ^ s) ltac:(lia)) as Hdm.
  pose proof (Z.mod_pos_bound Mp (2 ^ s) Hone) as Hr.
  assert (Hp1 : 0 < Mp / 2 ^ s < 2 ^ 32).
  { split; [apply Z.div_str_pos; lia|].
    apply Z.lt_le_trans with (2 ^ (64 - s)); [|lia]. apply Z.div_lt_upper_bound; lia. }
  rewrite wrap_small by lia.
  destruct (find_largest_pow10_spec _ Hp1) as (n & pow10 & -> & Epow & Hlo & Hhi).
  set (p1 := Mp / 2 ^ s) in *. set (p2 := Mp mod 2 ^ s) in *. clearbody p1 p2.
  pose proof (integral_digits_spec Mp (Mp - Mm) (Mp - w) s ltac:(lia) ltac:(lia) ltac:(lia) ltac:(lia)
    (S n) p1 p2 pow10 "" eq_refl eq_refl ltac:(lia) Hr) as Hint.
  destruct (integral_digits _ _ _ _ _ _ _ _) as [[buf e]|buf].
  - exists buf, e. split; [reflexivity|]. apply Hint; [|lia|lia|discriminate|simpl; lia].
    rewrite Nat2Z.inj_succ, Z.pow_succ_r, Z.mul_comm, Z.div_mul by lia. exact Epow.
  - destruct Hint as (Ha & Hh & Hne & Hlt & HB); [|lia|lia|discriminate|simpl; lia|].
    { rewrite Nat2Z.inj_succ, Z.pow_succ_r, Z.mul_comm, Z.div_mul by lia. exact Epow. }
    destruct (fractional_digits_spec Mp (Mp - Mm) (Mp - w) s ltac:(lia) ltac:(lia) ltac:(lia)
      20 p2 0 buf Ha Hh Hne) as (buf' & m & Hrun & Hm & Hgen); [lia|lia|lia| |].
    { assert (2 ^ s ≤ 2 ^ 60) by (apply Z.pow_le_mono_r; lia). rewrite Z.pow_0_r.
      change (10 ^ Z.of_nat 20) with 100000000000000000000. lia. }
    rewrite Z.pow_0_r, !Z.mul_1_r in Hrun. rewrite Hrun. cbn [obind].
    exists buf', (- m). split; [|exact Hgen]. cbn [fst snd]. f_equal; lia.
Qed.
