(* ===== verification/GrisuScale.v ===== *)
(** * Scaling in Grisu2

    The boundaries of a double are computed exactly, the products with the
    cached power are off by less than one unit, so the digits generated between
    the inner bounds [M_minus] and [M_plus] name a number that rounds to the
    double. *)

From stdpp Require Import base gmap strings list.
From Stdlib Require Import ZArith QArith Qpower Lqa Lia.
From S2P Require Import Prelude Cxx JsonValue Rational Grisu GrisuDigits.

(** A positive double m * 2^e. *)
Definition positive_double (m e : Z) : Prop :=
  (0 < m < 2 ^ 52 ∧ e = -1074) ∨ (2 ^ 52 ≤ m < 2 ^ 53 ∧ -1074 ≤ e ≤ 971).

(** Below a power of two the neighbour is half as far. *)
Definition lower_closer (m e : Z) : bool := (m =? 2 ^ 52) && (-1074 <? e).

(** ** Boundaries *)

Lemma norm_unique a n n' : 0 ≤ n → 0 ≤ n' →
  2 ^ 63 ≤ a * 2 ^ n < 2 ^ 64 → 2 ^ 63 ≤ a * 2 ^ n' < 2 ^ 64 → n = n'.
Proof.
  assert (Haux : ∀ i j, 0 ≤ i < j → 2 ^ 63 ≤ a * 2 ^ i → a * 2 ^ j < 2 ^ 64 → False).
  { intros i j Hij H1 H2. assert (2 ^ i * 2 ≤ 2 ^ j).
    { replace (2 ^ i * 2) with (2 ^ (i + 1)) by (rewrite Z.pow_add_r by lia; lia).
      apply Z.pow_le_mono_r; lia. }
    assert (0 < 2 ^ i) by (apply Z.pow_pos_nonneg; lia). assert (0 < a) by nia.
    assert (a * (2 ^ i * 2) ≤ a * 2 ^ j) by (apply Z.mul_le_mono_nonneg_l; lia). lia. }
  intros Hn Hn' H H'. destruct (Z.lt_trichotomy n n') as [Hlt|[Heq|Hlt]]; [|exact Heq|].
  - destruct (Haux n n'); lia.
  - destruct (Haux n' n); lia.
Qed.

Lemma ieee_fields_spec m e :
  positive_double m e →
  let '(E, F) := ieee_fields m e in
  (if E =? 0 then Diyfp F kMinExp else Diyfp (F + kHiddenBit) (E - kBias)) = Diyfp m e
  ∧ (F =? 0) && (1 <? E) = lower_closer m e.
Proof.
  unfold ieee_fields, lower_closer. change kHiddenBit with (2 ^ 52).
  change kMinExp with (-1074). change kBias with 1075. intros [[Hm ->]|[Hm He]].
  - rewrite (proj2 (Z.ltb_lt m (2 ^ 52))) by lia. split; [done|].
    by rewrite !(proj2 (Z.eqb_neq _ _)) by lia.
  - rewrite (proj2 (Z.ltb_ge m (2 ^ 52))) by lia.
    rewrite (proj2 (Z.eqb_neq (e + 1075) 0)) by lia. split; [f_equal; lia|].
    f_equal; apply Bool.eq_true_iff_eq; rewrite ?Z.eqb_eq, ?Z.ltb_lt; lia.
Qed.

(** The three numbers share an exponent: [w] is 2m units of 2^n, [w_plus] one
    more, [w_minus] one unit less, or half of it. *)
Lemma boundaries_spec m e :
  positive_double m e →
  ∃ n h, 9 ≤ n ≤ 62 ∧ h = (if lower_closer m e then 2 ^ (n - 1) else 2 ^ n)
    ∧ 2 ^ 63 ≤ 2 * m * 2 ^ n ∧ (2 * m + 1) * 2 ^ n < 2 ^ 64 ∧ -1137 ≤ e - 1 - n ≤ 960
    ∧ compute_boundaries m e
      = Boundaries (Diyfp (2 * m * 2 ^ n) (e - 1 - n)) (Diyfp (2 * m * 2 ^ n - h) (e - 1 - n))
          (Diyfp ((2 * m + 1) * 2 ^ n) (e - 1 - n)).
Proof.
  intros Hd. unfold compute_boundaries. pose proof (ieee_fields_spec m e Hd) as Hf.
  destruct (ieee_fields m e) as [E F]. destruct Hf as [-> ->]. cbn [df de].
  assert (Hm : 0 < m < 2 ^ 53) by (destruct Hd; lia).
  rewrite !(wrap_small 64) by lia.
  destruct (normalize_spec (Diyfp (2 * m + 1) (e - 1))) as (n & Hn & -> & Hnr); [cbn [df]; lia|].
  destruct (normalize_spec (Diyfp m e)) as (n1 & Hn1 & -> & Hnr1); [cbn [df]; lia|].
  cbn [df de] in *.
  assert (H9 : 9 ≤ n).
  { destruct (Z.le_gt_cases 9 n) as [|Hlt]; [assumption|].
    assert (2 ^ n ≤ 2 ^ 8) by (apply Z.pow_le_mono_r; lia). nia. }
  assert (H62 : n ≤ 62).
  { destruct (Z.le_gt_cases n 62) as [|Hgt]; [assumption|].
    assert (2 ^ 63 ≤ 2 ^ n) by (apply Z.pow_le_mono_r; lia). nia. }
  assert (H63 : 2 ^ 63 = 2 ^ (63 - n) * 2 ^ n) by (rewrite <-Z.pow_add_r by lia; f_equal; lia).
  assert (Hev : 2 ^ (63 - n) = 2 * 2 ^ (62 - n))
    by (replace (63 - n) with (Z.succ (62 - n)) by lia; apply Z.pow_succ_r; lia).
  assert (Hpn : 0 < 2 ^ n) by (apply Z.pow_pos_nonneg; lia).
  assert (H2m : 2 ^ 63 ≤ 2 * m * 2 ^ n).
  { rewrite H63 in *. apply Z.mul_le_mono_nonneg_r; [lia|].
    assert (2 ^ (63 - n) ≤ 2 * m + 1) by (apply (Z.mul_le_mono_pos_r _ _ (2 ^ n)); lia). lia. }
  assert (n1 = n + 1) as ->.
  { apply (norm_unique m); try lia. rewrite Z.pow_add_r, Z.pow_1_r by lia. lia. }
  assert (Hq : -1137 ≤ e - 1 - n ≤ 960).
  { destruct Hd as [[_ ->]|[Hm' He]]; [lia|]. assert (n = 10) as ->; [|lia].
    apply (norm_unique (2 * m + 1)); [lia|lia|lia|]. change (2 ^ 10) with 1024. lia. }
  exists n, (if lower_closer m e then 2 ^ (n - 1) else 2 ^ n).
  assert (Hhalf : 2 ^ n = 2 * 2 ^ (n - 1))
    by (replace n with (Z.succ (n - 1)) at 1 by lia; apply Z.pow_succ_r; lia).
  split_and!; [lia|lia|reflexivity|lia|lia|lia|lia|].
  rewrite Z.pow_add_r, Z.pow_1_r by lia. f_equal; [f_equal; lia|].
  destruct (lower_closer m e); unfold normalize_to; cbn [df de]; f_equal.
  - replace (e - 2 - (e - 1 - n)) with (n - 1) by lia. rewrite Z.shiftl_mul_pow2 by lia.
      rewrite wrap_small; nia.
  - replace (e - 1 - (e - 1 - n)) with n by lia. rewrite Z.shiftl_mul_pow2 by lia.
      rewrite wrap_small; nia.
Qed.

(** ** Products with the cached power *)

(** The rounded product of two significands. *)
Definition product (w f : Z) : Z := (w * f + 2 ^ 63) / 2 ^ 64.

Lemma product_bounds w f : product w f * 2 ^ 64 ≤ w * f + 2 ^ 63 < product w f * 2 ^ 64 + 2 ^ 64.
Proof.
  unfold product. pose proof (Z.div_mod (w * f + 2 ^ 63) (2 ^ 64) ltac:(lia)).
  pose proof (Z.mod_pos_bound (w * f + 2 ^ 63) (2 ^ 64) ltac:(lia)). lia.
Qed.

Lemma diyfp_mul_product w f q c : 0 ≤ w < 2 ^ 64 → 2 ^ 63 ≤ f < 2 ^ 64 →
  diyfp_mul (Diyfp w q) (Diyfp f c) = Diyfp (product w f) (q + c + 64).
Proof. intros Hw Hf. apply diyfp_mul_correct; unfold is_u64; cbn [df]; lia. Qed.

(** What the integers of the digit generation satisfy, for [n], [h] of
    [boundaries_spec] and a normalized [f]. *)
Lemma scaled_ranges m n h f :
  0 < m < 2 ^ 53 → 9 ≤ n ≤ 62 → 2 ^ 63 ≤ 2 * m * 2 ^ n → (2 * m + 1) * 2 ^ n < 2 ^ 64 →
  2 ^ 63 ≤ f < 2 ^ 64 → (h = 2 ^ n ∨ 2 * h = 2 ^ n ∧ m = 2 ^ 52) →
  let Mm := product (2 * m * 2 ^ n - h) f + 1 in
  let Mp := product ((2 * m + 1) * 2 ^ n) f - 1 in
  0 < Mm < Mp ∧ Mm ≤ product (2 * m * 2 ^ n) f ≤ Mp ∧ 2 ^ 61 ≤ Mp < 2 ^ 64 - 1
  ∧ Mp < 10 ^ 16 * (Mp - Mm).
Proof.
  intros Hm Hn Hlo Hhi Hf Hh. cbv zeta.
  pose proof (product_bounds (2 * m * 2 ^ n - h) f) as B1.
  pose proof (product_bounds (2 * m * 2 ^ n) f) as B2.
  pose proof (product_bounds ((2 * m + 1) * 2 ^ n) f) as B3.
  set (x := product _ f) in *. set (y := product (2 * m * 2 ^ n) f) in *.
  set (z := product ((2 * m + 1) * 2 ^ n) f) in *. clearbody x y z.
  assert (H9 : 2 ^ 9 ≤ 2 ^ n) by (apply Z.pow_le_mono_r; lia).
  set (N := 2 ^ n) in *. clearbody N.
  assert (Ha : 2 ^ 9 * 2 ^ 63 ≤ N * f) by (apply Z.mul_le_mono_nonneg; lia).
  assert (Hb : m * (N * f) ≤ (2 ^ 53 - 1) * (N * f)) by (apply Z.mul_le_mono_nonneg_r; lia).
  assert (Hb1 : 1 * (N * f) ≤ m * (N * f)) by (apply Z.mul_le_mono_nonneg_r; lia).
  assert (Hc : 2 ^ 63 * 2 ^ 63 ≤ 2 * m * N * f) by (apply Z.mul_le_mono_nonneg; lia).
  assert (Hd : (2 * m + 1) * N * f ≤ (2 ^ 64 - 1) * (2 ^ 64 - 1)) by (apply Z.mul_le_mono_nonneg; lia).
  assert (Hhf : 2 * (h * f) = N * f ∧ m = 2 ^ 52 ∨ h * f = N * f).
  { destruct Hh as [->|[Hh ->]]; [right; reflexivity|left]. rewrite <-Hh. split; [ring|reflexivity]. }
  replace ((2 * m * N - h) * f) with (2 * (m * (N * f)) - h * f) in B1 by ring.
  replace (2 * m * N * f) with (2 * (m * (N * f))) in * by ring.
  replace ((2 * m + 1) * N * f) with (2 * (m * (N * f)) + N * f) in * by ring.
  set (a := N * f) in *. set (g := h * f) in *. clearbody a g. clear H9 Hlo Hhi Hf Hh N.
  destruct Hhf as [[Hg ->]| ->]; [|set (b := m * a) in *; clearbody b]; lia.
Qed.

(** A product with the cached power is off by less than one unit. *)
Lemma product_error w f ce k :
  0 ≤ w < 2 ^ 64 → power_ok (f, ce, k) = true →
  let unit := (pw 2 ce * inject_Z (2 ^ 64))%Q in
  ((inject_Z (product w f) - 1) * unit < inject_Z w * pw 10 k)%Q
  ∧ (inject_Z w * pw 10 k < (inject_Z (product w f) + 1) * unit)%Q.
Proof.
  intros Hw Hok. unfold power_ok in Hok. cbv zeta in *. apply andb_true_iff in Hok as [_ Hok].
  apply Z.leb_le in Hok.
  set (unit := 2 ^ Z.max ce 0 * 10 ^ Z.max (- k) 0) in *.
  set (T := 10 ^ Z.max k 0 * 2 ^ Z.max (- ce) 0) in *.
  assert (Hunit : 0 < unit) by (apply Z.mul_pos_pos; apply Z.pow_pos_nonneg; lia).
  pose proof (product_bounds w f) as HR. set (R := product w f) in *. clearbody R.
  assert (H1 : unit * (R * 2 ^ 64) ≤ unit * (w * f + 2 ^ 63)) by (apply Z.mul_le_mono_nonneg_l; lia).
  assert (H2 : unit * (w * f + 2 ^ 63) < unit * (R * 2 ^ 64 + 2 ^ 64)) by (apply Z.mul_lt_mono_pos_l; lia).
  assert (H3 : w * (2 * (f * unit - T)) ≤ w * unit) by (apply Z.mul_le_mono_nonneg_l; lia).
  assert (H4 : w * (2 * (T - f * unit)) ≤ w * unit) by (apply Z.mul_le_mono_nonneg_l; lia).
  assert (H5 : w * unit < 2 ^ 64 * unit) by (apply Z.mul_lt_mono_pos_r; lia).
  assert (Hlo : (R - 1) * (unit * 2 ^ 64) < w * T) by lia.
  assert (Hhi : w * T < (R + 1) * (unit * 2 ^ 64)) by lia. clear H1 H2 H3 H4 H5 HR.
  set (den := (inject_Z (2 ^ Z.max (- ce) 0) * inject_Z (10 ^ Z.max (- k) 0))%Q).
  assert (Hden : (0 < den)%Q) by (apply Qmult_lt_0_compat; apply inject_Z_pos, Z.pow_pos_nonneg; lia).
  assert (HU : (pw 2 ce * den == inject_Z unit)%Q).
  { unfold unit, den. rewrite inject_Z_mult, <-(pw_max 2 ce) by lia. ring. }
  assert (HT : (pw 10 k * den == inject_Z T)%Q).
  { unfold T, den. rewrite inject_Z_mult, <-(pw_max 10 k) by lia. ring. }
  to_Q Hlo. to_Q Hhi. rewrite <-HU, <-HT in Hlo, Hhi.
  split; apply (Qmul_lt_inv _ _ den Hden); change (inject_Z 1) with 1%Q in *; lra.
Qed.

(** ** The digits round to the double *)

(** x is strictly between the boundaries of m * 2^e. *)
Definition rounds_to (m e : Z) (x : Q) : Prop :=
  ((inject_Z m - (if lower_closer m e then 1 # 4 else 1 # 2)) * pw 2 e < x)%Q
  ∧ (x < (inject_Z m + (1 # 2)) * pw 2 e)%Q.

(** From the scaled interval back to the interval around the double: [S],
    [P], [Y] and [C] are the scale of the digits, of the cached power, of the
    boundary [w] and of a product. *)
Lemma unscale X S P Y C : (S * (P * Y * C) == 1)%Q → (X * S * (P * C) * Y == X)%Q.
Proof.
  intros HS. transitivity (X * (S * (P * Y * C)))%Q; [ring|]. rewrite HS. ring.
Qed.

Lemma unscale_upper X R w S P Y C T :
  (S * (P * Y * C) == 1)%Q → (0 < P * C)%Q → (0 < Y)%Q →
  (X * S <= R)%Q → (R * (P * C) < w * T)%Q → (X < w * Y * T)%Q.
Proof.
  intros HS HPC HY HX HR. apply (Qmul_le _ _ _ HPC) in HX.
  assert (H : (X * S * (P * C) < w * T)%Q) by (eapply Qle_lt_trans; eassumption).
  apply (Qmul_lt _ _ _ HY) in H. rewrite (unscale X S P Y C HS) in H. lra.
Qed.

Lemma unscale_lower X R w S P Y C T :
  (S * (P * Y * C) == 1)%Q → (0 < P * C)%Q → (0 < Y)%Q →
  (R <= X * S)%Q → (w * T < R * (P * C))%Q → (w * Y * T < X)%Q.
Proof.
  intros HS HPC HY HX HR. apply (Qmul_le _ _ _ HPC) in HX.
  assert (H : (w * T < X * S * (P * C))%Q) by (eapply Qlt_le_trans; eassumption).
  apply (Qmul_lt _ _ _ HY) in H. rewrite (unscale X S P Y C HS) in H. lra.
Qed.

Lemma generated_Q Mp delta s buf k :
  0 ≤ s → generated Mp delta (2 ^ s) buf k →
  (inject_Z (Mp - delta) <= inject_Z (dec_value 0 buf) * pw 10 k * pw 2 s)%Q
  ∧ (inject_Z (dec_value 0 buf) * pw 10 k * pw 2 s <= inject_Z Mp)%Q.
Proof.
  intros Hs [_ _ _ Hlo Hhi _]. rewrite Zle_Qle, !inject_Z_mult in Hlo. rewrite Zle_Qle, !inject_Z_mult in Hhi.
  rewrite <-(pw_max 10 k), <-(pw_Z 2 s) in Hlo, Hhi by lia.
  assert (Hd : (0 < inject_Z (10 ^ Z.max (- k) 0))%Q) by (apply inject_Z_pos, Z.pow_pos_nonneg; lia).
  split; apply (Qmul_le_inv _ _ _ Hd); lra.
Qed.

(** The boundaries as rationals. *)
Lemma boundary_value e n a : 0 ≤ n →
  (inject_Z (a * 2 ^ n) * pw 2 (e - 1 - n) == inject_Z a * (1 # 2) * pw 2 e)%Q.
Proof.
  intros Hn. rewrite inject_Z_mult, <-(pw_Z 2 n) by done.
  assert (He : (pw 2 e == pw 2 (e - 1 - n) * pw 2 n * pw 2 1)%Q).
  { rewrite <-!pw_add by lia. by replace (e - 1 - n + n + 1) with e by lia. }
  rewrite He. assert ((pw 2 1 == 2)%Q) as -> by (rewrite pw_Z by lia; reflexivity). lra.
Qed.

Lemma half_gap_value m e n h : 1 ≤ n → h = (if lower_closer m e then 2 ^ (n - 1) else 2 ^ n) →
  (inject_Z (2 * m * 2 ^ n - h) * pw 2 (e - 1 - n)
   == (inject_Z m - (if lower_closer m e then 1 # 4 else 1 # 2)) * pw 2 e)%Q.
Proof.
  intros Hn ->. destruct (lower_closer m e).
  - assert (Hp : 2 ^ n = 2 * 2 ^ (n - 1))
      by (replace n with (Z.succ (n - 1)) at 1 by lia; apply Z.pow_succ_r; lia).
    replace (2 * m * 2 ^ n - 2 ^ (n - 1)) with ((4 * m - 1) * 2 ^ (n - 1)) by (rewrite Hp; ring).
    replace (e - 1 - n) with (e - 1 - 1 - (n - 1)) by lia. rewrite boundary_value by lia.
    assert (He : (pw 2 e == pw 2 (e - 1) * pw 2 1)%Q).
    { rewrite <-pw_add by lia. by replace (e - 1 + 1) with e by lia. }
    rewrite He. assert ((pw 2 1 == 2)%Q) as -> by (rewrite pw_Z by lia; reflexivity).
    rewrite inject_Z_minus, inject_Z_mult. change (inject_Z 4) with 4%Q. change (inject_Z 1) with 1%Q. lra.
  - replace (2 * m * 2 ^ n - 2 ^ n) with ((2 * m - 1) * 2 ^ n) by ring.
    rewrite boundary_value by lia. rewrite inject_Z_minus, inject_Z_mult.
    change (inject_Z 2) with 2%Q. change (inject_Z 1) with 1%Q. lra.
Qed.

Lemma rounds_to_eq m e x y : (x == y)%Q → rounds_to m e y → rounds_to m e x.
Proof. intros H. unfold rounds_to. by rewrite H. Qed.

Lemma scaled_rounds m e n h f ce k X :
  1 ≤ n → h = (if lower_closer m e then 2 ^ (n - 1) else 2 ^ n) →
  0 ≤ 2 * m * 2 ^ n - h < 2 ^ 64 → 0 ≤ (2 * m + 1) * 2 ^ n < 2 ^ 64 → power_ok (f, ce, k) = true →
  let s := - (e - 1 - n + ce + 64) in
  (inject_Z (product (2 * m * 2 ^ n - h) f + 1) <= X * pw 2 s)%Q →
  (X * pw 2 s <= inject_Z (product ((2 * m + 1) * 2 ^ n) f - 1))%Q →
  rounds_to m e (X * pw 10 (- k)).
Proof.
  intros Hn Hh Hlo Hhi Hok s H1 H2.
  destruct (product_error _ _ _ _ Hlo Hok) as [_ E1]. destruct (product_error _ _ _ _ Hhi Hok) as [E2 _].
  cbv zeta in E1, E2. rewrite inject_Z_plus in H1. rewrite inject_Z_minus in H2.
  assert (HS : (pw 2 s * (pw 2 ce * pw 2 (e - 1 - n) * inject_Z (2 ^ 64)) == 1)%Q).
  { rewrite <-(pw_Z 2 64), <-!pw_add by lia. unfold s.
    by replace (- (e - 1 - n + ce + 64) + (ce + (e - 1 - n) + 64)) with 0 by lia. }
  assert (HPC : (0 < pw 2 ce * inject_Z (2 ^ 64))%Q)
    by (apply Qmult_lt_0_compat; [apply pw_pos; lia|apply inject_Z_pos; lia]).
  pose proof (pw_pos 2 (e - 1 - n) ltac:(lia)) as HY.
  pose proof (unscale_lower _ _ _ _ _ _ _ _ HS HPC HY H1 E1) as L.
  pose proof (unscale_upper _ _ _ _ _ _ _ _ HS HPC HY H2 E2) as U.
  rewrite half_gap_value in L by assumption. rewrite boundary_value in U by lia.
  rewrite inject_Z_plus, inject_Z_mult in U. change (inject_Z 2) with 2%Q in U.
  change (inject_Z 1) with 1%Q in U.
  pose proof (pw_pos 10 (- k) ltac:(lia)) as HT. pose proof (pw_opp 10 k ltac:(lia)) as HI.
  apply (Qmul_lt _ _ _ HT) in L, U.
  assert (Hc : ∀ A : Q, (A * pw 10 k * pw 10 (- k) == A)%Q).
  { intros A. transitivity (A * (pw 10 (- k) * pw 10 k))%Q; [ring|]. rewrite HI. ring. }
  rewrite Hc in L, U. split; lra.
Qed.

(** [grisu2] ends on every positive double with at most 17 digits, without
    leading zeros, of a decimal number strictly between the boundaries of the
    double. *)
Lemma grisu2_correct m e :
  positive_double m e →
  ∃ buf k, grisu2 m e = Ok (buf, k)
    ∧ all_digits buf = true ∧ head_ok buf = true ∧ buf ≠ "" ∧ (String.length buf ≤ 17)%nat
    ∧ rounds_to m e (inject_Z (dec_value 0 buf) * pw 10 k).
Proof.
  intros Hd. destruct (boundaries_spec m e Hd) as (n & h & Hn & Hh & Hlo & Hhi & Hq & Hb).
  unfold grisu2. rewrite Hb. cbn [b_minus b_w b_plus]. unfold grisu2_scaled. cbn [de].
  destruct (cached_power_correct _ Hq) as [_ [Hok Hs]]. cbv zeta in Hok, Hs.
  destruct (get_cached_power_for_binary_exponent _) as [f ce k]. cbn [c_f c_e c_k] in *.
  unfold kAlpha, kGamma in Hs.
  assert (Hf : 2 ^ 63 ≤ f < 2 ^ 64) by (unfold power_ok in Hok; cbv zeta in Hok; zify_cmp; lia).
  assert (Hm : 0 < m < 2 ^ 53) by (destruct Hd; lia).
  assert (Hpn : 0 < 2 ^ (n - 1) ∧ 2 ^ n = 2 * 2 ^ (n - 1)).
  { split; [apply Z.pow_pos_nonneg; lia|].
    replace n with (Z.succ (n - 1)) at 1 by lia; apply Z.pow_succ_r; lia. }
  assert (Hh0 : 0 < h ≤ 2 ^ n) by (subst h; destruct (lower_closer m e); lia).
  destruct (scaled_ranges m n h f) as (R1 & R2 & R3 & R4); try lia.
  { subst h. destruct (lower_closer m e) eqn:El; [right|left; reflexivity]. unfold lower_closer in El.
    zify_cmp. split; [lia|assumption]. }
  rewrite !diyfp_mul_product by lia. cbn [df de].
  rewrite !wrap_small by lia.
  set (s := - (e - 1 - n + ce + 64)). replace (e - 1 - n + ce + 64) with (- s) by lia.
  assert (H60 : 2 ^ s ≤ 2 ^ 60) by (apply Z.pow_le_mono_r; lia).
  destruct (digit_gen_correct (- k) (product (2 * m * 2 ^ n - h) f + 1) (product (2 * m * 2 ^ n) f)
    (product ((2 * m + 1) * 2 ^ n) f - 1) s) as (buf & j & Hrun & Hgen); [lia|lia|lia|lia|].
  exists buf, (- k + j). pose proof Hgen as [Ha Hhd Hne _ _ Hsh]. split_and!; try assumption.
  { apply Nat2Z.inj_le. destruct (Z.le_gt_cases (Z.of_nat (String.length buf)) 17) as [|Hlen]; [lia|].
    assert (10 ^ 16 ≤ 10 ^ (Z.of_nat (String.length buf) - 2)) by (apply Z.pow_le_mono_r; lia). nia. }
  destruct (generated_Q _ _ s _ _ ltac:(lia) Hgen) as [G1 G2].
  eapply rounds_to_eq; [|eapply (scaled_rounds m e n h f ce k); [lia|exact Hh|lia|lia|exact Hok| |exact G2]].
  - rewrite pw_add by lia. ring.
  - match type of G1 with (inject_Z ?a <= _)%Q => replace a with (product (2 * m * 2 ^ n - h) f + 1) in G1 by lia end.
    exact G1.
Qed.
