(* ===== verification/JsonDump.v ===== *)
(** * Serialization (json.hpp, [class serializer])

    [dump] and its helpers, writing to the output adapter through the
    512-byte [string_buffer].  A write past the end of a buffer is
    [Undefined], so a proof that a call returns or throws is also a proof of
    its memory safety.  [escape] is the reference definition: the automaton
    with its buffer computes it exactly on the well-formed UTF-8 strings. *)

From stdpp Require Import base gmap strings list.
From Stdlib Require Import ZArith Ascii Lia.
From S2P Require Import Prelude Cxx StdMap JsonValue Grisu Utf8.

(** The output and the length of [indent_string] (spaces only). *)
Record serializer : Type := Ser {
  o : string;
  indent_string : Z;
}.

Definition serializer_init : serializer := Ser "" 512.

Definition write_characters (s : string) : M exn serializer unit :=
  modify (λ st, Ser (o st +:+ s) (indent_string st)).
Definition write_character (c : ascii) : M exn serializer unit :=
  write_characters (String c "").

(** [o->write_characters(indent_string.c_str(), n)]. *)
Definition write_indent (n : Z) : M exn serializer unit :=
  st <- get_state ;;
  if n <=? indent_string st then write_characters (str_repeat (Z.to_nat n) " ")
  else lift Undefined.

(** ** Hexadecimal, as [snprintf] prints it *)

Definition hex_digit (upper : bool) (d : Z) : ascii :=
  char_of (if d <? 10 then 48 + d else (if upper then 55 else 87) + d).

Definition hex4 (z : Z) : string :=
  let d k := hex_digit false (Z.land (Z.shiftr z k) 0xF) in
  String (d 12) (String (d 8) (String (d 4) (String (d 0) ""))).

Definition hex2_upper (z : Z) : string :=
  String (hex_digit true (z / 16)) (String (hex_digit true (z mod 16)) "").

(** ** Escaping *)

Definition backslash : ascii := "\"%char.

Definition unicode_escape (cp : Z) : string :=
  String backslash (String "u" (hex4 (wrap 16 cp))).

Definition string_buffer_size : Z := 512.

(** Append [s] to the buffer; [room] bytes are written, a terminating NUL of
    [snprintf] included. *)
Definition buffer_put (buf s : string) (room : Z) : M exn serializer string :=
  if Z.of_nat (String.length buf) + room <=? string_buffer_size
  then ret (buf +:+ s) else lift Undefined.

(** The [switch] on an accepted code point; [c] is the byte just read. *)
Definition put_codepoint (ensure_ascii : bool) (codepoint : Z) (c : ascii) (buf : string)
    : M exn serializer string :=
  let two x := buffer_put buf (String backslash (String x "")) 2 in
  if codepoint =? 0x08 then two "b"%char
  else if codepoint =? 0x09 then two "t"%char
  else if codepoint =? 0x0A then two "n"%char
  else if codepoint =? 0x0C then two "f"%char
  else if codepoint =? 0x0D then two "r"%char
  else if codepoint =? 0x22 then two dquote
  else if codepoint =? 0x5C then two backslash
  else if (codepoint <=? 0x1F) || (ensure_ascii && (0x7F <=? codepoint)) then
    if codepoint <=? 0xFFFF then buffer_put buf (unicode_escape codepoint) 7
    else buffer_put buf
           (unicode_escape (0xD7C0 + Z.shiftr codepoint 10) +:+
            unicode_escape (0xDC00 + Z.land codepoint 0x3FF)) 13
  else buffer_put buf (String c "") 1.

(** The loop of [dump_escaped]; it ends with the state and the buffer. *)
Fixpoint dump_escaped_loop (ensure_ascii : bool) (s : string) (i state codepoint : Z)
    (buf : string) : M exn serializer (Z * string) :=
  match s with
  | EmptyString => ret (state, buf)
  | String c s =>
      let byte := byte_of c in
      let '(state, codepoint) := decode state codepoint byte in
      if state =? UTF8_ACCEPT then
        buf <- put_codepoint ensure_ascii codepoint c buf ;;
        if string_buffer_size - Z.of_nat (String.length buf) <? 13 then
          write_characters buf ;;
          dump_escaped_loop ensure_ascii s (i + 1) state codepoint ""
        else dump_escaped_loop ensure_ascii s (i + 1) state codepoint buf
      else if state =? UTF8_REJECT then
        throw (exception_create type_error 316
          ("invalid UTF-8 byte at index " +:+ to_string i +:+ ": 0x" +:+ hex2_upper byte))
      else if negb ensure_ascii then
        buf <- buffer_put buf (String c "") 1 ;;
        dump_escaped_loop ensure_ascii s (i + 1) state codepoint buf
      else dump_escaped_loop ensure_ascii s (i + 1) state codepoint buf
  end.

Definition dump_escaped (s : string) (ensure_ascii : bool) : M exn serializer unit :=
  r <- dump_escaped_loop ensure_ascii s 0 UTF8_ACCEPT 0 "" ;;
  if r.1 =? UTF8_ACCEPT then
    if 0 <? Z.of_nat (String.length r.2) then write_characters r.2 else ret tt
  else throw (exception_create type_error 316 ("incomplete UTF-8 string; last byte: 0x" +:+ "XX")).

(** ** Numbers *)

(** The digits of a non-zero integer, least significant first. *)
Fixpoint dump_digits (fuel : nat) (x : Z) (number_buffer : string) : string :=
  match fuel with
  | O => number_buffer
  | S f =>
      if x =? 0 then number_buffer
      else dump_digits f (Z.quot x 10)
             (String (char_of (48 + Z.abs (Z.rem x 10))) number_buffer)
  end.

(** [dump_integer]: the digits are generated in reverse and then reversed;
    prepending them does both.  A 64-bit integer has at most 20 digits. *)
Definition dump_integer (x : Z) : M exn serializer unit :=
  if x =? 0 then write_character "0"
  else write_characters ((if x <? 0 then "-" else "") +:+ dump_digits 20 x "").

(** [dump_float]: a finite number is printed by [to_chars] (Grisu2). *)
Definition dump_float (x : double) : M exn serializer unit :=
  if negb (isfinite x) then write_characters "null" else write_characters (to_chars x).

(** [indent_string] is doubled when a line starts past its end. *)
Definition grow_indent (new_indent : Z) : M exn serializer unit :=
  modify (λ st, if indent_string st <? new_indent
                then Ser (o st) (indent_string st * 2) else st).

Definition newline : string := String "010" "".

(** The loops over members and elements: [f] serializes a value, [lead] starts
    a line, [sep] follows every element but the last. *)
Definition dump_members (f : json → M exn serializer unit) (lead : M exn serializer unit)
    (colon sep : string) (ensure_ascii : bool) : list (string * json) → M exn serializer unit :=
  fix members m :=
    match m with
    | [] => ret tt
    | (k, v) :: rest =>
        lead ;;
        write_character dquote ;;
        dump_escaped k ensure_ascii ;;
        write_characters (String dquote colon) ;;
        f v ;;
        match rest with
        | [] => ret tt
        | _ => write_characters sep ;; members rest
        end
    end.

Definition dump_items (f : json → M exn serializer unit) (lead : M exn serializer unit)
    (sep : string) : list json → M exn serializer unit :=
  fix items l :=
    match l with
    | [] => ret tt
    | v :: rest =>
        lead ;;
        f v ;;
        match rest with
        | [] => ret tt
        | _ => write_characters sep ;; items rest
        end
    end.

Fixpoint dump (val : json) (pretty_print ensure_ascii : bool)
    (indent_step current_indent : Z) : M exn serializer unit :=
  match val with
  | jobject [] => write_characters "{}"
  | jobject m =>
      if pretty_print then
        write_characters ("{" +:+ newline) ;;
        let new_indent := current_indent + indent_step in
        grow_indent new_indent ;;
        dump_members (λ v, dump v true ensure_ascii indent_step new_indent)
          (write_indent new_indent) ": " ("," +:+ newline) ensure_ascii m ;;
        write_characters newline ;;
        write_indent current_indent ;;
        write_character "}"
      else
        write_character "{" ;;
        dump_members (λ v, dump v false ensure_ascii indent_step current_indent)
          (ret tt) ":" "," ensure_ascii m ;;
        write_character "}"
  | jarray [] => write_characters "[]"
  | jarray l =>
      if pretty_print then
        write_characters ("[" +:+ newline) ;;
        let new_indent := current_indent + indent_step in
        grow_indent new_indent ;;
        dump_items (λ v, dump v true ensure_ascii indent_step new_indent)
          (write_indent new_indent) ("," +:+ newline) l ;;
        write_characters newline ;;
        write_indent current_indent ;;
        write_character "]"
      else
        write_character "[" ;;
        dump_items (λ v, dump v false ensure_ascii indent_step current_indent)
          (ret tt) "," l ;;
        write_character "]"
  | jstring s =>
      write_character dquote ;; dump_escaped s ensure_ascii ;; write_character dquote
  | jboolean b => if b then write_characters "true" else write_characters "false"
  | jnumber_integer z | jnumber_unsigned z => dump_integer z
  | jnumber_float d => dump_float d
  | jdiscarded => write_characters "<discarded>"
  | jnull => write_characters "null"
  end.

(** [basic_json::dump(indent)], with the default indentation character and
    without [ensure_ascii]. *)
Definition json_dump (val : json) (indent : Z) : outcome exn string :=
  let '(r, st) :=
    (if 0 <=? indent then dump val true false (wrap 32 indent) 0
     else dump val false false 0 0) serializer_init in
  obind r (λ _, Ok (o st)).
Example dump_sample :
  json_dump (jobject [("detail", jstring ("a" +:+ String dquote "b")); ("result", jstring "ok")]) 2
  = Ok ("{" +:+ newline +:+ quoted "  |detail|: |a\|b|," +:+ newline +:+
        quoted "  |result|: |ok|" +:+ newline +:+ "}").
Proof. vm_compute. reflexivity. Qed.

Example dump_invalid :
  json_dump (jstring (string_of [0x61; 0xC3; 0x28])) 2
  = Throw (json_exception type_error 316
      "[json.exception.type_error.316] invalid UTF-8 byte at index 2: 0x28").
Proof. vm_compute. reflexivity. Qed.

(** ** The reference: escaping byte by byte *)

Definition escape_char (c : ascii) : string :=
  let b := byte_of c in
  let two x := String backslash (String x "") in
  if b =? 0x08 then two "b"%char
  else if b =? 0x09 then two "t"%char
  else if b =? 0x0A then two "n"%char
  else if b =? 0x0C then two "f"%char
  else if b =? 0x0D then two "r"%char
  else if b =? 0x22 then two dquote
  else if b =? 0x5C then two backslash
  else if b <=? 0x1F then unicode_escape b
  else String c "".

Fixpoint escape (s : string) : string :=
  match s with
  | EmptyString => ""
  | String c s => escape_char c +:+ escape s
  end.

Lemma escape_char_high c : 0x80 ≤ byte_of c → escape_char c = String c "".
Proof.
  intros H. unfold escape_char. repeat case_match; zify_cmp; try done; lia.
Qed.

Lemma length_escape_char c : (1 ≤ String.length (escape_char c) ≤ 6)%nat.
Proof. unfold escape_char. repeat case_match; simpl; lia. Qed.

(** *** Code points of partial sequences

    [cp_ok st cp]: the bits collected in state [st] are large enough that the
    finished code point is not ASCII (no over-long form). *)
Definition cp_ok (st cp : Z) : Prop :=
  (st = 0)
  ∨ (st = 2 ∧ 2 ≤ cp < 2 ^ 16) ∨ (st = 3 ∧ 1 ≤ cp < 2 ^ 10)
  ∨ (st = 4 ∧ cp = 0) ∨ (st = 5 ∧ cp = 0xD) ∨ (st = 6 ∧ cp = 0)
  ∨ (st = 7 ∧ 1 ≤ cp ≤ 3) ∨ (st = 8 ∧ cp = 4).

Lemma join_bits b cp :
  is_byte b → 0 ≤ cp < 2 ^ 20 →
  Z.lor (Z.land b 0x3f) (wrap 32 (Z.shiftl cp 6)) = cp * 64 + b mod 64.
Proof.
  intros Hb Hcp. rewrite Z.shiftl_mul_pow2 by lia. rewrite wrap_small by lia.
  change 0x3f with (Z.ones 6). rewrite Z.land_ones by lia.
  rewrite <-Z.add_nocarry_lor; [change (2 ^ 6) with 64; lia|].
  apply Z.bits_inj'. intros n Hn. rewrite Z.land_spec, Z.bits_0.
  destruct (decide (n < 6)).
  - rewrite Z.mul_pow2_bits_low by lia. apply andb_false_r.
  - rewrite Z.mod_pow2_bits_high by lia. done.
Qed.

Lemma decode_first b :
  is_byte b → dfa 0 b ≠ 1 → ∀ cp,
  cp_ok (dfa 0 b) (decode 0 cp b).2 ∧ (dfa 0 b = 0 → (decode 0 cp b).2 = b ∧ b < 0x80).
Proof.
  intros Hb Hne cp.
  pose proof (forall_byte (λ b, let cp' := Z.land (Z.shiftr 0xff (utf8d_at b)) b in
    let st := dfa 0 b in
    (st =? 1) || ((st =? 0) && (cp' =? b) && (b <? 0x80))
    || ((st =? 2) && (2 <=? cp') && (cp' <? 2 ^ 16))
    || ((st =? 3) && (1 <=? cp') && (cp' <? 2 ^ 10))
    || ((st =? 4) && (cp' =? 0)) || ((st =? 5) && (cp' =? 0xD))
    || ((st =? 6) && (cp' =? 0)) || ((st =? 7) && (1 <=? cp') && (cp' <=? 3))
    || ((st =? 8) && (cp' =? 4))) ltac:(vm_compute; reflexivity) b Hb) as H.
  cbv beta zeta in H. unfold cp_ok.
  change (decode 0 cp b).2 with (Z.land (Z.shiftr 0xff (utf8d_at b)) b).
  revert H Hne. generalize (dfa 0 b) (Z.land (Z.shiftr 0xff (utf8d_at b)) b). intros st cp' H Hne.
  rewrite !orb_true_iff, !andb_true_iff, !Z.eqb_eq, !Z.leb_le, !Z.ltb_lt in H. lia.
Qed.

Lemma decode_next st cp b :
  is_byte b → cp_ok st cp → st ≠ 0 → dfa st b ≠ 1 →
  cp_ok (dfa st b) (decode st cp b).2 ∧ 0x80 ≤ b
  ∧ (dfa st b = 0 → 0x80 ≤ (decode st cp b).2).
Proof.
  intros Hb Hok Hst Hne.
  assert (Hcp : 0 ≤ cp < 2 ^ 20) by (unfold cp_ok in Hok; lia).
  assert (Hj : (decode st cp b).2 = cp * 64 + b mod 64).
  { unfold decode. cbn [snd]. rewrite (proj2 (Z.eqb_neq st UTF8_ACCEPT)) by done.
    by apply join_bits. }
  rewrite Hj. pose proof (Z.mod_pos_bound b 64 ltac:(lia)).
  destruct (dfa_rows b Hb) as (_ & _ & R2 & R3 & R4 & R5 & R6 & R7 & R8).
  unfold is_byte, is_cont, in_range, cp_ok in *.
  destruct Hok as [|[[-> ?]|[[-> ?]|[[-> ?]|[[-> ?]|[[-> ?]|[[-> ?]|[-> ?]]]]]]]];
    [done|rewrite R2 in *|rewrite R3 in *|rewrite R4 in *|rewrite R5 in *
    |rewrite R6 in *|rewrite R7 in *|rewrite R8 in *]; clear R2 R3 R4 R5 R6 R7 R8;
    match goal with |- context [if ?c then _ else _] => destruct c eqn:E end;
    try done; zify_cmp; split_and!; try lia.
  all: assert (b mod 64 = b - 128) by (symmetry; apply Z.mod_unique with 2; lia); lia.
Qed.

(** Bytes of an unfinished sequence that may already sit in the buffer. *)
Definition pend (st : Z) : Z :=
  if st =? 0 then 0 else if st =? 2 then 3 else if st =? 3 then 2 else 1.

Lemma buffer_put_ok buf s room ser :
  Z.of_nat (String.length buf) + room ≤ 512 →
  buffer_put buf s room ser = (Ok (buf +:+ s), ser).
Proof.
  intros H. unfold buffer_put, string_buffer_size. by rewrite (proj2 (Z.leb_le _ _) H).
Qed.

(** A code point that is finished fits, and is the escaped last byte. *)
Lemma put_codepoint_ok st cp c buf ser :
  (st = 0 ∧ cp = byte_of c ∧ Z.of_nat (String.length buf) ≤ 499)
  ∨ (st ≠ 0 ∧ 0x80 ≤ cp ∧ 0x80 ≤ byte_of c ∧ Z.of_nat (String.length buf) ≤ 502) →
  put_codepoint false cp c buf ser = (Ok (buf +:+ escape_char c), ser).
Proof.
  intros [(-> & -> & Hl)|(Hst & Hcp & Hc & Hl)].
  - unfold put_codepoint, escape_char. simpl. rewrite orb_false_r.
    pose proof (byte_of_range c).
    repeat case_match; zify_cmp; try lia; by rewrite buffer_put_ok by lia.
  - rewrite escape_char_high by done. unfold put_codepoint. rewrite andb_false_l, orb_false_r.
    repeat case_match; zify_cmp; try lia. by rewrite buffer_put_ok by lia.
Qed.

Lemma escape_cons c s : escape (String c s) = escape_char c +:+ escape s.
Proof. done. Qed.

(** The exceptions of [dump_escaped]. *)
Definition is_type_error_316 {A} (r : outcome exn A) : Prop :=
  ∃ msg, r = Throw (json_exception type_error 316 msg).

Lemma decode_cases st cp b :
  is_byte b → cp_ok st cp → dfa st b ≠ 1 →
  cp_ok (dfa st b) (decode st cp b).2
  ∧ (dfa st b = 0 → st = 0 ∧ (decode st cp b).2 = b ∨ st ≠ 0 ∧ 0x80 ≤ (decode st cp b).2 ∧ 0x80 ≤ b)
  ∧ (dfa st b ≠ 0 → 0x80 ≤ b ∧ 1 + pend st ≤ pend (dfa st b) ∧ pend st ≤ 2).
Proof.
  intros Hb Hok Hne. destruct (decide (st = 0)) as [->|Hst].
  - destruct (decode_first b Hb Hne cp) as [H1 H2]. split_and!; [done|naive_solver|].
    intros Hn. destruct (dfa_rows b Hb) as [R0 _]. rewrite R0 in *.
    unfold dfa_accept_row, in_range, is_byte in *. unfold pend.
    repeat case_match; zify_cmp; try done; lia.
  - destruct (decode_next st cp b Hb Hok Hst Hne) as (H1 & H2 & H3).
    split_and!; [done|naive_solver|]. intros Hn. split; [done|].
    destruct (dfa_rows b Hb) as (_ & _ & R2 & R3 & R4 & R5 & R6 & R7 & R8).
    unfold cp_ok in Hok.
    destruct Hok as [|[[-> ?]|[[-> ?]|[[-> ?]|[[-> ?]|[[-> ?]|[[-> ?]|[-> ?]]]]]]]];
      [done|rewrite R2 in *|rewrite R3 in *|rewrite R4 in *|rewrite R5 in *
      |rewrite R6 in *|rewrite R7 in *|rewrite R8 in *];
      match goal with |- context [if ?c then _ else _] => destruct c eqn:E end;
      simpl in *; try done; vm_compute; intuition congruence.
Qed.

(** The loop invariant: what is written plus what is buffered is the escaped
    prefix, the buffer never overflows, and a rejected byte throws. *)
Lemma dump_escaped_loop_spec s : ∀ i st cp buf out ind,
  cp_ok st cp → Z.of_nat (String.length buf) ≤ 499 + pend st →
  if dfa_run st (bytes_of s) =? 1 then
    ∃ out', ∃ msg, dump_escaped_loop false s i st cp buf (Ser out ind)
      = (Throw (json_exception type_error 316 msg), Ser out' ind)
  else
    ∃ out' buf', dump_escaped_loop false s i st cp buf (Ser out ind)
      = (Ok (dfa_run st (bytes_of s), buf'), Ser out' ind)
    ∧ out' +:+ buf' = out +:+ buf +:+ escape s.
Proof.
  induction s as [|c s IH]; intros i st cp buf out ind Hok Hbuf.
  { simpl. assert (st ≠ 1) by (unfold cp_ok in Hok; lia).
    rewrite (proj2 (Z.eqb_neq st 1)) by done.
    exists out, buf. by rewrite append_nil_r. }
  pose proof (byte_of_range c) as Hb. change (is_byte (byte_of c)) in Hb.
  cbn [bytes_of]. change (dfa_run st (byte_of c :: bytes_of s))
    with (dfa_run (dfa st (byte_of c)) (bytes_of s)).
  cbn [dump_escaped_loop]. destruct (decode st cp (byte_of c)) as [st' cp'] eqn:Ed.
  assert (Hst' : st' = dfa st (byte_of c)) by (by rewrite <-(decode_state _ cp), Ed).
  rewrite <-Hst'. destruct (decide (st' = 1)) as [->|Hne].
  { rewrite dfa_run_reject by auto with cxx. simpl. by eexists _, _. }
  rewrite Hst' in Hne. destruct (decode_cases st cp (byte_of c) Hb Hok Hne) as (H1 & H2 & H3).
  rewrite <-Hst' in H1, H2, H3. rewrite Ed in H1, H2. cbn [snd] in *. rewrite <-Hst' in Hne.
  destruct (decide (st' = 0)) as [->|Hnz].
  - rewrite Z.eqb_refl.
    rewrite (bind_run _ _ _ (buf +:+ escape_char c) (Ser out ind)).
    2: { apply (put_codepoint_ok st). destruct (H2 eq_refl) as [[-> ->]|(? & ? & ?)].
         - left. unfold pend in Hbuf. simpl in Hbuf. split_and!; [done|done|lia].
         - right. split_and!; try done. unfold pend in Hbuf. repeat case_match; lia. }
    destruct (string_buffer_size - _ <? 13) eqn:Efl; zify_cmp.
    + specialize (IH (i + 1) 0 cp' "" (out +:+ buf +:+ escape_char c) ind
        ltac:(by left) ltac:(by vm_compute)).
      destruct (dfa_run 0 (bytes_of s) =? 1); [done|].
      destruct IH as (out' & buf' & Hrun & Heq). exists out', buf'. split; [exact Hrun|].
      rewrite Heq. simpl. by rewrite !append_assoc.
    + specialize (IH (i + 1) 0 cp' (buf +:+ escape_char c) out ind
        ltac:(by left) ltac:(unfold string_buffer_size, pend in *; simpl; lia)).
      destruct (dfa_run 0 (bytes_of s) =? 1); [done|].
      destruct IH as (out' & buf' & Hrun & Heq). exists out', buf'. split; [exact Hrun|].
      rewrite Heq. simpl. by rewrite !append_assoc.
  - rewrite (proj2 (Z.eqb_neq st' UTF8_ACCEPT)), (proj2 (Z.eqb_neq st' UTF8_REJECT)) by done.
    destruct (H3 Hnz) as (Hhi & Hp & Hp2). cbn [negb].
    rewrite (bind_run _ _ _ (buf +:+ String c "") (Ser out ind)) by (apply buffer_put_ok; lia).
    specialize (IH (i + 1) st' cp' (buf +:+ String c "") out ind H1
      ltac:(rewrite length_append; simpl; lia)).
    destruct (dfa_run st' (bytes_of s) =? 1); [done|].
    destruct IH as (out' & buf' & Hrun & Heq). exists out', buf'. split; [exact Hrun|].
    rewrite Heq, escape_cons, escape_char_high, !append_assoc by done. done.
Qed.

(** [dump_escaped] writes the reference escaping of a well-formed string and
    throws [type_error] 316 on any other; it never overruns its buffer. *)
Lemma dump_escaped_ok s out ind :
  utf8_string s = true →
  dump_escaped s false (Ser out ind) = (Ok tt, Ser (out +:+ escape s) ind).
Proof.
  intros Hu. rewrite <-accepts_utf8_string in Hu. unfold accepts in Hu. apply Z.eqb_eq in Hu.
  pose proof (dump_escaped_loop_spec s 0 0 0 "" out ind ltac:(by left) ltac:(by vm_compute)) as H.
  unfold UTF8_ACCEPT in *. rewrite Hu in H. cbn [Z.eqb] in H.
  destruct H as (out' & buf' & Hrun & Heq). simpl in Heq.
  unfold dump_escaped. rewrite (bind_run _ _ _ _ _ Hrun). cbn [fst snd].
  rewrite Z.eqb_refl. destruct buf' as [|c buf']; [simpl; by rewrite <-Heq, append_nil_r|].
  simpl. unfold write_characters, modify. simpl. by rewrite Heq.
Qed.

Lemma dump_escaped_err s ser :
  utf8_string s = false → is_type_error_316 (dump_escaped s false ser).1.
Proof.
  destruct ser as [out ind]. intros Hu. rewrite <-accepts_utf8_string in Hu.
  unfold accepts in Hu. apply Z.eqb_neq in Hu.
  pose proof (dump_escaped_loop_spec s 0 0 0 "" out ind ltac:(by left) ltac:(by vm_compute)) as H.
  unfold dump_escaped, bind, UTF8_ACCEPT in *.
  destruct (dfa_run 0 (bytes_of s) =? 1) eqn:E.
  - destruct H as (out' & msg & ->). by exists msg.
  - destruct H as (out' & buf' & -> & _). cbn [fst snd].
    rewrite (proj2 (Z.eqb_neq _ 0)) by done. by eexists.
Qed.

(** [dump_escaped] writes exactly the escaped text of a well-formed
    string, whatever its length and without writing past its 512-byte buffer,
    and throws [type_error] 316 for every other string. *)
Theorem dump_escaped_correct s out ind :
  if utf8_string s
  then dump_escaped s false (Ser out ind) = (Ok tt, Ser (out +:+ escape s) ind)
  else ∃ msg, (dump_escaped s false (Ser out ind)).1 = Throw (json_exception type_error 316 msg).
Proof.
  destruct (utf8_string s) eqn:E; [by apply dump_escaped_ok|by apply dump_escaped_err].
Qed.
