(* ===== verification/JsonRender.v ===== *)
(** * What [dump] prints

    [render] is the text of a value as a pure function.  [dump_writes] shows
    that the serializer, with its buffers, its growing indentation string and
    its UTF-8 automaton, prints exactly this text when every string of the
    value is well-formed UTF-8, and throws [type_error] 316 otherwise. *)

From stdpp Require Import base gmap strings list.
From Stdlib Require Import ZArith Ascii Lia.
From S2P Require Import Prelude Cxx StdMap JsonValue Grisu Utf8 JsonDump.

Fixpoint strings_ok (v : json) : bool :=
  match v with
  | jobject m => forallb (λ kv, utf8_string kv.1 && strings_ok kv.2) m
  | jarray l => forallb strings_ok l
  | jstring s => utf8_string s
  | _ => true
  end.

(** Numbers are in the range of their C++ type. *)
Fixpoint numbers_ok (v : json) : bool :=
  match v with
  | jobject m => forallb (λ kv, numbers_ok kv.2) m
  | jarray l => forallb numbers_ok l
  | jnumber_integer z => (- 2 ^ 63 <=? z) && (z <? 2 ^ 63)
  | jnumber_unsigned z => (0 <=? z) && (z <? 2 ^ 64)
  | _ => true
  end.

Definition render_string (s : string) : string :=
  String dquote (escape s +:+ String dquote "").

Definition render_members (f : json → string) (lead colon sep : string)
    : list (string * json) → string :=
  fix members m :=
    match m with
    | [] => ""
    | (k, v) :: rest =>
        lead +:+ render_string k +:+ colon +:+ f v +:+
        match rest with [] => "" | _ => sep +:+ members rest end
    end.

Definition render_items (f : json → string) (lead sep : string) : list json → string :=
  fix items l :=
    match l with
    | [] => ""
    | v :: rest => lead +:+ f v +:+ match rest with [] => "" | _ => sep +:+ items rest end
    end.

Definition spaces (n : Z) : string := str_repeat (Z.to_nat n) " ".

Fixpoint render (v : json) (pretty : bool) (step cur : Z) : string :=
  match v with
  | jnull => "null"
  | jdiscarded => "<discarded>"
  | jboolean b => if b then "true" else "false"
  | jstring s => render_string s
  | jnumber_integer z | jnumber_unsigned z => to_string z
  | jnumber_float d => if isfinite d then to_chars d else "null"
  | jobject [] => "{}"
  | jarray [] => "[]"
  | jobject m =>
      if pretty then
        "{" +:+ newline +:+
        render_members (λ v, render v true step (cur + step)) (spaces (cur + step))
          ": " ("," +:+ newline) m +:+
        newline +:+ spaces cur +:+ "}"
      else "{" +:+ render_members (λ v, render v false step cur) "" ":" "," m +:+ "}"
  | jarray l =>
      if pretty then
        "[" +:+ newline +:+
        render_items (λ v, render v true step (cur + step)) (spaces (cur + step))
          ("," +:+ newline) l +:+
        newline +:+ spaces cur +:+ "]"
      else "[" +:+ render_items (λ v, render v false step cur) "" "," l +:+ "]"
  end.

(** ** Integers *)

Lemma dump_digits_dec f x acc :
  0 ≤ x < 10 ^ Z.of_nat f → ∀ g, 0 ≤ x < 2 ^ Z.of_nat g → x ≠ 0 →
  dump_digits f x acc = dec_digits g x acc.
Proof.
  revert x acc. induction f as [|f IH]; intros x acc Hf g Hg Hx.
  { simpl in Hf. lia. }
  destruct g as [|g]; [simpl in Hg; lia|]. cbn [dump_digits dec_digits].
  rewrite (proj2 (Z.eqb_neq x 0)) by done.
  rewrite Z.quot_div_nonneg, Z.rem_mod_nonneg by lia.
  pose proof (Z.mod_pos_bound x 10 ltac:(lia)). pose proof (Z.div_mod x 10 ltac:(lia)).
  rewrite Nat2Z.inj_succ, Z.pow_succ_r in Hf, Hg by lia.
  replace (Z.abs (x mod 10)) with (x mod 10) by lia. fold (digit (x mod 10)).
  destruct (x / 10 =? 0) eqn:E; zify_cmp.
  - rewrite E. by destruct f.
  - apply IH; [|split; [lia|]|done]; lia.
Qed.

Lemma dump_digits_neg f x acc : x ≤ 0 → dump_digits f x acc = dump_digits f (- x) acc.
Proof.
  revert x acc. induction f as [|f IH]; intros x acc Hx; simpl; [done|].
  rewrite Z.quot_opp_l, Z.rem_opp_l, Z.abs_opp by lia.
  destruct (x =? 0) eqn:E; zify_cmp; [by subst|].
  rewrite (proj2 (Z.eqb_neq (- x) 0)) by lia.
  apply IH. rewrite <-(Z.quot_0_l 10) by lia. apply Z.quot_le_mono; lia.
Qed.

(** [dump_integer] prints what [std::to_string] prints: 20 digits hold every
    64-bit integer. *)
Lemma dump_integer_run z st :
  - 2 ^ 63 ≤ z < 2 ^ 64 →
  dump_integer z st = (Ok tt, Ser (o st +:+ to_string z) (indent_string st)).
Proof.
  intros Hz. unfold dump_integer, to_string. destruct (z =? 0) eqn:E; zify_cmp.
  { by subst. }
  unfold write_characters, modify. destruct (z <? 0) eqn:Es; zify_cmp.
  - rewrite dump_digits_neg by lia.
    rewrite (dump_digits_dec 20 (- z) "" ltac:(lia) (dec_fuel (- z))); [done| |lia].
    split; [lia|apply dec_fuel_enough; lia].
  - rewrite (dump_digits_dec 20 z "" ltac:(lia) (dec_fuel z)); [done| |lia].
    split; [lia|apply dec_fuel_enough; lia].
Qed.

(** ** Composing writers

    [writes n m ok t]: with an indentation string of at least [n], [m] prints
    [t] when [ok], and throws [type_error] 316 when not. *)
Definition writes (n : Z) (m : M exn serializer unit) (ok : bool) (t : string) : Prop :=
  ∀ out ind, n ≤ ind →
    if ok then ∃ ind', ind ≤ ind' ∧ m (Ser out ind) = (Ok tt, Ser (out +:+ t) ind')
    else is_type_error_316 (m (Ser out ind)).1.

Lemma writes_bind n m1 m2 b1 b2 t1 t2 :
  writes n m1 b1 t1 → writes n m2 b2 t2 → writes n (m1 ;; m2) (b1 && b2) (t1 +:+ t2).
Proof.
  intros H1 H2 out ind Hn. specialize (H1 out ind Hn). unfold bind. destruct b1; simpl.
  - destruct H1 as (ind1 & Hle & ->). specialize (H2 (out +:+ t1) ind1 ltac:(lia)).
    destruct b2; [|done]. destruct H2 as (ind2 & ? & ->).
    exists ind2. split; [lia|]. by rewrite append_assoc.
  - destruct H1 as [msg H1]. destruct (m1 (Ser out ind)) as [o1 st]. simpl in H1. subst.
    by exists msg.
Qed.

Lemma writes_then n m1 m2 b t1 t2 :
  writes n m1 true t1 → writes n m2 b t2 → writes n (m1 ;; m2) b (t1 +:+ t2).
Proof. apply (writes_bind _ _ _ true). Qed.

Lemma writes_mono n n' m ok t : n ≤ n' → writes n m ok t → writes n' m ok t.
Proof. intros Hn H out ind Hi. apply H. lia. Qed.

Lemma writes_ext n m ok t t' : t = t' → writes n m ok t → writes n m ok t'.
Proof. by intros ->. Qed.

Lemma writes_ret n : writes n (ret tt) true "".
Proof. intros out ind _. exists ind. split; [lia|]. by rewrite append_nil_r. Qed.

Lemma writes_chars n s : writes n (write_characters s) true s.
Proof. intros out ind _. exists ind. split; [lia|done]. Qed.

Lemma writes_indent n k : k ≤ n → writes n (write_indent k) true (spaces k).
Proof.
  intros Hk out ind Hi. exists ind. split; [lia|].
  unfold write_indent, bind, get_state. cbn [indent_string].
  by rewrite (proj2 (Z.leb_le k ind)) by lia.
Qed.

Lemma writes_escaped n s : writes n (dump_escaped s false) (utf8_string s) (escape s).
Proof.
  intros out ind _. destruct (utf8_string s) eqn:E.
  - exists ind. split; [lia|]. by apply dump_escaped_ok.
  - by apply dump_escaped_err.
Qed.

(** One doubling is enough for one more level. *)
Lemma writes_grow cur step m ok t :
  0 ≤ cur → 0 ≤ step → writes (cur + step) m ok t →
  writes (Z.max cur step) (grow_indent (cur + step) ;; m) ok t.
Proof.
  intros Hc Hs H out ind Hi. unfold bind, grow_indent, modify. cbn [indent_string o].
  destruct (ind <? cur + step) eqn:E; zify_cmp.
  - specialize (H out (ind * 2) ltac:(lia)). destruct ok; [|done].
    destruct H as (ind' & ? & Hm). exists ind'. split; [lia|done].
  - apply H. lia.
Qed.

Section loops.
Context (f : json → M exn serializer unit) (g : json → string) (n : Z).
Context (lead : M exn serializer unit) (tlead : string) (Hlead : writes n lead true tlead).
Context (sep : string).

Lemma writes_members colon m :
  Forall (λ kv, writes n (f kv.2) (strings_ok kv.2) (g kv.2)) m →
  writes n (dump_members f lead colon sep false m)
    (forallb (λ kv, utf8_string kv.1 && strings_ok kv.2) m) (render_members g tlead colon sep m).
Proof.
  induction 1 as [|[k v] m Hv Hm IH]; [apply writes_ret|]. simpl in Hv.
  assert (Hrest : writes n match m with [] => ret tt | _ => write_characters sep ;;
      dump_members f lead colon sep false m end
      (forallb (λ kv, utf8_string kv.1 && strings_ok kv.2) m)
      match m with [] => "" | _ => sep +:+ render_members g tlead colon sep m end).
  { destruct m; [apply writes_ret|]. by eapply writes_then; [apply writes_chars|]. }
  eapply writes_ext; [|simpl; rewrite <-andb_assoc; eapply writes_then; [exact Hlead|];
    eapply writes_then; [apply writes_chars|]; eapply writes_bind;
    [apply writes_escaped|]; eapply writes_then; [apply writes_chars|];
    eapply writes_bind; [exact Hv|exact Hrest]].
  simpl. unfold render_string. by rewrite !append_assoc.
Qed.

Lemma writes_items l :
  Forall (λ v, writes n (f v) (strings_ok v) (g v)) l →
  writes n (dump_items f lead sep l) (forallb strings_ok l) (render_items g tlead sep l).
Proof.
  induction 1 as [|v l Hv Hl IH]; [apply writes_ret|].
  assert (Hrest : writes n match l with [] => ret tt | _ => write_characters sep ;;
      dump_items f lead sep l end (forallb strings_ok l)
      match l with [] => "" | _ => sep +:+ render_items g tlead sep l end).
  { destruct l; [apply writes_ret|]. by eapply writes_then; [apply writes_chars|]. }
  simpl. eapply writes_then; [exact Hlead|]. by apply writes_bind.
Qed.
End loops.

(** The frame of a pretty-printed object or array. *)
Lemma writes_block cur step open_ close body ok t :
  0 ≤ cur → 0 ≤ step → writes (cur + step) body ok t →
  writes (Z.max cur step)
    (write_characters (open_ +:+ newline) ;; grow_indent (cur + step) ;;
     body ;; write_characters newline ;; write_indent cur ;; write_characters close) ok
    (open_ +:+ newline +:+ t +:+ newline +:+ spaces cur +:+ close).
Proof.
  intros Hc Hs Hb. eapply writes_ext; [by rewrite <-append_assoc|].
  eapply writes_then; [apply writes_chars|]. apply writes_grow; [done..|].
  rewrite <-(andb_true_r ok). eapply writes_bind; [done|].
  eapply writes_then; [apply writes_chars|].
  eapply writes_then; [apply writes_indent; lia|apply writes_chars].
Qed.

Lemma writes_flat n open_ close body ok t :
  writes n body ok t →
  writes n (write_characters open_ ;; body ;; write_characters close) ok (open_ +:+ t +:+ close).
Proof.
  intros Hb. eapply writes_then; [apply writes_chars|].
  rewrite <-(andb_true_r ok). eapply writes_bind; [done|apply writes_chars].
Qed.

(** The hypotheses of the induction for the parts of a value. *)
Lemma writes_parts {A} (part : A → json) (l : list A) step cur pretty :
  0 ≤ cur → 0 ≤ step →
  Forall (λ x, ∀ pretty step cur, 0 ≤ cur → 0 ≤ step → numbers_ok (part x) = true →
    writes (Z.max cur step) (dump (part x) pretty false step cur)
      (strings_ok (part x)) (render (part x) pretty step cur)) l →
  forallb (λ x, numbers_ok (part x)) l = true → ∀ n, Z.max cur step ≤ n →
  Forall (λ x, writes n (dump (part x) pretty false step cur)
    (strings_ok (part x)) (render (part x) pretty step cur)) l.
Proof.
  intros Hc Hs Hall Hnum n Hn. induction Hall as [|x l Hx Hl IH]; constructor.
  - simpl in Hnum. apply andb_true_iff in Hnum as [? _].
    eapply writes_mono; [exact Hn|]. auto.
  - apply IH. simpl in Hnum. by apply andb_true_iff in Hnum as [_ ?].
Qed.

Lemma dump_writes v : ∀ pretty step cur, 0 ≤ cur → 0 ≤ step → numbers_ok v = true →
  writes (Z.max cur step) (dump v pretty false step cur)
    (strings_ok v) (render v pretty step cur).
Proof.
  induction v as [|m IH|l IH|s|b|z|z|d|] using json_ind; intros pretty step cur Hc Hs Hnum.
  - apply writes_chars.
  - destruct m as [|kv m]; [apply writes_chars|]. destruct pretty.
    + apply writes_block; [done..|]. apply writes_members; [by apply writes_indent|].
      apply (writes_parts snd); [lia|done|done|done|lia].
    + apply writes_flat, writes_members; [apply writes_ret|].
      by apply (writes_parts snd).
  - destruct l as [|v l]; [apply writes_chars|]. destruct pretty.
    + apply writes_block; [done..|]. apply writes_items; [by apply writes_indent|].
      apply (writes_parts id); [lia|done|done|done|lia].
    + apply writes_flat, writes_items; [apply writes_ret|].
      by apply (writes_parts id).
  - cbn [dump strings_ok render].
    apply (writes_flat _ (String dquote "") (String dquote "")), writes_escaped.
  - destruct b; apply writes_chars.
  - simpl in Hnum. apply andb_true_iff in Hnum as [? ?]. zify_cmp.
    intros out ind _. exists ind. split; [lia|]. apply (dump_integer_run z). lia.
  - simpl in Hnum. apply andb_true_iff in Hnum as [? ?]. zify_cmp.
    intros out ind _. exists ind. split; [lia|]. apply (dump_integer_run z). lia.
  - simpl. unfold dump_float. destruct (isfinite d); apply writes_chars.
  - apply writes_chars.
Qed.

(** The text of [dump(indent)]: indented when [indent] is not negative. *)
Definition dump_text (v : json) (indent : Z) : string :=
  if 0 <=? indent then render v true indent 0 else render v false 0 0.

Lemma json_dump_render v indent :
  indent ≤ 512 → numbers_ok v = true →
  if strings_ok v then json_dump v indent = Ok (dump_text v indent)
  else is_type_error_316 (json_dump v indent).
Proof.
  intros Hi Hnum.
  assert (H : ∀ pretty step, 0 ≤ step ≤ 512 →
    let '(r, st) := dump v pretty false step 0 serializer_init in
    if strings_ok v then obind r (λ _, Ok (o st)) = Ok (render v pretty step 0)
    else is_type_error_316 (obind r (λ _, Ok (o st)))).
  { intros pretty step Hs.
    pose proof (dump_writes v pretty step 0 ltac:(lia) ltac:(lia) Hnum "" 512 ltac:(lia)) as H.
    unfold serializer_init. destruct (strings_ok v).
    - destruct H as (ind' & _ & ->). done.
    - destruct (dump v pretty false step 0 (Ser "" 512)) as [r st].
      destruct H as [msg Hr]. simpl in Hr. subst. by exists msg. }
  unfold json_dump, dump_text. destruct (0 <=? indent) eqn:E; zify_cmp.
  - rewrite wrap_small by lia. specialize (H true indent ltac:(lia)).
    by destruct (dump v true false indent 0 serializer_init).
  - specialize (H false 0 ltac:(lia)). by destruct (dump v false false 0 0 serializer_init).
Qed.


