(* ===== verification/JsonLexer.v ===== *)
(** * Lexical analysis (json.hpp, [class lexer] and [input_buffer_adapter])

    The scanner as a state-passing program on the members of [class lexer].
    Loops take their fuel from the number of characters left to read;
    [wp_scan] shows that this is always enough. *)

From stdpp Require Import base gmap strings list.
From Stdlib Require Import ZArith Ascii Lia.
From S2P Require Import Prelude Cxx StdMap JsonValue Utf8.

Inductive token_type : Type :=
| uninitialized
| literal_true
| literal_false
| literal_null
| value_string
| value_unsigned
| value_integer
| value_float
| begin_array
| begin_object
| end_array
| end_object
| name_separator
| value_separator
| tok_parse_error
| end_of_input
| literal_or_value.

#[global] Instance token_type_eq_dec : EqDecision token_type.
Proof. solve_decision. Defined.

Definition token_type_name (t : token_type) : string :=
  match t with
  | uninitialized => "<uninitialized>"
  | literal_true => "true literal"
  | literal_false => "false literal"
  | literal_null => "null literal"
  | value_string => "string literal"
  | value_unsigned | value_integer | value_float => "number literal"
  | begin_array => "'['"
  | begin_object => "'{'"
  | end_array => "']'"
  | end_object => "'}'"
  | name_separator => "':'"
  | value_separator => "','"
  | tok_parse_error => "<parse error>"
  | end_of_input => "end of input"
  | literal_or_value => "'[', '{', or a literal"
  end.

(** [std::char_traits<char>::eof()]. *)
Definition eof : Z := -1.

Record lexer : Type := Lex {
  ia : string;               (** what the input adapter has not delivered yet *)
  current : Z;
  next_unget : bool;
  chars_read : Z;
  token_string : string;
  token_buffer : string;
  error_message : string;
  lx_integer : Z;
  lx_unsigned : Z;
  lx_float : double;
}.

Definition lexer_init (input : string) : lexer :=
  Lex input eof false 0 "" "" "" 0 0 (Dfin false 0 0).

(** [push_back]. *)
Definition push_back (s : string) (c : Z) : string := s +:+ String (char_of c) "".

Definition with_token_string (s : string) (l : lexer) : lexer :=
  Lex (ia l) (current l) (next_unget l) (chars_read l) s (token_buffer l)
    (error_message l) (lx_integer l) (lx_unsigned l) (lx_float l).
Definition with_token_buffer (s : string) (l : lexer) : lexer :=
  Lex (ia l) (current l) (next_unget l) (chars_read l) (token_string l) s
    (error_message l) (lx_integer l) (lx_unsigned l) (lx_float l).
Definition with_error_message (s : string) (l : lexer) : lexer :=
  Lex (ia l) (current l) (next_unget l) (chars_read l) (token_string l) (token_buffer l)
    s (lx_integer l) (lx_unsigned l) (lx_float l).
Definition with_integer (z : Z) (l : lexer) : lexer :=
  Lex (ia l) (current l) (next_unget l) (chars_read l) (token_string l) (token_buffer l)
    (error_message l) z (lx_unsigned l) (lx_float l).
Definition with_unsigned (z : Z) (l : lexer) : lexer :=
  Lex (ia l) (current l) (next_unget l) (chars_read l) (token_string l) (token_buffer l)
    (error_message l) (lx_integer l) z (lx_float l).
Definition with_float (d : double) (l : lexer) : lexer :=
  Lex (ia l) (current l) (next_unget l) (chars_read l) (token_string l) (token_buffer l)
    (error_message l) (lx_integer l) (lx_unsigned l) d.

(** [input_buffer_adapter::get_character]. *)
Definition get_character (s : string) : Z * string :=
  match s with
  | EmptyString => (eof, "")
  | String c s => (byte_of c, s)
  end.

Definition get : M exn lexer Z := λ l,
  let '(cur, rest) := if next_unget l then (current l, ia l) else get_character (ia l) in
  let ts := if negb (cur =? eof) then push_back (token_string l) cur else token_string l in
  (Ok cur, Lex rest cur false (chars_read l + 1) ts (token_buffer l) (error_message l)
             (lx_integer l) (lx_unsigned l) (lx_float l)).

(** [pop_back]. *)
Fixpoint pop_back (s : string) : string :=
  match s with
  | EmptyString => ""
  | String c EmptyString => ""
  | String c s => String c (pop_back s)
  end.

Definition unget : M exn lexer unit := modify (λ l,
  let ts := if negb (current l =? eof) then pop_back (token_string l) else token_string l in
  Lex (ia l) (current l) true (chars_read l - 1) ts (token_buffer l) (error_message l)
    (lx_integer l) (lx_unsigned l) (lx_float l)).

Definition add (c : Z) : M exn lexer unit :=
  modify (λ l, with_token_buffer (push_back (token_buffer l) c) l).

Definition add_current : M exn lexer unit := l <- get_state ;; add (current l).

Definition reset : M exn lexer unit :=
  modify (λ l, with_token_string (push_back "" (current l)) (with_token_buffer "" l)).

Definition fail (msg : string) : M exn lexer token_type :=
  modify (with_error_message msg) ;; ret tok_parse_error.

(** The code of a character literal. *)
Notation "$ c" := (byte_of c%char) (at level 1, only parsing) : cxx_scope.

(** ** Strings *)

(** One hexadecimal digit of [get_codepoint]. *)
Definition hex_value (c : Z) : option Z :=
  if (48 <=? c) && (c <=? 57) then Some (c - 0x30)
  else if (65 <=? c) && (c <=? 70) then Some (c - 0x37)
  else if (97 <=? c) && (c <=? 102) then Some (c - 0x57)
  else None.

Fixpoint get_codepoint_loop (factors : list Z) (codepoint : Z) : M exn lexer Z :=
  match factors with
  | [] => ret codepoint
  | factor :: factors =>
      cur <- get ;;
      match hex_value cur with
      | Some d => get_codepoint_loop factors (codepoint + Z.shiftl d factor)
      | None => ret (-1)
      end
  end.

Definition get_codepoint : M exn lexer Z := get_codepoint_loop [12; 8; 4; 0] 0.

Fixpoint bytes_in_range (ranges : list (Z * Z)) : M exn lexer bool :=
  match ranges with
  | [] => ret true
  | (lo, hi) :: ranges =>
      cur <- get ;;
      if (lo <=? cur) && (cur <=? hi) then add cur ;; bytes_in_range ranges
      else modify (with_error_message "invalid string: ill-formed UTF-8 byte") ;; ret false
  end.

Definition next_byte_in_range (ranges : list (Z * Z)) : M exn lexer bool :=
  add_current ;; bytes_in_range ranges.

(** The UTF-8 bytes of a code point. *)
Definition add_codepoint (codepoint : Z) : M exn lexer unit :=
  if codepoint <? 0x80 then add codepoint
  else if codepoint <=? 0x7FF then
    add (Z.lor 0xC0 (Z.shiftr codepoint 6)) ;;
    add (Z.lor 0x80 (Z.land codepoint 0x3F))
  else if codepoint <=? 0xFFFF then
    add (Z.lor 0xE0 (Z.shiftr codepoint 12)) ;;
    add (Z.lor 0x80 (Z.land (Z.shiftr codepoint 6) 0x3F)) ;;
    add (Z.lor 0x80 (Z.land codepoint 0x3F))
  else
    add (Z.lor 0xF0 (Z.shiftr codepoint 18)) ;;
    add (Z.lor 0x80 (Z.land (Z.shiftr codepoint 12) 0x3F)) ;;
    add (Z.lor 0x80 (Z.land (Z.shiftr codepoint 6) 0x3F)) ;;
    add (Z.lor 0x80 (Z.land codepoint 0x3F)).

(** An escape either continues the string ([None]) or ends the scan. *)
Definition stop (msg : string) : M exn lexer (option token_type) :=
  t <- fail msg ;; ret (Some t).

Definition bad_hex : string := "invalid string: '\u' must be followed by 4 hex digits".
Definition bad_low_surrogate : string :=
  "invalid string: surrogate U+DC00..U+DFFF must be followed by U+DC00..U+DFFF".
Definition bad_high_surrogate : string :=
  "invalid string: surrogate U+DC00..U+DFFF must follow U+D800..U+DBFF".

(** [case 'u'] of the escapes: surrogate pairs included. *)
Definition scan_unicode_escape : M exn lexer (option token_type) :=
  codepoint1 <- get_codepoint ;;
  if codepoint1 =? -1 then stop bad_hex
  else if (0xD800 <=? codepoint1) && (codepoint1 <=? 0xDBFF) then
    c <- get ;;
    if negb (c =? $"\") then stop bad_low_surrogate else
    c <- get ;;
    if negb (c =? $"u") then stop bad_low_surrogate else
    codepoint2 <- get_codepoint ;;
    if codepoint2 =? -1 then stop bad_hex
    else if (0xDC00 <=? codepoint2) && (codepoint2 <=? 0xDFFF) then
      add_codepoint (Z.shiftl codepoint1 10 + codepoint2 - 0x35FDC00) ;; ret None
    else stop bad_low_surrogate
  else if (0xDC00 <=? codepoint1) && (codepoint1 <=? 0xDFFF) then stop bad_high_surrogate
  else add_codepoint codepoint1 ;; ret None.

(** [case '\\']: the character after a backslash. *)
Definition scan_escape : M exn lexer (option token_type) :=
  c <- get ;;
  if c =? byte_of dquote then add (byte_of dquote) ;; ret None
  else if c =? $"\" then add $"\" ;; ret None
  else if c =? $"/" then add $"/" ;; ret None
  else if c =? $"b" then add 8 ;; ret None
  else if c =? $"f" then add 12 ;; ret None
  else if c =? $"n" then add 10 ;; ret None
  else if c =? $"r" then add 13 ;; ret None
  else if c =? $"t" then add 9 ;; ret None
  else if c =? $"u" then scan_unicode_escape
  else stop "invalid string: forbidden character after backslash".

(** The cases of the [switch] on a character of the string that is neither the
    end of the input, a quote nor a backslash. *)
Definition is_control (c : Z) : bool := (0x00 <=? c) && (c <=? 0x1F).
Definition is_plain_ascii (c : Z) : bool :=
  (0x20 <=? c) && (c <=? 0x7F) && negb (c =? 0x22) && negb (c =? 0x5C).

Definition lead_ranges (c : Z) : option (list (Z * Z)) :=
  if in_range 0xC2 0xDF c then Some [(0x80, 0xBF)]
  else if c =? 0xE0 then Some [(0xA0, 0xBF); (0x80, 0xBF)]
  else if in_range 0xE1 0xEC c || in_range 0xEE 0xEF c then Some [(0x80, 0xBF); (0x80, 0xBF)]
  else if c =? 0xED then Some [(0x80, 0x9F); (0x80, 0xBF)]
  else if c =? 0xF0 then Some [(0x90, 0xBF); (0x80, 0xBF); (0x80, 0xBF)]
  else if in_range 0xF1 0xF3 c then Some [(0x80, 0xBF); (0x80, 0xBF); (0x80, 0xBF)]
  else if c =? 0xF4 then Some [(0x80, 0x8F); (0x80, 0xBF); (0x80, 0xBF)]
  else None.

(** One turn of the loop of [scan_string]. *)
Definition scan_string_step : M exn lexer (option token_type) :=
  c <- get ;;
  if c =? eof then stop "invalid string: missing closing quote"
  else if c =? byte_of dquote then ret (Some value_string)
  else if c =? $"\" then scan_escape
  else if is_control c then stop "invalid string: control character must be escaped"
  else if is_plain_ascii c then add_current ;; ret None
  else match lead_ranges c with
  | Some ranges =>
      ok <- next_byte_in_range ranges ;;
      if (ok : bool) then ret None else ret (Some tok_parse_error)
  | None => stop "invalid string: ill-formed UTF-8 byte"
  end.

Fixpoint scan_string_loop (fuel : nat) : M exn lexer token_type :=
  match fuel with
  | O => out_of_fuel
  | S fuel =>
      r <- scan_string_step ;;
      match r with
      | Some t => ret t
      | None => scan_string_loop fuel
      end
  end.

(** Characters a [get] can still deliver. *)
Definition left_to_read (l : lexer) : nat :=
  String.length (ia l) + (if next_unget l && negb (current l =? eof) then 1 else 0).

Definition scan_string : M exn lexer token_type :=
  reset ;;
  l <- get_state ;;
  scan_string_loop (S (left_to_read l)).

(** ** Numbers *)

Inductive number_state : Type :=
| minus | zero | any1 | decimal1 | decimal2 | exponent | sign | any2.

(** What a state does with the character it reads. *)
Inductive number_action : Type :=
| goto (st : number_state)
| done_number
| error_number (msg : string).

Definition is_digit19 (c : Z) : bool := (49 <=? c) && (c <=? 57).
Definition is_exp (c : Z) : bool := (c =? $"e") || (c =? $"E").

(** The labels [scan_number_minus], [scan_number_zero] and [scan_number_any1]. *)
Definition scan_number_integral (st : number_state) (c : Z) : number_action :=
  match st with
  | minus =>
      if c =? $"0" then goto zero
      else if is_digit19 c then goto any1
      else error_number "invalid number; expected digit after '-'"
  | zero =>
      if c =? $"." then goto decimal1
      else if is_exp c then goto exponent
      else done_number
  | _ =>
      if is_digit c then goto any1
      else if c =? $"." then goto decimal1
      else if is_exp c then goto exponent
      else done_number
  end.

(** The labels [scan_number_decimal1] to [scan_number_any2]. *)
Definition scan_number_fraction (st : number_state) (c : Z) : number_action :=
  match st with
  | decimal1 =>
      if is_digit c then goto decimal2
      else error_number "invalid number; expected digit after '.'"
  | decimal2 =>
      if is_digit c then goto decimal2
      else if is_exp c then goto exponent
      else done_number
  | exponent =>
      if (c =? $"+") || (c =? $"-") then goto sign
      else if is_digit c then goto any2
      else error_number "invalid number; expected '+', '-', or digit after exponent"
  | sign =>
      if is_digit c then goto any2
      else error_number "invalid number; expected digit after exponent sign"
  | _ =>
      if is_digit c then goto any2 else done_number
  end.

Definition scan_number_action (st : number_state) (c : Z) : number_action :=
  match st with
  | minus | zero | any1 => scan_number_integral st c
  | decimal1 | decimal2 | exponent | sign | any2 => scan_number_fraction st c
  end.

(** [number_type] as the labels set it. *)
Definition enter_state (st : number_state) (number_type : token_type) : token_type :=
  match st with
  | minus => value_integer
  | decimal1 | exponent => value_float
  | _ => number_type
  end.

(** The [goto]s: read, store and move until the number ends.  The decimal
    point of the C locale is the character that was read. *)
Fixpoint scan_number_loop (fuel : nat) (st : number_state) (number_type : token_type)
    : M exn lexer (option token_type) :=
  match fuel with
  | O => out_of_fuel
  | S fuel =>
      let number_type := enter_state st number_type in
      c <- get ;;
      match scan_number_action st c with
      | goto st => add c ;; scan_number_loop fuel st number_type
      | done_number => ret (Some number_type)
      | error_number msg => fail msg ;; ret None
      end
  end.

(** [strtod], correctly rounded to nearest, ties to even: the double nearest
    to [num / den]; [e] is the exponent that leaves 53 bits. *)
Definition round_div (num den : Z) : Z :=
  let q := num / den in
  let r := num mod den in
  if 2 * r <? den then q
  else if den <? 2 * r then q + 1
  else if Z.even q then q else q + 1.

Definition round_ratio (neg : bool) (num den : Z) : double :=
  if num =? 0 then Dfin neg 0 0 else
  let e0 := Z.log2 num - Z.log2 den - 53 in
  let scale e := if 0 <=? e then (num, den * 2 ^ e) else (num * 2 ^ (- e), den) in
  let '(n, d) := scale e0 in
  let e := Z.max (if n / d <? 2 ^ 53 then e0 else e0 + 1) (-1074) in
  let '(n, d) := scale e in
  let m := round_div n d in
  let '(m, e) := if m =? 2 ^ 53 then (2 ^ 52, e + 1) else if m =? 0 then (0, 0) else (m, e) in
  if (2 ^ 1024 <=? m * 2 ^ Z.max e 0) then Dinf neg else Dfin neg m e.

(** Digits before and after the point and the exponent of a number literal. *)
Fixpoint span_digits (s : string) : string * string :=
  match s with
  | EmptyString => ("", "")
  | String c s' =>
      if is_digit (byte_of c) then let '(d, r) := span_digits s' in (String c d, r)
      else ("", s)
  end.

Definition decimal_exponent (s : string) : Z :=
  match s with
  | String c s =>
      if is_exp (byte_of c) then
        match s with
        | String "-" s => - dec_value 0 s
        | String "+" s => dec_value 0 s
        | _ => dec_value 0 s
        end
      else 0
  | EmptyString => 0
  end.

Definition strtod (s : string) : double :=
  let '(neg, s) := match s with String "-" s => (true, s) | _ => (false, s) end in
  let '(ip, s) := span_digits s in
  let '(fp, s) := match s with String "." s => span_digits s | _ => ("", s) end in
  let m := dec_value 0 (ip +:+ fp) in
  let e10 := decimal_exponent s - Z.of_nat (String.length fp) in
  if 0 <=? e10 then round_ratio neg (m * 10 ^ e10) 1 else round_ratio neg m (10 ^ (- e10)).

(** [strtoull] and [strtoll]: [None] is [errno == ERANGE]. *)
Definition strtoull (s : string) : option Z :=
  let v := dec_value 0 s in if v <? 2 ^ 64 then Some v else None.
Definition strtoll (s : string) : option Z :=
  match s with
  | String "-" s =>
      let v := dec_value 0 s in if v <=? 2 ^ 63 then Some (- v) else None
  | _ => let v := dec_value 0 s in if v <? 2 ^ 63 then Some v else None
  end.

(** [scan_number_done]: integers first, then floating point. *)
Definition scan_number_done (number_type : token_type) : M exn lexer token_type :=
  unget ;;
  l <- get_state ;;
  let as_float :=
    modify (with_float (strtod (token_buffer l))) ;; ret value_float in
  match number_type with
  | value_unsigned =>
      match strtoull (token_buffer l) with
      | Some x => modify (with_unsigned x) ;; ret value_unsigned
      | None => as_float
      end
  | value_integer =>
      match strtoll (token_buffer l) with
      | Some x => modify (with_integer x) ;; ret value_integer
      | None => as_float
      end
  | _ => as_float
  end.

Definition scan_number : M exn lexer token_type :=
  reset ;;
  l <- get_state ;;
  let c := current l in
  add c ;;
  let st := if c =? $"-" then minus else if c =? $"0" then zero else any1 in
  r <- scan_number_loop (S (left_to_read l)) st value_unsigned ;;
  match r with
  | Some number_type => scan_number_done number_type
  | None => ret tok_parse_error
  end.

(** ** Literals and the scanner *)

(** [scan_literal]: the first character has been read. *)
Fixpoint scan_literal (rest : string) (return_type : token_type) : M exn lexer token_type :=
  match rest with
  | EmptyString => ret return_type
  | String c rest =>
      cur <- get ;;
      if negb (cur =? byte_of c) then fail "invalid literal"
      else scan_literal rest return_type
  end.

Definition skip_bom : M exn lexer bool :=
  c <- get ;;
  if c =? 0xEF then
    c <- get ;;
    if negb (c =? 0xBB) then ret false else
    c <- get ;;
    if negb (c =? 0xBF) then ret false else ret true
  else unget ;; ret true.

Definition is_space (c : Z) : bool :=
  (c =? 32) || (c =? 9) || (c =? 10) || (c =? 13).

Fixpoint skip_whitespace (fuel : nat) : M exn lexer Z :=
  match fuel with
  | O => out_of_fuel
  | S fuel =>
      c <- get ;;
      if is_space c then skip_whitespace fuel else ret c
  end.

(** The [switch] of [scan] on the first character of a token. *)
Definition scan_token (c : Z) : M exn lexer token_type :=
  if c =? $"[" then ret begin_array
  else if c =? $"]" then ret end_array
  else if c =? $"{" then ret begin_object
  else if c =? $"}" then ret end_object
  else if c =? $":" then ret name_separator
  else if c =? $"," then ret value_separator
  else if c =? $"t" then scan_literal "rue" literal_true
  else if c =? $"f" then scan_literal "alse" literal_false
  else if c =? $"n" then scan_literal "ull" literal_null
  else if c =? byte_of dquote then scan_string
  else if (c =? $"-") || is_digit c then scan_number
  else if (c =? 0) || (c =? eof) then ret end_of_input
  else fail "invalid literal".

Definition scan : M exn lexer token_type :=
  l <- get_state ;;
  ok <- (if chars_read l =? 0 then skip_bom else ret true) ;;
  if negb ok then fail "invalid BOM; must be 0xEF 0xBB 0xBF if given" else
  l <- get_state ;;
  c <- skip_whitespace (S (left_to_read l)) ;;
  scan_token c.

(** [get_token_string]: control characters appear as [<U+>], the hexadecimal
    code being disabled in this copy of the library. *)
Fixpoint get_token_string (s : string) : string :=
  match s with
  | EmptyString => ""
  | String c s =>
      (if (0 <=? signed_char c) && (signed_char c <=? 0x1F) then "<U+>" else String c "")
      +:+ get_token_string s
  end.

Definition get_position (l : lexer) : Z := chars_read l.

Example scan_sample :
  (scan (lexer_init (quoted " |a\n\u00e9| "))).1 = Ok value_string
  ∧ bytes_of (token_buffer (scan (lexer_init (quoted " |a\n\u00e9| "))).2) = [97; 10; 0xC3; 0xA9].
Proof. vm_compute. split; reflexivity. Qed.

Example scan_numbers :
  lx_unsigned (scan (lexer_init "3600,")).2 = 3600
  ∧ (scan (lexer_init "-9223372036854775808")).1 = Ok value_integer
  ∧ (scan (lexer_init "18446744073709551616 ")).1 = Ok value_float
  ∧ lx_float (scan (lexer_init "18446744073709551616 ")).2 = Dfin false (2 ^ 53 / 2) 12
  ∧ lx_float (scan (lexer_init "-1.5e2")).2 = Dfin true (150 * 2 ^ 45) (-45)
  ∧ lx_float (scan (lexer_init "1e309")).2 = Dinf false.
Proof. vm_compute. repeat split; reflexivity. Qed.
