(* ===== verification/Strtod.v ===== *)
(** * Reading floating-point numbers

    [strtod] rounds a decimal number to a double: the result is a valid
    double, and it is m * 2^e for every number strictly between the boundaries
    of m * 2^e. *)

From stdpp Require Import base gmap strings list.
From Stdlib Require Import ZArith QArith Qpower Lqa Lia.
From S2P Require Import Prelude Cxx JsonValue JsonLexer Rational Grisu GrisuDigits GrisuScale.

(** ** Rounding a ratio *)

Lemma round_div_nearest num den r :
  0 < den → (2 * r - 1) * den < 2 * num < (2 * r + 1) * den → round_div num den = r.
Proof.
  intros Hd Hr. unfold round_div.
  pose proof (Z.div_mod num den ltac:(lia)) as Hdm. pose proof (Z.mod_pos_bound num den Hd) as Hm.
  set (q := num / den) in *. set (t := num mod den) in *. clearbody q t. subst num.
  assert (Hc : ∀ a b, a * den < b * den → a < b) by (intros a b; apply Z.mul_lt_mono_pos_r, Hd).
  destruct (2 * t <? den) eqn:E; zify_cmp.
  { pose proof (Hc (2 * r - 1) (2 * q + 1)). pose proof (Hc (2 * q) (2 * r + 1)). lia. }
  destruct (den <? 2 * t) eqn:E2; zify_cmp.
  - pose proof (Hc (2 * r - 1) (2 * q + 2)). pose proof (Hc (2 * q + 1) (2 * r + 1)). lia.
  - pose proof (Hc (2 * r - 1) (2 * q + 1)). pose proof (Hc (2 * q + 1) (2 * r + 1)). lia.
Qed.

Section ratio.
Context (num den : Z) (x : Q).
Hypothesis Hnum : 0 < num.
Hypothesis Hden : 0 < den.
Hypothesis Hx : (inject_Z num == x * inject_Z den)%Q.

Definition scaled (e : Z) : Z * Z :=
  if 0 <=? e then (num, den * 2 ^ e) else (num * 2 ^ (- e), den).

Lemma scaled_spec e :
  0 < (scaled e).2 ∧ (inject_Z (scaled e).1 == x * pw 2 (- e) * inject_Z (scaled e).2)%Q.
Proof.
  unfold scaled. destruct (0 <=? e) eqn:E; zify_cmp; cbn [fst snd].
  - assert (0 < 2 ^ e) by (apply Z.pow_pos_nonneg; lia). split; [nia|].
    rewrite Hx, inject_Z_mult, <-(pw_Z 2 e) by done. pose proof (pw_opp 2 e ltac:(lia)) as HI.
    transitivity (x * inject_Z den * (pw 2 (- e) * pw 2 e))%Q; [rewrite HI; ring|ring].
  - split; [done|]. rewrite inject_Z_mult, <-(pw_Z 2 (- e)) by lia. rewrite Hx. ring.
Qed.

(** The exponent that leaves 53 bits. *)
Definition ratio_exponent : Z :=
  let e0 := Z.log2 num - Z.log2 den - 53 in
  if (scaled e0).1 / (scaled e0).2 <? 2 ^ 53 then e0 else e0 + 1.

Lemma ratio_log2 :
  (pw 2 (Z.log2 num - Z.log2 den - 1) <= x)%Q ∧ (x < pw 2 (Z.log2 num - Z.log2 den + 1))%Q.
Proof.
  destruct (Z.log2_spec num Hnum) as [A1 A2]. destruct (Z.log2_spec den Hden) as [B1 B2].
  pose proof (Z.log2_nonneg num). pose proof (Z.log2_nonneg den).
  set (a := Z.log2 num) in *. set (b := Z.log2 den) in *. clearbody a b.
  apply inject_Z_pos in Hden. rewrite Zle_Qle in A1, B1. rewrite Zlt_Qlt in A2, B2.
  rewrite <-pw_Z in A1, A2, B1, B2 by lia. rewrite Hx in A1, A2.
  assert (Hpos : (0 < x)%Q) by (pose proof (pw_pos 2 a ltac:(lia)); nra).
  split.
  - apply (Qmul_le_inv _ _ (pw 2 (Z.succ b))); [apply pw_pos; lia|]. rewrite <-pw_add by lia.
    replace (a - b - 1 + Z.succ b) with a by lia. nra.
  - apply (Qmul_lt_inv _ _ (pw 2 b)); [apply pw_pos; lia|]. rewrite <-pw_add by lia.
    replace (a - b + 1 + b) with (Z.succ a) by lia. nra.
Qed.

Lemma ratio_exponent_spec :
  (pw 2 (ratio_exponent + 52) <= x)%Q ∧ (x < pw 2 (ratio_exponent + 53))%Q.
Proof.
  destruct ratio_log2 as [L U]. unfold ratio_exponent. cbv zeta.
  set (e0 := Z.log2 num - Z.log2 den - 53) in *.
  destruct (scaled_spec e0) as [Hd Hn]. set (n := (scaled e0).1) in *. set (d := (scaled e0).2) in *.
  clearbody n d.
  replace (Z.log2 num - Z.log2 den - 1) with (e0 + 52) in L by lia.
  replace (Z.log2 num - Z.log2 den + 1) with (e0 + 54) in U by lia.
  assert (Hiff : n < 2 ^ 53 * d ↔ (x < pw 2 (e0 + 53))%Q).
  { rewrite Zlt_Qlt, inject_Z_mult, <-(pw_Z 2 53), Hn by lia.
    rewrite Qmult_lt_r by by apply inject_Z_pos.
    rewrite <-(Qmult_lt_r _ _ (pw 2 e0)) by (apply pw_pos; lia).
    assert (HE : (x * pw 2 (- e0) * pw 2 e0 == x)%Q).
    { transitivity (x * (pw 2 (- e0) * pw 2 e0))%Q; [ring|]. rewrite pw_opp by lia. ring. }
    rewrite HE, <-pw_add by lia. by replace (53 + e0) with (e0 + 53) by lia. }
  destruct (n / d <? 2 ^ 53) eqn:E; zify_cmp.
  - split; [done|]. apply Hiff. rewrite Z.mul_comm. pose proof (Z.mul_succ_div_gt n d Hd). nia.
  - replace (e0 + 1 + 53) with (e0 + 54) by lia. replace (e0 + 1 + 52) with (e0 + 53) by lia.
    split; [|done]. apply Qnot_lt_le. rewrite <-Hiff. pose proof (Z.mul_div_le n d Hd). nia.
Qed.

Lemma ratio_exponent_le e : (x < pw 2 (e + 53))%Q → ratio_exponent ≤ e.
Proof.
  intros He. destruct ratio_exponent_spec as [L _].
  assert (ratio_exponent + 52 < e + 53); [|lia].
  apply (Qpower_lt_compat_l_inv (inject_Z 2)); [|done]. by eapply Qle_lt_trans.
Qed.

Lemma ratio_exponent_ge e : (pw 2 (e + 52) <= x)%Q → e ≤ ratio_exponent.
Proof.
  intros He. destruct ratio_exponent_spec as [_ U].
  assert (e + 52 < ratio_exponent + 53); [|lia].
  apply (Qpower_lt_compat_l_inv (inject_Z 2)); [|done]. by eapply Qle_lt_trans.
Qed.

(** Rounding at the exponent [e]. *)
Lemma round_scaled e r :
  ((inject_Z r - (1 # 2)) * pw 2 e < x)%Q → (x < (inject_Z r + (1 # 2)) * pw 2 e)%Q →
  round_div (scaled e).1 (scaled e).2 = r.
Proof.
  intros L U. destruct (scaled_spec e) as [Hd Hn]. apply round_div_nearest; [done|].
  set (n := (scaled e).1) in *. set (d := (scaled e).2) in *. clearbody n d.
  pose proof (inject_Z_pos d Hd) as HdQ. pose proof (pw_pos 2 (- e) ltac:(lia)) as HP.
  assert (Hc : ∀ A : Q, (A * pw 2 e * pw 2 (- e) == A)%Q).
  { intros A. transitivity (A * (pw 2 (- e) * pw 2 e))%Q; [ring|]. rewrite pw_opp by lia. ring. }
  apply (Qmul_lt _ _ _ HP) in L, U. rewrite Hc in L, U. apply (Qmul_lt _ _ _ HdQ) in L, U.
  rewrite <-Hn in L, U. split; goal_to_Q; change (inject_Z 2) with 2%Q; change (inject_Z 1) with 1%Q; lra.
Qed.
End ratio.

(** Carry into the exponent, and overflow. *)
Definition normalized (neg : bool) (m e : Z) : double :=
  let '(m, e) := if m =? 2 ^ 53 then (2 ^ 52, e + 1) else if m =? 0 then (0, 0) else (m, e) in
  if 2 ^ 1024 <=? m * 2 ^ Z.max e 0 then Dinf neg else Dfin neg m e.

Lemma round_ratio_eq neg num den : 0 < num →
  round_ratio neg num den
  = let e := Z.max (ratio_exponent num den) (-1074) in
    normalized neg (round_div (scaled num den e).1 (scaled num den e).2) e.
Proof.
  intros Hn. unfold round_ratio. rewrite (proj2 (Z.eqb_neq num 0)) by lia. cbv zeta.
  unfold ratio_exponent. cbv zeta. fold (scaled num den (Z.log2 num - Z.log2 den - 53)).
  destruct (scaled num den (Z.log2 num - Z.log2 den - 53)) as [n d]. cbn [fst snd].
  set (e := Z.max _ (-1074)). fold (scaled num den e). by destruct (scaled num den e).
Qed.

Lemma no_overflow m e : 0 ≤ m < 2 ^ 53 → e ≤ 971 → (2 ^ 1024 <=? m * 2 ^ Z.max e 0) = false.
Proof.
  intros Hm He. apply Z.leb_gt. apply Z.lt_le_trans with (2 ^ 53 * 2 ^ Z.max e 0).
  - apply Z.mul_lt_mono_pos_r; [apply Z.pow_pos_nonneg; lia|lia].
  - rewrite <-Z.pow_add_r by lia. apply Z.pow_le_mono_r; lia.
Qed.

Lemma positive_double_range m e : positive_double m e → 0 < m < 2 ^ 53 ∧ -1074 ≤ e ≤ 971.
Proof. intros [[Hm ->]|[Hm He]]; lia. Qed.

Lemma normalized_double neg m e : positive_double m e → normalized neg m e = Dfin neg m e.
Proof.
  intros Hd. apply positive_double_range in Hd as [Hm He]. unfold normalized.
  rewrite (proj2 (Z.eqb_neq m (2 ^ 53))), (proj2 (Z.eqb_neq m 0)) by lia. by rewrite no_overflow by lia.
Qed.

Lemma pw2_split e k : 0 ≤ k → (pw 2 (e + k) == inject_Z (2 ^ k) * pw 2 e)%Q.
Proof. intros Hk. rewrite Z.add_comm, pw_add, pw_Z by lia. done. Qed.

(** Below a power of two: the exponent is one less and rounding carries. *)
Lemma round_below_power m e x :
  positive_double m e → -1074 < e → rounds_to m e x → (x < pw 2 (e + 52))%Q →
  m = 2 ^ 52 ∧ ((pw 2 (e - 1 + 52) <= x)%Q ∧ ((inject_Z (2 ^ 53) - (1 # 2)) * pw 2 (e - 1) < x)%Q)
  ∧ (pw 2 (e + 52) < (inject_Z (2 ^ 53) + (1 # 2)) * pw 2 (e - 1))%Q.
Proof.
  intros Hm He [Hlo Hhi] Hlt.
  assert (Hm0 : 2 ^ 52 ≤ m) by (destruct Hm; lia).
  assert (HE : (pw 2 e == 2 * pw 2 (e - 1))%Q).
  { replace e with (e - 1 + 1) at 1 by lia. rewrite pw2_split by lia. reflexivity. }
  pose proof (pw_pos 2 (e - 1) ltac:(lia)) as HP.
  assert (m = 2 ^ 52) as ->.
  { destruct (decide (m = 2 ^ 52)) as [|Hne]; [done|]. exfalso.
    assert (Hq : (inject_Z (2 ^ 52 + 1) <= inject_Z m)%Q) by (rewrite <-Zle_Qle; lia).
    unfold lower_closer in Hlo. rewrite (proj2 (Z.eqb_neq m (2 ^ 52))) in Hlo by done. cbn [andb] in Hlo.
    rewrite pw2_split, HE in Hlt by lia. rewrite HE in Hlo. rewrite inject_Z_plus in Hq.
    change (inject_Z 1) with 1%Q in Hq. nra. }
  unfold lower_closer in Hlo. rewrite Z.eqb_refl, (proj2 (Z.ltb_lt _ _)) in Hlo by lia. cbn [andb] in Hlo.
  rewrite HE in Hlo.
  replace (e + 52) with (e - 1 + 53) by lia. rewrite !pw2_split by lia.
  change (inject_Z (2 ^ 52)) with 4503599627370496%Q in *. change (inject_Z (2 ^ 53)) with 9007199254740992%Q.
  split_and!; try done; lra.
Qed.

(** A number strictly between the boundaries of a double rounds to it. *)
Lemma round_ratio_correct neg num den x m e :
  0 < num → 0 < den → (inject_Z num == x * inject_Z den)%Q →
  positive_double m e → rounds_to m e x → round_ratio neg num den = Dfin neg m e.
Proof.
  intros Hn Hd Hx Hm [Hlo Hhi]. rewrite round_ratio_eq by done. cbv zeta.
  pose proof (positive_double_range m e Hm) as [Hr He].
  pose proof (pw_pos 2 e ltac:(lia)) as HP.
  assert (HU : (x < pw 2 (e + 53))%Q).
  { rewrite pw2_split by lia. eapply Qlt_trans; [exact Hhi|]. apply Qmul_lt; [done|].
    assert (inject_Z m <= inject_Z (2 ^ 53 - 1))%Q by (rewrite <-Zle_Qle; lia).
    change (inject_Z (2 ^ 53 - 1)) with (9007199254740991)%Q in *.
    change (inject_Z (2 ^ 53)) with (9007199254740992)%Q. lra. }
  pose proof (ratio_exponent_le num den x Hn Hd Hx e HU) as Hle.
  assert (Hsame : Z.max (ratio_exponent num den) (-1074) = e →
    normalized neg (round_div (scaled num den e).1 (scaled num den e).2) e = Dfin neg m e).
  { intros _. rewrite (round_scaled num den x Hn Hd Hx e m); [by apply normalized_double| |done].
    eapply Qle_lt_trans; [|exact Hlo]. apply Qmul_le; [done|]. destruct (lower_closer m e); lra. }
  destruct (decide (e = -1074)) as [Hmin|Hmin].
  { rewrite Z.max_r by lia. rewrite <-Hmin. apply Hsame. lia. }
  destruct (Qlt_le_dec x (pw 2 (e + 52))) as [Hlt|Hge].
  2:{ pose proof (ratio_exponent_ge num den x Hn Hd Hx e Hge).
      assert (ratio_exponent num den = e) as -> by lia. rewrite Z.max_l by lia. apply Hsame. lia. }
  destruct (round_below_power m e x) as (-> & [G L] & U); [assumption|lia|split; assumption|assumption|].
  pose proof (ratio_exponent_le num den x Hn Hd Hx (e - 1)) as Hle1.
  pose proof (ratio_exponent_ge num den x Hn Hd Hx (e - 1)) as Hge1.
  replace (e - 1 + 53) with (e + 52) in Hle1 by lia.
  assert (ratio_exponent num den = e - 1) as -> by (apply Z.le_antisymm; [apply Hle1, Hlt|apply Hge1, G]).
  rewrite Z.max_l by lia. rewrite (round_scaled num den x Hn Hd Hx (e - 1) (2 ^ 53)); [| |].
  - unfold normalized. rewrite Z.eqb_refl, no_overflow by lia. f_equal; lia.
  - exact L.
  - eapply Qlt_trans; [exact Hlt|exact U].
Qed.

(** ** The result is a double *)

Lemma round_div_bounds n d lo hi :
  0 < d → lo * d ≤ n → n < hi * d → lo ≤ round_div n d ≤ hi.
Proof.
  intros Hd Hlo Hhi. unfold round_div.
  pose proof (Z.div_le_lower_bound n d lo Hd ltac:(lia)). pose proof (Z.div_lt_upper_bound n d hi Hd ltac:(lia)).
  repeat case_match; lia.
Qed.

Lemma scaled_bounds num den x e lo hi :
  0 < num → 0 < den → (inject_Z num == x * inject_Z den)%Q →
  (inject_Z lo * pw 2 e <= x)%Q → (x < inject_Z hi * pw 2 e)%Q →
  lo ≤ round_div (scaled num den e).1 (scaled num den e).2 ≤ hi.
Proof.
  intros Hnum Hden Hx L U. destruct (scaled_spec num den x Hnum Hden Hx e) as [Hd Hn].
  set (n := (scaled num den e).1) in *. set (d := (scaled num den e).2) in *. clearbody n d.
  pose proof (inject_Z_pos d Hd) as HdQ. pose proof (pw_pos 2 (- e) ltac:(lia)) as HP.
  assert (Hc : ∀ A : Q, (A * pw 2 e * pw 2 (- e) == A)%Q).
  { intros A. transitivity (A * (pw 2 (- e) * pw 2 e))%Q; [ring|]. rewrite pw_opp by lia. ring. }
  apply (Qmul_le _ _ _ HP) in L. apply (Qmul_lt _ _ _ HP) in U. rewrite Hc in L, U.
  apply (Qmul_le _ _ _ HdQ) in L. apply (Qmul_lt _ _ _ HdQ) in U. rewrite <-Hn in L, U.
  rewrite <-inject_Z_mult in L, U. rewrite <-Zle_Qle in L. rewrite <-Zlt_Qlt in U.
  by apply round_div_bounds.
Qed.

Lemma normalized_valid neg m e :
  (0 ≤ m ≤ 2 ^ 52 ∧ e = -1074) ∨ (2 ^ 52 ≤ m ≤ 2 ^ 53 ∧ -1074 ≤ e) →
  valid_double (normalized neg m e) = true.
Proof.
  intros H. unfold normalized.
  assert (Hcase : ∃ m' e', (if m =? 2 ^ 53 then (2 ^ 52, e + 1) else if m =? 0 then (0, 0) else (m, e)) = (m', e')
    ∧ ((m' = 0 ∧ e' = 0) ∨ (0 < m' < 2 ^ 52 ∧ e' = -1074) ∨ (2 ^ 52 ≤ m' < 2 ^ 53 ∧ -1074 ≤ e'))).
  { destruct (m =? 2 ^ 53) eqn:E1; [|destruct (m =? 0) eqn:E2]; zify_cmp; eexists _, _; (split; [reflexivity|]); lia. }
  destruct Hcase as (m' & e' & -> & Hm).
  destruct (2 ^ 1024 <=? m' * 2 ^ Z.max e' 0) eqn:E; [done|]. apply Z.leb_gt in E.
  cbn [valid_double]. destruct Hm as [[-> ->]|[[Hm ->]|[Hm He]]]; [done| |].
  - rewrite !(proj2 (Z.ltb_lt _ _)) by lia. by rewrite orb_true_r.
  - assert (e' ≤ 971).
    { destruct (Z.le_gt_cases e' 971) as [|Hgt]; [done|]. exfalso. apply (Z.lt_irrefl (2 ^ 1024)).
      eapply Z.le_lt_trans; [|exact E]. change (2 ^ 1024) with (2 ^ 52 * 2 ^ 972).
      apply Z.mul_le_mono_nonneg; [lia|lia|lia|]. apply Z.pow_le_mono_r; lia. }
    rewrite (proj2 (Z.leb_le (2 ^ 52) m')), (proj2 (Z.ltb_lt m' (2 ^ 53))),
      (proj2 (Z.leb_le (-1074) e')), (proj2 (Z.leb_le e' 971)) by lia. by rewrite !orb_true_r.
Qed.

Lemma round_ratio_valid neg num den :
  0 ≤ num → 0 < den → valid_double (round_ratio neg num den) = true.
Proof.
  intros Hn Hd. destruct (decide (num = 0)) as [->|Hnz]; [done|].
  rewrite round_ratio_eq by lia. cbv zeta. set (x := (inject_Z num / inject_Z den)%Q).
  assert (Hx : (inject_Z num == x * inject_Z den)%Q).
  { unfold x. field. pose proof (inject_Z_pos den Hd) as Hp. intros H. rewrite H in Hp. by apply Qlt_irrefl in Hp. }
  destruct (ratio_exponent_spec num den x ltac:(lia) Hd Hx) as [L U]. apply normalized_valid.
  destruct (Z.le_gt_cases (-1074) (ratio_exponent num den)) as [He|He].
  - right. rewrite Z.max_l by lia. split; [|done]. rewrite pw2_split in L, U by lia.
    by apply (scaled_bounds num den x); try lia.
  - left. rewrite Z.max_r by lia. split; [|done]. apply (scaled_bounds num den x); try lia; try done.
    + change (inject_Z 0) with 0%Q. rewrite Qmult_0_l.
      eapply Qle_trans; [|exact L]. apply Qlt_le_weak, pw_pos. lia.
    + eapply Qlt_le_trans; [exact U|]. rewrite <-pw2_split by lia. apply pw_le; lia.
Qed.
