(* ===== verification/FloatText.v ===== *)
(** * Floating-point literals

    The text of a floating-point number as [to_chars] prints it, as the lexer
    accepts it and as [strtod] reads it: printing a double and reading the text
    gives the double back. *)

From stdpp Require Import base gmap strings list.
From Stdlib Require Import ZArith QArith Qpower Lqa Ascii Lia.
From S2P Require Import Prelude Cxx JsonValue JsonLexer Rational Grisu GrisuDigits GrisuScale Strtod.

(** ** The grammar *)

Definition int_part (ip : string) : Prop :=
  all_digits ip = true ∧ (ip = "0" ∨ (head_ok ip = true ∧ ip ≠ "")).

(** "." and digits, or nothing; [fp] are the digits. *)
Definition frac_part (frac fp : string) : Prop :=
  (frac = "" ∧ fp = "") ∨ (frac = "." +:+ fp ∧ all_digits fp = true ∧ fp ≠ "").

(** "e" or "E", maybe a sign, and digits, or nothing; [x] is the exponent. *)
Definition exp_part (ex : string) (x : Z) : Prop :=
  (ex = "" ∧ x = 0)
  ∨ ∃ e sgn ds, ex = String e (sgn +:+ ds) ∧ (e = "e"%char ∨ e = "E"%char)
      ∧ all_digits ds = true ∧ ds ≠ ""
      ∧ (sgn = "-" ∧ x = - dec_value 0 ds ∨ (sgn = "+" ∨ sgn = "") ∧ x = dec_value 0 ds).

(** A literal for M * 10^e10 that is no integer literal. *)
Inductive literal : string → Z → Z → Prop :=
| Literal ip frac fp ex x :
    int_part ip → frac_part frac fp → exp_part ex x → (frac ≠ "" ∨ ex ≠ "") →
    literal (ip +:+ frac +:+ ex) (dec_value 0 (ip +:+ fp)) (x - Z.of_nat (String.length fp)).

Definition sign_text (neg : bool) : string := if neg then "-" else "".

(** ** Reading a literal *)

Definition starts_with_digit (s : string) : bool :=
  match s with EmptyString => false | String c _ => is_digit (byte_of c) end.

Lemma span_digits_app ds t :
  all_digits ds = true → starts_with_digit t = false → span_digits (ds +:+ t) = (ds, t).
Proof.
  intros Hd Ht. induction ds as [|c ds IH]; cbn [String.append span_digits].
  - destruct t as [|c t]; [done|]. cbn [span_digits starts_with_digit] in *. by rewrite Ht.
  - cbn [all_digits] in Hd. apply andb_true_iff in Hd as [Hc Hd]. by rewrite Hc, IH.
Qed.

(** The decimal number M * 10^e10 rounded to a double. *)
Definition decimal (neg : bool) (M e10 : Z) : double :=
  if 0 <=? e10 then round_ratio neg (M * 10 ^ e10) 1 else round_ratio neg M (10 ^ (- e10)).

Lemma exp_part_head ex x : exp_part ex x →
  starts_with_digit ex = false ∧ (∀ s, ex ≠ String "." s) ∧ decimal_exponent ex = x.
Proof.
  intros [[-> ->]|(e & sgn & ds & -> & He & Hd & Hne & Hx)]; [done|].
  split_and!; [by destruct He as [->| ->]|intros s [= -> _]; by destruct He|].
  assert (is_exp (byte_of e) = true) as Hexp by (by destruct He as [->| ->]).
  unfold decimal_exponent. rewrite Hexp. destruct Hx as [[-> ->]|[[->| ->] ->]]; [done|done|].
  destruct ds as [|[[] [] [] [] [] [] [] []] ds]; done.
Qed.

Lemma not_minus_digit s : starts_with_digit s = true →
  match s with String "-" s' => (true, s') | _ => (false, s) end = (false, s).
Proof. destruct s as [|[[] [] [] [] [] [] [] []] s]; done. Qed.

Lemma int_part_head ip t : int_part ip → starts_with_digit (ip +:+ t) = true.
Proof.
  intros [Ha Hn]. destruct ip as [|c ip]; [destruct Hn as [|[_ ?]]; done|].
  cbn [all_digits] in Ha. by apply andb_true_iff in Ha as [? _].
Qed.

Lemma strtod_sign neg s : starts_with_digit s = true →
  match sign_text neg +:+ s with String "-" s' => (true, s') | _ => (false, sign_text neg +:+ s) end = (neg, s).
Proof. intros Hs. destruct neg; [done|]. by apply not_minus_digit. Qed.

Lemma strtod_parts neg ip frac fp ex x :
  int_part ip → frac_part frac fp → exp_part ex x →
  strtod (sign_text neg +:+ ip +:+ frac +:+ ex)
  = decimal neg (dec_value 0 (ip +:+ fp)) (x - Z.of_nat (String.length fp)).
Proof.
  intros Hip Hfrac Hex. unfold strtod.
  rewrite strtod_sign by by apply int_part_head. pose proof (exp_part_head _ _ Hex) as (Hs & Hp & He).
  destruct Hip as [Ha _]. destruct Hfrac as [[-> ->]|(-> & Hf & Hne)].
  - cbn [String.append]. rewrite span_digits_app by done.
    assert (Hm : (match ex with String "." s => span_digits s | _ => ("", ex) end) = ("", ex)).
    { destruct ex as [|c ex]; [done|]. destruct (ascii_dec c ".") as [->|Hc]; [by destruct (Hp ex)|].
      destruct c as [[] [] [] [] [] [] [] []]; done. }
    rewrite Hm, He. done.
  - change ("." +:+ fp) with (String "." fp). cbn [String.append].
    rewrite span_digits_app by done. cbn [span_digits]. rewrite span_digits_app by done. by rewrite He.
Qed.

Lemma strtod_literal neg s M e10 : literal s M e10 → strtod (sign_text neg +:+ s) = decimal neg M e10.
Proof. intros [ip frac fp ex x Hip Hfrac Hex _]. by apply strtod_parts. Qed.

(** ** Printing a literal *)

Lemma dec_value_zeros n acc : dec_value acc (str_repeat n "0") = acc * 10 ^ Z.of_nat n.
Proof.
  revert acc. induction n as [|n IH]; intros acc; cbn [str_repeat dec_value].
  - change (10 ^ Z.of_nat 0) with 1. lia.
  - rewrite IH, Nat2Z.inj_succ, Z.pow_succ_r by lia. change (byte_of "0") with 48. lia.
Qed.

Lemma all_digits_zeros n : all_digits (str_repeat n "0") = true.
Proof. by induction n. Qed.

Lemma str_take_drop n s : str_take n s +:+ str_drop n s = s.
Proof. revert n. induction s as [|c s IH]; intros [|n]; [done..|]. simpl. by rewrite IH. Qed.

Lemma all_digits_split s t : all_digits (s +:+ t) = true → all_digits s = true ∧ all_digits t = true.
Proof. rewrite all_digits_app. apply andb_true_iff. Qed.

Lemma head_ok_take n buf : head_ok buf = true → head_ok (str_take n buf) = true.
Proof. destruct buf, n; done. Qed.

Lemma digit_pair a b : 0 ≤ a < 10 → 0 ≤ b < 10 →
  all_digits (String (digit a) (String (digit b) "")) = true
  ∧ dec_value 0 (String (digit a) (String (digit b) "")) = 10 * a + b.
Proof.
  intros Ha Hb. cbn [all_digits dec_value]. rewrite !digit_byte by lia. unfold is_digit.
  rewrite !(proj2 (Z.leb_le _ _)) by lia. split; [done|lia].
Qed.

(** [append_exponent] prints every exponent of at most three digits. *)
Lemma append_exponent_part x : -999 ≤ x ≤ 999 → exp_part ("e" +:+ append_exponent x) x.
Proof.
  intros Hx. right. unfold append_exponent. set (k := Z.abs x).
  assert (Hk : 0 ≤ k ≤ 999) by lia.
  set (ds := if k <? 10 then _ else _). exists "e"%char, (if x <? 0 then "-" else "+"), ds.
  assert (Hds : all_digits ds = true ∧ dec_value 0 ds = k ∧ ds ≠ "").
  { unfold ds. destruct (k <? 10) eqn:E1; [|destruct (k <? 100) eqn:E2]; zify_cmp.
    - destruct (digit_pair 0 k) as [H1 H2]; [lia|lia|]. change (digit 0) with "0"%char in *. split_and!; [done|lia|done].
    - destruct (digit_pair (k / 10) (k mod 10)) as [H1 H2]; try (Z.to_euclidean_division_equations; lia).
      split_and!; [done| |done]. rewrite H2. Z.to_euclidean_division_equations; lia.
    - destruct (digit_pair (k mod 100 / 10) (k mod 100 mod 10)) as [H1 H2];
        try (Z.to_euclidean_division_equations; lia).
      set (r := String (digit (k mod 100 / 10)) (String (digit (k mod 100 mod 10)) "")) in *.
      assert (Hq : 0 ≤ k / 100 < 10) by (Z.to_euclidean_division_equations; lia).
      assert (Hc : dec_value (k / 100) r = k / 100 * 100 + dec_value 0 r).
      { unfold r. cbn [dec_value]. lia. }
      cbn [all_digits dec_value]. rewrite digit_byte by lia. unfold is_digit.
      rewrite !(proj2 (Z.leb_le _ _)) by lia. replace (10 * 0 + (48 + k / 100 - 48)) with (k / 100) by lia.
      split_and!; [done| |done]. rewrite Hc, H2. Z.to_euclidean_division_equations; lia. }
  destruct Hds as (H1 & H2 & H3). split_and!; [by destruct (x <? 0)|by left|done|done|].
  rewrite H2. destruct (x <? 0) eqn:E; zify_cmp; [left|right; split; [by left|]]; try split; try done; lia.
Qed.

Section format.
Context (buf : string) (E : Z).
Hypothesis Ha : all_digits buf = true.
Hypothesis Hh : head_ok buf = true.
Hypothesis Hne : buf ≠ "".
Let k := Z.of_nat (String.length buf).
Let n := k + E.

Lemma buf_length : 1 ≤ k.
Proof. unfold k. destruct buf; [done|]. simpl. lia. Qed.

(** The digits shifted by [j] places name the same number. *)
Definition prints (s : string) : Prop :=
  ∃ j, 0 ≤ j ∧ literal s (dec_value 0 buf * 10 ^ j) (E - j).

(** digits[000].0 *)
Lemma prints_integer : k ≤ n → prints (buf +:+ zero_digits (n - k) +:+ ".0").
Proof.
  intros Hn. exists (E + 1). split; [lia|].
  pose proof (Literal (buf +:+ zero_digits (n - k)) ".0" "0" "" 0) as HL.
  rewrite append_assoc, append_nil_r in HL.
  replace (dec_value 0 ((buf +:+ zero_digits (n - k)) +:+ "0")) with (dec_value 0 buf * 10 ^ (E + 1)) in HL.
  - replace (E - (E + 1)) with (0 - Z.of_nat (String.length "0")) by (simpl; lia). apply HL.
    + split; [by rewrite all_digits_app, Ha; apply all_digits_zeros|]. right. by destruct buf.
    + right. done.
    + by left.
    + by left.
  - rewrite !dec_value_app. unfold zero_digits. rewrite dec_value_zeros. cbn [dec_value].
    change (byte_of "0") with 48. rewrite Z2Nat.id by lia. replace (n - k) with E by lia.
    rewrite Z.pow_add_r, Z.pow_1_r by lia. lia.
Qed.

(** dig.its, with digits on both sides of the point *)
Lemma point_literal i ex x :
  0 < i < k → exp_part ex x →
  literal (str_take (Z.to_nat i) buf +:+ "." +:+ str_drop (Z.to_nat i) buf +:+ ex)
    (dec_value 0 buf) (x - (k - i)).
Proof.
  intros Hi Hex. set (a := str_take (Z.to_nat i) buf). set (b := str_drop (Z.to_nat i) buf).
  assert (Hab : buf = a +:+ b) by (symmetry; apply str_take_drop).
  assert (Hlen : Z.of_nat (String.length b) = k - i) by (unfold b; rewrite length_str_drop; lia).
  pose proof Ha as Ha'. rewrite Hab in Ha'. apply all_digits_split in Ha' as [Ha1 Ha2].
  rewrite Hab, <-Hlen. replace (a +:+ "." +:+ b +:+ ex) with (a +:+ ("." +:+ b) +:+ ex) by done.
  apply Literal; [|right|done|by left].
  - split; [done|]. right. split; [by apply head_ok_take|]. unfold a. destruct buf; [done|].
    destruct (Z.to_nat i) eqn:Ei; [lia|done].
  - split_and!; [done|done|]. intros ->. simpl in Hlen. lia.
Qed.

Lemma prints_point : 0 < n < k →
  prints (str_take (Z.to_nat n) buf +:+ "." +:+ str_drop (Z.to_nat n) buf).
Proof.
  intros Hn. exists 0. split; [lia|]. rewrite Z.pow_0_r, Z.mul_1_r.
  pose proof (point_literal n "" 0 Hn ltac:(by left)) as HL.
  rewrite append_nil_r in HL. by replace (E - 0) with (0 - (k - n)) by lia.
Qed.

(** 0.[000]digits *)
Lemma prints_small : n ≤ 0 → prints ("0." +:+ zero_digits (- n) +:+ buf).
Proof.
  intros Hn. exists 0. split; [lia|]. pose proof buf_length.
  pose proof (Literal "0" ("." +:+ zero_digits (- n) +:+ buf) (zero_digits (- n) +:+ buf) "" 0) as HL.
  rewrite append_nil_r in HL.
  replace (dec_value 0 ("0" +:+ zero_digits (- n) +:+ buf)) with (dec_value 0 buf * 10 ^ 0) in HL.
  - replace (E - 0) with (0 - Z.of_nat (String.length (zero_digits (- n) +:+ buf))).
    + apply HL; [split; [done|by left]|right|by left|by left].
      split_and!; [done|by rewrite all_digits_app, Ha; unfold zero_digits; rewrite all_digits_zeros|].
      intros He. apply Hne. by destruct (zero_digits (- n)).
    + rewrite length_append. unfold zero_digits. rewrite length_str_repeat. lia.
  - rewrite !dec_value_app. unfold zero_digits. rewrite dec_value_zeros. cbn [dec_value].
    change (byte_of "0") with 48. rewrite Z.pow_0_r. replace (10 * 0 + (48 - 48)) with 0 by lia.
    rewrite Z.mul_0_l. lia.
Qed.

(** d.igitse+123 *)
Lemma prints_exponent : -999 ≤ n - 1 ≤ 999 →
  prints ((if k =? 1 then buf else str_take 1 buf +:+ "." +:+ str_drop 1 buf) +:+
          "e" +:+ append_exponent (n - 1)).
Proof.
  intros Hn. exists 0. split; [lia|]. rewrite Z.pow_0_r, Z.mul_1_r, Z.sub_0_r.
  pose proof (append_exponent_part (n - 1) Hn) as Hex. pose proof buf_length as Hk.
  destruct (k =? 1) eqn:Ek; zify_cmp.
  - pose proof (Literal buf "" "" ("e" +:+ append_exponent (n - 1)) (n - 1)) as HL.
    rewrite append_nil_r in HL. replace E with (n - 1 - Z.of_nat (String.length "")) by (simpl; lia).
    apply HL; [|by left|done|by right]. split; [done|]. by right.
  - pose proof (point_literal 1 _ _ ltac:(lia) Hex) as HL. rewrite !append_assoc.
    by replace E with (n - 1 - (k - 1)) by lia.
Qed.

Lemma format_buffer_prints : -999 ≤ n - 1 ≤ 999 → prints (format_buffer buf E (-4) 15).
Proof.
  intros Hn. unfold format_buffer. fold k. fold n.
  destruct ((k <=? n) && (n <=? 15)) eqn:E1; [zify_cmp; by apply prints_integer|].
  destruct ((0 <? n) && (n <=? 15)) eqn:E2.
  { apply prints_point. apply andb_false_iff in E1. destruct E1; zify_cmp; lia. }
  destruct ((-4 <? n) && (n <=? 0)) eqn:E3; [zify_cmp; by apply prints_small|].
  by apply prints_exponent.
Qed.

(** The text fits: 15 digits and a point, or 17 digits, at most three zeros
    and "0.", or 17 digits with a point and an exponent. *)
Lemma format_buffer_length :
  (String.length buf ≤ 17)%nat → (String.length (format_buffer buf E (-4) 15) ≤ 23)%nat.
Proof.
  intros Hl. unfold format_buffer. fold k. fold n.
  destruct ((k <=? n) && (n <=? 15)) eqn:E1.
  { zify_cmp. rewrite !length_append. unfold zero_digits. rewrite length_str_repeat. simpl. unfold n, k in *. lia. }
  destruct ((0 <? n) && (n <=? 15)) eqn:E2.
  { zify_cmp. rewrite !length_append, length_str_take, length_str_drop. simpl. unfold n, k in *. lia. }
  destruct ((-4 <? n) && (n <=? 0)) eqn:E3.
  { zify_cmp. rewrite !length_append. unfold zero_digits. rewrite length_str_repeat. simpl. unfold n, k in *. lia. }
  assert (Hx : (String.length (append_exponent (n - 1)) ≤ 4)%nat).
  { unfold append_exponent. rewrite length_append. repeat case_match; simpl; lia. }
  rewrite !length_append. destruct (k =? 1) eqn:Ek; zify_cmp; [simpl; lia|].
  rewrite !length_append, length_str_take, length_str_drop. cbn [String.length]. unfold n, k in *. lia.
Qed.
End format.

(** ** The range of the exponent *)

Lemma dec_value_upper s acc :
  all_digits s = true → dec_value acc s < (acc + 1) * 10 ^ Z.of_nat (String.length s).
Proof.
  revert acc. induction s as [|c s IH]; intros acc Ha; cbn [dec_value String.length].
  { change (10 ^ Z.of_nat 0) with 1. lia. }
  cbn [all_digits] in Ha. apply andb_true_iff in Ha as [Hc Ha]. unfold is_digit in Hc. zify_cmp.
  rewrite Nat2Z.inj_succ, Z.pow_succ_r by lia. eapply Z.lt_le_trans; [by apply IH|].
  replace ((acc + 1) * (10 * 10 ^ Z.of_nat (String.length s)))
    with ((10 * acc + 10) * 10 ^ Z.of_nat (String.length s)) by ring.
  apply Z.mul_le_mono_nonneg_r; lia.
Qed.

(** The powers of ten around the doubles. *)
Lemma doubles_below : (pw 2 1024 <= pw 10 309)%Q.
Proof. rewrite !pw_Z by lia. rewrite <-Zle_Qle. vm_compute. discriminate. Qed.

Lemma doubles_above : (pw 10 (-324) <= pw 2 (-1075))%Q.
Proof.
  apply (Qmul_le_inv _ _ (pw 10 324)); [apply pw_pos; lia|].
  apply (Qmul_le_inv _ _ (pw 2 1075)); [apply pw_pos; lia|].
  rewrite (pw_opp 10 324) by lia.
  assert (HE : (pw 2 (-1075) * pw 10 324 * pw 2 1075 == pw 10 324)%Q).
  { transitivity (pw 10 324 * (pw 2 (-1075) * pw 2 1075))%Q; [ring|]. rewrite (pw_opp 2 1075) by lia. ring. }
  rewrite HE, Qmult_1_l, !pw_Z by lia. rewrite <-Zle_Qle. vm_compute. discriminate.
Qed.

Lemma rounds_upper m e x : positive_double m e → rounds_to m e x → (x < pw 10 309)%Q.
Proof.
  intros Hd [_ U]. apply positive_double_range in Hd as [Hm He].
  eapply Qlt_le_trans; [exact U|]. eapply Qle_trans; [|exact doubles_below].
  change 1024 with (971 + 53). rewrite pw2_split by lia.
  apply Qle_trans with (inject_Z (2 ^ 53) * pw 2 e)%Q.
  - apply Qmul_le; [apply pw_pos; lia|].
    assert (Hq : (inject_Z m <= inject_Z (2 ^ 53 - 1))%Q) by (rewrite <-Zle_Qle; lia).
    rewrite inject_Z_minus in Hq. change (inject_Z 1) with 1%Q in Hq. lra.
  - rewrite !(Qmult_comm (inject_Z _)). apply Qmul_le; [by apply inject_Z_pos|]. apply pw_le; lia.
Qed.

Lemma rounds_lower m e x : positive_double m e → rounds_to m e x → (pw 10 (-324) < x)%Q.
Proof.
  intros Hd [L _]. apply positive_double_range in Hd as [Hm He].
  eapply Qle_lt_trans; [|exact L]. eapply Qle_trans; [exact doubles_above|].
  apply Qle_trans with ((1 # 2) * pw 2 e)%Q.
  - assert (HE : (pw 2 (-1075) == pw 2 (-1074) * (1 # 2))%Q).
    { change (-1075) with (-1074 + -1). rewrite pw_add by lia. apply Qmult_comp; reflexivity. }
    rewrite HE, (Qmult_comm (1 # 2)). apply Qmul_le; [reflexivity|]. apply pw_le; lia.
  - apply Qmul_le; [apply pw_pos; lia|].
    assert (Hq : (inject_Z 1 <= inject_Z m)%Q) by (rewrite <-Zle_Qle; lia).
    change (inject_Z 1) with 1%Q in Hq. destruct (lower_closer m e); lra.
Qed.

Lemma exponent_range m e buf E :
  positive_double m e → all_digits buf = true → head_ok buf = true → buf ≠ "" →
  rounds_to m e (inject_Z (dec_value 0 buf) * pw 10 E) →
  -324 ≤ Z.of_nat (String.length buf) + E - 1 ≤ 308.
Proof.
  intros Hd Ha Hh Hne Hr. pose proof (rounds_upper _ _ _ Hd Hr) as U. pose proof (rounds_lower _ _ _ Hd Hr) as L.
  pose proof (lead_value buf Ha Hh Hne) as Hlo. pose proof (dec_value_upper buf 0 Ha) as Hhi.
  set (k := Z.of_nat (String.length buf)) in *.
  assert (Hk : 1 ≤ k) by (unfold k; destruct buf; [done|simpl; lia]).
  rewrite Z.mul_1_l in Hhi. rewrite Zle_Qle in Hlo. rewrite Zlt_Qlt in Hhi.
  rewrite <-pw_Z in Hlo, Hhi by lia. pose proof (pw_pos 10 E ltac:(lia)) as HP.
  apply (Qmul_le _ _ _ HP) in Hlo. apply (Qmul_lt _ _ _ HP) in Hhi. rewrite <-pw_add in Hlo, Hhi by lia.
  split.
  - assert (-324 < k + E); [|lia]. apply (Qpower_lt_compat_l_inv (inject_Z 10)); [|done].
    eapply Qlt_trans; [exact L|exact Hhi].
  - assert (k - 1 + E < 309); [|lia]. apply (Qpower_lt_compat_l_inv (inject_Z 10)); [|done].
    eapply Qle_lt_trans; [exact Hlo|exact U].
Qed.

(** ** Printing and reading back *)

Lemma decimal_correct neg M e10 m e :
  0 < M → positive_double m e → rounds_to m e (inject_Z M * pw 10 e10) →
  decimal neg M e10 = Dfin neg m e.
Proof.
  intros HM Hd Hr. unfold decimal. destruct (0 <=? e10) eqn:E; zify_cmp.
  - apply (round_ratio_correct _ _ _ (inject_Z M * pw 10 e10)); try done.
    + apply Z.mul_pos_pos; [done|]. apply Z.pow_pos_nonneg; lia.
    + rewrite inject_Z_mult, <-(pw_Z 10) by done. change (inject_Z 1) with 1%Q. ring.
  - apply (round_ratio_correct _ _ _ (inject_Z M * pw 10 e10)); try done.
    + apply Z.pow_pos_nonneg; lia.
    + rewrite <-(pw_Z 10) by lia.
      transitivity (inject_Z M * (pw 10 (- e10) * pw 10 e10))%Q; [|ring]. rewrite pw_opp by lia. ring.
Qed.

Lemma valid_positive neg m e : valid_double (Dfin neg m e) = true →
  (m = 0 ∧ e = 0) ∨ positive_double m e.
Proof.
  cbn [valid_double]. rewrite !orb_true_iff, !andb_true_iff, !Z.eqb_eq, !Z.ltb_lt, !Z.leb_le.
  unfold positive_double. intros [[?|?]|?]; [left|right; left|right; right]; tauto || (split; [|]; lia).
Qed.

(** The text printed is a literal for the double. *)
Lemma to_chars_literal neg m e :
  valid_double (Dfin neg m e) = true →
  ∃ s M e10, to_chars (Dfin neg m e) = sign_text neg +:+ s ∧ literal s M e10
    ∧ decimal neg M e10 = Dfin neg m e ∧ (String.length s ≤ 23)%nat.
Proof.
  intros Hv. destruct (valid_positive _ _ _ Hv) as [[-> ->]|Hd]; unfold to_chars.
  { exists "0.0", 0, (-1). split_and!; [done| |by destruct neg|simpl; lia].
    apply (Literal "0" ".0" "0" "" 0); [split; [done|by left]|by right|by left|by left]. }
  assert (Hm : 0 < m) by (apply positive_double_range in Hd; lia).
  rewrite (proj2 (Z.eqb_neq m 0)) by lia.
  destruct (grisu2_correct m e Hd) as (buf & E & -> & Ha & Hh & Hne & Hl & Hr).
  pose proof (exponent_range m e buf E Hd Ha Hh Hne Hr) as Hx.
  destruct (format_buffer_prints buf E Ha Hh Hne ltac:(lia)) as (j & Hj & HL).
  eexists _, _, _. split_and!; [reflexivity|exact HL| |by apply format_buffer_length].
  apply decimal_correct; [|done|].
  - apply Z.mul_pos_pos; [|apply Z.pow_pos_nonneg; lia].
    pose proof (lead_value buf Ha Hh Hne). assert (0 < 10 ^ (Z.of_nat (String.length buf) - 1)); [|lia].
    apply Z.pow_pos_nonneg; [lia|]. destruct buf; [done|simpl; lia].
  - eapply rounds_to_eq; [|exact Hr]. rewrite inject_Z_mult, <-(pw_Z 10 j) by done.
    transitivity (inject_Z (dec_value 0 buf) * (pw 10 j * pw 10 (E - j)))%Q; [ring|].
    rewrite <-pw_add by lia. by replace (j + (E - j)) with E by lia.
Qed.

Lemma span_digits_all s : all_digits (span_digits s).1 = true.
Proof.
  induction s as [|c s IH]; [done|]. cbn [span_digits]. destruct (is_digit (byte_of c)) eqn:E; [|done].
  destruct (span_digits s). cbn [fst all_digits] in *. by rewrite E, IH.
Qed.

(** Whatever the text, [strtod] yields the one representation of a double
    or an infinity: 53 bits and an exponent in range, fewer bits at the least
    exponent, or zero. *)
Lemma strtod_valid s : valid_double (strtod s) = true.
Proof.
  unfold strtod. destruct (match s with String "-" s' => (true, s') | _ => (false, s) end) as [neg s1].
  pose proof (span_digits_all s1) as H1. destruct (span_digits s1) as [ip s2].
  assert (H2 : ∃ fp s3, match s2 with String "." s' => span_digits s' | _ => ("", s2) end = (fp, s3)
                 ∧ all_digits fp = true).
  { repeat case_match; try (eexists _, _; split; [reflexivity|done]).
    subst. eexists _, _. split; [apply surjective_pairing|apply span_digits_all]. }
  destruct H2 as (fp & s3 & -> & H2). cbn [fst] in H1.
  assert (HM : 0 ≤ dec_value 0 (ip +:+ fp)).
  { apply dec_value_nonneg; [|done]. by rewrite all_digits_app, H1, H2. }
  set (e10 := decimal_exponent s3 - _). destruct (0 <=? e10) eqn:E; zify_cmp.
  - apply round_ratio_valid; [|done]. apply Z.mul_nonneg_nonneg; [done|]. apply Z.pow_nonneg. lia.
  - apply round_ratio_valid; [done|]. apply Z.pow_pos_nonneg; lia.
Qed.

(** C10: [to_chars] prints every finite double with at most 24 characters, so
    within the 64 bytes of [number_buffer], and [strtod] reads the double back
    from the text: Grisu2 prints enough digits, and the right ones. *)
Theorem to_chars_correct d :
  valid_double d = true → isfinite d = true →
  strtod (to_chars d) = d ∧ (String.length (to_chars d) ≤ 24)%nat.
Proof.
  destruct d as [neg m e| |]; [|done|done]. intros Hv _.
  destruct (to_chars_literal neg m e Hv) as (s & M & e10 & -> & HL & Hdec & Hl). split.
  - by rewrite (strtod_literal neg s M e10 HL).
  - rewrite length_append. destruct neg; simpl; lia.
Qed.

Lemma to_chars_correct_witness :
  strtod (to_chars (Dfin true 7205759403792794 (-56))) = Dfin true 7205759403792794 (-56)
  ∧ (String.length (to_chars (Dfin true 7205759403792794 (-56))) ≤ 24)%nat.
Proof. apply (to_chars_correct (Dfin true 7205759403792794 (-56))); vm_compute; reflexivity. Defined.
