(* ===== verification/JsonLexerSpec.v ===== *)
(** * Properties of the scanner

    Every scan terminates and consumes at least one character unless the
    input is exhausted, the text of every string token is well-formed UTF-8,
    and the numbers are in the range of their type. *)

From stdpp Require Import base gmap strings list.
From Stdlib Require Import ZArith Ascii Lia.
From S2P Require Import Prelude Cxx StdMap JsonValue Utf8 JsonLexer GrisuDigits FloatText.

(** ** Reading one character *)

Lemma byte_of_not_eof c : byte_of c ≠ eof.
Proof. pose proof (byte_of_range c). unfold eof. lia. Qed.

(** A lexer state as [get] leaves it: [fresh l c] says [c] was just read. *)
Record fresh (l : lexer) (c : Z) : Prop := {
  fresh_unget : next_unget l = false;
  fresh_current : current l = c;
}.

Lemma wp_get l (Q : Z → lexer → Prop) X :
  (∀ c l', fresh l' c → token_buffer l' = token_buffer l →
     (c = eof ∧ left_to_read l' = left_to_read l) ∨ (c ≠ eof ∧ left_to_read l = S (left_to_read l')) →
     Q c l') →
  wp get l Q X.
Proof.
  intros HQ. unfold wp, get.
  destruct (next_unget l) eqn:Eu.
  - apply HQ; [done|done|]. unfold left_to_read. simpl. rewrite Eu. simpl.
    destruct (current l =? eof) eqn:E; zify_cmp; simpl; [left|right]; split; try done; lia.
  - destruct (ia l) as [|c rest] eqn:Ei; simpl; apply HQ; [done|done| |done|done|].
    + left. unfold left_to_read. simpl. by rewrite Eu, Ei.
    + right. split; [apply byte_of_not_eof|]. unfold left_to_read. simpl. rewrite Eu, Ei. simpl. lia.
Qed.

Lemma left_with_buffer s l : left_to_read (with_token_buffer s l) = left_to_read l.
Proof. done. Qed.

Lemma left_with_error s l : left_to_read (with_error_message s l) = left_to_read l.
Proof. done. Qed.

(** [unget] gives back the character just read. *)
Lemma wp_unget l c (Q : unit → lexer → Prop) X :
  fresh l c →
  (∀ l', token_buffer l' = token_buffer l →
     left_to_read l' = (left_to_read l + (if (c =? eof)%Z then 0 else 1))%nat → Q tt l') →
  wp unget l Q X.
Proof.
  intros [Hu Hc] HQ. unfold wp, unget, modify. apply HQ; [done|].
  unfold left_to_read. simpl. rewrite Hu, Hc. simpl. destruct (c =? eof); simpl; lia.
Qed.

(** ** Well-formed token text *)

Definition buf_ok (l : lexer) : Prop := utf8_string (token_buffer l) = true.

(** The bytes added to the buffer. *)
Definition grown (l l' : lexer) (bs : list Z) : Prop :=
  token_buffer l' = token_buffer l +:+ string_of bs.

Lemma grown_ok l l' bs :
  buf_ok l → grown l l' bs → Forall is_byte bs → utf8 bs = true → buf_ok l'.
Proof.
  unfold buf_ok, grown. intros Hl -> Hb Hu. apply utf8_string_app; [done|].
  unfold utf8_string. by rewrite bytes_of_string_of.
Qed.

Lemma wp_add c l (Q : unit → lexer → Prop) X :
  Q tt (with_token_buffer (token_buffer l +:+ string_of [c]) l) → wp (add c) l Q X.
Proof. done. Qed.

(** *** Continuation bytes *)

Definition ranges_ok (ranges : list (Z * Z)) : Prop :=
  Forall (λ r, 0 ≤ r.1 ∧ r.2 < 256) ranges.

Lemma wp_bytes_in_range ranges l (Q : bool → lexer → Prop) X :
  ranges_ok ranges →
  (∀ l', (left_to_read l' ≤ left_to_read l)%nat → Q false l') →
  (∀ l' bs, (left_to_read l' ≤ left_to_read l)%nat → grown l l' bs →
     Forall2 (λ b r, r.1 ≤ b ≤ r.2) bs ranges → Q true l') →
  wp (bytes_in_range ranges) l Q X.
Proof.
  intros Hr. revert l Q. induction Hr as [|[lo hi] ranges [H0 H1] Hr IH]; intros l Q Hf Ht; simpl.
  { wp_step. apply (Ht l []); [done|by unfold grown; simpl; rewrite append_nil_r|constructor]. }
  wp_step. apply wp_get. intros c l1 Hfr Hb Hleft. simpl in *.
  destruct ((lo <=? c) && (c <=? hi)) eqn:E; zify_cmp.
  - wp_step. apply wp_add. apply IH.
    + intros l' Hl'. apply Hf. rewrite left_with_buffer in Hl'. lia.
    + intros l' bs Hl' Hg Hbs. apply (Ht l' (c :: bs)).
      * rewrite left_with_buffer in Hl'. lia.
      * unfold grown in *. rewrite Hg. simpl. rewrite Hb, append_assoc. done.
      * by constructor.
  - wp_step. wp_step. wp_step. apply Hf. rewrite left_with_error. lia.
Qed.

(** Evaluate a membership test of [utf8] with the bounds in the context. *)
Ltac utf8_eval :=
  cbn [utf8]; unfold is_cont, in_range;
  repeat match goal with
  | |- context [(?a <=? ?b)%Z] =>
      first [rewrite (proj2 (Z.leb_le a b)) by lia | rewrite (proj2 (Z.leb_gt a b)) by lia
            | destruct (Z.leb_spec a b)]
  | |- context [(?a =? ?b)%Z] =>
      first [rewrite (proj2 (Z.eqb_eq a b)) by lia | rewrite (proj2 (Z.eqb_neq a b)) by lia
            | destruct (Z.eqb_spec a b)]
  | _ => progress cbn [andb]
  end; first [reflexivity | lia].

(** A lead byte followed by bytes in its ranges is one code point. *)
Lemma lead_ranges_utf8 c ranges bs :
  is_byte c → lead_ranges c = Some ranges → Forall2 (λ b r, r.1 ≤ b ≤ r.2) bs ranges →
  Forall is_byte (c :: bs) ∧ utf8 (c :: bs) = true.
Proof.
  unfold lead_ranges, is_byte. intros Hc Hr Hbs.
  repeat match type of Hr with
  | context [if ?b then _ else _] => destruct b eqn:?
  end; simplify_eq;
    repeat match goal with
    | H : Forall2 _ _ (_ :: _) |- _ => apply Forall2_cons_inv_r in H as (? & ? & ? & H & ->)
    | H : Forall2 _ _ [] |- _ => apply Forall2_nil_inv_r in H as ->
    | H : (_ || _)%bool = true |- _ => apply orb_true_iff in H as [|]
    end; simpl fst in *; simpl snd in *; unfold in_range in *; zify_cmp;
    (split; [repeat constructor; lia|]); utf8_eval.
Qed.

(** *** Escaped code points *)

Lemma lor_high a n x : 0 ≤ n → 0 ≤ x < 2 ^ n → Z.lor (a * 2 ^ n) x = a * 2 ^ n + x.
Proof.
  intros Hn Hx. symmetry. apply Z.add_nocarry_lor.
  apply Z.bits_inj'. intros i Hi. rewrite Z.land_spec, Z.bits_0.
  destruct (decide (i < n)).
  - by rewrite Z.mul_pow2_bits_low by lia.
  - rewrite <-(Z.mod_small x (2 ^ n)) by lia.
    rewrite Z.mod_pow2_bits_high by lia. apply andb_false_r.
Qed.

Lemma low_bits x : 0 ≤ x → Z.lor 0x80 (Z.land x 0x3F) = 0x80 + x mod 64.
Proof.
  intros Hx. change 0x3F with (Z.ones 6). rewrite Z.land_ones by lia.
  change 0x80 with (2 * 2 ^ 6). apply lor_high; [lia|]. apply Z.mod_pos_bound. lia.
Qed.

Lemma div_shift x k : 0 ≤ k → Z.shiftr x k = x / 2 ^ k.
Proof. intros. by apply Z.shiftr_div_pow2. Qed.

Lemma wp_add_encode cp l (Q : unit → lexer → Prop) X :
  scalar_value cp → Q tt (with_token_buffer (token_buffer l +:+ string_of (encode cp)) l) →
  wp (add_codepoint cp) l Q X.
Proof.
  intros [Hr _] HQ. unfold add_codepoint, encode in *.
  assert (Hd : ∀ k, 0 ≤ k → 0 ≤ cp / 2 ^ k) by (intros; apply Z.div_pos; lia).
  repeat case_match; zify_cmp; repeat wp_step; repeat apply wp_add; repeat wp_step;
    repeat apply wp_add; repeat wp_step; repeat apply wp_add; repeat wp_step;
    repeat apply wp_add; cbn [with_token_buffer token_buffer ia current next_unget chars_read token_string
      error_message lx_integer lx_unsigned lx_float] in *; rewrite ?append_assoc; cbn [string_of String.append] in *;
    rewrite ?low_bits, ?div_shift, ?low_bits by (rewrite ?div_shift by lia; auto with lia);
    try exact HQ.
  - change 0xC0 with (6 * 2 ^ 5). rewrite lor_high; [exact HQ|lia|].
    split; [auto with lia|]. apply Z.div_lt_upper_bound; lia.
  - change 0xE0 with (14 * 2 ^ 4). rewrite lor_high; [exact HQ|lia|].
    split; [auto with lia|]. apply Z.div_lt_upper_bound; lia.
  - change 0xF0 with (30 * 2 ^ 3). rewrite lor_high; [exact HQ|lia|].
    split; [auto with lia|]. apply Z.div_lt_upper_bound; lia.
Qed.

Lemma wp_add_codepoint cp l (Q : unit → lexer → Prop) X :
  scalar_value cp →
  (∀ l', left_to_read l' = left_to_read l → grown l l' (encode cp) → Q tt l') →
  wp (add_codepoint cp) l Q X.
Proof. intros Hcp HQ. apply wp_add_encode; [done|]. by apply HQ. Qed.

Lemma encode_utf8 cp :
  scalar_value cp → Forall is_byte (encode cp) ∧ utf8 (encode cp) = true.
Proof.
  intros [Hr Hs]. unfold encode, is_byte.
  pose proof (Z.div_mod cp 64 ltac:(lia)) as D1.
  pose proof (Z.mod_pos_bound cp 64 ltac:(lia)) as B1.
  pose proof (Z.div_mod (cp / 64) 64 ltac:(lia)) as D2.
  pose proof (Z.mod_pos_bound (cp / 64) 64 ltac:(lia)) as B2.
  pose proof (Z.div_mod (cp / 4096) 64 ltac:(lia)) as D3.
  pose proof (Z.mod_pos_bound (cp / 4096) 64 ltac:(lia)) as B3.
  rewrite Z.div_div in D2, D3 by lia.
  change (64 * 64) with 4096 in D2. change (4096 * 64) with 262144 in D3.
  repeat case_match; zify_cmp; (split; [rewrite ?Forall_cons, ?Forall_nil; lia|]); utf8_eval.
Qed.

(** *** Lead bytes *)

(** Case analysis on the tests of the goal. *)
Ltac split_tests :=
  repeat match goal with
  | |- context [if ?b then _ else _] => destruct b eqn:?
  end.

(** A code point outside ASCII is a lead byte and bytes in its ranges, and
    back. *)
Lemma encode_lead cp :
  scalar_value cp → 0x80 ≤ cp →
  ∃ c bs ranges, encode cp = c :: bs ∧ 0x80 ≤ c ∧ lead_ranges c = Some ranges
    ∧ Forall2 (λ b r, r.1 ≤ b ≤ r.2) bs ranges.
Proof.
  intros [Hr Hs] Hge. unfold encode. rewrite (proj2 (Z.ltb_ge cp 0x80)) by lia.
  pose proof (Z.div_mod cp 64 ltac:(lia)) as D1.
  pose proof (Z.mod_pos_bound cp 64 ltac:(lia)) as B1.
  pose proof (Z.div_mod (cp / 64) 64 ltac:(lia)) as D2.
  pose proof (Z.mod_pos_bound (cp / 64) 64 ltac:(lia)) as B2.
  pose proof (Z.div_mod (cp / 4096) 64 ltac:(lia)) as D3.
  pose proof (Z.mod_pos_bound (cp / 4096) 64 ltac:(lia)) as B3.
  rewrite Z.div_div in D2, D3 by lia.
  change (64 * 64) with 4096 in D2. change (4096 * 64) with 262144 in D3.
  assert (Hsome : ∀ c bs, (0x80 ≤ c ∧ match lead_ranges c with
      | Some ranges => Forall2 (λ b r, r.1 ≤ b ≤ r.2) bs ranges | None => False end) →
      ∃ c' bs' ranges, c :: bs = c' :: bs' ∧ 0x80 ≤ c' ∧ lead_ranges c' = Some ranges
        ∧ Forall2 (λ b r, r.1 ≤ b ≤ r.2) bs' ranges).
  { intros c bs [Hc Hm]. destruct (lead_ranges c) as [ranges|] eqn:E; [|done]. by exists c, bs, ranges. }
  destruct (cp <=? 0x7FF) eqn:E1; [|destruct (cp <=? 0xFFFF) eqn:E2]; zify_cmp; apply Hsome;
    (split; [lia|]); unfold lead_ranges, in_range; split_tests;
    repeat match goal with
    | H : (_ && _)%bool = false |- _ => apply andb_false_iff in H as [H|H]
    | H : (_ || _)%bool = true |- _ => apply orb_true_iff in H as [H|H]
    end; zify_cmp; try lia; repeat constructor; simpl; lia.
Qed.

Lemma lead_encode c bs ranges :
  lead_ranges c = Some ranges → Forall2 (λ b r, r.1 ≤ b ≤ r.2) bs ranges →
  ∃ cp, scalar_value cp ∧ 0x80 ≤ cp ∧ c :: bs = encode cp.
Proof.
  intros Hr Hbs. unfold lead_ranges, in_range in Hr.
  assert (Hdone : ∀ cp, (scalar_value cp ∧ 0x80 ≤ cp) ∧ c :: bs = encode cp →
    ∃ cp, scalar_value cp ∧ 0x80 ≤ cp ∧ c :: bs = encode cp) by (intros cp [[??]?]; eauto).
  repeat match type of Hr with
  | context [if ?b then _ else _] => destruct b eqn:?
  end; simplify_eq;
    repeat match goal with
    | H : Forall2 _ _ (_ :: _) |- _ => apply Forall2_cons_inv_r in H as (? & ? & ? & H & ->)
    | H : Forall2 _ _ [] |- _ => apply Forall2_nil_inv_r in H as ->
    | H : (_ || _)%bool = true |- _ => apply orb_true_iff in H as [|]
    end; simpl fst in *; simpl snd in *; zify_cmp;
    match goal with
    | |- context [c :: [?x]] => apply (Hdone ((c - 0xC0) * 64 + (x - 0x80)))
    | |- context [c :: [?x; ?y]] => apply (Hdone ((c - 0xE0) * 4096 + (x - 0x80) * 64 + (y - 0x80)))
    | |- context [c :: [?x; ?y; ?z]] =>
        apply (Hdone ((c - 0xF0) * 262144 + (x - 0x80) * 4096 + (y - 0x80) * 64 + (z - 0x80)))
    end; (split; [unfold scalar_value; lia|]); unfold encode; split_tests; zify_cmp; try lia;
    repeat f_equal; Z.to_euclidean_division_equations; lia.
Qed.

Lemma hex_value_range c d : hex_value c = Some d → 0 ≤ d < 16.
Proof. unfold hex_value. repeat case_match; zify_cmp; intros; simplify_eq; lia. Qed.

Lemma wp_get_codepoint_loop factors cp bound l (Q : Z → lexer → Prop) X :
  0 ≤ cp → Forall (λ f, 0 ≤ f) factors →
  bound = cp + 15 * foldr (λ f acc, 2 ^ f + acc) 0 factors →
  (∀ r l', r = -1 ∨ 0 ≤ r ≤ bound → token_buffer l' = token_buffer l →
     (left_to_read l' ≤ left_to_read l)%nat → Q r l') →
  wp (get_codepoint_loop factors cp) l Q X.
Proof.
  intros Hcp Hf. revert cp bound l Hcp. induction Hf as [|f fs Hf0 Hf IH];
    intros cp bound l Hcp Hb HQ; simpl in *.
  { wp_step. apply HQ; [right; lia|done|done]. }
  wp_step. apply wp_get. intros c l1 _ Htb Hleft.
  destruct (hex_value c) as [d|] eqn:Ed.
  - apply hex_value_range in Ed. rewrite Z.shiftl_mul_pow2 by lia.
    assert (0 < 2 ^ f) by (apply Z.pow_pos_nonneg; lia).
    eapply IH; [nia|reflexivity|]. intros r l' Hr Ht Hl. apply HQ; [|congruence|lia].
    destruct Hr as [|Hr]; [by left|right]. nia.
  - wp_step. apply HQ; [by left|done|lia].
Qed.

Lemma wp_get_codepoint l (Q : Z → lexer → Prop) X :
  (∀ r l', r = -1 ∨ 0 ≤ r ≤ 0xFFFF → token_buffer l' = token_buffer l →
     (left_to_read l' ≤ left_to_read l)%nat → Q r l') →
  wp get_codepoint l Q X.
Proof.
  intros HQ. eapply wp_get_codepoint_loop; [done| |reflexivity|].
  - repeat constructor; done.
  - intros r l' Hr. apply HQ. simpl in Hr. lia.
Qed.

(** *** One turn of the string loop

    [turn l r l']: the turn consumed a character if it continues, and the
    buffer stays well formed if the string is continued or closed. *)
Definition turn (l : lexer) (r : option token_type) (l' : lexer) : Prop :=
  (left_to_read l' ≤ left_to_read l)%nat
  ∧ match r with
    | None => buf_ok l'
    | Some value_string => buf_ok l'
    | Some t => t = tok_parse_error
    end.

Lemma wp_stop msg l (Q : option token_type → lexer → Prop) X :
  Q (Some tok_parse_error) (with_error_message msg l) → wp (stop msg) l Q X.
Proof. done. Qed.

Lemma wp_scan_unicode_escape l X :
  buf_ok l → wp scan_unicode_escape l (turn l) X.
Proof.
  intros Hb. unfold scan_unicode_escape.
  assert (Hstop : ∀ msg l', (left_to_read l' ≤ left_to_read l)%nat →
    wp (stop msg) l' (turn l) X) by (intros; apply wp_stop; by split).
  wp_step. apply wp_get_codepoint. intros cp1 l1 Hcp1 Ht1 Hl1.
  destruct (cp1 =? -1) eqn:E1; zify_cmp; [by apply Hstop|].
  assert (Hadd : ∀ cp l', scalar_value cp → token_buffer l' = token_buffer l →
    (left_to_read l' ≤ left_to_read l)%nat →
    wp (add_codepoint cp ;; ret None) l' (turn l) X).
  { intros cp l' Hs Ht Hl. wp_step. apply wp_add_codepoint; [done|]. intros l2 Hl2 Hg. wp_step.
    destruct (encode_utf8 cp Hs). split; [lia|].
    apply (grown_ok l' l2 (encode cp)); [unfold buf_ok in *; congruence|done|done|done]. }
  destruct ((0xD800 <=? cp1) && (cp1 <=? 0xDBFF)) eqn:E2; zify_cmp.
  - wp_step. apply wp_get. intros c2 l2 _ Ht2 Hl2.
    destruct (negb (c2 =? _)); [apply Hstop; lia|].
    wp_step. apply wp_get. intros c3 l3 _ Ht3 Hl3.
    destruct (negb (c3 =? _)); [apply Hstop; lia|].
    wp_step. apply wp_get_codepoint. intros cp2 l4 Hcp2 Ht4 Hl4.
    destruct (cp2 =? -1) eqn:E3; zify_cmp; [apply Hstop; lia|].
    destruct ((0xDC00 <=? cp2) && (cp2 <=? 0xDFFF)) eqn:E4; zify_cmp; [|apply Hstop; lia].
    apply Hadd; [|congruence|lia]. rewrite Z.shiftl_mul_pow2 by lia. split; lia.
  - destruct ((0xDC00 <=? cp1) && (cp1 <=? 0xDFFF)) eqn:E3; zify_cmp; [by apply Hstop|].
    apply Hadd; [|done|done].
    apply andb_false_iff in E2, E3. rewrite !Z.leb_gt in E2, E3. split; lia.
Qed.

(** Appending one ASCII character. *)
Lemma turn_add_ascii l c (k : M exn lexer (option token_type)) l0 X :
  buf_ok l → 0 ≤ c < 0x80 → (left_to_read l ≤ left_to_read l0)%nat →
  (∀ l', k l' = (Ok None, l')) →
  wp (add c ;; k) l (turn l0) X.
Proof.
  intros Hb Hc Hl Hk. wp_step. apply wp_add. eapply wp_run; [apply Hk|].
  split; [done|]. apply (grown_ok l _ [c]); [done|done|repeat constructor; unfold is_byte; lia|].
  apply utf8_ascii. repeat constructor; lia.
Qed.

Lemma wp_scan_escape l X : buf_ok l → wp scan_escape l (turn l) X.
Proof.
  intros Hb. unfold scan_escape. wp_step. apply wp_get. intros c l1 _ Ht Hl.
  assert (Hb1 : buf_ok l1) by (unfold buf_ok in *; congruence).
  repeat (case_match; [apply turn_add_ascii; done || lia|]).
  case_match.
  - eapply wp_mono; [by apply wp_scan_unicode_escape| |done].
    intros r l2 [? ?]. split; [lia|done].
  - apply wp_stop. split; [rewrite left_with_error; lia|done].
Qed.

(** The turn of [scan_string_step]; a turn that continues has read a
    character. *)
Lemma wp_scan_string_step l X :
  buf_ok l →
  wp scan_string_step l (λ r l', turn l r l' ∧ (r = None → (left_to_read l' < left_to_read l)%nat)) X.
Proof.
  intros Hb. unfold scan_string_step. wp_step. apply wp_get. intros c l1 [Hu Hcur] Ht Hl.
  assert (Hb1 : buf_ok l1) by (unfold buf_ok in *; congruence).
  destruct (c =? eof) eqn:Ee; zify_cmp.
  { apply wp_stop. split; [split; [rewrite left_with_error; lia|done]|done]. }
  assert (Hlt : left_to_read l = S (left_to_read l1)) by (destruct Hl as [[]|[]]; done).
  assert (Hstrict : ∀ m, wp m l1 (turn l1) X →
    wp m l1 (λ r l', turn l r l' ∧ (r = None → (left_to_read l' < left_to_read l)%nat)) X).
  { intros m Hm. eapply wp_mono; [exact Hm| |done]. intros r l' [? ?].
    split; [split; [lia|done]|lia]. }
  destruct (c =? byte_of dquote); [wp_step; split; [split; [lia|done]|done]|].
  destruct (c =? _); [by apply Hstrict, wp_scan_escape|].
  destruct (is_control c) eqn:Ec; [apply Hstrict, wp_stop; by split|].
  destruct (is_plain_ascii c) eqn:Ep.
  { apply Hstrict. unfold add_current. wp_step. wp_step. wp_step. rewrite Hcur.
    unfold is_plain_ascii in Ep. zify_cmp. apply wp_add. wp_step.
    split; [done|]. apply (grown_ok l1 _ [c]); [done|done|repeat constructor; unfold is_byte; lia|].
    apply utf8_ascii. repeat constructor; lia. }
  destruct (lead_ranges c) as [ranges|] eqn:Er; [|apply Hstrict, wp_stop; by split].
  apply Hstrict. unfold next_byte_in_range, add_current. do 4 wp_step. rewrite Hcur. apply wp_add.
  assert (Hbyte : is_byte c /\ ranges_ok ranges).
  { unfold lead_ranges, in_range in Er. unfold is_byte, ranges_ok.
    repeat match type of Er with
    | context [if ?b then _ else _] => destruct b eqn:?
    end; simplify_eq; repeat match goal with
    | H : (_ || _)%bool = true |- _ => apply orb_true_iff in H as [|]
    end; zify_cmp; (split; [lia|]); repeat constructor; simpl; lia. }
  destruct Hbyte as [Hbyte Hranges]. apply wp_bytes_in_range; [done| |].
  - intros l' Hl'. wp_step. split; [by rewrite left_with_buffer in Hl'|done].
  - intros l' bs Hl' Hg Hbs. wp_step. split; [by rewrite left_with_buffer in Hl'|].
    destruct (lead_ranges_utf8 c ranges bs Hbyte Er Hbs) as [Hall Hutf].
    apply (grown_ok l1 l' (c :: bs)); [done| |done|done].
    unfold grown in *. rewrite Hg. simpl. by rewrite append_assoc.
Qed.

Lemma wp_scan_string_loop fuel l X :
  buf_ok l → (left_to_read l < fuel)%nat →
  wp (scan_string_loop fuel) l (λ t l', turn l (Some t) l') X.
Proof.
  revert l. induction fuel as [|fuel IH]; intros l Hb Hf; [lia|]. simpl.
  wp_step. eapply wp_mono; [by apply wp_scan_string_step| |done].
  intros [t|] l' [[Hl Hr] Hs]; [by wp_step|].
  eapply wp_mono; [apply IH; [done|specialize (Hs eq_refl); lia]| |done].
  intros t l2 [? ?]. split; [lia|done].
Qed.

Lemma wp_scan_string l X : wp scan_string l (λ t l', turn l (Some t) l') X.
Proof.
  unfold scan_string, reset. do 4 wp_step.
  eapply wp_mono; [apply wp_scan_string_loop; [done|lia]| |done].
  intros t l' [? ?]. by split.
Qed.

(** ** Numbers *)

(** The text of a number of a type. *)
Definition number_prefix (nt : token_type) (buf : string) : Prop :=
  match nt with
  | value_unsigned => all_digits buf = true
  | value_integer => ∃ ds, buf = String "-" ds ∧ all_digits ds = true
  | value_float => True
  | _ => False
  end.

(** The text read when the automaton is in a state. *)
Definition number_pre (st : number_state) (nt : token_type) (buf : string) : Prop :=
  match st with
  | minus => buf = "-"
  | zero | any1 => number_prefix nt buf ∧ nt ≠ value_float
  | decimal1 | exponent => True
  | _ => nt = value_float
  end.

Lemma number_prefix_digit nt buf c :
  number_prefix nt buf → is_digit c = true → number_prefix nt (buf +:+ string_of [c]).
Proof.
  intros Ht Hc. assert (Hd : all_digits (string_of [c]) = true).
  { unfold is_digit in Hc. zify_cmp. cbn [string_of all_digits]. rewrite byte_of_char_of by lia. unfold is_digit.
    by rewrite (proj2 (Z.leb_le _ _)), (proj2 (Z.leb_le _ _)) by lia. }
  destruct nt; try done; cbn [number_prefix] in *.
  - by rewrite all_digits_app, Ht, Hd.
  - destruct Ht as (ds & -> & Hds). exists (ds +:+ string_of [c]). by rewrite all_digits_app, Hds, Hd.
Qed.

Lemma number_pre_goto st nt buf c st' :
  number_pre st nt buf → scan_number_action st c = goto st' →
  number_pre st' (enter_state st nt) (buf +:+ string_of [c]).
Proof.
  intros Hpre Ha.
  assert (H19 : is_digit19 c = true → is_digit c = true).
  { unfold is_digit19, is_digit. rewrite !andb_true_iff, !Z.leb_le. lia. }
  assert (H0 : c = $"0" → is_digit c = true) by (by intros ->).
  assert (Hone : is_digit c = true → number_prefix value_integer ("-" +:+ string_of [c]))
    by (apply number_prefix_digit; by exists "").
  unfold scan_number_action, scan_number_integral, scan_number_fraction in Ha.
  destruct st; repeat case_match; try done; injection Ha as <-; zify_cmp; try done.
  - simpl in Hpre. subst buf. split; [by apply Hone, H0|done].
  - simpl in Hpre. subst buf. split; [by apply Hone, H19|done].
  - destruct Hpre. split; [by apply number_prefix_digit|done].
Qed.

(** The loop reads past the number by one character. *)
Lemma wp_scan_number_loop fuel st nt l X :
  (left_to_read l < fuel)%nat → number_pre st nt (token_buffer l) →
  wp (scan_number_loop fuel st nt) l (λ r l',
    ∃ c, fresh l' c ∧ (left_to_read l' + (if (c =? eof)%Z then 0 else 1) ≤ left_to_read l)%nat
      ∧ (∀ nt', r = Some nt' → number_prefix nt' (token_buffer l'))) X.
Proof.
  revert st nt l. induction fuel as [|fuel IH]; intros st nt l Hf Hpre; [lia|]. simpl.
  wp_step. apply wp_get. intros c l1 Hfr Hb Hl.
  assert (Hend : (left_to_read l1 + (if (c =? eof)%Z then 0 else 1) ≤ left_to_read l)%nat).
  { destruct (Z.eqb_spec c eof); simpl; lia. }
  destruct (scan_number_action st c) as [st'| |msg] eqn:Ea.
  - assert (c ≠ eof).
    { intros ->. by destruct st; vm_compute in Ea. }
    wp_step. apply wp_add. eapply wp_mono; [apply IH; rewrite ?left_with_buffer; [lia|]| |done].
    { cbn [token_buffer with_token_buffer]. rewrite Hb. by eapply number_pre_goto. }
    intros r l2 (c2 & Hf2 & Hl2 & Hr). exists c2. rewrite left_with_buffer in Hl2. split_and!; [done|lia|done].
  - wp_step. exists c. split_and!; [done|done|]. intros nt' [= <-]. rewrite Hb.
    destruct st; cbn in Ea; repeat (case_match; try done); simpl in Hpre |- *; try tauto; by subst.
  - wp_step. unfold fail. do 4 wp_step. exists c. split_and!; [destruct Hfr; by split|done|done].
Qed.

(** What a token carries. *)
Definition token_ok (t : token_type) (l : lexer) : Prop :=
  match t with
  | value_string => buf_ok l
  | value_unsigned => 0 ≤ lx_unsigned l < 2 ^ 64
  | value_integer => - 2 ^ 63 ≤ lx_integer l ≤ 0
  | value_float => valid_double (lx_float l) = true
  | _ => True
  end.

Lemma wp_scan_number_done nt l c (m : nat) X :
  fresh l c → number_prefix nt (token_buffer l) →
  (left_to_read l + (if (c =? eof)%Z then 0 else 1) ≤ m)%nat →
  wp (scan_number_done nt) l (λ t l', (left_to_read l' ≤ m)%nat ∧ token_ok t l') X.
Proof.
  intros Hfr Hnt Hm. unfold scan_number_done. wp_step. apply (wp_unget l c); [done|].
  intros l2 Hb Hl2. wp_step. wp_step. rewrite Hb.
  assert (Hle : (left_to_read l2 ≤ m)%nat) by lia.
  assert (Hfloat : ∀ s, wp (modify (with_float (strtod s)) ;; ret value_float) l2
    (λ t l', (left_to_read l' ≤ m)%nat ∧ token_ok t l') X).
  { intros s. do 3 wp_step. split; [done|apply strtod_valid]. }
  destruct nt; try done.
  - unfold strtoull. cbn [number_prefix] in Hnt. pose proof (dec_value_nonneg _ 0 Hnt ltac:(lia)).
    destruct (dec_value 0 (token_buffer l) <? 2 ^ 64) eqn:E; [|done]. zify_cmp. do 3 wp_step. by split.
  - cbn [number_prefix] in Hnt. destruct Hnt as (ds & -> & Hds). cbn [strtoll].
    pose proof (dec_value_nonneg _ 0 Hds ltac:(lia)).
    destruct (dec_value 0 ds <=? 2 ^ 63) eqn:E; [|done]. zify_cmp. do 3 wp_step.
    split; [done|]. cbn [token_ok lx_integer with_integer]. lia.
Qed.

(** [scan_number] is entered at a sign or a digit. *)
Lemma wp_scan_number l X :
  current l = $"-" ∨ is_digit (current l) = true →
  wp scan_number l (λ t l', (left_to_read l' ≤ left_to_read l)%nat ∧ token_ok t l') X.
Proof.
  intros Hc. unfold scan_number, reset. do 5 wp_step. apply wp_add. wp_step.
  set (l1 := with_token_string _ _).
  assert (Hl1 : left_to_read l1 = left_to_read l) by done.
  eapply wp_mono; [apply wp_scan_number_loop; rewrite ?left_with_buffer; [lia|]| |done].
  { change (number_pre (if current l =? $"-" then minus else if current l =? $"0" then zero else any1)
      value_unsigned (string_of [current l])).
    destruct Hc as [->|Hc]; [done|].
    assert (Hd : all_digits (string_of [current l]) = true) by (by apply (number_prefix_digit value_unsigned "")).
    assert (current l ≠ $"-") by (intros E; by rewrite E in Hc).
    rewrite (proj2 (Z.eqb_neq _ _)) by done. by case_match. }
  intros [nt|] l2 (c & Hfr & Hl & Hr); cbv beta in Hl; rewrite left_with_buffer, Hl1 in Hl.
  - eapply wp_scan_number_done; [done|by apply Hr|done].
  - wp_step. split; [lia|done].
Qed.

(** ** The scanner *)

Lemma wp_scan_literal s t l X :
  wp (scan_literal s t) l (λ t' l', (left_to_read l' ≤ left_to_read l)%nat ∧
    (t' = t ∨ t' = tok_parse_error)) X.
Proof.
  revert l. induction s as [|c s IH]; intros l; simpl; [wp_step; by split; [|left]|].
  wp_step. apply wp_get. intros cur l1 _ _ Hl. destruct (negb _).
  - unfold fail. do 3 wp_step. split; [rewrite left_with_error; lia|by right].
  - eapply wp_mono; [apply IH| |done]. intros t' l2 [? ?]. split; [lia|done].
Qed.

Lemma wp_skip_whitespace fuel l X :
  (left_to_read l < fuel)%nat →
  wp (skip_whitespace fuel) l (λ c l', fresh l' c ∧ (left_to_read l' ≤ left_to_read l)%nat ∧
    (c ≠ eof → (left_to_read l' < left_to_read l)%nat)) X.
Proof.
  revert l. induction fuel as [|fuel IH]; intros l Hf; [lia|]. simpl.
  wp_step. apply wp_get. intros c l1 Hfr _ Hl. destruct (is_space c) eqn:Es.
  - assert (c ≠ eof) by (intros ->; done).
    eapply wp_mono; [apply IH; lia| |done]. intros c' l2 (? & ? & ?). split_and!; [done|lia|lia].
  - wp_step. split_and!; [done|lia|lia].
Qed.

(** What [scan] guarantees. *)
Definition scanned (l : lexer) (t : token_type) (l' : lexer) : Prop :=
  (left_to_read l' ≤ left_to_read l)%nat
  ∧ (t ≠ end_of_input → (left_to_read l' < left_to_read l)%nat)
  ∧ token_ok t l'.

Lemma wp_scan_token c l X :
  fresh l c →
  wp (scan_token c) l (λ t l', (left_to_read l' ≤ left_to_read l)%nat
    ∧ (c = eof → t = end_of_input) ∧ token_ok t l') X.
Proof.
  intros Hfr. assert (Hlit : ∀ s t, (∀ l', token_ok t l') → c ≠ eof → wp (scan_literal s t) l (λ t l',
    (left_to_read l' ≤ left_to_read l)%nat ∧ (c = eof → t = end_of_input)
    ∧ token_ok t l') X).
  { intros s t Ht Hc. eapply wp_mono; [apply wp_scan_literal| |done].
    intros t' l' [? [-> | ->]]; by split_and!. }
  assert (Heof : ∀ a b, (c =? byte_of a) = b → b = true → c ≠ eof).
  { intros a b <- H%Z.eqb_eq. rewrite H. apply byte_of_not_eof. }
  unfold scan_token.
  repeat (case_match; [first [wp_step; split_and!; [done|by intros ->|done]
    | by apply Hlit; [|eapply Heof]]|]).
  case_match.
  { eapply wp_mono; [apply wp_scan_string| |done]. intros t l' [? Ht].
    split_and!; [done|intros Hc; by eapply Heof in Hc|by destruct t]. }
  case_match.
  { eapply wp_mono; [apply wp_scan_number| |done].
    { destruct Hfr as [_ ->]. match goal with H : _ || _ = true |- _ => apply orb_true_iff in H as [H|H] end;
        [left; by apply Z.eqb_eq|by right]. }
    intros t l' [? Ht]. split_and!; [done|by intros ->|done]. }
  case_match.
  { wp_step. by split_and!. }
  unfold fail. do 3 wp_step. split_and!; [done|by intros ->|done].
Qed.

(** Every scan ends without an exception; it consumes input unless the input
    is exhausted, and string tokens are well-formed UTF-8. *)
Lemma wp_scan l X : wp scan l (scanned l) X.
Proof.
  assert (Hrest : ∀ l1, (left_to_read l1 ≤ left_to_read l)%nat →
    wp (l2 <- get_state ;; c <- skip_whitespace (S (left_to_read l2)) ;; scan_token c)
      l1 (scanned l) X).
  { intros l1 Hl1. do 3 wp_step. eapply wp_mono; [apply wp_skip_whitespace; lia| |done].
    intros c l2 (Hfr & Hle & Hlt). eapply wp_mono; [by apply wp_scan_token| |done].
    intros t l3 (H1 & H2 & H3). split_and!; [lia| |done].
    intros Hne. assert (c ≠ eof) by (intros ->; auto). lia. }
  unfold scan. do 3 wp_step. destruct (chars_read l =? 0).
  - unfold skip_bom. wp_step. apply wp_get. intros c l1 Hfr _ Hl.
    destruct (c =? 0xEF) eqn:E; zify_cmp.
    + assert (Hs : (left_to_read l1 < left_to_read l)%nat) by (destruct Hl as [[-> ?]|]; [done|lia]).
      assert (Hfail : ∀ l', (left_to_read l' ≤ left_to_read l1)%nat → wp
        (if negb false then fail "invalid BOM; must be 0xEF 0xBB 0xBF if given" else
         l2 <- get_state ;; c <- skip_whitespace (S (left_to_read l2)) ;; scan_token c)
        l' (scanned l) X).
      { intros l' Hl'. unfold fail. simpl. do 3 wp_step. split_and!; rewrite ?left_with_error;
          try done; lia. }
      wp_step. apply wp_get. intros c2 l2 _ _ Hl2.
      destruct (negb (c2 =? 0xBB)); [wp_step; apply Hfail; lia|].
      wp_step. apply wp_get. intros c3 l3 _ _ Hl3.
      destruct (negb (c3 =? 0xBF)); wp_step; [apply Hfail; lia|]. simpl. apply Hrest. lia.
    + wp_step. apply (wp_unget l1 c); [done|]. intros l2 _ Hl2. wp_step. simpl. apply Hrest.
      destruct (Z.eqb_spec c eof); lia.
  - wp_step. simpl. by apply Hrest.
Qed.

(** A call of [scan] returns a token from any state of the lexer: it
    terminates, never throws, consumes at least one character unless it
    reports the end of the input, the text of a string token is well-formed
    UTF-8, escapes and surrogate pairs included, and the number of a number
    token is in the range of its type. *)
Theorem scan_returns_a_token l :
  ∃ t l', scan l = (Ok t, l')
    ∧ (left_to_read l' ≤ left_to_read l)%nat
    ∧ (t ≠ end_of_input → (left_to_read l' < left_to_read l)%nat)
    ∧ token_ok t l'.
Proof.
  destruct (wp_inv _ _ _ _ (wp_scan l no_exn)) as [(t & l' & Hrun & Hs)|(? & ? & _ & [])].
  eauto.
Qed.
