(* ===== verification/JsonGrammar.v ===== *)
(** * The grammar of JSON

    The texts RFC 8259 allows and the values they stand for, as relations that
    mention neither the lexer nor the parser.  Choices the standard leaves open
    are those of [json.hpp]: the last of several members with the same key
    wins, an integer that fits 64 bits is kept as an integer and any other
    number is the nearest double, a byte order mark may come first and a NUL
    byte ends the document. *)

From stdpp Require Import base gmap strings list.
From Stdlib Require Import ZArith Ascii Lia.
From S2P Require Import Prelude Cxx StdMap JsonValue Utf8 JsonLexer GrisuDigits FloatText.

(** ** White space *)

Fixpoint all_space (s : string) : bool :=
  match s with
  | EmptyString => true
  | String c s => is_space (byte_of c) && all_space s
  end.

(** ** Strings *)

Definition utf8_of (cp : Z) : string := string_of (encode cp).

Definition is_high (cp : Z) : Prop := 0xD800 ≤ cp ≤ 0xDBFF.
Definition is_low (cp : Z) : Prop := 0xDC00 ≤ cp ≤ 0xDFFF.

(** The code point a surrogate pair stands for. *)
Definition pair_value (hi lo : Z) : Z := 0x10000 + 0x400 * (hi - 0xD800) + (lo - 0xDC00).

(** The character after a backslash, and what it stands for. *)
Definition simple_escape (e : ascii) : option Z :=
  if Ascii.eqb e dquote then Some 0x22
  else if Ascii.eqb e "\" then Some 0x5C
  else if Ascii.eqb e "/" then Some 0x2F
  else if Ascii.eqb e "b" then Some 0x08
  else if Ascii.eqb e "f" then Some 0x0C
  else if Ascii.eqb e "n" then Some 0x0A
  else if Ascii.eqb e "r" then Some 0x0D
  else if Ascii.eqb e "t" then Some 0x09
  else None.

(** Four hexadecimal digits. *)
Inductive four_hex : string → Z → Prop :=
| FourHex a b c d x y z w :
    hex_value (byte_of a) = Some x → hex_value (byte_of b) = Some y →
    hex_value (byte_of c) = Some z → hex_value (byte_of d) = Some w →
    four_hex (String a (String b (String c (String d "")))) (x * 0x1000 + y * 0x100 + z * 0x10 + w).

(** One character of a string and the bytes it stands for. *)
Inductive char_text : string → string → Prop :=
| char_unescaped cp :
    scalar_value cp → 0x20 ≤ cp → cp ≠ 0x22 → cp ≠ 0x5C → char_text (utf8_of cp) (utf8_of cp)
| char_escape e cp :
    simple_escape e = Some cp → char_text (String "\" (String e "")) (utf8_of cp)
| char_unicode h cp :
    four_hex h cp → ¬ is_high cp → ¬ is_low cp → char_text (String "\" (String "u" h)) (utf8_of cp)
| char_pair h1 hi h2 lo :
    four_hex h1 hi → is_high hi → four_hex h2 lo → is_low lo →
    char_text (String "\" (String "u" h1) +:+ String "\" (String "u" h2)) (utf8_of (pair_value hi lo)).

Inductive chars_text : string → string → Prop :=
| chars_nil : chars_text "" ""
| chars_cons u w t s : char_text u w → chars_text t s → chars_text (u +:+ t) (w +:+ s).

(** A string with its quotes. *)
Inductive string_text : string → string → Prop :=
| StringText t s : chars_text t s → string_text (String dquote (t +:+ String dquote "")) s.

(** ** Numbers *)

Inductive number_text : string → json → Prop :=
| number_unsigned ip :
    int_part ip → dec_value 0 ip < 2 ^ 64 → number_text ip (jnumber_unsigned (dec_value 0 ip))
| number_integer ip :
    int_part ip → dec_value 0 ip ≤ 2 ^ 63 →
    number_text (String "-" ip) (jnumber_integer (- dec_value 0 ip))
| number_big (neg : bool) ip :
    int_part ip → (if neg then 2 ^ 63 < dec_value 0 ip else 2 ^ 64 ≤ dec_value 0 ip) →
    number_text (sign_text neg +:+ ip) (jnumber_float (decimal neg (dec_value 0 ip) 0))
| number_float neg s M e10 :
    literal s M e10 → number_text (sign_text neg +:+ s) (jnumber_float (decimal neg M e10)).

(** ** Values *)

Inductive scalar_text : string → json → Prop :=
| scalar_null : scalar_text "null" jnull
| scalar_true : scalar_text "true" (jboolean true)
| scalar_false : scalar_text "false" (jboolean false)
| scalar_string t s : string_text t s → scalar_text t (jstring s)
| scalar_number t v : number_text t v → scalar_text t v.

(** A number beyond the largest double has no value. *)
Definition representable (v : json) : bool :=
  match v with jnumber_float d => isfinite d | _ => true end.

Inductive json_text : string → json → Prop :=
| text_scalar t v : scalar_text t v → representable v = true → json_text t v
| text_empty_array ws : all_space ws = true → json_text ("[" +:+ ws +:+ "]") (jarray [])
| text_array t vs : elements_text t vs → json_text ("[" +:+ t +:+ "]") (jarray vs)
| text_empty_object ws : all_space ws = true → json_text ("{" +:+ ws +:+ "}") (jobject [])
| text_object t kvs :
    members_text t kvs → json_text ("{" +:+ t +:+ "}") (jobject (put_members [] kvs))
with elements_text : string → list json → Prop :=
| elements_one ws1 t v ws2 :
    all_space ws1 = true → json_text t v → all_space ws2 = true →
    elements_text (ws1 +:+ t +:+ ws2) [v]
| elements_cons ws1 t v ws2 t' vs :
    all_space ws1 = true → json_text t v → all_space ws2 = true → elements_text t' vs →
    elements_text (ws1 +:+ t +:+ ws2 +:+ "," +:+ t') (v :: vs)
with members_text : string → list (string * json) → Prop :=
| members_one ws1 tk k ws2 ws3 t v ws4 :
    all_space ws1 = true → string_text tk k → all_space ws2 = true →
    all_space ws3 = true → json_text t v → all_space ws4 = true →
    members_text (ws1 +:+ tk +:+ ws2 +:+ ":" +:+ ws3 +:+ t +:+ ws4) [(k, v)]
| members_cons ws1 tk k ws2 ws3 t v ws4 t' kvs :
    all_space ws1 = true → string_text tk k → all_space ws2 = true →
    all_space ws3 = true → json_text t v → all_space ws4 = true → members_text t' kvs →
    members_text (ws1 +:+ tk +:+ ws2 +:+ ":" +:+ ws3 +:+ t +:+ ws4 +:+ "," +:+ t') ((k, v) :: kvs).

Scheme json_text_mut := Minimality for json_text Sort Prop
  with elements_text_mut := Minimality for elements_text Sort Prop
  with members_text_mut := Minimality for members_text Sort Prop.
Combined Scheme json_text_mutind from json_text_mut, elements_text_mut, members_text_mut.

(** ** Documents *)

Definition byte_order_mark : string := string_of [0xEF; 0xBB; 0xBF].

(** Nothing, or a NUL byte and anything after it. *)
Definition ends_text (r : string) : Prop := r = "" ∨ ∃ r', r = String "000" r'.

Inductive document : string → json → Prop :=
| Document bom ws1 t v ws2 r :
    bom = "" ∨ bom = byte_order_mark →
    all_space ws1 = true → json_text t v → all_space ws2 = true → ends_text r →
    document (bom +:+ ws1 +:+ t +:+ ws2 +:+ r) v.

(** ** The shape of the texts *)

Lemma all_space_app s t : all_space s = true → all_space t = true → all_space (s +:+ t) = true.
Proof.
  induction s as [|c s IH]; [done|]. cbn [all_space String.append].
  intros [Hc Hs]%andb_true_iff Ht. by rewrite Hc, IH.
Qed.
