(* ===== verification/JsonNumber.v ===== *)
(** * The automaton of numbers

    The states of [scan_number] against the grammar of number literals: the
    texts the automaton accepts are the literals, and what
    [scan_number_done] makes of an accepted text is its value. *)

From stdpp Require Import base gmap strings list.
From Stdlib Require Import ZArith Ascii Lia.
From S2P Require Import Prelude Cxx StdMap JsonValue Utf8 JsonLexer GrisuDigits FloatText JsonGrammar.

(** The automaton of [scan_number] on a text all of which it accepts: the
    last state, and the type set so far. *)
Fixpoint number_run (st : number_state) (nt : token_type) (s : string) : option (number_state * token_type) :=
  match s with
  | EmptyString => Some (st, nt)
  | String c s =>
      match scan_number_action st (byte_of c) with
      | goto st' => number_run st' (enter_state st nt) s
      | _ => None
      end
  end.

Lemma number_run_app st nt s t :
  number_run st nt (s +:+ t) = r ← number_run st nt s; number_run r.1 r.2 t.
Proof.
  revert st nt. induction s as [|c s IH]; intros st nt; [done|]. cbn [number_run String.append].
  case_match; [apply IH|done|done].
Qed.

(** States in which a number may end. *)
Definition final_state (st : number_state) : bool :=
  match st with zero | any1 | decimal2 | any2 => true | _ => false end.

(** Digits do not leave the states [any1], [decimal2] and [any2]. *)
Lemma number_run_digits st nt ds :
  match st with any1 | decimal2 | any2 => true | _ => false end = true →
  all_digits ds = true → number_run st nt ds = Some (st, nt).
Proof.
  intros Hst. revert nt. induction ds as [|d ds IH]; intros nt Hd; [done|].
  cbn [all_digits number_run] in *. apply andb_true_iff in Hd as [Hd1 Hd2].
  destruct st; try done; cbn [scan_number_action scan_number_integral scan_number_fraction];
    rewrite Hd1; by apply IH.
Qed.

(** ** From the parts of a number to a run *)

Definition start_state (c : ascii) : number_state :=
  if byte_of c =? $"-" then minus else if byte_of c =? $"0" then zero else any1.

(** The automaton accepts [txt] with the type [nt]. *)
Inductive accepts_number : string → token_type → Prop :=
| AcceptsNumber c ds st nt :
    c = "-"%char ∨ is_digit (byte_of c) = true →
    number_run (start_state c) value_unsigned ds = Some (st, nt) → final_state st = true →
    accepts_number (String c ds) (enter_state st nt).

(** Numbers by their parts; [nt] is the type of an integer with this sign. *)
Definition parts_type (nt : token_type) (frac ex : string) : token_type :=
  match frac, ex with EmptyString, EmptyString => nt | _, _ => value_float end.

Definition sign_type (neg : bool) : token_type := if neg then value_integer else value_unsigned.

Inductive number_parts : string → token_type → Prop :=
| NumberParts neg ip frac fp ex x :
    int_part ip → frac_part frac fp → exp_part ex x →
    number_parts (sign_text neg +:+ ip +:+ frac +:+ ex) (parts_type (sign_type neg) frac ex).

Lemma run_exp q nt ex x :
  match q with zero | any1 | decimal2 => true | _ => false end = true → exp_part ex x →
  ∃ st, number_run q nt ex = Some (st, parts_type nt "" ex) ∧ (st = q ∨ st = any2).
Proof.
  intros Hq [[-> _]|(e & sgn & ds & -> & He & Hd & Hds & Hx)]; [exists q; auto|]. exists any2. split; [|by right].
  destruct ds as [|d ds]; [done|]. cbn [all_digits] in Hd. apply andb_true_iff in Hd as [Hd1 Hd2].
  cbn [parts_type number_run].
  assert (scan_number_action q (byte_of e) = goto exponent) as -> by (by destruct He as [->| ->], q).
  assert (Hg : scan_number_action sign (byte_of d) = goto any2)
    by (cbn [scan_number_action scan_number_fraction]; by rewrite Hd1).
  assert (Hsgn : sgn = "-" ∨ sgn = "+" ∨ sgn = "") by tauto.
  destruct Hsgn as [->|[->| ->]]; cbn [String.append number_run].
  - change (scan_number_action exponent (byte_of "-")) with (goto sign). cbv iota. rewrite Hg.
    cbn [enter_state]. by apply number_run_digits.
  - change (scan_number_action exponent (byte_of "+")) with (goto sign). cbv iota. rewrite Hg.
    cbn [enter_state]. by apply number_run_digits.
  - assert (scan_number_action exponent (byte_of d) = goto any2) as ->.
    { cbn [scan_number_action scan_number_fraction]. rewrite Hd1.
      destruct ((byte_of d =? $"+") || (byte_of d =? $"-")) eqn:E; [|done].
      unfold is_digit in Hd1. apply orb_true_iff in E as [E|E]; apply Z.eqb_eq in E; by rewrite E in Hd1. }
    cbn [enter_state]. by apply number_run_digits.
Qed.

Lemma run_frac q nt frac fp ex x :
  q = zero ∨ q = any1 → frac_part frac fp → exp_part ex x →
  ∃ st, number_run q nt (frac +:+ ex) = Some (st, parts_type nt frac ex) ∧ final_state st = true
    ∧ st ≠ minus.
Proof.
  intros Hq [[-> ->]|(-> & Hf & Hne)] Hex.
  - destruct (run_exp q nt ex x) as (st & Hrun & Hst); [by destruct Hq as [->| ->]|done|].
    exists st. cbn [String.append]. destruct Hq as [->| ->], Hst as [->| ->]; by split_and!.
  - destruct fp as [|d fp]; [done|]. cbn [all_digits] in Hf. apply andb_true_iff in Hf as [Hd Hf].
    destruct (run_exp decimal2 value_float ex x) as (st & Hrun & Hst); [done|done|].
    exists st. split; [|by destruct Hst as [->| ->]].
    assert (Hg : scan_number_action decimal1 (byte_of d) = goto decimal2)
      by (cbn [scan_number_action scan_number_fraction]; by rewrite Hd).
    cbn [String.append number_run parts_type].
    assert (scan_number_action q (byte_of ".") = goto decimal1) as -> by (by destruct Hq as [->| ->]).
    cbv iota. rewrite Hg. cbn [enter_state]. rewrite number_run_app, number_run_digits by done. cbn.
    rewrite Hrun. by destruct ex.
Qed.

Lemma run_int ip : int_part ip →
  ∃ c ds q, ip = String c ds ∧ is_digit (byte_of c) = true ∧ (q = zero ∨ q = any1)
    ∧ ∀ nt, number_run (start_state c) nt ds = Some (q, nt).
Proof.
  intros [Ha [->|[Hh Hne]]].
  { eexists _, _, zero. split_and!; [reflexivity|done|by left|done]. }
  destruct ip as [|c ip]; [done|]. cbn [all_digits head_ok] in *. apply andb_true_iff in Ha as [Hc Ha].
  exists c, ip, any1. split_and!; [done|done|by right|]. intros nt. apply negb_true_iff in Hh.
  unfold start_state. change $"0" with 48. rewrite Hh. unfold is_digit in Hc. zify_cmp.
  rewrite (proj2 (Z.eqb_neq _ $"-")) by (change $"-" with 45; lia). by apply number_run_digits.
Qed.

(** After the sign, a digit leads where the number would start. *)
Lemma action_minus c : is_digit (byte_of c) = true → scan_number_action minus (byte_of c) = goto (start_state c).
Proof. destruct c as [[] [] [] [] [] [] [] []]; intros H; try done; by vm_compute in H. Qed.

Lemma parts_accepted txt nt : number_parts txt nt → accepts_number txt nt.
Proof.
  intros [neg ip frac fp ex x Hip Hfrac Hex].
  destruct (run_int ip Hip) as (c & ds & q & -> & Hc & Hq & Hrun).
  destruct (run_frac q (sign_type neg) frac fp ex x Hq Hfrac Hex) as (st & Hrun2 & Hst & _).
  assert (Hall : number_run (start_state c) (sign_type neg) (ds +:+ frac +:+ ex)
    = Some (st, parts_type (sign_type neg) frac ex)) by (rewrite number_run_app, Hrun; exact Hrun2).
  assert (Hent : enter_state st (parts_type (sign_type neg) frac ex) = parts_type (sign_type neg) frac ex)
    by (by destruct st).
  rewrite <-Hent. destruct neg; cbn [sign_text String.append sign_type] in *; econstructor; eauto.
  change (start_state "-") with minus. cbn [number_run]. rewrite action_minus by done. exact Hall.
Qed.

(** ** From a run to the parts, state by state *)

Tactic Notation "run_step" hyp(H) ident(c) ident(s') :=
  match type of H with
  | number_run ?st ?nt ?s = _ =>
      let E := fresh "E" in
      destruct s as [|c s']; cbn [number_run] in H;
      [|destruct (scan_number_action st (byte_of c)) eqn:E; [|discriminate H..]]
  end.

Ltac action_cases :=
  repeat match goal with
  | H : scan_number_action _ _ = goto _ |- _ =>
      unfold scan_number_action, scan_number_integral, scan_number_fraction in H;
      repeat (case_match; try done); injection H as <-
  end.

Lemma is_exp_char c : is_exp (byte_of c) = true → c = "e"%char ∨ c = "E"%char.
Proof.
  unfold is_exp. intros [H|H]%orb_true_iff; apply Z.eqb_eq, byte_of_inj in H; auto.
Qed.

Lemma run_any2_inv s nt st nt' :
  number_run any2 nt s = Some (st, nt') → all_digits s = true ∧ st = any2 ∧ nt' = nt.
Proof.
  revert nt. induction s as [|c s IH]; intros nt H; cbn [number_run] in H; [by simplify_eq|].
  destruct (scan_number_action any2 (byte_of c)) eqn:E; try done. action_cases.
  cbn [all_digits]. match goal with H : is_digit _ = true |- _ => rewrite H end. by apply IH.
Qed.

Lemma run_exponent_inv s nt st nt' :
  number_run exponent nt s = Some (st, nt') → final_state st = true →
  ∃ sgn ds, s = sgn +:+ ds ∧ (sgn = "-" ∨ sgn = "+" ∨ sgn = "") ∧ all_digits ds = true ∧ ds ≠ ""
    ∧ st = any2 ∧ nt' = value_float.
Proof.
  intros H Hf. run_step H c s1; [by simplify_eq|]. action_cases; cbn [enter_state] in H.
  - assert (Hc : c = "-"%char ∨ c = "+"%char).
    { match goal with E : _ || _ = true |- _ => apply orb_true_iff in E as [E|E] end;
        apply Z.eqb_eq, byte_of_inj in H0; auto. }
    run_step H d s2; [by simplify_eq|]. action_cases. apply run_any2_inv in H as (Hd & -> & ->).
    exists (String c ""), (String d s2). cbn [all_digits].
    split_and!; [done|destruct Hc as [->| ->]; auto|by apply andb_true_iff|done|done|done].
  - apply run_any2_inv in H as (Hd & -> & ->). exists "", (String c s1). cbn [all_digits].
    split_and!; [done|auto|by apply andb_true_iff|done|done|done].
Qed.

(** The exponent, from the state before it. *)
Lemma run_exp_inv c s nt st nt' :
  is_exp (byte_of c) = true → number_run exponent nt s = Some (st, nt') → final_state st = true →
  ∃ x, exp_part (String c s) x ∧ st = any2 ∧ nt' = value_float.
Proof.
  intros Hc%is_exp_char H Hf. apply run_exponent_inv in H as (sgn & ds & -> & Hsgn & Hd & Hne & -> & ->); [|done].
  exists (if decide (sgn = "-") then - dec_value 0 ds else dec_value 0 ds).
  split_and!; [|done|done]. right. exists c, sgn, ds. split_and!; [done|done|done|done|].
  case_decide; [by left|]. right. split; [|done]. tauto.
Qed.

Lemma run_decimal2_inv s st nt' :
  number_run decimal2 value_float s = Some (st, nt') → final_state st = true →
  ∃ ds ex x, s = ds +:+ ex ∧ all_digits ds = true ∧ exp_part ex x ∧ nt' = value_float ∧ (st = decimal2 ∨ st = any2).
Proof.
  intros H Hf. revert H. induction s as [|c s IH]; intros H; cbn [number_run] in H.
  - simplify_eq. exists "", "", 0. split_and!; try done; [by left|by left].
  - destruct (scan_number_action decimal2 (byte_of c)) eqn:E; try done. action_cases; cbn [enter_state] in H.
    + destruct (IH H) as (ds & ex & x & -> & Hd & Hex & -> & Hst). exists (String c ds), ex, x. cbn [all_digits].
      split_and!; try done. by apply andb_true_iff.
    + eapply run_exp_inv in H as (x & Hex & -> & ->); [|done..]. exists "", (String c s), x. split_and!; try done. by right.
Qed.

Lemma run_decimal1_inv s nt st nt' :
  number_run decimal1 nt s = Some (st, nt') → final_state st = true →
  ∃ fp ex x, s = fp +:+ ex ∧ all_digits fp = true ∧ fp ≠ "" ∧ exp_part ex x ∧ nt' = value_float
    ∧ (st = decimal2 ∨ st = any2).
Proof.
  intros H Hf. run_step H c s1; [by simplify_eq|]. action_cases. cbn [enter_state] in H.
  apply run_decimal2_inv in H as (ds & ex & x & -> & Hd & Hex & -> & Hst); [|done].
  exists (String c ds), ex, x. cbn [all_digits]. split_and!; try done. by apply andb_true_iff.
Qed.

(** What follows the integral part. *)
Definition after_int (s : string) (nt nt' : token_type) : Prop :=
  ∃ frac fp ex x, s = frac +:+ ex ∧ frac_part frac fp ∧ exp_part ex x ∧ nt' = parts_type nt frac ex.

Lemma after_int_nil nt : after_int "" nt nt.
Proof. exists "", "", "", 0. split_and!; [done|by left|by left|done]. Qed.

Lemma after_int_point s nt st nt' :
  number_run decimal1 nt s = Some (st, nt') → final_state st = true →
  after_int (String "." s) nt (enter_state st nt').
Proof.
  intros H Hf. apply run_decimal1_inv in H as (fp & ex & x & -> & Hd & Hne & Hex & -> & Hst); [|done].
  exists ("." +:+ fp), fp, ex, x. split_and!; [done|by right|done|]. by destruct Hst as [->| ->].
Qed.

Lemma after_int_exp c s nt st nt' :
  is_exp (byte_of c) = true → number_run exponent nt s = Some (st, nt') → final_state st = true →
  after_int (String c s) nt (enter_state st nt').
Proof.
  intros Hc H Hf. eapply run_exp_inv in H as (x & Hex & -> & ->); [|done..].
  exists "", "", (String c s), x. split_and!; [done|by left|done|done].
Qed.

Lemma run_zero_inv s nt st nt' :
  number_run zero nt s = Some (st, nt') → final_state st = true → after_int s nt (enter_state st nt').
Proof.
  intros H Hf. run_step H c s1; [simplify_eq; apply after_int_nil|]. action_cases; cbn [enter_state] in H.
  - match goal with E : _ = true |- _ => apply Z.eqb_eq, byte_of_inj in E as -> end. by apply after_int_point.
  - by apply after_int_exp.
Qed.

Lemma run_any1_inv s nt st nt' :
  number_run any1 nt s = Some (st, nt') → final_state st = true →
  ∃ ds s', s = ds +:+ s' ∧ all_digits ds = true ∧ after_int s' nt (enter_state st nt').
Proof.
  intros H Hf. revert H. induction s as [|c s IH]; intros H; cbn [number_run] in H.
  - simplify_eq. exists "", "". split_and!; [done|done|apply after_int_nil].
  - destruct (scan_number_action any1 (byte_of c)) eqn:E; try done. action_cases; cbn [enter_state] in H.
    + destruct (IH H) as (ds & s' & -> & Hd & Ha). exists (String c ds), s'. cbn [all_digits].
      split_and!; try done. by apply andb_true_iff.
    + match goal with E : (_ =? $".") = true |- _ => apply Z.eqb_eq, byte_of_inj in E as -> end.
      exists "", (String "." s). split_and!; [done|done|by apply after_int_point].
    + exists "", (String c s). split_and!; [done|done|by apply after_int_exp].
Qed.

Lemma run_digit_inv c ds nt st nt' :
  is_digit (byte_of c) = true → number_run (start_state c) nt ds = Some (st, nt') → final_state st = true →
  ∃ ip s, String c ds = ip +:+ s ∧ int_part ip ∧ after_int s nt (enter_state st nt').
Proof.
  intros Hc Hrun Hf. unfold start_state in Hrun.
  rewrite (proj2 (Z.eqb_neq _ $"-")) in Hrun
    by (unfold is_digit in Hc; zify_cmp; change $"-" with 45; lia).
  destruct (byte_of c =? $"0") eqn:E0.
  - apply Z.eqb_eq, byte_of_inj in E0 as ->. exists "0", ds. split_and!; [done|by split; [|left]|by apply run_zero_inv].
  - apply run_any1_inv in Hrun as (ds1 & s & -> & Hd & Ha); [|done]. exists (String c ds1), s.
    split_and!; [done| |done]. split; [cbn [all_digits]; by apply andb_true_iff|]. right. split; [|done].
    cbn [head_ok]. change $"0" with 48 in E0. by rewrite E0.
Qed.

Lemma accepted_parts txt nt : accepts_number txt nt → number_parts txt nt.
Proof.
  intros [c ds st nt0 Hc Hrun Hf].
  assert (Hparts : ∀ neg t, (∃ ip s, t = ip +:+ s ∧ int_part ip ∧ after_int s (sign_type neg) (enter_state st nt0)) →
    number_parts (sign_text neg +:+ t) (enter_state st nt0)).
  { intros neg t (ip & s & -> & Hip & frac & fp & ex & x & -> & Hfr & Hex & ->). by econstructor. }
  destruct Hc as [->|Hc].
  - change (start_state "-") with minus in Hrun. run_step Hrun c s1; [by simplify_eq|].
    apply (Hparts true (String c s1)).
    assert (Hd : is_digit (byte_of c) = true).
    { unfold scan_number_action, scan_number_integral, is_digit19 in *. unfold is_digit. change $"0" with 48 in *.
      repeat (case_match; try done); zify_cmp; apply andb_true_iff; split; apply Z.leb_le; lia. }
    rewrite action_minus in E by done. injection E as <-. by eapply run_digit_inv.
  - apply (Hparts false (String c ds)). by eapply run_digit_inv.
Qed.

(** ** The value *)

(** What [scan_number_done] makes of the text [b] of a number. *)
Definition number_value (nt : token_type) (b : string) : json :=
  match nt with
  | value_unsigned => match strtoull b with Some x => jnumber_unsigned x | None => jnumber_float (strtod b) end
  | value_integer => match strtoll b with Some x => jnumber_integer x | None => jnumber_float (strtod b) end
  | _ => jnumber_float (strtod b)
  end.

Lemma integer_parts neg ip :
  int_part ip → number_parts (sign_text neg +:+ ip) (sign_type neg).
Proof.
  intros Hip. pose proof (NumberParts neg ip "" "" "" 0 Hip ltac:(by left) ltac:(by left)) as H.
  by rewrite !append_nil_r in H.
Qed.

Lemma strtod_integer neg ip : int_part ip → strtod (sign_text neg +:+ ip) = decimal neg (dec_value 0 ip) 0.
Proof.
  intros Hip. pose proof (strtod_parts neg ip "" "" "" 0 Hip ltac:(by left) ltac:(by left)) as H.
  by rewrite !append_nil_r in H.
Qed.

Lemma text_parts txt v : number_text txt v → ∃ nt, number_parts txt nt ∧ number_value nt txt = v.
Proof.
  intros [ip Hip Hlt|ip Hip Hle|neg ip Hip Hbig|neg s M e10 Hlit].
  - exists value_unsigned. split; [by apply (integer_parts false)|]. cbn [number_value].
    unfold strtoull. by rewrite (proj2 (Z.ltb_lt _ _)).
  - exists value_integer. split; [by apply (integer_parts true)|]. cbn [number_value strtoll].
    by rewrite (proj2 (Z.leb_le _ _)).
  - exists (sign_type neg). split; [by apply integer_parts|]. pose proof (strtod_integer neg ip Hip) as Hs.
    destruct neg; cbn [sign_type number_value sign_text String.append strtoll] in *; unfold strtoull.
    + by rewrite (proj2 (Z.leb_gt _ _)), Hs.
    + by rewrite (proj2 (Z.ltb_ge _ _)), Hs.
  - exists value_float. cbn [number_value]. rewrite (strtod_literal neg s M e10 Hlit). split; [|done].
    destruct Hlit as [ip frac fp ex x Hip Hfr Hex Hne].
    pose proof (NumberParts neg ip frac fp ex x Hip Hfr Hex) as H.
    by destruct frac, ex, Hne.
Qed.

Lemma parts_text txt nt : number_parts txt nt → number_text txt (number_value nt txt).
Proof.
  intros [neg ip frac fp ex x Hip Hfr Hex].
  assert (Hcase : (frac = "" ∧ ex = "") ∨ (parts_type (sign_type neg) frac ex = value_float ∧ (frac ≠ "" ∨ ex ≠ ""))).
  { destruct frac; [destruct ex; [by left|]|]; right; (split; [done|]); [by right|by left]. }
  destruct Hcase as [[-> ->]|[-> Hne]].
  - rewrite !append_nil_r. cbn [parts_type]. pose proof (strtod_integer neg ip Hip) as Hs.
    destruct neg; cbn [sign_type number_value sign_text String.append strtoll] in *; unfold strtoull.
    + destruct (dec_value 0 ip <=? 2 ^ 63) eqn:E; zify_cmp; [by apply number_integer|].
      rewrite Hs. by apply (number_big true).
    + destruct (dec_value 0 ip <? 2 ^ 64) eqn:E; zify_cmp; [by apply number_unsigned|].
      rewrite Hs. by apply (number_big false).
  - cbn [number_value]. rewrite (strtod_parts neg ip frac fp ex x Hip Hfr Hex). apply number_float. by constructor.
Qed.

(** The automaton and the grammar agree. *)
Lemma number_text_accepted txt v : number_text txt v → ∃ nt, accepts_number txt nt ∧ number_value nt txt = v.
Proof. intros (nt & Hp & Hv)%text_parts. exists nt. split; [by apply parts_accepted|done]. Qed.

Lemma accepted_number_text txt nt : accepts_number txt nt → number_text txt (number_value nt txt).
Proof. intros Ha. by apply parts_text, accepted_parts. Qed.
