(* ===== verification/JsonReads.v ===== *)
(** * Reading tokens

    [scan] on the texts of the grammar: strings through their escapes, numbers
    through the automaton, literals and punctuation, after any amount of white
    space.  Each lemma says which token is returned, which value the lexer
    keeps for the parser and which text it leaves. *)

From stdpp Require Import base gmap strings list.
From Stdlib Require Import ZArith Ascii Lia.
From S2P Require Import Prelude Cxx StdMap JsonValue Utf8 JsonLexer GrisuDigits FloatText JsonLexerSpec JsonGrammar JsonNumber.

(** ** The text a lexer has in front of it *)

Definition pending (l : lexer) : string :=
  if next_unget l && negb (current l =? eof) then String (char_of (current l)) (ia l) else ia l.

(** [reads l t b]: the text [t] is next, the token text so far is [b], and a
    character given back is a byte or the end of the input. *)
Record reads (l : lexer) (t b : string) : Prop := {
  reads_pending : pending l = t;
  reads_buffer : token_buffer l = b;
  reads_current : next_unget l = true → is_byte (current l) ∨ (current l = eof ∧ ia l = "");
  reads_count : 0 ≤ chars_read l;
}.

Lemma reads_left l t b : reads l t b → left_to_read l = String.length t.
Proof.
  intros [<- _ _ _]. unfold left_to_read, pending.
  destruct (next_unget l && negb (current l =? eof)); simpl; lia.
Qed.

Lemma wp_get_cons l c t b (Q : Z → lexer → Prop) X :
  reads l (String c t) b →
  (∀ l', reads l' t b → fresh l' (byte_of c) → 0 < chars_read l' → Q (byte_of c) l') →
  wp get l Q X.
Proof.
  intros [Hp Hb Hc Hn] HQ. unfold wp, get, pending in *.
  destruct (next_unget l) eqn:Eu; simpl in *.
  - destruct (Hc eq_refl) as [Hbyte|[He Hi]].
    2:{ rewrite He, Hi in Hp. done. }
    assert (current l ≠ eof) by (unfold is_byte, eof in *; lia).
    rewrite (proj2 (Z.eqb_neq _ _)) in Hp by done. simpl in Hp. injection Hp as Hch Hia.
    assert (Hcur : current l = byte_of c) by (rewrite <-Hch; by rewrite byte_of_char_of by done).
    rewrite Hcur. apply HQ; [|done|simpl; lia]. constructor; simpl; try done; lia.
  - rewrite Hp. simpl. apply HQ; [|done|simpl; lia]. constructor; simpl; try done; lia.
Qed.

Lemma wp_get_nil l b (Q : Z → lexer → Prop) X :
  reads l "" b →
  (∀ l', reads l' "" b → fresh l' eof → 0 < chars_read l' → Q eof l') → wp get l Q X.
Proof.
  intros [Hp Hb Hc Hn] HQ. unfold wp, get, pending in *.
  destruct (next_unget l) eqn:Eu; simpl in *.
  - destruct (Hc eq_refl) as [Hbyte|[He Hi]].
    { assert (current l ≠ eof) by (unfold is_byte, eof in *; lia).
      by rewrite (proj2 (Z.eqb_neq _ _)) in Hp by done. }
    rewrite He, Hi. apply HQ; [|done|simpl; lia]. constructor; simpl; try done; lia.
  - rewrite Hp. simpl. apply HQ; [|done|simpl; lia]. constructor; simpl; try done; lia.
Qed.

(** Storing a byte. *)
Lemma wp_add_reads c l t b (Q : unit → lexer → Prop) X :
  reads l t b →
  (∀ l', reads l' t (b +:+ String (char_of c) "") → (∀ z, fresh l z → fresh l' z) →
     chars_read l' = chars_read l → Q tt l') →
  wp (add c) l Q X.
Proof.
  intros [Hp Hb Hc Hn] HQ. apply wp_add. apply HQ; [|by intros z []|done].
  constructor; try done. simpl. by rewrite Hb.
Qed.

Lemma wp_add_current_reads c l t b (Q : unit → lexer → Prop) X :
  reads l t b → fresh l (byte_of c) →
  (∀ l', reads l' t (b +:+ String c "") → chars_read l' = chars_read l → Q tt l') →
  wp add_current l Q X.
Proof.
  intros Hr [_ Hc] HQ. unfold add_current. do 2 wp_step. rewrite Hc.
  eapply wp_add_reads; [done|]. intros l' Hr' _ Hn. rewrite char_of_byte_of in Hr'. auto.
Qed.

(** ** Strings *)

Lemma wp_add_codepoint_reads cp l t b (Q : unit → lexer → Prop) X :
  scalar_value cp → reads l t b →
  (∀ l', reads l' t (b +:+ utf8_of cp) → chars_read l' = chars_read l → Q tt l') →
  wp (add_codepoint cp) l Q X.
Proof.
  intros Hcp [Hp Hb Hc Hn] HQ. apply wp_add_encode; [done|]. apply HQ; [|done].
  constructor; try done. simpl. by rewrite Hb.
Qed.

(** [get_codepoint] reads four hexadecimal digits. *)
Lemma wp_get_codepoint_hex h cp l t b (Q : Z → lexer → Prop) X :
  four_hex h cp → reads l (h +:+ t) b →
  (∀ l', reads l' t b → 0 < chars_read l' → Q cp l') →
  wp get_codepoint l Q X.
Proof.
  intros [a1 a2 a3 a4 x y z w H1 H2 H3 H4] Hr HQ. unfold get_codepoint. cbn [get_codepoint_loop String.append] in *.
  do 4 (wp_step; eapply wp_get_cons; [exact Hr|]; clear Hr; intros ? Hr _ ?; rewrite ?H1, ?H2, ?H3, ?H4).
  wp_step. rewrite !Z.shiftl_mul_pow2 by lia.
  replace (0 + x * 2 ^ 12 + y * 2 ^ 8 + z * 2 ^ 4 + w * 2 ^ 0)
    with (x * 0x1000 + y * 0x100 + z * 0x10 + w) by lia. by apply HQ.
Qed.

Lemma four_hex_range h cp : four_hex h cp → 0 ≤ cp ≤ 0xFFFF.
Proof.
  intros [a b c d x y z w H1%hex_value_range H2%hex_value_range H3%hex_value_range H4%hex_value_range]. lia.
Qed.

(** The string goes on, [b] having been read. *)
Definition goes_on (t b : string) (r : option token_type) (l : lexer) : Prop :=
  r = None ∧ reads l t b ∧ 0 < chars_read l.

(** Evaluate the comparisons of a known character. *)
Ltac eval_char :=
  repeat match goal with
  | |- context [byte_of ?a =? ?k] =>
      let v := eval vm_compute in (byte_of a =? k) in
      lazymatch v with
      | true => change (byte_of a =? k) with true
      | false => change (byte_of a =? k) with false
      end; cbv iota
  end.

Lemma wp_add_goes_on c l t b X :
  reads l t b → 0 < chars_read l →
  wp (add c ;; ret None) l (goes_on t (b +:+ String (char_of c) "")) X.
Proof.
  intros Hr Hn. wp_step. eapply wp_add_reads; [exact Hr|]. intros l' Hr' _ Hn'. wp_step.
  split_and!; [done|done|lia].
Qed.

Lemma wp_codepoint_goes_on cp l t b X :
  scalar_value cp → reads l t b → 0 < chars_read l →
  wp (add_codepoint cp ;; ret None) l (goes_on t (b +:+ utf8_of cp)) X.
Proof.
  intros Hcp Hr Hn. wp_step. eapply wp_add_codepoint_reads; [exact Hcp|exact Hr|]. intros l' Hr' Hn'.
  wp_step. split_and!; [done|done|lia].
Qed.

Lemma wp_step_backslash l t b Q X :
  reads l (String "\" t) b →
  (∀ l', reads l' t b → 0 < chars_read l' → wp scan_escape l' Q X) →
  wp scan_string_step l Q X.
Proof.
  intros Hr HQ. unfold scan_string_step. wp_step. eapply wp_get_cons; [exact Hr|].
  intros l' Hr' _ Hn. eval_char. by apply HQ.
Qed.

(** An escape of one letter. *)
Lemma wp_step_escape e cp l t b X :
  simple_escape e = Some cp → reads l (String "\" (String e t)) b →
  wp scan_string_step l (goes_on t (b +:+ utf8_of cp)) X.
Proof.
  intros He Hr. eapply wp_step_backslash; [exact Hr|]. clear Hr. intros l1 Hr _.
  unfold scan_escape. wp_step. eapply wp_get_cons; [exact Hr|]. clear Hr. intros l2 Hr _ Hn.
  unfold simple_escape in He.
  repeat match type of He with context [Ascii.eqb e ?k] =>
    destruct (Ascii.eqb_spec e k) as [->|]; [injection He as <-; eval_char; by apply wp_add_goes_on|] end.
  done.
Qed.

(** An escaped code point, or two of them. *)
Lemma wp_unicode_escape h cp l t b X :
  four_hex h cp → ¬ is_high cp → ¬ is_low cp → reads l (h +:+ t) b →
  wp scan_unicode_escape l (goes_on t (b +:+ utf8_of cp)) X.
Proof.
  intros Hh Hhi Hlo Hr. unfold scan_unicode_escape. wp_step. pose proof (four_hex_range _ _ Hh).
  eapply wp_get_codepoint_hex; [exact Hh|exact Hr|]. intros l1 Hr1 Hn1. unfold is_high, is_low in *.
  rewrite (proj2 (Z.eqb_neq cp (-1))) by lia.
  rewrite (proj2 (andb_false_iff _ _)) by (rewrite !Z.leb_gt; lia).
  rewrite (proj2 (andb_false_iff _ _)) by (rewrite !Z.leb_gt; lia).
  apply wp_codepoint_goes_on; [|done|done]. unfold scalar_value. lia.
Qed.

Lemma wp_unicode_pair h1 hi h2 lo l t b X :
  four_hex h1 hi → is_high hi → four_hex h2 lo → is_low lo →
  reads l (h1 +:+ String "\" (String "u" (h2 +:+ t))) b →
  wp scan_unicode_escape l (goes_on t (b +:+ utf8_of (pair_value hi lo))) X.
Proof.
  unfold is_high, is_low. intros Hh1 Hhi Hh2 Hlo Hr. unfold scan_unicode_escape. wp_step.
  eapply wp_get_codepoint_hex; [exact Hh1|exact Hr|]. clear Hr. intros l1 Hr _.
  rewrite (proj2 (Z.eqb_neq hi (-1))) by lia.
  rewrite (proj2 (Z.leb_le 0xD800 hi)), (proj2 (Z.leb_le hi 0xDBFF)) by lia. cbn [andb].
  do 2 (wp_step; eapply wp_get_cons; [exact Hr|]; clear Hr; intros ? Hr _ _; rewrite Z.eqb_refl; cbn [negb]).
  wp_step. eapply wp_get_codepoint_hex; [exact Hh2|exact Hr|]. clear Hr. intros l4 Hr Hn.
  rewrite (proj2 (Z.eqb_neq lo (-1))) by lia.
  rewrite (proj2 (Z.leb_le 0xDC00 lo)), (proj2 (Z.leb_le lo 0xDFFF)) by lia. cbn [andb].
  rewrite Z.shiftl_mul_pow2 by lia. replace (hi * 2 ^ 10 + lo - 0x35FDC00) with (pair_value hi lo)
    by (unfold pair_value; lia).
  apply wp_codepoint_goes_on; [|done|done]. unfold scalar_value, pair_value. lia.
Qed.

(** Unescaped characters, in ASCII and outside. *)
Lemma wp_step_plain c l t b X :
  is_plain_ascii (byte_of c) = true → reads l (String c t) b →
  wp scan_string_step l (goes_on t (b +:+ String c "")) X.
Proof.
  intros Hc Hr. unfold scan_string_step. wp_step. eapply wp_get_cons; [exact Hr|].
  intros l1 Hr1 Hf Hn. pose proof Hc as Hc'. unfold is_plain_ascii in Hc.
  repeat match goal with H : _ && _ = true |- _ => apply andb_true_iff in H as [? ?] end.
  repeat match goal with H : negb _ = true |- _ => apply negb_true_iff in H end. zify_cmp.
  rewrite (proj2 (Z.eqb_neq _ eof)) by apply byte_of_not_eof.
  rewrite (proj2 (Z.eqb_neq _ (byte_of dquote))) by (change (byte_of dquote) with 0x22; done).
  rewrite (proj2 (Z.eqb_neq _ $"\")) by (change $"\" with 0x5C; done).
  unfold is_control. rewrite (proj2 (Z.leb_gt (byte_of c) 0x1F)), andb_false_r, Hc' by lia.
  wp_step. eapply wp_add_current_reads; [done|done|]. intros l2 Hr2 Hn2.
  wp_step. split_and!; [done|done|lia].
Qed.

Lemma wp_bytes_in_range_reads ranges seg l t b (Q : bool → lexer → Prop) X :
  Forall2 (λ b r, r.1 ≤ b ≤ r.2) (bytes_of seg) ranges → reads l (seg +:+ t) b →
  (∀ l', reads l' t (b +:+ seg) → (0 < chars_read l → 0 < chars_read l') → Q true l') →
  wp (bytes_in_range ranges) l Q X.
Proof.
  revert seg l b. induction ranges as [|[lo hi] ranges IH]; intros seg l b Hf Hr HQ.
  - destruct seg as [|c seg]; [|by apply Forall2_length in Hf]. cbn [bytes_in_range]. wp_step. apply HQ; [|done].
    by rewrite append_nil_r.
  - destruct seg as [|c seg]; [by apply Forall2_length in Hf|]. cbn [bytes_of] in Hf.
    apply Forall2_cons in Hf as [Hc Hf]. simpl in Hc. cbn [bytes_in_range]. wp_step.
    eapply wp_get_cons; [exact Hr|]. intros l1 Hr1 _ Hn1.
    rewrite (proj2 (Z.leb_le lo _)), (proj2 (Z.leb_le _ hi)) by lia. cbn [andb]. wp_step.
    eapply wp_add_reads; [exact Hr1|]. intros l2 Hr2 _ Hn2. rewrite char_of_byte_of in Hr2.
    eapply IH; [exact Hf|exact Hr2|]. intros l3 Hr3 Hn3. rewrite append_assoc in Hr3. simpl in Hr3.
    apply HQ; [done|]. intros _. apply Hn3. lia.
Qed.

(** A character outside ASCII is copied. *)
Lemma wp_step_high c seg ranges l t b X :
  0x7F < byte_of c → lead_ranges (byte_of c) = Some ranges →
  Forall2 (λ b r, r.1 ≤ b ≤ r.2) (bytes_of seg) ranges →
  reads l (String c (seg +:+ t)) b →
  wp scan_string_step l (goes_on t (b +:+ String c seg)) X.
Proof.
  intros Hc Hl Hf Hr. unfold scan_string_step. wp_step. eapply wp_get_cons; [exact Hr|].
  intros l1 Hr1 Hf1 Hn1. pose proof (byte_of_range c).
  rewrite (proj2 (Z.eqb_neq (byte_of c) eof)) by apply byte_of_not_eof.
  rewrite (proj2 (Z.eqb_neq (byte_of c) (byte_of dquote))) by (change (byte_of dquote) with 0x22; lia).
  rewrite (proj2 (Z.eqb_neq (byte_of c) $"\")) by (change $"\" with 0x5C; lia).
  unfold is_control, is_plain_ascii. rewrite (proj2 (Z.leb_gt (byte_of c) 0x1F)) by lia.
  rewrite (proj2 (Z.leb_gt (byte_of c) 0x7F)) by lia. rewrite !andb_false_r. cbn [andb].
  rewrite Hl. wp_step. unfold next_byte_in_range. wp_step.
  eapply wp_add_current_reads; [exact Hr1|exact Hf1|]. intros l2 Hr2 Hn2.
  eapply wp_bytes_in_range_reads; [exact Hf|exact Hr2|]. intros l3 Hr3 Hn3.
  rewrite append_assoc in Hr3. wp_step. split_and!; [done|done|]. apply Hn3. lia.
Qed.

Lemma wp_step_unescaped cp l t b X :
  scalar_value cp → 0x20 ≤ cp → cp ≠ 0x22 → cp ≠ 0x5C → reads l (utf8_of cp +:+ t) b →
  wp scan_string_step l (goes_on t (b +:+ utf8_of cp)) X.
Proof.
  intros Hcp Hge Hq Hb Hr. destruct (decide (cp < 0x80)) as [Hlt|Hlt].
  - unfold utf8_of, encode in *. rewrite (proj2 (Z.ltb_lt cp 0x80)) in * by lia. cbn [string_of String.append] in *.
    apply wp_step_plain; [|exact Hr]. rewrite byte_of_char_of by lia. unfold is_plain_ascii.
    by rewrite (proj2 (Z.leb_le _ _)), (proj2 (Z.leb_le _ _)), (proj2 (Z.eqb_neq _ 0x22)), (proj2 (Z.eqb_neq _ 0x5C)) by lia.
  - destruct (encode_lead cp Hcp ltac:(lia)) as (c & bs & ranges & He & Hc & Hl & Hf).
    destruct (encode_utf8 cp Hcp) as [Hbytes _]. unfold utf8_of in *. rewrite He in *.
    apply Forall_cons in Hbytes as [Hcb Hbs]. cbn [string_of String.append] in *.
    apply (wp_step_high (char_of c) (string_of bs) ranges); [..|exact Hr].
    + rewrite byte_of_char_of by done. lia.
    + by rewrite byte_of_char_of.
    + by rewrite bytes_of_string_of.
Qed.

(** One character of the grammar is read by one turn of the loop. *)
Lemma wp_step_char u w l t b X :
  char_text u w → reads l (u +:+ t) b → wp scan_string_step l (goes_on t (b +:+ w)) X.
Proof.
  intros [cp Hcp Hge Hq Hbs|e cp He|h cp Hh Hhi Hlo|h1 hi h2 lo Hh1 Hhi Hh2 Hlo] Hr;
    rewrite ?append_assoc in Hr; cbn [String.append] in Hr.
  - by apply wp_step_unescaped.
  - by eapply wp_step_escape.
  - eapply wp_step_backslash; [exact Hr|]. clear Hr. intros l1 Hr _. unfold scan_escape. wp_step.
    eapply wp_get_cons; [exact Hr|]. clear Hr. intros l2 Hr _ _. eval_char. by eapply wp_unicode_escape.
  - eapply wp_step_backslash; [exact Hr|]. clear Hr. intros l1 Hr _. unfold scan_escape. wp_step.
    eapply wp_get_cons; [exact Hr|]. clear Hr. intros l2 Hr _ _. eval_char. by eapply wp_unicode_pair.
Qed.

Lemma char_text_nonempty u w : char_text u w → u ≠ "".
Proof.
  intros [cp _ _ _ _|e cp _|h cp _ _ _|h1 hi h2 lo _ _ _ _]; [|done|done|done].
  unfold utf8_of, encode. by repeat case_match.
Qed.

Lemma length_nonempty u : u ≠ "" → (0 < String.length u)%nat.
Proof. destruct u; simpl; [done|lia]. Qed.

(** The loop reads a string up to its closing quote. *)
Lemma wp_scan_string_chars body s fuel l t b X :
  chars_text body s → reads l (body +:+ String dquote t) b →
  (String.length (body +:+ String dquote t) < fuel)%nat →
  wp (scan_string_loop fuel) l
    (λ tok l', tok = value_string ∧ reads l' t (b +:+ s) ∧ 0 < chars_read l') X.
Proof.
  intros Hbody. revert fuel l b. induction Hbody as [|u w body s Hc Hbody IH]; intros fuel l b Hr Hf.
  all: destruct fuel as [|fuel]; [lia|]; cbn [scan_string_loop]; wp_step.
  - cbn [String.append] in Hr. unfold scan_string_step. wp_step. eapply wp_get_cons; [exact Hr|].
    intros l1 Hr1 _ Hn1. eval_char. do 2 wp_step. rewrite append_nil_r. by split_and!.
  - rewrite append_assoc in Hr, Hf. rewrite length_append in Hf.
    pose proof (length_nonempty _ (char_text_nonempty _ _ Hc)).
    eapply wp_mono; [by eapply wp_step_char| |done]. intros r l1 (-> & Hr1 & Hn1).
    eapply wp_mono; [eapply IH; [exact Hr1|lia]| |done].
    intros tok l2 (-> & Hr2 & Hn2). by rewrite append_assoc in Hr2.
Qed.

Lemma reset_reads l t b :
  reads l t b → reads (with_token_string (push_back "" (current l)) (with_token_buffer "" l)) t "".
Proof. intros [Hp Hb Hc Hn]. by constructor. Qed.

Lemma wp_scan_string_reads body s l t b X :
  chars_text body s → reads l (body +:+ String dquote t) b → 0 < chars_read l →
  wp scan_string l (λ tok l', tok = value_string ∧ reads l' t s ∧ 0 < chars_read l') X.
Proof.
  intros Hbody Hr Hn. unfold scan_string, reset. do 4 wp_step.
  pose proof (reset_reads l _ _ Hr) as Hr'. rewrite (reads_left _ _ _ Hr').
  eapply wp_mono; [eapply (wp_scan_string_chars body s); [done|exact Hr'|lia]|done|done].
Qed.

(** ** Numbers *)

(** What may follow a number: nothing, or a character that is not part of
    one. *)
Definition number_ends (t : string) : bool :=
  match t with
  | EmptyString => true
  | String c _ => negb (is_digit (byte_of c) || (byte_of c =? $".") || is_exp (byte_of c))
  end.

(** Look one character ahead and give it back. *)
Lemma wp_peek l t b (Q : Z → lexer → Prop) X :
  reads l t b → 0 < chars_read l →
  (∀ c l', (t = "" ∧ c = eof ∨ ∃ a t', t = String a t' ∧ c = byte_of a) → token_buffer l' = b →
     reads (unget l').2 t b → 0 < chars_read (unget l').2 → Q c l') →
  wp get l Q X.
Proof.
  intros [Hp Hb Hc Hn] Hpos HQ. unfold wp, get, pending in *. destruct t as [|a t].
  - assert (Hnone : ∃ r, (if next_unget l then (current l, ia l) else get_character (ia l)) = (eof, r)
      ∧ r = "").
    { destruct (next_unget l) eqn:Eu; simpl in *; [|rewrite Hp; by eexists].
      destruct (Hc eq_refl) as [Hbyte|[-> ->]]; [|by eexists].
      assert (current l ≠ eof) by (unfold is_byte, eof in *; lia).
      by rewrite (proj2 (Z.eqb_neq _ _)) in Hp by done. }
    destruct Hnone as (r & -> & ->). apply HQ; [by left|done| |simpl; lia].
    constructor; simpl; [done|done|by right|lia].
  - assert (Hone : (if next_unget l then (current l, ia l) else get_character (ia l)) = (byte_of a, t)).
    { destruct (next_unget l) eqn:Eu; simpl in *; [|by rewrite Hp].
      destruct (Hc eq_refl) as [Hbyte|[He Hi]]; [|by rewrite He, Hi in Hp].
      assert (current l ≠ eof) by (unfold is_byte, eof in *; lia).
      rewrite (proj2 (Z.eqb_neq _ _)) in Hp by done. simpl in Hp. injection Hp as <- <-.
      by rewrite byte_of_char_of by done. }
    rewrite Hone. apply HQ; [right; eauto|done| |simpl; lia].
    constructor; simpl; [|done|left; apply byte_of_range|lia].
    unfold pending. simpl. rewrite (proj2 (Z.eqb_neq _ _)) by apply byte_of_not_eof. simpl.
    by rewrite char_of_byte_of.
Qed.

Lemma number_ends_done st c t :
  final_state st = true → number_ends t = true →
  (t = "" ∧ c = eof ∨ ∃ a t', t = String a t' ∧ c = byte_of a) →
  scan_number_action st c = done_number.
Proof.
  intros Hst Ht [[-> ->]|(a & t' & -> & ->)]; [by destruct st|].
  cbn [number_ends] in Ht. apply negb_true_iff, orb_false_iff in Ht as [[H1 H2]%orb_false_iff H3].
  destruct st; try done; cbn [scan_number_action scan_number_integral scan_number_fraction];
    by rewrite ?H1, ?H2, ?H3.
Qed.

(** The loop follows the automaton and stops before the character that ends
    the number. *)
Lemma wp_number_run s st nt st' nt' fuel l t b X :
  number_run st nt s = Some (st', nt') → final_state st' = true → number_ends t = true →
  reads l (s +:+ t) b → 0 < chars_read l → (String.length (s +:+ t) < fuel)%nat →
  wp (scan_number_loop fuel st nt) l
    (λ r l', r = Some (enter_state st' nt') ∧ reads (unget l').2 t (b +:+ s)
             ∧ 0 < chars_read (unget l').2) X.
Proof.
  intros Hrun Hst Ht. revert st nt fuel l b Hrun.
  induction s as [|d s IH]; intros st nt fuel l b Hrun Hr Hn Hf.
  all: destruct fuel as [|fuel]; [lia|]; cbn [scan_number_loop number_run] in *; wp_step.
  - injection Hrun as -> ->. cbn [String.append] in Hr. eapply wp_peek; [exact Hr|done|].
    intros c l' Hc Hb Hr' Hn'. rewrite (number_ends_done st' c t) by done. wp_step.
    by rewrite append_nil_r.
  - cbn [String.append String.length] in Hr, Hf.
    eapply wp_get_cons; [exact Hr|]. intros l1 Hr1 _ Hn1.
    destruct (scan_number_action st (byte_of d)) as [st1| |]; try done. wp_step.
    eapply wp_add_reads; [exact Hr1|]. intros l2 Hr2 _ Hn2. rewrite char_of_byte_of in Hr2.
    eapply wp_mono; [apply (IH _ _ fuel l2 (b +:+ String d "") Hrun); [done|lia|lia]| |done].
    intros r l3 (-> & Hr3 & Hn3). rewrite append_assoc in Hr3. done.
Qed.

(** A token with its value: what [scan] leaves for the parser. *)
Definition token_is (v : json) (tok : token_type) (l : lexer) : Prop :=
  match v with
  | jnull => tok = literal_null
  | jboolean b => tok = if b then literal_true else literal_false
  | jstring s => tok = value_string ∧ token_buffer l = s
  | jnumber_unsigned z => tok = value_unsigned ∧ lx_unsigned l = z
  | jnumber_integer z => tok = value_integer ∧ lx_integer l = z
  | jnumber_float d => tok = value_float ∧ lx_float l = d
  | jobject _ => tok = begin_object
  | jarray _ => tok = begin_array
  | _ => False
  end.

(** The lexer stands before [t], a token having been read. *)
Definition stands (l : lexer) (t : string) : Prop := (∃ b, reads l t b) ∧ 0 < chars_read l.

(** [scan_number_done] on the text of a number. *)
Lemma wp_number_done nt l t b X :
  reads (unget l).2 t b → 0 < chars_read (unget l).2 →
  wp (scan_number_done nt) l (λ tok l', token_is (number_value nt b) tok l' ∧ stands l' t) X.
Proof.
  intros Hr Hn. unfold scan_number_done, number_value, unget. unfold unget, modify in Hr, Hn.
  cbn [snd] in Hr, Hn. do 4 wp_step. rewrite (reads_buffer _ _ _ Hr).
  assert (Hst : ∀ l', reads l' t b → 0 < chars_read l' → stands l' t) by (intros; split; [by exists b|done]).
  repeat case_match; do 3 wp_step; (split; [done|]); apply Hst; try done; by destruct Hr.
Qed.

(** The start of [scan_number], its first character [c] being the current one. *)
Lemma wp_scan_number_start c l t b (Q : token_type → lexer → Prop) X :
  reads l t b → fresh l (byte_of c) → 0 < chars_read l →
  (∀ l', reads l' t (String c "") → 0 < chars_read l' →
     wp (r <- scan_number_loop (S (String.length t))
              (start_state c) value_unsigned ;;
         match r with
         | Some number_type => scan_number_done number_type
         | None => ret tok_parse_error
         end) l' Q X) →
  wp scan_number l Q X.
Proof.
  intros Hr [_ Hc] Hn HQ. unfold scan_number, reset. do 4 wp_step.
  pose proof (reset_reads l _ _ Hr) as Hr'. rewrite (reads_left _ _ _ Hr').
  cbn [current with_token_string with_token_buffer]. rewrite Hc in *. wp_step.
  eapply wp_add_reads; [exact Hr'|]. intros l' Hr2 _ Hn2. rewrite char_of_byte_of in Hr2.
  apply HQ; [done|]. by rewrite Hn2.
Qed.


Lemma wp_scan_number_text txt v c ds l t b X :
  number_text txt v → txt = String c ds → number_ends t = true →
  reads l (ds +:+ t) b → fresh l (byte_of c) → 0 < chars_read l →
  wp scan_number l (λ tok l', token_is v tok l' ∧ stands l' t) X.
Proof.
  intros (nt & Ha & <-)%number_text_accepted -> Ht Hr Hf Hn.
  inversion Ha as [c' ds' st nt0 Hc Hrun Hfin]; subst.
  eapply wp_scan_number_start; [exact Hr|exact Hf|done|]. clear Hr Hf Hn. intros l1 Hr Hn. wp_step.
  eapply wp_mono; [eapply (wp_number_run ds); [exact Hrun|done|done|exact Hr|done|lia]| |done].
  intros r l' (-> & Hr' & Hn'). by apply wp_number_done.
Qed.

(** ** Tokens *)

Lemma wp_skip_whitespace_reads ws c t b fuel l (Q : Z → lexer → Prop) X :
  all_space ws = true → is_space (byte_of c) = false → reads l (ws +:+ String c t) b →
  (String.length (ws +:+ String c t) < fuel)%nat →
  (∀ l', reads l' t b → fresh l' (byte_of c) → 0 < chars_read l' → Q (byte_of c) l') →
  wp (skip_whitespace fuel) l Q X.
Proof.
  intros Hws Hc. revert fuel l. induction ws as [|w ws IH]; intros fuel l Hr Hf HQ.
  all: destruct fuel as [|fuel]; [lia|]; cbn [skip_whitespace String.append String.length] in *; wp_step.
  - eapply wp_get_cons; [exact Hr|]. intros l' Hr' Hf' Hn'. rewrite Hc. wp_step. by apply HQ.
  - apply andb_true_iff in Hws as [Hw Hws]. eapply wp_get_cons; [exact Hr|].
    intros l' Hr' _ _. rewrite Hw. apply (IH Hws fuel l'); [done|lia|done].
Qed.

Lemma wp_skip_whitespace_end ws b fuel l (Q : Z → lexer → Prop) X :
  all_space ws = true → reads l ws b → (String.length ws < fuel)%nat →
  (∀ l', reads l' "" b → 0 < chars_read l' → Q eof l') → wp (skip_whitespace fuel) l Q X.
Proof.
  revert fuel l. induction ws as [|w ws IH]; intros fuel l Hws Hr Hf HQ.
  all: destruct fuel as [|fuel]; [lia|]; cbn [skip_whitespace String.length] in *; wp_step.
  - eapply wp_get_nil; [exact Hr|]. intros l' Hr' _ Hn'. change (is_space eof) with false. cbv iota.
    wp_step. by apply HQ.
  - apply andb_true_iff in Hws as [Hw Hws]. eapply wp_get_cons; [exact Hr|].
    intros l' Hr' _ _. rewrite Hw. apply (IH fuel l'); [done|done|lia|done].
Qed.

(** A lexer from which [scan] sees the text [t]: between tokens, or at the
    start of an input, behind a byte order mark if there is one. *)
Definition marked (t : string) : bool :=
  match t with String c _ => byte_of c =? 0xEF | EmptyString => false end.

Inductive starts : lexer → string → Prop :=
| starts_token l t : stands l t → starts l t
| starts_input t : marked t = false → starts (lexer_init t) t
| starts_mark t : starts (lexer_init (byte_order_mark +:+ t)) t.

(** [scan] after the byte order mark. *)
Definition scan_rest : M exn lexer token_type :=
  l <- get_state ;; c <- skip_whitespace (S (left_to_read l)) ;; scan_token c.

Lemma lexer_init_reads t : reads (lexer_init t) t "".
Proof. by constructor. Qed.

Lemma wp_scan_rest l t (Q : token_type → lexer → Prop) X :
  starts l t → (∀ l' b, reads l' t b → wp scan_rest l' Q X) → wp scan l Q X.
Proof.
  intros Hst HQ. unfold scan. do 2 wp_step. destruct Hst as [l t [[b Hr] Hn]|t Hm|t].
  - rewrite (proj2 (Z.eqb_neq (chars_read l) 0)) by lia. do 2 wp_step. cbn [negb]. by eapply HQ.
  - cbn [chars_read lexer_init Z.eqb]. unfold skip_bom. do 2 wp_step. destruct t as [|c t].
    + apply HQ with "". by constructor; [..|right|].
    + eapply wp_get_cons; [apply lexer_init_reads|]. intros l1 [Hp Hb _ _] [Hu Hcur] Hn1.
      cbn [marked] in Hm. rewrite Hm. unfold unget. do 3 wp_step. cbn [negb].
      apply HQ with "". unfold pending in Hp. rewrite Hu in Hp. simpl in Hp. constructor; simpl.
      * unfold pending. simpl. rewrite Hcur, (proj2 (Z.eqb_neq _ eof)) by apply byte_of_not_eof.
        simpl. rewrite Hp. by rewrite char_of_byte_of.
      * done.
      * intros _. left. rewrite Hcur. apply byte_of_range.
      * lia.
  - cbn [chars_read lexer_init Z.eqb]. unfold skip_bom. do 2 wp_step.
    pose proof (lexer_init_reads (byte_order_mark +:+ t)) as Hr. cbn [byte_order_mark string_of String.append] in *.
    eapply wp_get_cons; [exact Hr|]. clear Hr. intros l1 Hr _ _. eval_char.
    do 2 (wp_step; eapply wp_get_cons; [exact Hr|]; clear Hr; intros ? Hr _ _; eval_char; cbn [negb]; cbv iota).
    wp_step. cbn [negb]. by eapply HQ.
Qed.

Lemma wp_scan_starts ws c t l (Q : token_type → lexer → Prop) X :
  all_space ws = true → is_space (byte_of c) = false → starts l (ws +:+ String c t) →
  (∀ l' b, reads l' t b → fresh l' (byte_of c) → 0 < chars_read l' →
     wp (scan_token (byte_of c)) l' Q X) →
  wp scan l Q X.
Proof.
  intros Hws Hc Hst HQ. eapply wp_scan_rest; [exact Hst|]. intros l1 b Hr. unfold scan_rest.
  do 3 wp_step. rewrite (reads_left _ _ _ Hr).
  eapply wp_skip_whitespace_reads; [done|done|exact Hr|lia|]. eauto.
Qed.

(** Structural characters. *)
Definition punctuation (c : ascii) : option token_type :=
  if Ascii.eqb c "[" then Some begin_array
  else if Ascii.eqb c "]" then Some end_array
  else if Ascii.eqb c "{" then Some begin_object
  else if Ascii.eqb c "}" then Some end_object
  else if Ascii.eqb c ":" then Some name_separator
  else if Ascii.eqb c "," then Some value_separator
  else None.

Lemma wp_scan_punctuation ws c tok t l X :
  punctuation c = Some tok → all_space ws = true → starts l (ws +:+ String c t) →
  wp scan l (λ tok' l', tok' = tok ∧ stands l' t) X.
Proof.
  intros Hp Hws Hst.
  assert (Hrun : is_space (byte_of c) = false ∧ ∀ l', scan_token (byte_of c) l' = (Ok tok, l')).
  { unfold punctuation in Hp.
    repeat match type of Hp with context [Ascii.eqb c ?k] =>
      destruct (Ascii.eqb_spec c k) as [->|]; [injection Hp as <-; by split|] end. done. }
  destruct Hrun as [Hs Hrun]. eapply wp_scan_starts; [done|done|exact Hst|].
  intros l' b Hr _ Hn. unfold wp. rewrite Hrun. split; [done|]. split; [by exists b|done].
Qed.

Lemma wp_scan_literal_reads rest tok l t b X :
  reads l (rest +:+ t) b → 0 < chars_read l →
  wp (scan_literal rest tok) l (λ tok' l', tok' = tok ∧ stands l' t) X.
Proof.
  revert l b. induction rest as [|c rest IH]; intros l b Hr Hn; cbn [scan_literal String.append] in *.
  - wp_step. split; [done|]. split; [by exists b|done].
  - wp_step. eapply wp_get_cons; [exact Hr|]. intros l' Hr' _ Hn'. rewrite Z.eqb_refl. cbn [negb].
    by eapply IH.
Qed.

(** The first character of a number. *)
Lemma number_text_head txt v :
  number_text txt v →
  ∃ c ds, txt = String c ds ∧ is_space (byte_of c) = false ∧ byte_of c ≠ 0xEF
    ∧ ∀ l, scan_token (byte_of c) l = scan_number l.
Proof.
  intros (nt & Ha & _)%number_text_accepted. destruct Ha as [c ds st nt0 Hc _ _].
  exists c, ds. split; [done|]. destruct Hc as [->|Hc]; [by split_and!|].
  destruct c as [[] [] [] [] [] [] [] []]; try done; by split_and!.
Qed.

(** A scalar value, read from its text. *)
Lemma wp_scan_scalar txt v ws t l X :
  scalar_text txt v → number_ends t = true → all_space ws = true →
  starts l (ws +:+ txt +:+ t) →
  wp scan l (λ tok l', token_is v tok l' ∧ stands l' t) X.
Proof.
  intros Hs Ht Hws Hst. destruct Hs as [| | |txt s [body s' Hbody]|txt v Hnum].
  - eapply (wp_scan_starts ws "n"); [done|done|exact Hst|]. intros l' b Hr _ Hn.
    unfold scan_token. eval_char. by eapply (wp_scan_literal_reads "ull").
  - eapply (wp_scan_starts ws "t"); [done|done|exact Hst|]. intros l' b Hr _ Hn.
    unfold scan_token. eval_char. by eapply (wp_scan_literal_reads "rue").
  - eapply (wp_scan_starts ws "f"); [done|done|exact Hst|]. intros l' b Hr _ Hn.
    unfold scan_token. eval_char. by eapply (wp_scan_literal_reads "alse").
  - cbn [String.append] in Hst. rewrite append_assoc in Hst. cbn [String.append] in Hst.
    eapply (wp_scan_starts ws dquote); [done|done|exact Hst|].
    intros l' b Hr _ Hn. unfold scan_token. eval_char.
    eapply wp_mono; [by eapply wp_scan_string_reads| |done].
    intros tok l2 (-> & Hr2 & Hn2). split; [split; [done|by destruct Hr2]|]. split; [by eexists|done].
  - destruct (number_text_head _ _ Hnum) as (c & ds & E & Hsp & _ & Hrun). rewrite E in Hst.
    eapply (wp_scan_starts ws c); [done|done|exact Hst|]. intros l' b Hr Hf Hn.
    unfold wp. rewrite Hrun. by eapply wp_scan_number_text.
Qed.

(** The end of the input. *)
Lemma wp_scan_end ws r l X :
  all_space ws = true → ends_text r → stands l (ws +:+ r) → wp scan l (λ tok _, tok = end_of_input) X.
Proof.
  intros Hws [->|[r' ->]] Hst.
  - eapply wp_scan_rest; [by apply starts_token|]. clear Hst l. intros l b Hr. rewrite append_nil_r in Hr.
    unfold scan_rest. do 3 wp_step. rewrite (reads_left _ _ _ Hr).
    eapply wp_skip_whitespace_end; [done|exact Hr|lia|]. intros l' _ _.
    change (scan_token eof) with (ret end_of_input : M exn lexer token_type). by wp_step.
  - eapply (wp_scan_starts ws "000"); [done|done|by apply starts_token|]. intros l' b _ _ _.
    change (scan_token (byte_of "000")) with (ret end_of_input : M exn lexer token_type). by wp_step.
Qed.
