(* ===== verification/JsonSound.v ===== *)
(** * Every token stands for a text of the grammar

    The converse of [JsonReads]: whatever [scan] returns, unless it is an error,
    the text it consumed is white space and then a token of the grammar, and
    the lexer keeps the value of that token. *)

From stdpp Require Import base gmap strings list.
From Stdlib Require Import ZArith Ascii Lia.
From S2P Require Import Prelude Cxx StdMap JsonValue Utf8 JsonLexer GrisuDigits FloatText JsonLexerSpec JsonGrammar JsonNumber JsonReads.

Lemma wp_get_reads l t b (Q : Z → lexer → Prop) X :
  reads l t b →
  (∀ c t' l', t = String c t' → reads l' t' b → fresh l' (byte_of c) → 0 < chars_read l' → Q (byte_of c) l') →
  (∀ l', t = "" → reads l' "" b → fresh l' eof → 0 < chars_read l' → Q eof l') →
  wp get l Q X.
Proof.
  intros Hr H1 H2. destruct t as [|c t]; [eapply wp_get_nil|eapply wp_get_cons]; eauto.
Qed.

(** ** Strings *)

Lemma bytes_in_range_sound ranges l t b X :
  reads l t b → Forall (λ r, 0 ≤ r.1) ranges →
  wp (bytes_in_range ranges) l (λ ok l', ok = true → ∃ seg t', t = seg +:+ t'
    ∧ Forall2 (λ b r, r.1 ≤ b ≤ r.2) (bytes_of seg) ranges
    ∧ reads l' t' (b +:+ seg) ∧ (0 < chars_read l → 0 < chars_read l')) X.
Proof.
  revert l t b. induction ranges as [|[lo hi] ranges IH]; intros l t b Hr Hlo; cbn [bytes_in_range]; wp_step.
  { intros _. exists "", t. rewrite append_nil_r. split_and!; [done|constructor|done|done]. }
  apply Forall_cons in Hlo as [Hlo0 Hlo]. simpl in Hlo0.
  eapply wp_get_reads; [exact Hr| |].
  - intros c t' l1 -> Hr1 Hf1 Hn1. destruct ((lo <=? byte_of c) && (byte_of c <=? hi)) eqn:E.
    + zify_cmp. wp_step. eapply wp_add_reads; [exact Hr1|]. intros l2 Hr2 _ Hn2.
      rewrite char_of_byte_of in Hr2. eapply wp_mono; [by eapply IH| |done].
      intros ok l3 H3 Hok. destruct (H3 Hok) as (seg & t2 & -> & Hseg & Hr3 & Hn3).
      exists (String c seg), t2. rewrite append_assoc in Hr3. cbn [bytes_of].
      split_and!; [done|by constructor|done|]. intros _. apply Hn3. lia.
    + do 3 wp_step. done.
  - intros l1 -> _ _ _. rewrite (proj2 (Z.leb_gt lo eof)) by (unfold eof; lia). cbn [andb]. by do 3 wp_step.
Qed.

(** The four digits of an escape. *)
Lemma codepoint_sound l t b (Q : Z → lexer → Prop) X :
  reads l t b → (∀ l', Q (-1) l') →
  (∀ h cp t' l', t = h +:+ t' → four_hex h cp → reads l' t' b → 0 < chars_read l' → Q cp l') →
  wp get_codepoint l Q X.
Proof.
  intros Hr Hbad HQ. unfold get_codepoint. cbn [get_codepoint_loop].
  do 4 (wp_step; eapply wp_get_reads; [exact Hr| |intros; change (hex_value eof) with (@None Z); cbv iota; wp_step; apply Hbad];
    clear Hr; let c := fresh "c" in intros c ? ? -> Hr _ ?;
    let E := fresh "E" in destruct (hex_value (byte_of c)) eqn:E; [|wp_step; apply Hbad]).
  wp_step. rewrite !Z.shiftl_mul_pow2 by lia.
  match goal with |- Q ?v _ => replace v with (z * 0x1000 + z0 * 0x100 + z1 * 0x10 + z2) by lia end.
  eapply (HQ (String c (String c0 (String c1 (String c2 ""))))); [done|by constructor|done|done].
Qed.

(** A turn of the loop after the characters [pre]: the string goes on behind a
    character of the grammar, or an error is reported. *)
Definition goes (pre t b : string) (r : option token_type) (l : lexer) : Prop :=
  match r with
  | None => ∃ u w t', t = u +:+ t' ∧ char_text (pre +:+ u) w ∧ reads l t' (b +:+ w) ∧ 0 < chars_read l
  | Some tok => tok = tok_parse_error
  end.

Lemma stop_goes msg pre t b l X : wp (stop msg) l (goes pre t b) X.
Proof. unfold stop, fail. by do 5 wp_step. Qed.

Lemma codepoint_goes pre u t' b cp l X :
  scalar_value cp → char_text (pre +:+ u) (utf8_of cp) → reads l t' b → 0 < chars_read l →
  wp (add_codepoint cp ;; ret None) l (goes pre (u +:+ t') b) X.
Proof.
  intros Hs Hc Hr Hn. wp_step. eapply wp_add_codepoint_reads; [done|exact Hr|].
  intros l' Hr' Hn'. wp_step. exists u, (utf8_of cp), t'. split_and!; [done|done|done|lia].
Qed.

Lemma unicode_escape_sound l t b X :
  reads l t b → wp scan_unicode_escape l (goes "\u" t b) X.
Proof.
  intros Hr. unfold scan_unicode_escape. wp_step.
  eapply codepoint_sound; [exact Hr|intros; by apply stop_goes|]. clear Hr.
  intros h1 cp1 t1 l1 -> Hh1 Hr Hn. pose proof (four_hex_range _ _ Hh1).
  rewrite (proj2 (Z.eqb_neq cp1 (-1))) by lia.
  destruct ((0xD800 <=? cp1) && (cp1 <=? 0xDBFF)) eqn:E1.
  - zify_cmp. wp_step. eapply wp_get_reads; [exact Hr| |intros; by apply stop_goes].
    clear Hr. intros c t2 l2 -> Hr _ _. destruct (negb (byte_of c =? $"\")) eqn:E2; [by apply stop_goes|].
    apply negb_false_iff, Z.eqb_eq, byte_of_inj in E2 as ->.
    wp_step. eapply wp_get_reads; [exact Hr| |intros; by apply stop_goes].
    clear Hr. intros c t3 l3 -> Hr _ _. destruct (negb (byte_of c =? $"u")) eqn:E2; [by apply stop_goes|].
    apply negb_false_iff, Z.eqb_eq, byte_of_inj in E2 as ->.
    wp_step. eapply codepoint_sound; [exact Hr|intros; by apply stop_goes|]. clear Hr.
    intros h2 cp2 t4 l4 -> Hh2 Hr Hn2. pose proof (four_hex_range _ _ Hh2).
    rewrite (proj2 (Z.eqb_neq cp2 (-1))) by lia.
    destruct ((0xDC00 <=? cp2) && (cp2 <=? 0xDFFF)) eqn:E3; [|by apply stop_goes]. zify_cmp.
    rewrite Z.shiftl_mul_pow2 by lia. replace (cp1 * 2 ^ 10 + cp2 - 0x35FDC00) with (pair_value cp1 cp2)
      by (unfold pair_value; lia).
    replace (h1 +:+ String "\" (String "u" (h2 +:+ t4))) with ((h1 +:+ String "\" (String "u" h2)) +:+ t4)
      by (by rewrite append_assoc).
    apply codepoint_goes; [unfold scalar_value, pair_value; lia|by apply (char_pair h1 cp1 h2 cp2)|done|done].
  - destruct ((0xDC00 <=? cp1) && (cp1 <=? 0xDFFF)) eqn:E2; [by apply stop_goes|].
    apply andb_false_iff in E1, E2. rewrite !Z.leb_gt in E1, E2.
    apply codepoint_goes; [unfold scalar_value; lia| |done|done].
    apply (char_unicode h1 cp1); [done|unfold is_high; lia|unfold is_low; lia].
Qed.

Lemma escape_sound l t b X : reads l t b → wp scan_escape l (goes "\" t b) X.
Proof.
  intros Hr. unfold scan_escape. wp_step. eapply wp_get_reads; [exact Hr| |].
  2:{ intros l1 -> _ _ _. by apply stop_goes. }
  intros c t1 l1 -> Hr1 _ Hn1.
  assert (Hadd : ∀ cp, simple_escape c = Some cp → utf8_of cp = String (char_of cp) "" →
    wp (add cp ;; ret None) l1 (goes "\" (String c t1) b) X).
  { intros cp He Hu. wp_step. eapply wp_add_reads; [exact Hr1|]. intros l2 Hr2 _ Hn2. wp_step.
    exists (String c ""), (utf8_of cp), t1. rewrite Hu. split_and!; [done| |done|lia].
    rewrite <-Hu. by apply (char_escape c cp). }
  repeat match goal with
  | |- context [if byte_of c =? byte_of ?k then add ?cp ;; _ else _] =>
      destruct (byte_of c =? byte_of k) eqn:?;
      [match goal with E : (byte_of c =? byte_of k) = true |- _ => apply Z.eqb_eq, byte_of_inj in E as -> end;
       by apply Hadd|]
  end.
  destruct (byte_of c =? $"u") eqn:E; [|by apply stop_goes].
  apply Z.eqb_eq, byte_of_inj in E as ->.
  eapply wp_mono; [by apply unicode_escape_sound| |done]. intros [tok|] l2; [done|].
  intros (u & w & t' & -> & Hc & Hr2 & Hn2). by exists (String "u" u), w, t'.
Qed.

(** One turn of [scan_string]: its end, a character, or an error. *)
Definition turn_sound (t b : string) (r : option token_type) (l : lexer) : Prop :=
  goes "" t b r l ∨ (r = Some value_string ∧ ∃ t', t = String dquote t' ∧ reads l t' b ∧ 0 < chars_read l).

Lemma string_step_sound l t b X : reads l t b → wp scan_string_step l (turn_sound t b) X.
Proof.
  intros Hr. assert (Hgoes : ∀ m l, wp m l (goes "" t b) X → wp m l (turn_sound t b) X).
  { intros m l1 Hm. eapply wp_mono; [exact Hm| |done]. intros r l2 ?. by left. }
  unfold scan_string_step. wp_step. eapply wp_get_reads; [exact Hr| |].
  2:{ intros l1 -> _ _ _. rewrite Z.eqb_refl. apply Hgoes, stop_goes. }
  intros c t1 l1 -> Hr1 Hf1 Hn1. rewrite (proj2 (Z.eqb_neq _ eof)) by apply byte_of_not_eof.
  destruct (byte_of c =? byte_of dquote) eqn:Eq.
  { apply Z.eqb_eq, byte_of_inj in Eq as ->. wp_step. right. split; [done|]. by exists t1. }
  destruct (byte_of c =? $"\") eqn:Eb.
  { apply Hgoes. apply Z.eqb_eq, byte_of_inj in Eb as ->.
    eapply wp_mono; [by apply escape_sound| |done]. intros [tok|] l2; [done|].
    intros (u & w & t' & -> & Hc & Hr2 & Hn2). by exists (String "\" u), w, t'. }
  apply Hgoes. destruct (is_control (byte_of c)) eqn:Ec; [by apply stop_goes|].
  destruct (is_plain_ascii (byte_of c)) eqn:Ep.
  { wp_step. eapply wp_add_current_reads; [exact Hr1|exact Hf1|]. intros l2 Hr2 Hn2. wp_step.
    assert (Hu : utf8_of (byte_of c) = String c "" ∧ char_text (utf8_of (byte_of c)) (utf8_of (byte_of c))).
    { unfold is_plain_ascii in Ep. rewrite !andb_true_iff, !negb_true_iff in Ep.
      destruct Ep as [[[??]?]?]. zify_cmp. split.
      - unfold utf8_of, encode. rewrite (proj2 (Z.ltb_lt _ 0x80)) by lia. cbn [string_of]. by rewrite char_of_byte_of.
      - apply char_unescaped; [unfold scalar_value; lia|lia|lia|lia]. }
    destruct Hu as [Hu Hc]. rewrite Hu in Hc. exists (String c ""), (String c ""), t1.
    split_and!; [done|exact Hc|done|lia]. }
  destruct (lead_ranges (byte_of c)) as [ranges|] eqn:Er; [|by apply stop_goes].
  unfold next_byte_in_range. do 2 wp_step. eapply wp_add_current_reads; [exact Hr1|exact Hf1|]. intros l2 Hr2 Hn2.
  assert (Hlo : Forall (λ r, 0 ≤ r.1) ranges).
  { unfold lead_ranges in Er. repeat case_match; simplify_eq; repeat constructor; done. }
  eapply wp_mono; [by eapply bytes_in_range_sound| |done]. intros [] l3 H3; [|by wp_step].
  destruct (H3 eq_refl) as (seg & t' & -> & Hseg & Hr3 & Hn3). wp_step.
  destruct (lead_encode _ _ _ Er Hseg) as (cp & Hcp & Hge & He).
  assert (Hu : utf8_of cp = String c seg).
  { unfold utf8_of. rewrite <-He. cbn [string_of]. by rewrite char_of_byte_of, string_of_bytes_of. }
  exists (String c seg), (String c seg), t'. rewrite append_assoc in Hr3. split_and!; [done| |done|apply Hn3; lia].
  rewrite <-Hu. apply char_unescaped; [done|lia|lia|lia].
Qed.

Lemma string_loop_sound fuel l t b X :
  reads l t b → (String.length t < fuel)%nat →
  wp (scan_string_loop fuel) l (λ tok l', tok = tok_parse_error ∨ (tok = value_string
    ∧ ∃ body s t', t = body +:+ String dquote t' ∧ chars_text body s ∧ reads l' t' (b +:+ s) ∧ 0 < chars_read l')) X.
Proof.
  revert l t b. induction fuel as [|fuel IH]; intros l t b Hr Hf; [lia|]. cbn [scan_string_loop]. wp_step.
  eapply wp_mono; [by apply string_step_sound| |done].
  intros r l1 [Hg|(-> & t' & -> & Hr1 & Hn1)].
  - destruct r as [tok|]; [wp_step; by left|]. destruct Hg as (u & w & t' & -> & Hc & Hr1 & Hn1).
    cbn [String.append] in Hc. rewrite length_append in Hf. pose proof (length_nonempty _ (char_text_nonempty _ _ Hc)).
    eapply wp_mono; [eapply IH; [exact Hr1|lia]| |done]. intros tok l2 [->|(-> & body & s & t2 & -> & Hb & Hr2 & Hn2)]; [by left|].
    right. split; [done|]. exists (u +:+ body), (w +:+ s), t2. rewrite append_assoc in Hr2 |- *.
    split_and!; [done|by constructor|done|done].
  - wp_step. right. split; [done|]. exists "", "", t'. rewrite append_nil_r. split_and!; [done|constructor|done|done].
Qed.

(** ** Numbers *)

Lemma done_final st c : scan_number_action st c = done_number → final_state st = true.
Proof.
  destruct st; cbn [scan_number_action scan_number_integral scan_number_fraction]; repeat case_match; done.
Qed.

Lemma action_eof st st' : scan_number_action st eof ≠ goto st'.
Proof. destruct st; vm_compute; discriminate. Qed.

Lemma number_loop_sound fuel st nt l t b X :
  reads l t b → 0 < chars_read l → (String.length t < fuel)%nat →
  wp (scan_number_loop fuel st nt) l (λ r l', ∀ nt', r = Some nt' →
    ∃ s t' st' nt0, t = s +:+ t' ∧ number_run st nt s = Some (st', nt0) ∧ final_state st' = true
      ∧ nt' = enter_state st' nt0 ∧ reads (unget l').2 t' (b +:+ s) ∧ 0 < chars_read (unget l').2) X.
Proof.
  revert st nt l t b. induction fuel as [|fuel IH]; intros st nt l t b Hr Hn Hf; [lia|].
  cbn [scan_number_loop]. wp_step.
  assert (Hpeek : (∀ a t', t = String a t' → ∀ st', scan_number_action st (byte_of a) ≠ goto st') →
    wp get l (λ c l1, wp (match scan_number_action st c with
      | goto st' => add c ;; scan_number_loop fuel st' (enter_state st nt)
      | done_number => ret (Some (enter_state st nt))
      | error_number msg => fail msg ;; ret None
      end) l1 (λ r l', ∀ nt', r = Some nt' → ∃ s t' st' nt0, t = s +:+ t'
        ∧ number_run st nt s = Some (st', nt0) ∧ final_state st' = true ∧ nt' = enter_state st' nt0
        ∧ reads (unget l').2 t' (b +:+ s) ∧ 0 < chars_read (unget l').2) X) X).
  { intros Hno. eapply wp_peek; [exact Hr|done|]. intros c l' Hc Hb Hr' Hn'.
    destruct (scan_number_action st c) as [st'| |msg] eqn:Ea.
    - exfalso. destruct Hc as [[_ ->]|(a & t' & Et & ->)]; [by eapply action_eof|by eapply Hno].
    - wp_step. intros nt' [= <-]. exists "", t, st, nt. rewrite append_nil_r.
      split_and!; [done|done|by eapply done_final|done|done|done].
    - wp_step. unfold fail. by do 4 wp_step. }
  destruct t as [|a t']; [by apply Hpeek|].
  destruct (scan_number_action st (byte_of a)) as [st'| |msg] eqn:Ea.
  2,3: apply Hpeek; intros a' t2 [= <- <-]; congruence.
  clear Hpeek. eapply wp_get_cons; [exact Hr|]. intros l1 Hr1 _ Hn1. rewrite Ea. wp_step.
  eapply wp_add_reads; [exact Hr1|]. intros l2 Hr2 _ Hn2. rewrite char_of_byte_of in Hr2. simpl in Hf.
  eapply wp_mono; [eapply IH; [exact Hr2|lia|lia]| |done].
  intros r l3 H3 nt' E. destruct (H3 nt' E) as (s & t2 & st2 & nt0 & -> & Hrun & Hfin & Hnt & Hr3 & Hn3).
  rewrite append_assoc in Hr3. exists (String a s), t2, st2, nt0. cbn [number_run]. rewrite Ea. by split_and!.
Qed.

Lemma scan_number_sound c l t b X :
  c = "-"%char ∨ is_digit (byte_of c) = true → reads l t b → fresh l (byte_of c) → 0 < chars_read l →
  wp scan_number l (λ tok l', tok = tok_parse_error ∨
    ∃ ds t' v, t = ds +:+ t' ∧ number_text (String c ds) v ∧ token_is v tok l' ∧ stands l' t') X.
Proof.
  intros Hc Hr Hf Hn. eapply wp_scan_number_start; [exact Hr|exact Hf|done|].
  clear Hr Hf Hn. intros l1 Hr Hn. wp_step.
  eapply wp_mono; [eapply number_loop_sound; [exact Hr|done|lia]| |done].
  intros [nt'|] l2 H2; [|wp_step; by left].
  destruct (H2 nt' eq_refl) as (s & t' & st' & nt0 & -> & Hrun & Hfin & -> & Hr2 & Hn2).
  eapply wp_mono; [by eapply wp_number_done| |done]. intros tok l3 [Htok Hst]. right.
  exists s, t', (number_value (enter_state st' nt0) (String c s)). split_and!; [done| |done|done].
  apply accepted_number_text. by econstructor.
Qed.

(** ** Tokens *)

Lemma scan_literal_sound rest tok l t b X :
  reads l t b → 0 < chars_read l →
  wp (scan_literal rest tok) l (λ tok' l', tok' = tok_parse_error ∨
    (tok' = tok ∧ ∃ t', t = rest +:+ t' ∧ stands l' t')) X.
Proof.
  revert l t. induction rest as [|c rest IH]; intros l t Hr Hn; cbn [scan_literal]; wp_step.
  { right. split; [done|]. exists t. split; [done|]. split; [by exists b|done]. }
  eapply wp_get_reads; [exact Hr| |].
  - intros a t' l1 -> Hr1 _ Hn1. destruct (byte_of a =? byte_of c) eqn:E; cbn [negb].
    + apply Z.eqb_eq, byte_of_inj in E as ->. eapply wp_mono; [by eapply IH| |done].
      intros tok' l2 [->|(-> & t2 & -> & Hst)]; [by left|right]. split; [done|]. by exists t2.
    + unfold fail. do 3 wp_step. by left.
  - intros l1 -> _ _ _. rewrite (proj2 (Z.eqb_neq eof _)) by (symmetry; apply byte_of_not_eof).
    cbn [negb]. unfold fail. do 3 wp_step. by left.
Qed.

(** A token and its text. *)
Inductive token_text : string → token_type → lexer → Prop :=
| token_punctuation c tok l : punctuation c = Some tok → token_text (String c "") tok l
| token_scalar txt v tok l : scalar_text txt v → token_is v tok l → token_text txt tok l.

(** What [scan] returns in front of the text [t]. *)
Inductive scan_sound (t : string) : token_type → lexer → Prop :=
| scan_error l : scan_sound t tok_parse_error l
| scan_end ws r l : t = ws +:+ r → all_space ws = true → ends_text r → scan_sound t end_of_input l
| scan_text ws txt t' tok l :
    t = ws +:+ txt +:+ t' → all_space ws = true → token_text txt tok l → stands l t' → scan_sound t tok l.

Lemma scan_token_sound c l t b X :
  reads l t b → fresh l (byte_of c) → 0 < chars_read l → is_space (byte_of c) = false →
  wp (scan_token (byte_of c)) l (scan_sound (String c t)) X.
Proof.
  intros Hr Hf Hn Hsp.
  assert (Hst : stands l t) by (split; [by exists b|done]).
  assert (Hpunct : ∀ tok, punctuation c = Some tok → scan_sound (String c t) tok l).
  { intros tok Hp. apply (scan_text _ "" (String c "") t); [done|done|by constructor|done]. }
  assert (Hlit : ∀ rest tok v, scalar_text (String c rest) v → (∀ l', token_is v tok l') →
    wp (scan_literal rest tok) l (scan_sound (String c t)) X).
  { intros rest tok v Hs Htok. eapply wp_mono; [by eapply scan_literal_sound| |done].
    intros tok' l' [->|(-> & t' & -> & Hst')]; [constructor|].
    apply (scan_text _ "" (String c rest) t'); [done|done|by eapply token_scalar|done]. }
  unfold scan_token.
  repeat match goal with
  | |- context [if byte_of c =? byte_of ?k then _ else _] =>
      destruct (byte_of c =? byte_of k) eqn:?;
      [match goal with E : (byte_of c =? byte_of k) = true |- _ => apply Z.eqb_eq, byte_of_inj in E as -> end;
       first [wp_step; by apply Hpunct
             | eapply Hlit; [by constructor|done]
             | idtac]|]
  end.
  - unfold scan_string, reset. do 4 wp_step. pose proof (reset_reads l _ _ Hr) as Hr'.
    rewrite (reads_left _ _ _ Hr'). eapply wp_mono; [eapply string_loop_sound; [exact Hr'|lia]| |done].
    intros tok l' [->|(-> & body & s & t' & -> & Hb & Hr2 & Hn2)]; [constructor|].
    apply (scan_text _ "" (String dquote (body +:+ String dquote "")) t').
    + cbn [String.append]. by rewrite append_assoc.
    + done.
    + apply (token_scalar _ (jstring s)); [by do 2 constructor|]. split; [done|by destruct Hr2].
    + split; [by eexists|done].
  - destruct ((byte_of c =? $"-") || is_digit (byte_of c)) eqn:Enum.
    { assert (Hc : c = "-"%char ∨ is_digit (byte_of c) = true).
      { apply orb_true_iff in Enum as [E|E]; [left; by apply byte_of_inj, Z.eqb_eq|by right]. }
      eapply wp_mono; [by eapply scan_number_sound| |done].
      intros tok l' [->|(ds & t' & v & -> & Hnum & Htok & Hst')]; [constructor|].
      apply (scan_text _ "" (String c ds) t'); [done|done| |done].
      apply (token_scalar _ v); [by constructor|done]. }
    destruct ((byte_of c =? 0) || (byte_of c =? eof)) eqn:E0.
    + apply orb_true_iff in E0 as [E0|E0].
      2:{ apply Z.eqb_eq in E0. by apply byte_of_not_eof in E0. }
      change 0 with (byte_of "000") in E0. apply Z.eqb_eq, byte_of_inj in E0 as ->. wp_step.
      apply (scan_end _ "" (String "000" t)); [done|done|right; by exists t].
    + unfold fail. do 3 wp_step. constructor.
Qed.

Lemma skip_whitespace_sound fuel l t b (Q : Z → lexer → Prop) X :
  reads l t b → (String.length t < fuel)%nat →
  (∀ ws c t' l', t = ws +:+ String c t' → all_space ws = true → is_space (byte_of c) = false →
     reads l' t' b → fresh l' (byte_of c) → 0 < chars_read l' → Q (byte_of c) l') →
  (∀ l', all_space t = true → Q eof l') →
  wp (skip_whitespace fuel) l Q X.
Proof.
  revert l t Q. induction fuel as [|fuel IH]; intros l t Q Hr Hf HQ Hend; [lia|]. cbn [skip_whitespace]. wp_step.
  eapply wp_get_reads; [exact Hr| |].
  - intros c t' l1 -> Hr1 Hf1 Hn1. destruct (is_space (byte_of c)) eqn:Es.
    + simpl in Hf. eapply IH; [exact Hr1|lia| |].
      * intros ws c2 t2 l2 -> Hws. apply HQ with (ws := String c ws); [done|]. cbn [all_space]. by rewrite Es.
      * intros l2 Hsp. apply Hend. cbn [all_space]. by rewrite Es.
    + wp_step. by apply HQ with "" t'.
  - intros l1 -> _ _ _. change (is_space eof) with false. cbv iota. wp_step. by apply Hend.
Qed.

Lemma wp_scan_sound l t X : starts l t → wp scan l (scan_sound t) X.
Proof.
  intros Hst. eapply wp_scan_rest; [exact Hst|]. intros l1 b Hr. unfold scan_rest. do 3 wp_step.
  rewrite (reads_left _ _ _ Hr). eapply skip_whitespace_sound; [exact Hr|lia| |].
  - intros ws c t' l2 -> Hws Hsp Hr2 Hf2 Hn2. eapply wp_mono; [by eapply scan_token_sound| |done].
    intros tok l3 [l4|ws' r l4 E Hws' Hend|ws' txt t2 tok' l4 E Hws' Htxt Hst'].
    + constructor.
    + apply (scan_end _ (ws +:+ ws') r); [by rewrite append_assoc, E|by apply all_space_app|done].
    + apply (scan_text _ (ws +:+ ws') txt t2); [by rewrite append_assoc, E|by apply all_space_app|done|done].
  - intros l2 Hsp. change (scan_token eof) with (ret end_of_input : M exn lexer token_type). wp_step.
    apply (scan_end _ t ""); [by rewrite append_nil_r|done|by left].
Qed.

(** A byte order mark is complete or an error. *)
Lemma bad_mark t1 X :
  (∃ t, t1 = string_of [0xBB; 0xBF] +:+ t)
  ∨ wp scan (lexer_init (String (char_of 0xEF) t1)) (λ tok _, tok = tok_parse_error) X.
Proof.
  destruct (decide (starts_with (string_of [0xBB; 0xBF]) t1 = true)) as [Hm|Hm].
  { left. destruct t1 as [|c2 [|c3 t3]]; [done|by apply andb_true_iff in Hm as [_ ?]|].
    cbn [string_of starts_with] in Hm. apply andb_true_iff in Hm as [H2 [H3 _]%andb_true_iff].
    apply Ascii.eqb_eq in H2 as <-, H3 as <-. by exists t3. }
  right. unfold scan. do 2 wp_step. cbn [chars_read lexer_init Z.eqb]. unfold skip_bom. do 2 wp_step.
  assert (Hbad : ∀ l, wp (if negb false then fail "invalid BOM; must be 0xEF 0xBB 0xBF if given" else scan_rest) l
    (λ tok _, tok = tok_parse_error) X) by (intros l; unfold fail; cbn [negb]; by do 3 wp_step).
  eapply wp_get_cons; [apply lexer_init_reads|]. intros l1 Hr _ _. eval_char.
  wp_step. eapply wp_get_reads; [exact Hr| |intros; change (eof =? 0xBB) with false; cbn [negb]; wp_step; apply Hbad].
  clear Hr. intros c2 t2 l2 -> Hr _ _. destruct (byte_of c2 =? 0xBB) eqn:E2; cbn [negb]; [|wp_step; apply Hbad].
  wp_step. eapply wp_get_reads; [exact Hr| |intros; change (eof =? 0xBF) with false; cbn [negb]; wp_step; apply Hbad].
  clear Hr. intros c3 t3 l3 -> Hr _ _. destruct (byte_of c3 =? 0xBF) eqn:E3; cbn [negb]; [|wp_step; apply Hbad].
  exfalso. apply Hm. change 0xBB with (byte_of (char_of 0xBB)) in E2. change 0xBF with (byte_of (char_of 0xBF)) in E3.
  apply Z.eqb_eq, byte_of_inj in E2 as ->. apply Z.eqb_eq, byte_of_inj in E3 as ->.
  cbn [string_of starts_with]. by rewrite !Ascii.eqb_refl.
Qed.

(** The first scan of an input, past its byte order mark. *)
Lemma wp_scan_init_sound input X :
  wp scan (lexer_init input) (λ tok l, tok = tok_parse_error ∨
    ∃ bom t, input = bom +:+ t ∧ (bom = "" ∨ bom = byte_order_mark) ∧ scan_sound t tok l) X.
Proof.
  destruct (marked input) eqn:Em.
  2:{ eapply wp_mono; [apply wp_scan_sound, starts_input; done| |done].
      intros tok l H. right. exists "", input. auto. }
  destruct input as [|c t1]; [done|]. cbn [marked] in Em.
  change 0xEF with (byte_of (char_of 0xEF)) in Em. apply Z.eqb_eq, byte_of_inj in Em as ->.
  destruct (bad_mark t1 X) as [[t ->]|Hrun].
  - eapply wp_mono; [apply wp_scan_sound, (starts_mark t)| |done].
    intros tok l H. right. exists byte_order_mark, t. auto.
  - eapply wp_mono; [exact Hrun| |done]. intros tok l ->. by left.
Qed.
