(* ===== verification/JsonSax.v ===== *)
(** * The handler that builds values (json.hpp, [json_sax_dom_parser])

    What the text parser and the binary reader report to: values and the
    beginning and the end of containers.  The handler's [ref_stack] of
    pointers into the value under construction is a stack of unfinished
    containers: a container is delivered to its parent when it is closed, and
    a pointer is never used after that. *)

From stdpp Require Import base gmap strings list.
From Stdlib Require Import ZArith Ascii Lia.
From S2P Require Import Prelude Cxx StdMap JsonValue.

(** An unfinished container; an object remembers the key of the member that
    the next value fills ([object_element]). *)
Inductive frame : Type :=
| Farray (items : list json)
| Fobject (m : std_map json) (object_element : option string).

(** The handler beside what drives it: the last unit read (a token of the text
    parser, a byte of the binary reader) and what it was read from. *)
Record sax_state (T L : Type) : Type := Dom {
  last_token : T;
  m_lexer : L;
  root : json;
  ref_stack : list frame;
}.
Arguments Dom {T L} last_token m_lexer root ref_stack.
Arguments last_token {T L} s.
Arguments m_lexer {T L} s.
Arguments root {T L} s.
Arguments ref_stack {T L} s.

Section handler.
Context {T L : Type}.

Definition with_sax (r : json) (st : list frame) (p : sax_state T L) : sax_state T L :=
  Dom (last_token p) (m_lexer p) r st.

Definition handle_value (v : json) : M exn (sax_state T L) unit := λ p,
  match ref_stack p with
  | [] => (Ok tt, with_sax v [] p)
  | Farray items :: st => (Ok tt, with_sax (root p) (Farray (items ++ [v]) :: st) p)
  | Fobject m (Some k) :: st =>
      (Ok tt, with_sax (root p) (Fobject (map_put k v m) (Some k) :: st) p)
  | Fobject m None :: st => (Undefined, p)
  end.

(** [start_object] and [start_array] without a length ([no_limit]). *)
Definition sax_start_object : M exn (sax_state T L) unit :=
  modify (λ p, with_sax (root p) (Fobject [] None :: ref_stack p) p).

(** [key]: the member is created with a null value. *)
Definition sax_key (k : string) : M exn (sax_state T L) unit := λ p,
  match ref_stack p with
  | Fobject m _ :: st =>
      let m := if map_mem k m then m else map_put k jnull m in
      (Ok tt, with_sax (root p) (Fobject m (Some k) :: st) p)
  | _ => (Undefined, p)
  end.

Definition sax_end_object : M exn (sax_state T L) unit := λ p,
  match ref_stack p with
  | Fobject m _ :: st => handle_value (jobject m) (with_sax (root p) st p)
  | _ => (Undefined, p)
  end.

Definition sax_start_array : M exn (sax_state T L) unit :=
  modify (λ p, with_sax (root p) (Farray [] :: ref_stack p) p).

Definition sax_end_array : M exn (sax_state T L) unit := λ p,
  match ref_stack p with
  | Farray items :: st => handle_value (jarray items) (with_sax (root p) st p)
  | _ => (Undefined, p)
  end.

(** [sax->parse_error] throws the exception it is given. *)
Definition sax_parse_error {A} (ex : exn) : M exn (sax_state T L) A := throw ex.

(** ** Where a value goes *)

(** Where [handle_value] puts a complete value. *)
Definition deliver (v r : json) (st : list frame) : json * list frame :=
  match st with
  | [] => (v, [])
  | Farray items :: st => (r, Farray (items ++ [v]) :: st)
  | Fobject m (Some k) :: st => (r, Fobject (map_put k v m) (Some k) :: st)
  | Fobject m None :: st => (r, Fobject m None :: st)
  end.

Definition receives (st : list frame) : Prop :=
  match st with Fobject _ None :: _ => False | _ => True end.

Lemma handle_value_deliver v (p : sax_state T L) :
  receives (ref_stack p) →
  handle_value v p
  = (Ok tt, with_sax (deliver v (root p) (ref_stack p)).1 (deliver v (root p) (ref_stack p)).2 p).
Proof. unfold handle_value. destruct (ref_stack p) as [|[items|m [k|]] st]; simpl; done. Qed.
End handler.

(** [key] followed by [handle_value] is one insertion. *)
Lemma member_put (seen : std_map json) k v :
  map_wf seen → map_put k v (if map_mem k seen then seen else map_put k jnull seen) = map_put k v seen.
Proof. intros Hwf. case_match; [done|]. by apply map_put_put. Qed.
