(* ===== verification/JsonParser.v ===== *)
(** * Parsing (json.hpp, [class parser])

    The loop of [sax_parse_internal] with its stack of states, driving the
    SAX handler of [JsonSax] that builds the value. *)

From stdpp Require Import base gmap strings list.
From Stdlib Require Import ZArith Ascii Lia.
From S2P Require Import Prelude Cxx StdMap JsonValue JsonSax Utf8 JsonLexer.

(** The parser: the last token and the lexer drive the handler. *)
Abbreviation parser := (sax_state token_type lexer).
Local Abbreviation Parser := (Dom (T := token_type) (L := lexer)).

Definition parser_init (input : string) : parser :=
  Parser uninitialized (lexer_init input) jnull [].

(** ** The parser *)

Definition get_token : M exn parser token_type :=
  t <- zoom m_lexer (λ l p, Parser (last_token p) l (root p) (ref_stack p)) scan ;;
  modify (λ p, Parser t (m_lexer p) (root p) (ref_stack p)) ;;
  ret t.

Definition exception_message (last_token : token_type) (m_lexer : lexer) (expected : token_type) : string :=
  "syntax error - " +:+
  (if decide (last_token = tok_parse_error) then
     error_message m_lexer +:+ "; last read: '" +:+
     get_token_string (token_string m_lexer) +:+ "'"
   else "unexpected " +:+ token_type_name last_token) +:+
  (if decide (expected ≠ uninitialized) then "; expected " +:+ token_type_name expected else "").

Definition syntax_error {A} (expected : token_type) : M exn parser A :=
  p <- get_state ;;
  sax_parse_error (parse_error_create 101 (get_position (m_lexer p)) (exception_message (last_token p) (m_lexer p) expected)).

(** A key and the name separator, the key token having been read. *)
Definition parse_key : M exn parser unit :=
  p <- get_state ;;
  if decide (last_token p ≠ value_string) then syntax_error value_string else
  sax_key (token_buffer (m_lexer p)) ;;
  t <- get_token ;;
  if decide (t ≠ name_separator) then syntax_error name_separator else ret tt.

(** The [switch] on [last_token]: [Some states] continues the loop there,
    [None] goes on to the evaluation of the state. *)
Definition parse_value (states : list bool) : M exn parser (option (list bool)) :=
  p <- get_state ;;
  match last_token p with
  | begin_object =>
      sax_start_object ;;
      t <- get_token ;;
      if decide (t = end_object) then sax_end_object ;; ret None else
      parse_key ;;
      get_token ;;
      ret (Some (false :: states))
  | begin_array =>
      sax_start_array ;;
      t <- get_token ;;
      if decide (t = end_array) then sax_end_array ;; ret None else
      ret (Some (true :: states))
  | value_float =>
      let res := lx_float (m_lexer p) in
      if negb (isfinite res) then
        sax_parse_error (exception_create out_of_range 406
          ("number overflow parsing '" +:+ get_token_string (token_string (m_lexer p)) +:+ "'"))
      else handle_value (jnumber_float res) ;; ret None
  | literal_false => handle_value (jboolean false) ;; ret None
  | literal_null => handle_value jnull ;; ret None
  | literal_true => handle_value (jboolean true) ;; ret None
  | value_integer => handle_value (jnumber_integer (lx_integer (m_lexer p))) ;; ret None
  | value_string => handle_value (jstring (token_buffer (m_lexer p))) ;; ret None
  | value_unsigned => handle_value (jnumber_unsigned (lx_unsigned (m_lexer p))) ;; ret None
  | tok_parse_error => syntax_error uninitialized
  | _ => syntax_error literal_or_value
  end.

(** What follows a complete value: [None] ends the loop, [Some (states, skip)]
    continues it. *)
Definition evaluate_state (states : list bool) : M exn parser (option (list bool * bool)) :=
  match states with
  | [] => ret None
  | true :: rest =>
      t <- get_token ;;
      if decide (t = value_separator) then get_token ;; ret (Some (states, false))
      else if decide (t = end_array) then sax_end_array ;; ret (Some (rest, true))
      else syntax_error end_array
  | false :: rest =>
      t <- get_token ;;
      if decide (t = value_separator) then
        get_token ;; parse_key ;; get_token ;; ret (Some (states, false))
      else if decide (t = end_object) then sax_end_object ;; ret (Some (rest, true))
      else syntax_error end_object
  end.

Fixpoint sax_parse_internal (fuel : nat) (states : list bool) (skip : bool)
    : M exn parser bool :=
  match fuel with
  | O => out_of_fuel
  | S fuel =>
      r <- (if skip then ret None else parse_value states) ;;
      match r with
      | Some states => sax_parse_internal fuel states false
      | None =>
          r <- evaluate_state states ;;
          match r with
          | None => ret true
          | Some (states, skip) => sax_parse_internal fuel states skip
          end
      end
  end.

(** One turn of the loop per token is enough. *)
Definition parse_fuel (input : string) : nat := S (S (String.length input)).

(** [parser(adapter).parse(true, result)]. *)
Definition parse_strict (fuel : nat) : M exn parser json :=
  get_token ;;
  sax_parse_internal fuel [] false ;;
  t <- get_token ;;
  if decide (t ≠ end_of_input) then syntax_error end_of_input
  else gets root.

(** [json::parse(input)]. *)
Definition json_parse (input : string) : outcome exn json :=
  (parse_strict (parse_fuel input) (parser_init input)).1.

Example parse_sample :
  json_parse (quoted "{|user_id|: |user01|, |n| : [1, -2, true, {}], |n|: null}")
  = Ok (jobject [("n", jnull); ("user_id", jstring "user01")]).
Proof. vm_compute. reflexivity. Qed.

Example parse_bad :
  json_parse (quoted "{|user_id| |x|}")
  = Throw (json_exception parse_error 101
      "[json.exception.parse_error.101] parse error at 14: syntax error - unexpected string literal; expected ':'").
Proof. vm_compute. reflexivity. Qed.
