(* ===== verification/JsonParserSpec.v ===== *)
(** * Properties of the parser

    Parsing terminates on every input, never uses a stale container, throws
    only [parse_error] and [out_of_range], and yields values whose objects are
    ordered maps and whose strings are well-formed UTF-8. *)

From stdpp Require Import base gmap strings list.
From Stdlib Require Import ZArith Ascii Lia.
From S2P Require Import Prelude Cxx StdMap JsonValue Utf8 JsonLexer JsonLexerSpec JsonSax JsonParser.

(** ** Values the parser builds *)

Unset Elimination Schemes.
Inductive parsed : json → Prop :=
| parsed_null : parsed jnull
| parsed_object m :
    map_wf m → Forall (λ kv, utf8_string kv.1 = true ∧ parsed kv.2) m → parsed (jobject m)
| parsed_array l : Forall parsed l → parsed (jarray l)
| parsed_string s : utf8_string s = true → parsed (jstring s)
| parsed_boolean b : parsed (jboolean b)
| parsed_integer z : - 2 ^ 63 ≤ z ≤ 0 → parsed (jnumber_integer z)
| parsed_unsigned z : 0 ≤ z < 2 ^ 64 → parsed (jnumber_unsigned z)
| parsed_float d : valid_double d = true → isfinite d = true → parsed (jnumber_float d).
Set Elimination Schemes.

Definition members_ok (m : std_map json) : Prop :=
  map_wf m ∧ Forall (λ kv, utf8_string kv.1 = true ∧ parsed kv.2) m.

Lemma members_ok_nil : members_ok [].
Proof. split; constructor. Qed.

Lemma members_ok_put k v m :
  utf8_string k = true → parsed v → members_ok m → members_ok (map_put k v m).
Proof.
  intros Hk Hv [Hwf Hall]. split; [by apply map_put_wf|].
  clear Hwf. induction Hall as [|[k' v'] m [? ?] Hall IH]; simpl; [by repeat constructor|].
  destruct (String.compare k k'); constructor; auto.
Qed.

(** ** The stack *)

Definition frame_ok (is_array : bool) (f : frame) : Prop :=
  match is_array, f with
  | true, Farray items => Forall parsed items
  | false, Fobject m (Some k) => members_ok m ∧ utf8_string k = true
  | _, _ => False
  end.

(** The parser's [states] mirror the handler's [ref_stack]. *)
Definition stack_ok (states : list bool) (p : parser) : Prop :=
  Forall2 frame_ok states (ref_stack p) ∧ parsed (root p).

Lemma wp_handle_value v states p (Q : unit → parser → Prop) X :
  stack_ok states p → parsed v →
  (∀ p', stack_ok states p' → last_token p' = last_token p → m_lexer p' = m_lexer p → Q tt p') →
  wp (handle_value v) p Q X.
Proof.
  intros [Hst Hroot] Hv HQ. unfold wp, handle_value.
  destruct (ref_stack p) as [|f st] eqn:E.
  { inversion Hst; subst. apply HQ; [|done|done]. by split; [constructor|]. }
  inversion Hst as [|b f' bs st' Hf Hst']; subst.
  destruct b, f as [items|m [k|]]; simpl in Hf; try done; apply HQ; try done;
    split; simpl; try done; constructor; try done; simpl.
  - apply Forall_app. split; [done|]. by repeat constructor.
  - destruct Hf. split; [by apply members_ok_put|done].
Qed.

(** Closing a container delivers it to the container below. *)
Lemma wp_sax_end_array states p (Q : unit → parser → Prop) X :
  stack_ok (true :: states) p →
  (∀ p', stack_ok states p' → last_token p' = last_token p → m_lexer p' = m_lexer p → Q tt p') →
  wp sax_end_array p Q X.
Proof.
  intros [Hst Hroot] HQ. inversion Hst as [|b f bs st Hf Hst' E1 E2]; subst.
  destruct f as [items|]; simpl in Hf; [|done].
  unfold wp, sax_end_array. rewrite <-E2.
  apply (wp_handle_value (jarray items) states); [by split|by constructor|].
  intros p' ? Hl Hm. by apply HQ.
Qed.

Lemma wp_sax_end_object m k states p (Q : unit → parser → Prop) X :
  ∀ st, ref_stack p = Fobject m k :: st → members_ok m → Forall2 frame_ok states st →
  parsed (root p) →
  (∀ p', stack_ok states p' → last_token p' = last_token p → m_lexer p' = m_lexer p → Q tt p') →
  wp sax_end_object p Q X.
Proof.
  intros st E Hm Hst Hroot HQ. unfold wp, sax_end_object. rewrite E.
  destruct Hm. apply (wp_handle_value (jobject m) states); [by split|by constructor|].
  intros p' ? Hl Hlex. by apply HQ.
Qed.

(** ** Tokens and the measure of the loop *)

Definition tok_ok (p : parser) : Prop := token_ok (last_token p) (m_lexer p).

(** Characters left, plus one until the end of the input has been seen. *)
Definition measure (p : parser) : nat :=
  left_to_read (m_lexer p) + (if decide (last_token p = end_of_input) then 0 else 1).

Lemma wp_get_token p (Q : token_type → parser → Prop) X :
  (∀ p', tok_ok p' → ref_stack p' = ref_stack p → root p' = root p →
     (measure p' ≤ measure p)%nat →
     (last_token p ≠ end_of_input → (measure p' < measure p)%nat) →
     Q (last_token p') p') →
  wp get_token p Q X.
Proof.
  intros HQ. unfold get_token. wp_step. wp_step.
  eapply wp_mono; [apply wp_scan| |intros ?? H; exact H].
  intros t l (H1 & H2 & H3). wp_step. wp_step. wp_step.
  match goal with |- Q t ?p' => apply (HQ p') end; try done.
  - unfold measure. simpl. repeat case_decide; [lia|lia|specialize (H2 ltac:(done)); lia|lia].
  - intros Hne. unfold measure. simpl. rewrite (decide_False (P:=last_token p = _)) by done.
    case_decide; [lia|specialize (H2 ltac:(done)); lia].
Qed.

(** The exceptions of the parser. *)
Definition parser_exn (e : exn) : Prop :=
  ∃ k id msg, e = json_exception k id msg ∧ (k = parse_error ∨ k = out_of_range).

Definition X0 (e : exn) (p : parser) : Prop := parser_exn e.

Lemma wp_syntax_error {A} t p (Q : A → parser → Prop) : wp (syntax_error t) p Q X0.
Proof. unfold syntax_error, sax_parse_error. do 3 wp_step. eexists _, _, _. eauto. Qed.

(** [open_ok states p]: the parser is inside an object whose next key is being
    read. *)
Definition open_ok (states : list bool) (p : parser) : Prop :=
  (∃ m k st, ref_stack p = Fobject m k :: st ∧ members_ok m ∧ Forall2 frame_ok states st)
  ∧ parsed (root p).

Lemma wp_parse_key states p :
  open_ok states p → tok_ok p →
  wp parse_key p (λ _ p', stack_ok (false :: states) p' ∧ last_token p' = name_separator
    ∧ (measure p' ≤ measure p)%nat) X0.
Proof.
  intros [(m & k & st & E & Hm & Hst) Hroot] Htok. unfold parse_key. do 2 wp_step.
  case_decide as Ht; [apply wp_syntax_error|].
  assert (Hv : last_token p = value_string).
  { destruct (decide (last_token p = value_string)); done. }
  unfold tok_ok in Htok. rewrite Hv in Htok. wp_step.
  apply (wp_run _ _ _ _ tt (with_sax (root p) (Fobject
    (if map_mem (token_buffer (m_lexer p)) m then m
     else map_put (token_buffer (m_lexer p)) jnull m) (Some (token_buffer (m_lexer p))) :: st) p)).
  { unfold sax_key. by rewrite E. }
  wp_step. apply wp_get_token. intros p' Htok' Hst' Hroot' Hle _.
  case_decide as Hn; [apply wp_syntax_error|]. wp_step.
  split_and!; [|by destruct (decide (last_token p' = name_separator))|exact Hle].
  split; [|by rewrite Hroot']. rewrite Hst'. constructor; [|done]. simpl.
  split; [|done]. case_match; [done|]. apply members_ok_put; [done|constructor|done].
Qed.

(** ** One turn of the loop *)

(** Result of the [switch] on the last token. *)
Definition value_post (states : list bool) (p : parser) (r : option (list bool)) (p' : parser) : Prop :=
  match r with
  | Some states' => stack_ok states' p' ∧ tok_ok p' ∧ (measure p' < measure p)%nat
  | None => stack_ok states p' ∧ last_token p' ≠ end_of_input ∧ (measure p' ≤ measure p)%nat
  end.

Lemma wp_scalar states p v :
  stack_ok states p → last_token p ≠ end_of_input → parsed v →
  wp (handle_value v ;; ret None) p (value_post states p) X0.
Proof.
  intros Hst Hne Hv. wp_step. apply (wp_handle_value v states); [done|done|].
  intros p' Hst' Hl Hm. wp_step. split_and!; [done|congruence|].
  unfold measure. by rewrite Hl, Hm.
Qed.

Lemma wp_parse_value states p :
  stack_ok states p → tok_ok p → wp (parse_value states) p (value_post states p) X0.
Proof.
  intros Hst Htok. unfold tok_ok in Htok. unfold parse_value. do 2 wp_step.
  destruct (last_token p) eqn:El; try apply wp_syntax_error;
    try (apply wp_scalar; [done|congruence|by constructor]).
  - destruct (isfinite (lx_float (m_lexer p))) eqn:Ef; simpl.
    + apply wp_scalar; [done|congruence|by constructor].
    + unfold sax_parse_error. wp_step. eexists _, _, _. eauto.
  - wp_step. unfold sax_start_array. do 2 wp_step. apply wp_get_token.
    intros p' Htok' Hst' Hroot' Hle Hlt. simpl in *.
    assert (Hok : stack_ok (true :: states) p').
    { destruct Hst. split; [|by rewrite Hroot']. rewrite Hst'. constructor; [constructor|done]. }
    assert (Hm : (measure p' < measure p)%nat) by (apply Hlt; simpl; congruence).
    case_decide as Ht.
    + wp_step. apply (wp_sax_end_array states); [done|]. intros p2 Hok2 Hl2 Hm2. wp_step.
      split_and!; [done|congruence|]. unfold measure in *. rewrite Hl2, Hm2. lia.
    + wp_step. by split_and!.
  - wp_step. unfold sax_start_object. do 2 wp_step. apply wp_get_token.
    intros p' Htok' Hst' Hroot' Hle Hlt. simpl in *. destruct Hst as [Hst Hroot].
    assert (Hm : (measure p' < measure p)%nat) by (apply Hlt; simpl; congruence).
    case_decide as Ht.
    + wp_step. apply (wp_sax_end_object [] None states _ _ _ (ref_stack p));
        [done|apply members_ok_nil|done|by rewrite Hroot'|].
      intros p2 Hok2 Hl2 Hm2. wp_step. split_and!; [done|congruence|].
      unfold measure in *. rewrite Hl2, Hm2. lia.
    + wp_step. eapply wp_mono; [apply (wp_parse_key states)| |done].
      * split; [|by rewrite Hroot']. exists [], None, (ref_stack p).
        split_and!; [done|apply members_ok_nil|done].
      * done.
      * intros _ p2 (Hok2 & Hl2 & Hm2). wp_step. apply wp_get_token.
        intros p3 Htok3 Hst3 Hroot3 Hle3 _. wp_step. split_and!; [|done|lia].
        destruct Hok2. split; [by rewrite Hst3|by rewrite Hroot3].
Qed.

Definition state_post (p : parser) (r : option (list bool * bool)) (p' : parser) : Prop :=
  match r with
  | Some (states, skip) =>
      stack_ok states p' ∧ tok_ok p' ∧ (measure p' < measure p)%nat
      ∧ (skip = true → last_token p' ≠ end_of_input)
  | None => parsed (root p')
  end.

Lemma wp_evaluate_state states p :
  stack_ok states p → last_token p ≠ end_of_input →
  wp (evaluate_state states) p (state_post p) X0.
Proof.
  intros Hok Hne. destruct states as [|[] rest]; simpl.
  - wp_step. apply Hok.
  - wp_step. apply wp_get_token. intros p' Htok' Hst' Hroot' Hle Hlt. specialize (Hlt Hne).
    assert (Hok' : stack_ok (true :: rest) p') by (destruct Hok; split; congruence).
    case_decide as Ht.
    + wp_step. apply wp_get_token. intros p2 Htok2 Hst2 Hroot2 Hle2 _. wp_step.
      split_and!; [|done|lia|done]. destruct Hok'. split; congruence.
    + case_decide as Ht2; [|apply wp_syntax_error].
      wp_step. apply (wp_sax_end_array rest); [done|]. intros p2 Hok2 Hl2 Hm2. wp_step.
      split_and!; [done|by unfold tok_ok; rewrite Hl2, Ht2| |congruence].
      unfold measure in *. rewrite Hl2, Hm2. lia.
  - wp_step. apply wp_get_token. intros p' Htok' Hst' Hroot' Hle Hlt. specialize (Hlt Hne).
    destruct Hok as [Hok Hroot]. inversion Hok as [|? f ? st Hf Hrest E1 E2]; subst.
    destruct f as [|m [k|]]; simpl in Hf; try done. destruct Hf as [Hm Hk].
    case_decide as Ht.
    + wp_step. apply wp_get_token. intros p2 Htok2 Hst2 Hroot2 Hle2 _.
      wp_step. eapply wp_mono; [apply (wp_parse_key rest)| |done].
      * split; [|congruence]. exists m, (Some k), st. split_and!; [congruence|done|done].
      * done.
      * intros _ p3 (Hok3 & Hl3 & Hm3). wp_step. apply wp_get_token.
        intros p4 Htok4 Hst4 Hroot4 Hle4 _. wp_step. split_and!; [|done|lia|done].
        destruct Hok3. split; congruence.
    + case_decide as Ht2; [|apply wp_syntax_error].
      wp_step. apply (wp_sax_end_object m (Some k) rest _ _ _ st); [congruence|done|done|congruence|].
      intros p2 Hok2 Hl2 Hm2. wp_step.
      split_and!; [done|by unfold tok_ok; rewrite Hl2, Ht2| |congruence].
      unfold measure in *. rewrite Hl2, Hm2. lia.
Qed.

Lemma wp_sax_parse_internal fuel states skip p :
  (measure p < fuel)%nat → stack_ok states p → tok_ok p →
  (skip = true → last_token p ≠ end_of_input) →
  wp (sax_parse_internal fuel states skip) p (λ _ p', parsed (root p')) X0.
Proof.
  revert states skip p. induction fuel as [|fuel IH]; intros states skip p Hf Hok Htok Hskip; [lia|].
  cbn [sax_parse_internal]. wp_step.
  assert (Hpost : wp (if skip then ret None else parse_value states) p (value_post states p) X0).
  { destruct skip; [|by apply wp_parse_value]. wp_step. split_and!; [done|by apply Hskip|lia]. }
  eapply wp_mono; [exact Hpost| |done]. intros [states'|] p' Hp'; simpl in Hp'.
  - destruct Hp' as (? & ? & ?). apply IH; [lia|done|done|done].
  - destruct Hp' as (Hok' & Hne & Hle). wp_step.
    eapply wp_mono; [by apply wp_evaluate_state| |done].
    intros [[states2 skip2]|] p2 Hp2; simpl in Hp2; [|by wp_step].
    destruct Hp2 as (? & ? & ? & ?). apply IH; [lia|done|done|done].
Qed.

Lemma wp_parse_strict input :
  wp (parse_strict (parse_fuel input)) (parser_init input) (λ v _, parsed v) X0.
Proof.
  unfold parse_strict. wp_step. apply wp_get_token.
  intros p Htok Hst Hroot _ Hlt. wp_step.
  assert (Hm : (measure p < parse_fuel input)%nat).
  { specialize (Hlt ltac:(done)). unfold measure at 2, left_to_read in Hlt. simpl in Hlt.
    unfold parse_fuel. lia. }
  eapply wp_mono; [apply wp_sax_parse_internal| |done]; [done| |done|done|].
  - split; [rewrite Hst; constructor|rewrite Hroot; constructor].
  - intros ? p2 Hp2. wp_step. apply wp_get_token. intros p3 _ _ Hroot3 _ _.
    case_decide; [apply wp_syntax_error|]. wp_step. by rewrite Hroot3.
Qed.

(** [json::parse] returns a well-formed value or throws one of two exceptions. *)
Lemma json_parse_cases input :
  (∃ v, json_parse input = Ok v ∧ parsed v)
  ∨ (∃ e, json_parse input = Throw e ∧ parser_exn e).
Proof.
  unfold json_parse. destruct (wp_inv _ _ _ _ (wp_parse_strict input))
    as [(v & p & -> & Hv)|(e & p & -> & He)]; eauto.
Qed.

(** C24: [json::parse] answers on every byte string: it returns a value whose
    objects are ordered, whose strings and keys are well-formed UTF-8 and
    whose numbers are finite doubles or in the range of their integer type,
    or it throws [parse_error] or [out_of_range]. *)
Theorem json_parse_total input :
  (∃ v, json_parse input = Ok v ∧ parsed v)
  ∨ (∃ k id msg, json_parse input = Throw (json_exception k id msg)
       ∧ (k = parse_error ∨ k = out_of_range)).
Proof.
  destruct (json_parse_cases input) as [?|(e & He & k & id & msg & -> & Hk)]; [by left|].
  right. eauto.
Qed.
