(* ===== verification/JsonAccepts.v ===== *)
(** * Every text of the grammar is accepted

    [json::parse] on a document: scalars through the tokens of [JsonReads],
    arrays and objects through the parser's stack of states and the stack of
    unfinished containers of the SAX handler. *)

From stdpp Require Import base gmap strings list.
From Stdlib Require Import ZArith Ascii Lia.
From S2P Require Import Prelude Cxx StdMap JsonValue Utf8 JsonLexer JsonLexerSpec JsonGrammar JsonNumber JsonSax JsonParser JsonParserSpec JsonReads.

(** ** Partial correctness up to fuel

    [upto m s Q]: unless the fuel runs out, [m] returns a result in [Q].  That
    the fuel is enough is [json_parse_cases]. *)
Definition upto {E S A} (m : M E S A) (s : S) (Q : A → S → Prop) : Prop :=
  match m s with
  | (Ok a, s') => Q a s'
  | (OutOfFuel, _) => True
  | _ => False
  end.

Section upto.
Context {E S A B : Type}.

Lemma upto_bind (m : M E S A) (k : A → M E S B) s Q :
  upto m s (λ a s', upto (k a) s' Q) → upto (bind m k) s Q.
Proof. unfold upto, bind. destruct (m s) as [[a| | |] s']; done. Qed.

Lemma upto_ret (a : A) (s : S) (Q : A → S → Prop) : Q a s → upto (ret a : M E S A) s Q.
Proof. done. Qed.

Lemma upto_mono (m : M E S A) s (Q Q' : A → S → Prop) :
  upto m s Q' → (∀ a s', Q' a s' → Q a s') → upto m s Q.
Proof. unfold upto. destruct (m s) as [[a| | |] s']; eauto. Qed.

Lemma upto_run (m : M E S A) s a s' (Q : A → S → Prop) : m s = (Ok a, s') → Q a s' → upto m s Q.
Proof. unfold upto. by intros ->. Qed.

Lemma wp_upto (m : M E S A) s Q : wp m s Q no_exn → upto m s Q.
Proof. unfold wp, upto. destruct (m s) as [[a| | |] s']; done. Qed.
End upto.

Lemma upto_get_state {E S} (s : S) (Q : S → S → Prop) : Q s s → upto (get_state : M E S S) s Q.
Proof. done. Qed.

Lemma upto_modify {E S} (f : S → S) s (Q : unit → S → Prop) :
  Q tt (f s) → upto (modify f : M E S unit) s Q.
Proof. done. Qed.

Ltac upto_step :=
  lazymatch goal with
  | |- upto (bind _ _) _ _ => apply upto_bind
  | |- upto (ret _) _ _ => apply upto_ret
  | |- upto get_state _ _ => apply upto_get_state
  | |- upto (modify _) _ _ => apply upto_modify
  end.

(** ** Tokens and values in the parser *)

(** Two parsers that differ in their lexer and last token only. *)
Definition same_value (p p' : parser) : Prop := root p' = root p ∧ ref_stack p' = ref_stack p.

Lemma upto_get_token p (R : token_type → lexer → Prop) (Q : token_type → parser → Prop) :
  wp scan (m_lexer p) R no_exn →
  (∀ tok p', R tok (m_lexer p') → last_token p' = tok → same_value p p' → Q tok p') →
  upto get_token p Q.
Proof.
  intros Hs HQ. apply wp_upto. unfold get_token. do 2 wp_step.
  eapply wp_mono; [exact Hs| |done]. intros tok l HR. do 3 wp_step. by apply HQ.
Qed.

Lemma upto_punctuation c tok ws t p (Q : token_type → parser → Prop) :
  punctuation c = Some tok → all_space ws = true → starts (m_lexer p) (ws +:+ String c t) →
  (∀ p', last_token p' = tok → stands (m_lexer p') t → same_value p p' → Q tok p') →
  upto get_token p Q.
Proof.
  intros Hc Hws Hst HQ. eapply upto_get_token; [by eapply wp_scan_punctuation|].
  intros tok' p' [-> Hl] Ht Hs. by apply HQ.
Qed.

(** [delivered v r st t p]: the value [v] has been added to a handler whose
    root was [r] and stack [st], and the text [t] remains. *)
Definition delivered (v r : json) (st : list frame) (t : string) (p : parser) : Prop :=
  (root p, ref_stack p) = deliver v r st ∧ stands (m_lexer p) t.

(** The loop goes on after a value. *)
Definition resumes (v : json) (states : list bool) (p : parser) (t : string)
    (Q : bool → parser → Prop) : Prop :=
  ∀ fuel p', delivered v (root p) (ref_stack p) t p' → upto (sax_parse_internal fuel states true) p' Q.

Lemma upto_value_done v states p fuel t Q :
  receives (ref_stack p) → stands (m_lexer p) t → resumes v states p t Q →
  upto (handle_value v ;; ret None) p (λ r p',
    upto (match r with
          | Some states => sax_parse_internal fuel states false
          | None => r <- evaluate_state states ;;
              match r with
              | None => ret true
              | Some (states, skip) => sax_parse_internal fuel states skip
              end
          end) p' Q).
Proof.
  intros Hrec Hl HQ. upto_step. eapply upto_run; [by apply handle_value_deliver|]. upto_step.
  match goal with |- upto _ ?p' _ => specialize (HQ (S fuel) p') end.
  cbn [sax_parse_internal] in HQ. apply HQ. split; [|done]. simpl. symmetry. apply surjective_pairing.
Qed.

(** A value's text is read and the value delivered. *)
Definition reads_as (txt : string) (v : json) : Prop :=
  ∀ ws t fuel states p Q,
    number_ends t = true → all_space ws = true → receives (ref_stack p) →
    starts (m_lexer p) (ws +:+ txt +:+ t) →
    resumes v states p t Q →
    upto get_token p (λ tok p1, tok ≠ end_array ∧ upto (sax_parse_internal fuel states false) p1 Q).

Lemma resumes_same v states p p' t Q :
  same_value p p' → resumes v states p t Q → resumes v states p' t Q.
Proof. intros [H1 H2] HQ fuel p2. unfold resumes in HQ. rewrite H1, H2. apply HQ. Qed.

Lemma scalar_reads_as txt v : scalar_text txt v → representable v = true → reads_as txt v.
Proof.
  intros Hs Hrep ws t fuel states p Q Ht Hws Hrec Hst HQ.
  eapply upto_get_token; [by eapply wp_scan_scalar|]. intros tok p1 [Htok Hl] Hlast Hsame.
  assert (Hscalar : match v with jobject _ | jarray _ | jdiscarded => False | _ => True end).
  { destruct Hs as [| | |txt s _|txt v Hnum]; try done. by destruct Hnum. }
  split; [destruct v as [| | | |[]| | | |]; cbn [token_is] in Htok; intuition congruence|].
  destruct fuel as [|fuel]; [done|]. cbn [sax_parse_internal]. upto_step.
  unfold parse_value. do 2 upto_step. rewrite Hlast.
  assert (Hrec1 : receives (ref_stack p1)) by (by destruct Hsame as [_ ->]).
  pose proof (resumes_same _ _ _ _ _ _ Hsame HQ) as HQ1.
  destruct v as [| | | |[]| | | |]; cbn [token_is] in Htok; try done;
    try match type of Htok with _ ∧ _ => destruct Htok as [Htok <-] end; rewrite Htok;
    try (cbn [representable] in Hrep; rewrite Hrep; cbn [negb]);
    by eapply upto_value_done.
Qed.

(** ** Containers *)

Lemma number_ends_space ws t :
  all_space ws = true → number_ends t = true → number_ends (ws +:+ t) = true.
Proof.
  destruct ws as [|c ws]; [done|]. intros [Hc _]%andb_true_iff _. cbn [number_ends String.append].
  unfold is_space in Hc. rewrite !orb_true_iff in Hc. apply negb_true_iff.
  destruct Hc as [[[Hc|Hc]|Hc]|Hc]; apply Z.eqb_eq in Hc; by rewrite Hc.
Qed.

(** The end of a container, and a separator after one of its elements. *)
Lemma upto_close_array ws items st t fuel states p Q :
  all_space ws = true → ref_stack p = Farray items :: st → receives st →
  stands (m_lexer p) (ws +:+ String "]" t) →
  (∀ fuel p', delivered (jarray items) (root p) st t p' →
     upto (sax_parse_internal fuel states true) p' Q) →
  upto (sax_parse_internal fuel (true :: states) true) p Q.
Proof.
  intros Hws Est Hrec Hl HQ. destruct fuel as [|fuel]; [done|].
  cbn [sax_parse_internal]. do 3 upto_step. cbn [evaluate_state]. upto_step.
  eapply (upto_punctuation "]"); [done|exact Hws|apply starts_token; exact Hl|].
  intros p2 _ Hl2 [Hroot2 Hstack2]. rewrite decide_False, decide_True by done. upto_step.
  eapply upto_run. { unfold sax_end_array. rewrite Hstack2, Est. by apply handle_value_deliver. }
  upto_step. apply HQ. split; [|done]. simpl. rewrite Hroot2. symmetry. apply surjective_pairing.
Qed.

Lemma upto_close_object ws m el st t fuel states p Q :
  all_space ws = true → ref_stack p = Fobject m el :: st → receives st →
  stands (m_lexer p) (ws +:+ String "}" t) →
  (∀ fuel p', delivered (jobject m) (root p) st t p' →
     upto (sax_parse_internal fuel states true) p' Q) →
  upto (sax_parse_internal fuel (false :: states) true) p Q.
Proof.
  intros Hws Est Hrec Hl HQ. destruct fuel as [|fuel]; [done|].
  cbn [sax_parse_internal]. do 3 upto_step. cbn [evaluate_state]. upto_step.
  eapply (upto_punctuation "}"); [done|exact Hws|apply starts_token; exact Hl|].
  intros p2 _ Hl2 [Hroot2 Hstack2]. rewrite decide_False, decide_True by done. upto_step.
  eapply upto_run. { unfold sax_end_object. rewrite Hstack2, Est. by apply handle_value_deliver. }
  upto_step. apply HQ. split; [|done]. simpl. rewrite Hroot2. symmetry. apply surjective_pairing.
Qed.

(** The separator between two elements. *)
Lemma upto_separator (is_array : bool) t ws fuel states p Q :
  all_space ws = true → stands (m_lexer p) (ws +:+ String "," t) →
  (∀ p', stands (m_lexer p') t → same_value p p' →
     upto get_token p' (λ _ p1,
       if is_array then upto (sax_parse_internal fuel (true :: states) false) p1 Q
       else upto parse_key p1 (λ _ p2, upto get_token p2 (λ _ p3,
              upto (sax_parse_internal fuel (false :: states) false) p3 Q)))) →
  upto (sax_parse_internal (S fuel) (is_array :: states) true) p Q.
Proof.
  intros Hws Hl HQ. cbn [sax_parse_internal]. do 3 upto_step.
  destruct is_array; cbn [evaluate_state]; upto_step;
    (eapply (upto_punctuation ","); [done|exact Hws|apply starts_token; exact Hl|]);
    intros p1 _ Hl1 Hsame; rewrite decide_True by done; upto_step;
    (eapply upto_mono; [by apply HQ|]); intros tok p2 H2; upto_step.
  - exact H2.
  - eapply upto_mono; [exact H2|]. intros ? p3 H3. upto_step.
    eapply upto_mono; [exact H3|]. intros ? p4 H4. upto_step. exact H4.
Qed.

(** The elements of an array, [seen] being before them, and its end. *)
Definition elements_read (t : string) (vs : list json) : Prop :=
  ∀ seen st rest fuel states p Q,
    ref_stack p = Farray seen :: st → receives st → stands (m_lexer p) (t +:+ String "]" rest) →
    (∀ fuel p', delivered (jarray (seen ++ vs)) (root p) st rest p' →
       upto (sax_parse_internal fuel states true) p' Q) →
    upto get_token p (λ tok p1, tok ≠ end_array
      ∧ upto (sax_parse_internal fuel (true :: states) false) p1 Q).

Lemma elements_one_read ws1 t v ws2 :
  all_space ws1 = true → reads_as t v → all_space ws2 = true →
  elements_read (ws1 +:+ t +:+ ws2) [v].
Proof.
  intros Hws1 Hv Hws2 seen st rest fuel states p Q Est Hrec Hst HQ. rewrite !append_assoc in Hst.
  eapply (Hv ws1 (ws2 +:+ String "]" rest)); [by apply number_ends_space|done|by rewrite Est|by apply starts_token|].
  intros fuel1 p1 [Hd1 Hl1]. rewrite Est in Hd1. injection Hd1 as Hroot Hstack.
  eapply upto_close_array; [exact Hws2|exact Hstack|done|exact Hl1|]. by rewrite Hroot.
Qed.

Lemma elements_cons_read ws1 t v ws2 t' vs :
  all_space ws1 = true → reads_as t v → all_space ws2 = true → elements_read t' vs →
  elements_read (ws1 +:+ t +:+ ws2 +:+ "," +:+ t') (v :: vs).
Proof.
  intros Hws1 Hv Hws2 IH seen st rest fuel states p Q Est Hrec Hst HQ. rewrite !append_assoc in Hst.
  eapply (Hv ws1 (ws2 +:+ String "," (t' +:+ String "]" rest)));
    [by apply number_ends_space|done|by rewrite Est|by apply starts_token|].
  intros fuel1 p1 [Hd1 Hl1]. destruct fuel1 as [|fuel1]; [done|].
  rewrite Est in Hd1. injection Hd1 as Hroot Hstack.
  eapply (upto_separator true _ ws2); [done|exact Hl1|]. intros p2 Hl2 [Hroot2 Hstack2].
  eapply upto_mono; [eapply (IH (seen ++ [v]) st rest fuel1 states)|].
  - by rewrite Hstack2.
  - done.
  - exact Hl2.
  - rewrite Hroot2, Hroot, <-app_assoc. exact HQ.
  - by intros tok p3 [_ Hp3].
Qed.

(** The key of a member, its colon and the first token of its value, with the
    loop that goes on from there. *)
Definition member_loop (fuel : nat) (states : list bool) (p1 : parser) (Q : bool → parser → Prop) : Prop :=
  upto parse_key p1 (λ _ p2,
    upto get_token p2 (λ _ p3, upto (sax_parse_internal fuel (false :: states) false) p3 Q)).

Lemma member_reads tk k ws2 ws3 t v states st Q :
  string_text tk k → all_space ws2 = true → all_space ws3 = true → reads_as t v →
  ∀ seen el ws1 rest fuel p,
    all_space ws1 = true → number_ends rest = true → map_wf seen → ref_stack p = Fobject seen el :: st →
    stands (m_lexer p) (ws1 +:+ tk +:+ ws2 +:+ ":" +:+ ws3 +:+ t +:+ rest) →
    (∀ fuel p', root p' = root p → ref_stack p' = Fobject (map_put k v seen) (Some k) :: st →
       stands (m_lexer p') rest → upto (sax_parse_internal fuel (false :: states) true) p' Q) →
    upto get_token p (λ tok p1, tok ≠ end_object ∧ member_loop fuel states p1 Q).
Proof.
  intros Hk Hws2 Hws3 Hv seen el ws1 rest fuel p Hws1 Ht Hwf Est Hst HQ.
  eapply upto_get_token; [eapply (wp_scan_scalar tk (jstring k) ws1); [by constructor| |done|by apply starts_token]|].
  { by apply number_ends_space. }
  intros tok p1 [[-> Hbuf] Hl1] Hlast [Hroot1 Hstack1]. split; [done|].
  unfold member_loop, parse_key. do 2 upto_step. rewrite Hlast, decide_False by (intros H; by apply H).
  upto_step. eapply upto_run. { unfold sax_key. by rewrite Hstack1, Est. }
  upto_step. eapply (upto_punctuation ":" _ ws2); [done|done|apply starts_token; exact Hl1|].
  intros p2 _ Hl2 [Hroot2 Hstack2]. rewrite decide_False by (intros H; by apply H). upto_step.
  cbn [root ref_stack with_sax] in Hroot2, Hstack2. rewrite Hbuf in Hstack2.
  eapply upto_mono; [eapply (Hv ws3 rest fuel (false :: states))|].
  - done.
  - done.
  - by rewrite Hstack2.
  - by apply starts_token.
  - intros fuel' p3 [Hd Hl3]. rewrite Hstack2 in Hd. cbn [deliver] in Hd.
    injection Hd as Hroot3 Hstack3. apply HQ; [congruence| |done].
    rewrite Hstack3. f_equal. f_equal. by apply member_put.
  - by intros ? p3 [_ ?].
Qed.

(** The members of an object, [seen] being before them, and its end. *)
Definition members_read (t : string) (kvs : list (string * json)) : Prop :=
  ∀ seen el st rest fuel states p Q,
    map_wf seen → ref_stack p = Fobject seen el :: st → receives st →
    stands (m_lexer p) (t +:+ String "}" rest) →
    (∀ fuel p', delivered (jobject (put_members seen kvs)) (root p) st rest p' →
       upto (sax_parse_internal fuel states true) p' Q) →
    upto get_token p (λ tok p1, tok ≠ end_object ∧ member_loop fuel states p1 Q).

Lemma members_one_read ws1 tk k ws2 ws3 t v ws4 :
  all_space ws1 = true → string_text tk k → all_space ws2 = true →
  all_space ws3 = true → reads_as t v → all_space ws4 = true →
  members_read (ws1 +:+ tk +:+ ws2 +:+ ":" +:+ ws3 +:+ t +:+ ws4) [(k, v)].
Proof.
  intros Hws1 Hk Hws2 Hws3 Hv Hws4 seen el st rest fuel states p Q Hwf Est Hrec Hst HQ.
  rewrite !append_assoc in Hst.
  eapply (member_reads tk k ws2 ws3 t v states st Q Hk Hws2 Hws3 Hv seen el ws1 (ws4 +:+ String "}" rest));
    [done|by apply number_ends_space|done|done|exact Hst|].
  intros fuel1 p1 Hroot Hstack Hl1.
  eapply upto_close_object; [exact Hws4|exact Hstack|done|exact Hl1|]. by rewrite Hroot.
Qed.

Lemma members_cons_read ws1 tk k ws2 ws3 t v ws4 t' kvs :
  all_space ws1 = true → string_text tk k → all_space ws2 = true →
  all_space ws3 = true → reads_as t v → all_space ws4 = true → members_read t' kvs →
  members_read (ws1 +:+ tk +:+ ws2 +:+ ":" +:+ ws3 +:+ t +:+ ws4 +:+ "," +:+ t') ((k, v) :: kvs).
Proof.
  intros Hws1 Hk Hws2 Hws3 Hv Hws4 IH seen el st rest fuel states p Q Hwf Est Hrec Hst HQ.
  rewrite !append_assoc in Hst.
  eapply (member_reads tk k ws2 ws3 t v states st Q Hk Hws2 Hws3 Hv seen el ws1
    (ws4 +:+ String "," (t' +:+ String "}" rest))); [done|by apply number_ends_space|done|done|exact Hst|].
  intros fuel1 p1 Hroot Hstack Hl1. destruct fuel1 as [|fuel1]; [done|].
  eapply (upto_separator false _ ws4); [done|exact Hl1|]. intros p2 Hl2 [Hroot2 Hstack2].
  eapply upto_mono; [eapply (IH (map_put k v seen) (Some k) st rest fuel1 states)|].
  - by apply map_put_wf.
  - by rewrite Hstack2.
  - done.
  - exact Hl2.
  - rewrite Hroot2, Hroot. exact HQ.
  - by intros tok p3 [_ Hp3].
Qed.

(** ** Values *)

(** A container whose opening bracket is read. *)
Lemma upto_open c tok ws t p (Q : token_type → parser → Prop) :
  punctuation c = Some tok → tok ≠ end_array → all_space ws = true →
  starts (m_lexer p) (ws +:+ String c t) →
  (∀ p', last_token p' = tok → stands (m_lexer p') t → same_value p p' → Q tok p') →
  upto get_token p (λ tok' p', tok' ≠ end_array ∧ Q tok' p').
Proof.
  intros Hc Hne Hws Hst HQ. eapply upto_punctuation; [exact Hc|exact Hws|exact Hst|]. auto.
Qed.

(** The loop after an empty container. *)
Lemma upto_delivered v states fuel t p p' Q :
  resumes v states p t Q → delivered v (root p) (ref_stack p) t p' →
  upto (r <- evaluate_state states ;;
        match r with
        | None => ret true
        | Some (states, skip) => sax_parse_internal fuel states skip
        end) p' Q.
Proof. intros HQ Hd. exact (HQ (S fuel) p' Hd). Qed.

Lemma empty_array_reads ws : all_space ws = true → reads_as ("[" +:+ ws +:+ "]") (jarray []).
Proof.
  intros Hws ws1 t fuel states p Q Ht Hws1 Hrec Hst HQ. rewrite !append_assoc in Hst.
  eapply (upto_open "["); [done|done|exact Hws1|exact Hst|].
  intros p1 Hlast Hl1 Hsame. destruct fuel as [|fuel]; [done|].
  cbn [sax_parse_internal]. upto_step. unfold parse_value. do 2 upto_step. rewrite Hlast.
  unfold sax_start_array. do 3 upto_step. pose proof (resumes_same _ _ _ _ _ _ Hsame HQ) as HQ1.
  eapply (upto_punctuation "]" _ ws); [done|done|apply starts_token; exact Hl1|].
  intros p2 Hlast2 Hl2 [Hroot2 Hstack2]. rewrite decide_True by done. upto_step.
  eapply upto_run. { unfold sax_end_array. rewrite Hstack2. apply handle_value_deliver. by destruct Hsame as [_ ->]. }
  upto_step. eapply upto_delivered; [exact HQ1|]. split; [|done]. simpl in Hroot2 |- *. rewrite Hroot2.
  symmetry. apply surjective_pairing.
Qed.

Lemma empty_object_reads ws : all_space ws = true → reads_as ("{" +:+ ws +:+ "}") (jobject []).
Proof.
  intros Hws ws1 t fuel states p Q Ht Hws1 Hrec Hst HQ. rewrite !append_assoc in Hst.
  eapply (upto_open "{"); [done|done|exact Hws1|exact Hst|].
  intros p1 Hlast Hl1 Hsame. destruct fuel as [|fuel]; [done|].
  cbn [sax_parse_internal]. upto_step. unfold parse_value. do 2 upto_step. rewrite Hlast.
  unfold sax_start_object. do 3 upto_step. pose proof (resumes_same _ _ _ _ _ _ Hsame HQ) as HQ1.
  eapply (upto_punctuation "}" _ ws); [done|done|apply starts_token; exact Hl1|].
  intros p2 Hlast2 Hl2 [Hroot2 Hstack2]. rewrite decide_True by done. upto_step.
  eapply upto_run. { unfold sax_end_object. rewrite Hstack2. apply handle_value_deliver. by destruct Hsame as [_ ->]. }
  upto_step. eapply upto_delivered; [exact HQ1|]. split; [|done]. simpl in Hroot2 |- *. rewrite Hroot2.
  symmetry. apply surjective_pairing.
Qed.

Lemma array_reads t vs : elements_read t vs → reads_as ("[" +:+ t +:+ "]") (jarray vs).
Proof.
  intros Hall ws1 rest fuel states p Q Ht Hws1 Hrec Hst HQ. rewrite !append_assoc in Hst.
  eapply (upto_open "["); [done|done|exact Hws1|exact Hst|].
  intros p1 Hlast Hl1 Hsame. destruct fuel as [|fuel]; [done|].
  cbn [sax_parse_internal]. upto_step. unfold parse_value. do 2 upto_step. rewrite Hlast.
  unfold sax_start_array. do 3 upto_step. pose proof (resumes_same _ _ _ _ _ _ Hsame HQ) as HQ1.
  eapply upto_mono; [eapply (Hall [] (ref_stack p1) rest fuel states)|].
  - done.
  - by destruct Hsame as [_ ->].
  - exact Hl1.
  - exact HQ1.
  - intros tok p2 [Htok Hp2]. rewrite decide_False by done. upto_step. exact Hp2.
Qed.

Lemma object_reads t kvs : members_read t kvs → reads_as ("{" +:+ t +:+ "}") (jobject (put_members [] kvs)).
Proof.
  intros Hall ws1 rest fuel states p Q Ht Hws1 Hrec Hst HQ. rewrite !append_assoc in Hst.
  eapply (upto_open "{"); [done|done|exact Hws1|exact Hst|].
  intros p1 Hlast Hl1 Hsame. destruct fuel as [|fuel]; [done|].
  cbn [sax_parse_internal]. upto_step. unfold parse_value. do 2 upto_step. rewrite Hlast.
  unfold sax_start_object. do 3 upto_step. pose proof (resumes_same _ _ _ _ _ _ Hsame HQ) as HQ1.
  eapply upto_mono; [eapply (Hall [] None (ref_stack p1) rest fuel states)|].
  - constructor.
  - done.
  - by destruct Hsame as [_ ->].
  - exact Hl1.
  - exact HQ1.
  - intros tok p2 [Htok Hp2]. rewrite decide_False by done. upto_step.
    eapply upto_mono; [exact Hp2|]. intros ? p3 Hp3. upto_step.
    eapply upto_mono; [exact Hp3|]. intros ? p4 Hp4. upto_step. exact Hp4.
Qed.

Lemma json_text_reads :
  (∀ t v, json_text t v → reads_as t v)
  ∧ (∀ t vs, elements_text t vs → elements_read t vs)
  ∧ (∀ t kvs, members_text t kvs → members_read t kvs).
Proof.
  apply json_text_mutind; intros.
  - by apply scalar_reads_as.
  - by apply empty_array_reads.
  - by apply array_reads.
  - by apply empty_object_reads.
  - by apply object_reads.
  - by apply elements_one_read.
  - by apply elements_cons_read.
  - by apply members_one_read.
  - by apply members_cons_read.
Qed.

(** ** Documents *)

Lemma text_not_marked t v rest : json_text t v → marked (t +:+ rest) = false.
Proof.
  intros [t' v' Hs _|ws _|t' vs _|ws _|t' kvs _]; [|done..].
  destruct Hs as [| | |txt s [body s' _]|txt w Hnum]; try done.
  destruct (number_text_head _ _ Hnum) as (c & ds & -> & _ & Hne & _). by apply Z.eqb_neq.
Qed.

Lemma space_not_marked ws t : all_space ws = true → marked t = false → marked (ws +:+ t) = false.
Proof.
  destruct ws as [|c ws]; [done|]. intros [Hc _]%andb_true_iff _. cbn [marked String.append].
  apply Z.eqb_neq. intros E. by rewrite E in Hc.
Qed.

Lemma ends_number_ends r : ends_text r → number_ends r = true.
Proof. by intros [->|[r' ->]]. Qed.

Lemma document_accepted input v : document input v → json_parse input = Ok v.
Proof.
  intros Hdoc. assert (H : upto (parse_strict (parse_fuel input)) (parser_init input) (λ r _, r = v)).
  { destruct Hdoc as [bom ws1 t v ws2 r Hbom Hws1 Ht Hws2 Hend]. set (input := bom +:+ _).
    unfold parse_strict. upto_step. eapply upto_mono.
    - eapply (proj1 json_text_reads t v Ht ws1 (ws2 +:+ r) (parse_fuel input) []
        (parser_init input) (λ _ p, root p = v ∧ stands (m_lexer p) (ws2 +:+ r))); [|done|done| |].
      + by apply number_ends_space, ends_number_ends.
      + destruct Hbom as [->| ->]; [apply starts_input|apply starts_mark].
        by apply space_not_marked, (text_not_marked t v).
      + intros fuel p [Hd Hl]. injection Hd as Hroot Hstack. destruct fuel as [|fuel]; [done|].
        cbn [sax_parse_internal]. repeat upto_step. by split.
    - intros tok p [_ Hp]. upto_step. eapply upto_mono; [exact Hp|]. intros b p2 [Hroot Hl].
      upto_step. eapply upto_get_token; [by eapply wp_scan_end|].
      intros tok2 p3 -> _ [Hroot3 _]. rewrite decide_False by (intros H; by apply H).
      unfold gets. eapply upto_run; [done|]. congruence. }
  destruct (json_parse_cases input) as [(w & Hw & _)|(e & He & _)]; unfold json_parse in *.
  - unfold upto in H. destruct (parse_strict _ _) as [[r| | |] p]; simpl in *; congruence.
  - unfold upto in H. destruct (parse_strict _ _) as [[r| | |] p]; simpl in *; try done; congruence.
Qed.
