(* ===== verification/JsonCorrect.v ===== *)
(** * The parser accepts the documents of the grammar, and nothing else

    [json::parse] returns a value exactly for the texts of [JsonGrammar], and
    it is the value the grammar gives the text.  One direction is
    [JsonAccepts]; here a run of the parser that returns is followed token by
    token, and the text it consumed is put together from the containers that
    were open. *)

From stdpp Require Import base gmap strings list.
From Stdlib Require Import ZArith Ascii Lia.
From S2P Require Import Prelude Cxx StdMap JsonValue Utf8 JsonLexer JsonLexerSpec JsonGrammar JsonNumber JsonSax JsonParser JsonParserSpec JsonReads JsonAccepts JsonSound.

(** ** Runs that return

    [ensures m s Q]: if [m] returns, its result is in [Q]. *)
Definition ensures {E S A} (m : M E S A) (s : S) (Q : A → S → Prop) : Prop :=
  match m s with
  | (Ok a, s') => Q a s'
  | _ => True
  end.

Section ensures.
Context {E S A B : Type}.

Lemma ensures_bind (m : M E S A) (k : A → M E S B) s Q :
  ensures m s (λ a s', ensures (k a) s' Q) → ensures (bind m k) s Q.
Proof. unfold ensures, bind. destruct (m s) as [[a| | |] s']; done. Qed.

Lemma ensures_mono (m : M E S A) s (Q Q' : A → S → Prop) :
  ensures m s Q' → (∀ a s', Q' a s' → Q a s') → ensures m s Q.
Proof. unfold ensures. destruct (m s) as [[a| | |] s']; eauto. Qed.

Lemma ensures_run (m : M E S A) s a s' (Q : A → S → Prop) : m s = (Ok a, s') → Q a s' → ensures m s Q.
Proof. unfold ensures. by intros ->. Qed.

Lemma wp_ensures (m : M E S A) s Q X : wp m s Q X → ensures m s Q.
Proof. unfold wp, ensures. destruct (m s) as [[a| | |] s']; done. Qed.
End ensures.

Lemma ensures_ret {E S A} (a : A) (s : S) (Q : A → S → Prop) : Q a s → ensures (ret a : M E S A) s Q.
Proof. done. Qed.

Lemma ensures_get_state {E S} (s : S) (Q : S → S → Prop) : Q s s → ensures (get_state : M E S S) s Q.
Proof. done. Qed.

Lemma ensures_modify {E S} (f : S → S) s (Q : unit → S → Prop) :
  Q tt (f s) → ensures (modify f : M E S unit) s Q.
Proof. done. Qed.

Lemma ensures_error {A} t p (Q : A → parser → Prop) : ensures (syntax_error t) p Q.
Proof. done. Qed.

Ltac ens_step :=
  lazymatch goal with
  | |- ensures (bind _ _) _ _ => apply ensures_bind
  | |- ensures (ret _) _ _ => apply ensures_ret
  | |- ensures get_state _ _ => apply ensures_get_state
  | |- ensures (modify _) _ _ => apply ensures_modify
  | |- ensures (syntax_error _) _ _ => apply ensures_error
  end.

(** ** Tokens *)

(** The last token of [p] is the first one of the text [u]. *)
Definition at_token (u : string) (p : parser) : Prop := scan_sound u (last_token p) (m_lexer p).

Lemma ensures_get_token u p (Q : token_type → parser → Prop) :
  stands (m_lexer p) u →
  (∀ p', at_token u p' → same_value p p' → Q (last_token p') p') → ensures get_token p Q.
Proof.
  intros Hst HQ. apply (wp_ensures _ _ _ no_exn). unfold get_token. do 2 wp_step.
  eapply wp_mono; [apply wp_scan_sound, starts_token, Hst| |intros ?? H; exact H]. intros tok l Hs. do 3 wp_step.
  match goal with |- Q tok ?p' => apply (HQ p') end; [exact Hs|done].
Qed.

Lemma scalar_text_kind txt v : scalar_text txt v → match v with jobject _ | jarray _ | jdiscarded => False | _ => True end.
Proof. intros [| | |t s _|t w Hnum]; try done. by destruct Hnum. Qed.

Lemma punctuation_inj c d tok : punctuation c = Some tok → punctuation d = Some tok → c = d.
Proof.
  unfold punctuation. intros Hc Hd.
  repeat match type of Hc with context [Ascii.eqb c ?k] => destruct (Ascii.eqb_spec c k) as [->|] end; try done;
  repeat match type of Hd with context [Ascii.eqb d ?k] => destruct (Ascii.eqb_spec d k) as [->|] end; congruence.
Qed.

(** What a token of punctuation says about the text. *)
Lemma at_punctuation c tok u p :
  at_token u p → last_token p = tok → punctuation c = Some tok →
  ∃ ws t, u = ws +:+ String c t ∧ all_space ws = true ∧ stands (m_lexer p) t.
Proof.
  unfold at_token. intros Hs Htok Hc. rewrite Htok in Hs. clear Htok.
  inversion Hs as [|ws r l E Hws Hend|ws txt t tok' l E Hws Htxt Hst]; subst.
  - by unfold punctuation in Hc; repeat case_match.
  - by unfold punctuation in Hc; repeat case_match.
  - exists ws. destruct Htxt as [c' tok l Hp|txt v tok l Hsc Htok].
    + rewrite (punctuation_inj _ _ _ Hc Hp). eauto.
    + exfalso. pose proof (scalar_text_kind _ _ Hsc) as Hk.
      destruct v as [| | | |[]| | | |]; try done; cbn [token_is] in Htok;
        repeat match type of Htok with _ ∧ _ => destruct Htok as [Htok _] end; subst;
        by unfold punctuation in Hc; repeat case_match.
Qed.

(** A token that is neither punctuation, the end nor an error. *)
Lemma at_scalar u p :
  at_token u p →
  match last_token p with
  | literal_true | literal_false | literal_null | value_string | value_unsigned | value_integer | value_float => True
  | _ => False
  end →
  ∃ ws txt t v, u = ws +:+ txt +:+ t ∧ all_space ws = true ∧ scalar_text txt v
    ∧ token_is v (last_token p) (m_lexer p) ∧ stands (m_lexer p) t.
Proof.
  unfold at_token. intros Hs Hk.
  inversion Hs as [l E1 E2|ws r l E Hws Hend E1 E2|ws txt t tok' l E Hws Htxt Hst E1 E2]; subst.
  - by rewrite <-E1 in Hk.
  - by rewrite <-E1 in Hk.
  - inversion Htxt as [c tok l Hp E1 E2 E3|txt' v tok l Hsc Htok]; subst.
    + unfold punctuation in Hp. repeat case_match; simplify_eq; try done.
    + exists ws, txt, t, v. auto.
Qed.

(** ** The containers that are open *)

Fixpoint shape (states : list bool) (st : list frame) : Prop :=
  match states, st with
  | [], [] => True
  | true :: states, Farray _ :: st => shape states st
  | false :: states, Fobject m (Some _) :: st => map_wf m ∧ shape states st
  | _, _ => False
  end.

Lemma shape_receives states st : shape states st → receives st.
Proof. destruct states as [|[] states], st as [|[items|m [k|]] st]; done. Qed.

Lemma shape_deliver states st v r : shape states st → shape states (deliver v r st).2.
Proof.
  destruct states as [|[] states], st as [|[items|m [k|]] st]; try done. simpl.
  intros [Hwf Hs]. split; [by apply map_put_wf|done].
Qed.

(** The text that closes the open containers, and the root it leads to. *)
Inductive rest_of : json * list frame → string → json → Prop :=
| rest_done r : rest_of (r, []) "" r
| rest_close_array r items st ws s r' :
    all_space ws = true → rest_of (deliver (jarray items) r st) s r' →
    rest_of (r, Farray items :: st) (ws +:+ String "]" s) r'
| rest_item r items st ws1 ws2 t v s r' :
    all_space ws1 = true → all_space ws2 = true → json_text t v →
    rest_of (r, Farray (items ++ [v]) :: st) s r' →
    rest_of (r, Farray items :: st) (ws1 +:+ String "," (ws2 +:+ t +:+ s)) r'
| rest_close_object r m el st ws s r' :
    all_space ws = true → rest_of (deliver (jobject m) r st) s r' →
    rest_of (r, Fobject m el :: st) (ws +:+ String "}" s) r'
| rest_member r m el st ws1 ws2 tk k ws3 ws4 t v s r' :
    all_space ws1 = true → all_space ws2 = true → string_text tk k → all_space ws3 = true →
    all_space ws4 = true → json_text t v →
    rest_of (r, Fobject (map_put k v m) (Some k) :: st) s r' →
    rest_of (r, Fobject m el :: st) (ws1 +:+ String "," (ws2 +:+ tk +:+ ws3 +:+ String ":" (ws4 +:+ t +:+ s))) r'.

(** The elements after the first one, up to the closing bracket. *)
Definition elements_tail (t : string) (vs : list json) : Prop :=
  (all_space t = true ∧ vs = []) ∨ ∃ ws t', all_space ws = true ∧ t = ws +:+ "," +:+ t' ∧ elements_text t' vs.

Definition members_tail (t : string) (kvs : list (string * json)) : Prop :=
  (all_space t = true ∧ kvs = []) ∨ ∃ ws t', all_space ws = true ∧ t = ws +:+ "," +:+ t' ∧ members_text t' kvs.

Lemma elements_tail_cons ws t v t2 vs :
  all_space ws = true → json_text t v → elements_tail t2 vs → elements_text (ws +:+ t +:+ t2) (v :: vs).
Proof. intros Hws Ht [[Hsp ->]|(ws2 & t' & Hws2 & -> & Hel)]; by constructor. Qed.

Lemma members_tail_cons ws1 tk k ws2 ws3 t v t2 kvs :
  all_space ws1 = true → string_text tk k → all_space ws2 = true → all_space ws3 = true → json_text t v →
  members_tail t2 kvs → members_text (ws1 +:+ tk +:+ ws2 +:+ ":" +:+ ws3 +:+ t +:+ t2) ((k, v) :: kvs).
Proof. intros ????? [[Hsp ->]|(ws4 & t' & Hws4 & -> & Hel)]; by constructor. Qed.

Lemma rest_array_inv c s r' :
  rest_of c s r' → ∀ r items st, c = (r, Farray items :: st) →
  ∃ t vs s', s = t +:+ String "]" s' ∧ elements_tail t vs ∧ rest_of (deliver (jarray (items ++ vs)) r st) s' r'.
Proof.
  intros H. induction H as [r0|r0 items0 st0 ws s r' Hws Hrest _|r0 items0 st0 ws1 ws2 t v s r' Hws1 Hws2 Ht Hrest IH
    |r0 m0 el0 st0 ws s r' Hws Hrest _|r0 m0 el0 st0 ws1 ws2 tk k ws3 ws4 t v s r' Hws1 Hws2 Hk Hws3 Hws4 Ht Hrest IH];
    intros r items st Ec; simplify_eq.
  - exists ws, [], s. rewrite app_nil_r. split_and!; [done|by left|done].
  - destruct (IH r (items ++ [v]) st eq_refl) as (t2 & vs & s2 & -> & Htail & Hrest2).
    exists (ws1 +:+ "," +:+ ws2 +:+ t +:+ t2), (v :: vs), s2. rewrite <-app_assoc in Hrest2.
    split_and!; [by rewrite !append_assoc| |done].
    right. exists ws1, (ws2 +:+ t +:+ t2). split_and!; [done|done|by apply elements_tail_cons].
Qed.

Lemma rest_object_inv c s r' :
  rest_of c s r' → ∀ r m el st, c = (r, Fobject m el :: st) →
  ∃ t kvs s', s = t +:+ String "}" s' ∧ members_tail t kvs ∧ rest_of (deliver (jobject (put_members m kvs)) r st) s' r'.
Proof.
  intros H. induction H as [r0|r0 items0 st0 ws s r' Hws Hrest _|r0 items0 st0 ws1 ws2 t v s r' Hws1 Hws2 Ht Hrest IH
    |r0 m0 el0 st0 ws s r' Hws Hrest _|r0 m0 el0 st0 ws1 ws2 tk k ws3 ws4 t v s r' Hws1 Hws2 Hk Hws3 Hws4 Ht Hrest IH];
    intros r m el st Ec; simplify_eq.
  - exists ws, [], s. split_and!; [done|by left|done].
  - destruct (IH r (map_put k v m) (Some k) st eq_refl) as (t2 & kvs & s2 & -> & Htail & Hrest2).
    exists (ws1 +:+ "," +:+ ws2 +:+ tk +:+ ws3 +:+ ":" +:+ ws4 +:+ t +:+ t2), ((k, v) :: kvs), s2.
    split_and!; [by repeat (rewrite !append_assoc; cbn [String.append])| |done].
    right. eexists ws1, _. split_and!; [done|reflexivity|by apply members_tail_cons].
Qed.

(** ** The loop *)

(** From a complete value: the text [u] in front of the lexer closes what is
    open. *)
Definition closes (u : string) (p p' : parser) : Prop :=
  ∃ s t, u = s +:+ t ∧ rest_of (root p, ref_stack p) s (root p') ∧ stands (m_lexer p') t.

(** From the first token of a value: the text [u] is the value and what closes
    the rest. *)
Definition completes (u : string) (p p' : parser) : Prop :=
  ∃ ws t v s t', u = ws +:+ t +:+ s +:+ t' ∧ all_space ws = true ∧ json_text t v
    ∧ rest_of (deliver v (root p) (ref_stack p)) s (root p') ∧ stands (m_lexer p') t'.

Definition loop_sound (fuel : nat) : Prop :=
  (∀ states p u, shape states (ref_stack p) → stands (m_lexer p) u →
     ensures (sax_parse_internal fuel states true) p (λ _ p', closes u p p'))
  ∧ (∀ states p u, shape states (ref_stack p) → at_token u p →
     ensures (sax_parse_internal fuel states false) p (λ _ p', completes u p p')).

(** A key and its colon. *)
Lemma parse_key_sound u p m el st :
  at_token u p → ref_stack p = Fobject m el :: st →
  ensures parse_key p (λ _ p', ∃ ws1 tk k ws2 t, u = ws1 +:+ tk +:+ ws2 +:+ String ":" t
    ∧ all_space ws1 = true ∧ string_text tk k ∧ all_space ws2 = true ∧ stands (m_lexer p') t
    ∧ root p' = root p
    ∧ ref_stack p' = Fobject (if map_mem k m then m else map_put k jnull m) (Some k) :: st).
Proof.
  intros Hat Est. unfold parse_key. do 2 ens_step. case_decide as Hv; [ens_step|].
  destruct (at_scalar u p Hat) as (ws1 & tk & t & v & -> & Hws1 & Hsc & Htok & Hst).
  { by rewrite Hv. }
  rewrite Hv in Htok. ens_step. eapply ensures_run. { unfold sax_key. by rewrite Est. }
  ens_step. eapply ensures_get_token; [exact Hst|]. intros p1 Hat1 [Hroot1 Hstack1].
  case_decide as Hn; [ens_step|]. ens_step.
  destruct (at_punctuation ":" _ _ _ Hat1 Hn) as (ws2 & t2 & -> & Hws2 & Hst2); [done|].
  assert (Hs : ∃ k, v = jstring k ∧ token_buffer (m_lexer p) = k ∧ string_text tk k).
  { destruct v as [| | |k|[]| | | |]; cbn [token_is] in Htok; try (by destruct Htok); try done.
    exists k. split_and!; [done|by destruct Htok|]. inversion Hsc as [| | |? ? Hk|? ? Hk]; subst; [done|inversion Hk]. }
  destruct Hs as (k & -> & Hbuf & Hk). exists ws1, tk, k, ws2, t2. rewrite Hbuf in *.
  split_and!; [done|done|done|done|done|done|done].
Qed.

(** What [evaluate_state] does, with the loop after it. *)
Definition after_state (fuel : nat) (r : option (list bool * bool)) : M exn parser bool :=
  match r with
  | None => ret true
  | Some (states, skip) => sax_parse_internal fuel states skip
  end.

(** The value of a member, its key having been read, and what closes the
    rest. *)
Lemma member_sound fuel states p u m k st :
  loop_sound fuel → shape states st → map_wf m →
  ref_stack p = Fobject (if map_mem k m then m else map_put k jnull m) (Some k) :: st →
  stands (m_lexer p) u →
  ensures (get_token ;; ret (Some (false :: states, false))) p (λ r p1,
    ensures (after_state fuel r) p1 (λ _ p',
      ∃ ws t v s t', u = ws +:+ t +:+ s +:+ t' ∧ all_space ws = true ∧ json_text t v
        ∧ rest_of (root p, Fobject (map_put k v m) (Some k) :: st) s (root p') ∧ stands (m_lexer p') t')).
Proof.
  intros [_ IH] Hsh Hwf Est Hst. ens_step. eapply ensures_get_token; [exact Hst|].
  intros p1 Hat1 [Hroot1 Hstack1]. ens_step. eapply ensures_mono; [apply (IH (false :: states) p1 u)|].
  - rewrite Hstack1, Est. split; [case_match; [done|by apply map_put_wf]|done].
  - done.
  - intros _ p' (ws & t & v & s & t' & -> & Hws & Ht & Hrest & Hst').
    rewrite Hroot1, Hstack1, Est in Hrest. cbn [deliver] in Hrest. rewrite member_put in Hrest by done.
    by exists ws, t, v, s, t'.
Qed.

Lemma evaluate_array_sound fuel states p u :
  loop_sound fuel → shape (true :: states) (ref_stack p) → stands (m_lexer p) u →
  ensures (r <- evaluate_state (true :: states) ;; after_state fuel r) p (λ _ p', closes u p p').
Proof.
  intros IH Hsh Hst. ens_step. cbn [evaluate_state].
  destruct (ref_stack p) as [|[items|] st] eqn:Est; try done. cbn [shape] in Hsh.
  ens_step. eapply ensures_get_token; [exact Hst|]. intros p1 Hat1 [Hroot1 Hstack1].
  case_decide as Hsep; [|case_decide as Hend; [|ens_step]].
  - destruct (at_punctuation "," _ _ _ Hat1 Hsep) as (ws1 & t1 & -> & Hws1 & Hst1); [done|].
    ens_step. eapply ensures_get_token; [exact Hst1|]. intros p2 Hat2 [Hroot2 Hstack2]. ens_step.
    eapply ensures_mono; [apply (proj2 IH (true :: states) p2 t1)|]; [|done|].
    { rewrite Hstack2, Hstack1, Est. exact Hsh. }
    intros _ p' (ws2 & t & v & s & t' & -> & Hws2 & Ht & Hrest & Hst').
    rewrite Hroot2, Hstack2, Hroot1, Hstack1, Est in Hrest.
    exists (ws1 +:+ String "," (ws2 +:+ t +:+ s)), t'.
    split_and!; [by repeat (rewrite !append_assoc; cbn [String.append])| |done]. rewrite Est. by eapply rest_item.
  - destruct (at_punctuation "]" _ _ _ Hat1 Hend) as (ws1 & t1 & -> & Hws1 & Hst1); [done|].
    ens_step. eapply ensures_run.
    { unfold sax_end_array. rewrite Hstack1, Est. apply handle_value_deliver. by eapply shape_receives. }
    ens_step. eapply ensures_mono; [apply (proj1 IH states _ t1)|]; [|exact Hst1|].
    { by apply shape_deliver. }
    intros _ p' (s & t' & -> & Hrest & Hst'). cbn [root ref_stack with_sax] in Hrest.
    rewrite <-surjective_pairing, Hroot1 in Hrest. exists (ws1 +:+ String "]" s), t'.
    split_and!; [by rewrite append_assoc| |done]. rewrite Est. by constructor.
Qed.

Lemma evaluate_object_sound fuel states p u :
  loop_sound fuel → shape (false :: states) (ref_stack p) → stands (m_lexer p) u →
  ensures (r <- evaluate_state (false :: states) ;; after_state fuel r) p (λ _ p', closes u p p').
Proof.
  intros IH Hsh Hst. ens_step. cbn [evaluate_state].
  destruct (ref_stack p) as [|[|m [k0|]] st] eqn:Est; try done. cbn [shape] in Hsh. destruct Hsh as [Hwf Hsh].
  ens_step. eapply ensures_get_token; [exact Hst|]. intros p1 Hat1 [Hroot1 Hstack1].
  case_decide as Hsep; [|case_decide as Hend; [|ens_step]].
  - destruct (at_punctuation "," _ _ _ Hat1 Hsep) as (ws1 & t1 & -> & Hws1 & Hst1); [done|].
    ens_step. eapply ensures_get_token; [exact Hst1|]. intros p2 Hat2 [Hroot2 Hstack2]. ens_step.
    eapply ensures_mono; [apply (parse_key_sound t1 p2 m (Some k0) st); [done|congruence]|].
    intros _ p3 (ws2 & tk & k & ws3 & t3 & -> & Hws2 & Hk & Hws3 & Hst3 & Hroot3 & Hstack3).
    eapply ensures_mono; [by apply (member_sound fuel states p3 t3 m k st)|].
    intros r p4 H4. eapply ensures_mono; [exact H4|].
    intros _ p' (ws4 & t & v & s & t' & -> & Hws4 & Ht & Hrest & Hst').
    rewrite Hroot3, Hroot2, Hroot1 in Hrest.
    exists (ws1 +:+ String "," (ws2 +:+ tk +:+ ws3 +:+ String ":" (ws4 +:+ t +:+ s))), t'.
    split_and!; [by repeat (rewrite !append_assoc; cbn [String.append])| |done]. rewrite Est. by eapply rest_member.
  - destruct (at_punctuation "}" _ _ _ Hat1 Hend) as (ws1 & t1 & -> & Hws1 & Hst1); [done|].
    ens_step. eapply ensures_run.
    { unfold sax_end_object. rewrite Hstack1, Est. apply handle_value_deliver. by eapply shape_receives. }
    ens_step. eapply ensures_mono; [apply (proj1 IH states _ t1)|]; [|exact Hst1|].
    { by apply shape_deliver. }
    intros _ p' (s & t' & -> & Hrest & Hst'). cbn [root ref_stack with_sax] in Hrest.
    rewrite <-surjective_pairing, Hroot1 in Hrest. exists (ws1 +:+ String "}" s), t'.
    split_and!; [by rewrite append_assoc| |done]. rewrite Est. by constructor.
Qed.

Lemma evaluate_sound fuel states p u :
  loop_sound fuel → shape states (ref_stack p) → stands (m_lexer p) u →
  ensures (r <- evaluate_state states ;; after_state fuel r) p (λ _ p', closes u p p').
Proof.
  intros IH Hsh Hst. destruct states as [|[] states].
  - ens_step. cbn [evaluate_state]. ens_step. cbn [after_state]. ens_step. exists "", u. split_and!; [done| |done]. destruct (ref_stack p); [constructor|done].
  - by apply evaluate_array_sound.
  - by apply evaluate_object_sound.
Qed.

(** ** The [switch] on the token *)

(** The loop after the [switch]. *)
Definition after_value (fuel : nat) (states : list bool) (r : option (list bool)) : M exn parser bool :=
  match r with
  | Some states => sax_parse_internal fuel states false
  | None => r <- evaluate_state states ;; after_state fuel r
  end.

Lemma scalar_sound fuel states p u ws txt t v :
  loop_sound fuel → shape states (ref_stack p) → u = ws +:+ txt +:+ t → all_space ws = true →
  json_text txt v → stands (m_lexer p) t →
  ensures (handle_value v ;; ret None) p (λ r p1,
    ensures (after_value fuel states r) p1 (λ _ p', completes u p p')).
Proof.
  intros IH Hsh -> Hws Hv Hst. ens_step.
  eapply ensures_run; [apply handle_value_deliver; by eapply shape_receives|]. ens_step. cbn [after_value].
  eapply ensures_mono; [apply (evaluate_sound fuel states _ t); [done|by apply shape_deliver|exact Hst]|].
  intros _ p' (s & t' & -> & Hrest & Hst'). cbn [root ref_stack with_sax] in Hrest.
  rewrite <-surjective_pairing in Hrest. exists ws, txt, v, s, t'. by split_and!.
Qed.

(** An empty container, its closing bracket having been read. *)
Lemma empty_sound fuel states p p1 u ws txt t v (m : M exn parser unit) :
  loop_sound fuel → shape states (ref_stack p) → u = ws +:+ txt +:+ t → all_space ws = true →
  json_text txt v → stands (m_lexer p1) t →
  m p1 = (Ok tt, with_sax (deliver v (root p) (ref_stack p)).1 (deliver v (root p) (ref_stack p)).2 p1) →
  ensures (m ;; ret None) p1 (λ r p2,
    ensures (after_value fuel states r) p2 (λ _ p', completes u p p')).
Proof.
  intros IH Hsh -> Hws Hv Hst Hm. ens_step. eapply ensures_run; [exact Hm|]. ens_step. cbn [after_value].
  eapply ensures_mono; [apply (evaluate_sound fuel states _ t); [done|by apply shape_deliver|exact Hst]|].
  intros _ p' (s & t' & -> & Hrest & Hst'). cbn [root ref_stack with_sax] in Hrest.
  rewrite <-surjective_pairing in Hrest. exists ws, txt, v, s, t'. by split_and!.
Qed.

Lemma array_sound fuel states p u :
  loop_sound fuel → shape states (ref_stack p) → at_token u p → last_token p = begin_array →
  ensures (parse_value states) p (λ r p1, ensures (after_value fuel states r) p1 (λ _ p', completes u p p')).
Proof.
  intros IH Hsh Hat Hlast. unfold parse_value. do 2 ens_step. rewrite Hlast.
  destruct (at_punctuation "[" _ _ _ Hat Hlast) as (ws & t & -> & Hws & Hst); [done|].
  unfold sax_start_array. do 3 ens_step. eapply ensures_get_token; [exact Hst|]. intros p1 Hat1 [Hroot1 Hstack1].
  cbn [root ref_stack with_sax] in Hroot1, Hstack1. case_decide as Hend.
  - destruct (at_punctuation "]" _ _ _ Hat1 Hend) as (ws1 & t1 & -> & Hws1 & Hst1); [done|].
    eapply (empty_sound fuel states p p1 _ ws ("[" +:+ ws1 +:+ "]") t1); try done.
    + by repeat (rewrite !append_assoc; cbn [String.append]).
    + by apply text_empty_array.
    + unfold sax_end_array. rewrite Hstack1, handle_value_deliver by (by eapply shape_receives).
      cbn [root ref_stack with_sax]. by rewrite Hroot1.
  - ens_step. cbn [after_value]. eapply ensures_mono; [apply (proj2 IH (true :: states) p1 t); [by rewrite Hstack1|done]|].
    intros _ p' (ws1 & t1 & v & s & t' & -> & Hws1 & Ht1 & Hrest & Hst').
    rewrite Hroot1, Hstack1 in Hrest. cbn [deliver app] in Hrest.
    destruct (rest_array_inv _ _ _ Hrest _ _ _ eq_refl) as (t2 & vs & s2 & -> & Htail & Hrest2).
    exists ws, ("[" +:+ (ws1 +:+ t1 +:+ t2) +:+ "]"), (jarray (v :: vs)), s2, t'.
    split_and!; [by repeat (rewrite !append_assoc; cbn [String.append])|done| |done|done].
    apply text_array. by apply elements_tail_cons.
Qed.

Lemma object_sound fuel states p u :
  loop_sound fuel → shape states (ref_stack p) → at_token u p → last_token p = begin_object →
  ensures (parse_value states) p (λ r p1, ensures (after_value fuel states r) p1 (λ _ p', completes u p p')).
Proof.
  intros IH Hsh Hat Hlast. unfold parse_value. do 2 ens_step. rewrite Hlast.
  destruct (at_punctuation "{" _ _ _ Hat Hlast) as (ws & t & -> & Hws & Hst); [done|].
  unfold sax_start_object. do 3 ens_step. eapply ensures_get_token; [exact Hst|]. intros p1 Hat1 [Hroot1 Hstack1].
  cbn [root ref_stack with_sax] in Hroot1, Hstack1. case_decide as Hend.
  - destruct (at_punctuation "}" _ _ _ Hat1 Hend) as (ws1 & t1 & -> & Hws1 & Hst1); [done|].
    eapply (empty_sound fuel states p p1 _ ws ("{" +:+ ws1 +:+ "}") t1); try done.
    + by repeat (rewrite !append_assoc; cbn [String.append]).
    + by apply text_empty_object.
    + unfold sax_end_object. rewrite Hstack1, handle_value_deliver by (by eapply shape_receives).
      cbn [root ref_stack with_sax]. by rewrite Hroot1.
  - ens_step. eapply ensures_mono; [apply (parse_key_sound t p1 [] None (ref_stack p)); [done|done]|].
    intros _ p2 (ws1 & tk & k & ws2 & t2 & -> & Hws1 & Hk & Hws2 & Hst2 & Hroot2 & Hstack2).
    pose proof (member_sound fuel states p2 t2 [] k (ref_stack p) IH Hsh ltac:(constructor) Hstack2 Hst2) as Hmem.
    unfold ensures, bind, ret, after_value, after_state in Hmem |- *.
    destruct (get_token p2) as [[tok| | |] p3]; try done.
    destruct (sax_parse_internal fuel (false :: states) false p3) as [[b| | |] p']; try done.
    destruct Hmem as (ws3 & t3 & v & s & t' & -> & Hws3 & Ht3 & Hrest & Hst').
    rewrite Hroot2, Hroot1 in Hrest.
    destruct (rest_object_inv _ _ _ Hrest _ _ _ _ eq_refl) as (t4 & kvs & s2 & -> & Htail & Hrest2).
    exists ws, ("{" +:+ (ws1 +:+ tk +:+ ws2 +:+ ":" +:+ ws3 +:+ t3 +:+ t4) +:+ "}"),
      (jobject (put_members [] ((k, v) :: kvs))), s2, t'.
    split_and!; [by repeat (rewrite !append_assoc; cbn [String.append])|done| |done|done].
    apply text_object. by apply members_tail_cons.
Qed.

(** The value a token carries, as the [switch] reads it from the lexer. *)
Lemma token_value_sound fuel states p u v :
  loop_sound fuel → shape states (ref_stack p) → at_token u p →
  match last_token p with
  | literal_true | literal_false | literal_null | value_string | value_unsigned | value_integer | value_float => True
  | _ => False
  end →
  (∀ w, token_is w (last_token p) (m_lexer p) → w = v ∨ w = jdiscarded ∨ ∃ x, w = jobject x ∨ ∃ y, w = jarray y) →
  representable v = true →
  ensures (handle_value v ;; ret None) p (λ r p1,
    ensures (after_value fuel states r) p1 (λ _ p', completes u p p')).
Proof.
  intros IH Hsh Hat Hk Hv Hrep. destruct (at_scalar u p Hat Hk) as (ws & txt & t & w & -> & Hws & Hsc & Htok & Hst).
  assert (w = v) as ->.
  { pose proof (scalar_text_kind _ _ Hsc). by destruct (Hv w Htok) as [->|[->|(x & [->|(y & ->)])]]. }
  eapply scalar_sound; [done|done|done|done|by apply text_scalar|done].
Qed.

Lemma parse_value_sound fuel states p u :
  loop_sound fuel → shape states (ref_stack p) → at_token u p →
  ensures (parse_value states) p (λ r p1, ensures (after_value fuel states r) p1 (λ _ p', completes u p p')).
Proof.
  intros IH Hsh Hat. destruct (last_token p) eqn:Hlast;
    try (by apply array_sound); try (by apply object_sound); unfold parse_value; do 2 ens_step; rewrite Hlast;
    try apply ensures_error.
  7: destruct (isfinite (lx_float (m_lexer p))) eqn:Hfin; cbn [negb]; [|done].
  all: eapply token_value_sound; [exact IH|exact Hsh|exact Hat|by rewrite Hlast| |try done].
  all: rewrite Hlast; intros w Hw; destruct w as [| | | |[]| | | |]; cbn [token_is] in Hw; try done;
    try match type of Hw with _ ∧ _ => destruct Hw as [? <-] end; try done; by left.
Qed.

Lemma loop_is_sound fuel : loop_sound fuel.
Proof.
  induction fuel as [|fuel IH]; [by split|]. split; intros states p u Hsh Hu; cbn [sax_parse_internal].
  - do 2 ens_step. by apply (evaluate_sound fuel states p u).
  - ens_step. by apply (parse_value_sound fuel states p u).
Qed.

(** ** Documents *)

Lemma ensures_first_token input (Q : token_type → parser → Prop) :
  (∀ p bom u, input = bom +:+ u → bom = "" ∨ bom = byte_order_mark → at_token u p →
     root p = jnull → ref_stack p = [] → Q (last_token p) p) →
  (∀ p, last_token p = tok_parse_error → Q tok_parse_error p) →
  ensures get_token (parser_init input) Q.
Proof.
  intros HQ Hbad. apply (wp_ensures _ _ _ no_exn). unfold get_token. do 2 wp_step.
  eapply wp_mono; [apply wp_scan_init_sound| |intros ?? H; exact H].
  intros tok l [->|(bom & u & -> & Hbom & Hs)]; do 3 wp_step.
  - by apply Hbad.
  - match goal with |- Q tok ?p' => apply (HQ p' bom u) end; done.
Qed.

Lemma accepted_document input v : json_parse input = Ok v → document input v.
Proof.
  assert (H : ensures (parse_strict (parse_fuel input)) (parser_init input) (λ v _, document input v)).
  { unfold parse_strict. ens_step. apply ensures_first_token.
    2:{ intros p Hp. ens_step. unfold parse_fuel. cbn [sax_parse_internal]. ens_step.
        unfold parse_value. do 2 ens_step. by rewrite Hp. }
    intros p bom u -> Hbom Hat Hroot Hstack. ens_step.
    eapply ensures_mono; [apply (proj2 (loop_is_sound _) [] p u); [by rewrite Hstack|done]|].
    intros _ p1 (ws & t & w & s & t' & -> & Hws & Ht & Hrest & Hst). rewrite Hroot, Hstack in Hrest.
    cbn [deliver] in Hrest. inversion Hrest as [r E1 E2 E3| | | |]; subst.
    ens_step. eapply ensures_get_token; [exact Hst|]. intros p2 Hat2 [Hroot2 _].
    case_decide as Hend; [ens_step|]. unfold gets. eapply ensures_run; [done|].
    unfold at_token in Hat2. rewrite Hend in Hat2.
    inversion Hat2 as [|ws2 r l E Hws2 Hr|ws2 txt t2 tok l E Hws2 Htxt _]; subst.
    - rewrite Hroot2. cbn [String.append]. by constructor.
    - exfalso. inversion Htxt as [c tok l Hp|txt' v' tok l Hsc Htok]; subst.
      + by unfold punctuation in Hp; repeat case_match.
      + pose proof (scalar_text_kind _ _ Hsc). destruct v' as [| | | |[]| | | |]; cbn [token_is] in Htok; intuition congruence. }
  unfold json_parse. unfold ensures in H. destruct (parse_strict _ _) as [[r| | |] p]; simpl; try done.
  by intros [= <-].
Qed.


