(* ===== verification/JsonRoundtrip.v ===== *)
(** * Printing, then parsing

    What [dump] prints is a text of the grammar for the value it was given,
    with and without indentation, so [json::parse] reads the value back; and
    what [json::parse] built from any text survives printing and parsing. *)

From stdpp Require Import base gmap strings list sorting.
From Stdlib Require Import ZArith Ascii Lia.
From S2P Require Import Prelude Cxx StdMap JsonValue Grisu GrisuDigits Utf8 JsonDump JsonRender JsonLexer JsonLexerSpec Strtod FloatText JsonGrammar JsonSax JsonParser JsonParserSpec JsonAccepts.

(** ** Strings *)

Lemma hex_value_digit d : 0 ≤ d < 16 → hex_value (byte_of (hex_digit false d)) = Some d.
Proof.
  intros Hd. assert (H : d = 0 ∨ d = 1 ∨ d = 2 ∨ d = 3 ∨ d = 4 ∨ d = 5 ∨ d = 6 ∨ d = 7 ∨ d = 8
    ∨ d = 9 ∨ d = 10 ∨ d = 11 ∨ d = 12 ∨ d = 13 ∨ d = 14 ∨ d = 15) by lia.
  repeat destruct H as [->|H]; try done. by subst.
Qed.

(** The digits [snprintf] prints. *)
Lemma four_hex_hex4 z : 0 ≤ z < 2 ^ 16 → four_hex (hex4 z) z.
Proof.
  intros Hz. unfold hex4.
  assert (Hd : ∀ k, 0 ≤ Z.land (Z.shiftr z k) 0xF < 16).
  { intros k. change 0xF with (Z.ones 4). rewrite Z.land_ones by lia. apply Z.mod_pos_bound. lia. }
  assert (Hsum : Z.land (Z.shiftr z 12) 15 * 0x1000 + Z.land (Z.shiftr z 8) 15 * 0x100
    + Z.land (Z.shiftr z 4) 15 * 0x10 + Z.land (Z.shiftr z 0) 15 = z).
  { change 15 with (Z.ones 4). rewrite !Z.land_ones, !Z.shiftr_div_pow2 by lia.
    change (2 ^ 12) with 4096. change (2 ^ 8) with 256. change (2 ^ 4) with 16. change (2 ^ 0) with 1.
    change (2 ^ 16) with 65536 in Hz. Z.to_euclidean_division_equations. lia. }
  rewrite <-Hsum at 5. constructor; by apply hex_value_digit.
Qed.

Lemma utf8_of_ascii c : byte_of c ≤ 0x7F → utf8_of (byte_of c) = String c "".
Proof.
  intros Hc. unfold utf8_of, encode. rewrite (proj2 (Z.ltb_lt _ 0x80)) by lia. cbn [string_of].
  by rewrite char_of_byte_of.
Qed.

(** An ASCII character, escaped or not. *)
Lemma escape_char_text c : byte_of c ≤ 0x7F → char_text (escape_char c) (String c "").
Proof.
  intros Hc. pose proof (byte_of_range c) as Hrange. rewrite <-utf8_of_ascii by done. unfold escape_char.
  repeat match goal with |- context [if (byte_of c =? ?k) then _ else _] =>
    destruct (byte_of c =? k) eqn:?; zify_cmp;
    [match goal with H : byte_of c = _ |- _ => rewrite H; by apply char_escape end|]
  end.
  destruct (byte_of c <=? 0x1F) eqn:E; zify_cmp.
  - unfold unicode_escape. rewrite wrap_small by lia.
    apply char_unicode; [apply four_hex_hex4; lia|unfold is_high; lia|unfold is_low; lia].
  - rewrite <-utf8_of_ascii by done. apply char_unescaped; [unfold scalar_value; lia|lia|done|done].
Qed.

(** *** Multi-byte characters *)

Ltac solve_ranges := split_and!; try done; repeat constructor; simpl; lia.

(** The continuation bytes a lead byte announces. *)
Lemma utf8_lead b0 l :
  utf8 (b0 :: l) = true → 0x7F < b0 →
  ∃ ranges seg l', lead_ranges b0 = Some ranges ∧ l = seg ++ l'
    ∧ Forall2 (λ b r, r.1 ≤ b ≤ r.2) seg ranges ∧ Forall (λ b, 0x80 ≤ b) seg ∧ utf8 l' = true.
Proof.
  intros Hu Hb. cbn [utf8] in Hu. unfold lead_ranges.
  assert (Ha : in_range 0x00 0x7F b0 = false) by (unfold in_range; apply andb_false_iff; right; by apply Z.leb_gt).
  rewrite Ha in Hu.
  assert (Hrange : ∀ lo hi b, in_range lo hi b = true → lo ≤ b ≤ hi).
  { unfold in_range. intros lo hi b [??]%andb_true_iff. zify_cmp. lia. }
  assert (Hcont : ∀ b, is_cont b = true → 0x80 ≤ b ≤ 0xBF) by (intros b; apply Hrange).
  destruct l as [|b1 l]; [done|].
  destruct (in_range 0xC2 0xDF b0) eqn:E1.
  { apply andb_true_iff in Hu as [H1%Hcont Hu]. exists [(0x80, 0xBF)], [b1], l.
    solve_ranges. }
  destruct l as [|b2 l]; [done|].
  destruct (b0 =? 0xE0) eqn:E2.
  { apply andb_true_iff in Hu as [[H1%Hrange H2%Hcont]%andb_true_iff Hu].
    exists [(0xA0, 0xBF); (0x80, 0xBF)], [b1; b2], l.
    solve_ranges. }
  destruct (in_range 0xE1 0xEC b0 || in_range 0xEE 0xEF b0) eqn:E3.
  { assert (Hx : is_cont b1 && is_cont b2 && utf8 l = true).
    { apply orb_true_iff in E3 as [E3|E3]; rewrite E3 in Hu; [done|].
      apply Hrange in E3. unfold in_range in Hu.
      destruct ((0xE1 <=? b0) && (b0 <=? 0xEC)) eqn:Ex; [apply andb_true_iff in Ex; zify_cmp; lia|].
      by rewrite (proj2 (Z.eqb_neq b0 0xED)) in Hu by lia. }
    apply andb_true_iff in Hx as [[H1%Hcont H2%Hcont]%andb_true_iff Hu'].
    exists [(0x80, 0xBF); (0x80, 0xBF)], [b1; b2], l.
    solve_ranges. }
  apply orb_false_iff in E3 as [E3 E3']. rewrite E3 in Hu.
  destruct (b0 =? 0xED) eqn:E4.
  { apply andb_true_iff in Hu as [[H1%Hrange H2%Hcont]%andb_true_iff Hu].
    exists [(0x80, 0x9F); (0x80, 0xBF)], [b1; b2], l.
    solve_ranges. }
  rewrite E3' in Hu. destruct l as [|b3 l]; [done|].
  destruct (b0 =? 0xF0) eqn:E5.
  { apply andb_true_iff in Hu as [[[H1%Hrange H2%Hcont]%andb_true_iff H3%Hcont]%andb_true_iff Hu].
    exists [(0x90, 0xBF); (0x80, 0xBF); (0x80, 0xBF)], [b1; b2; b3], l.
    solve_ranges. }
  destruct (in_range 0xF1 0xF3 b0) eqn:E6.
  { apply andb_true_iff in Hu as [[[H1%Hcont H2%Hcont]%andb_true_iff H3%Hcont]%andb_true_iff Hu].
    exists [(0x80, 0xBF); (0x80, 0xBF); (0x80, 0xBF)], [b1; b2; b3], l.
    solve_ranges. }
  destruct (b0 =? 0xF4) eqn:E7; [|done].
  apply andb_true_iff in Hu as [[[H1%Hrange H2%Hcont]%andb_true_iff H3%Hcont]%andb_true_iff Hu].
  exists [(0x80, 0x8F); (0x80, 0xBF); (0x80, 0xBF)], [b1; b2; b3], l.
  solve_ranges.
Qed.

Lemma utf8_string_lead c s :
  utf8_string (String c s) = true → 0x7F < byte_of c →
  ∃ ranges seg s', lead_ranges (byte_of c) = Some ranges ∧ s = seg +:+ s'
    ∧ Forall2 (λ b r, r.1 ≤ b ≤ r.2) (bytes_of seg) ranges ∧ Forall (λ b, 0x80 ≤ b) (bytes_of seg)
    ∧ utf8_string s' = true.
Proof.
  intros Hu Hc. destruct (utf8_lead _ (bytes_of s) Hu Hc) as (ranges & seg & l' & Hl & Hs & Hf & Hh & Hu').
  pose proof (bytes_of_is_byte s) as Hb. rewrite Hs in Hb. apply Forall_app in Hb as [Hb1 Hb2].
  exists ranges, (string_of seg), (string_of l'). unfold utf8_string.
  rewrite !bytes_of_string_of by done. split_and!; try done.
  by rewrite <-string_of_app, <-Hs, string_of_bytes_of.
Qed.

Lemma escape_high s : Forall (λ b, 0x80 ≤ b) (bytes_of s) → escape s = s.
Proof.
  induction s as [|c s IH]; [done|]. cbn [bytes_of escape].
  intros [Hc Hs]%Forall_cons. rewrite escape_char_high, IH by done. done.
Qed.

Lemma escape_app s t : escape (s +:+ t) = escape s +:+ escape t.
Proof. induction s as [|c s IH]; [done|]. cbn [escape String.append]. by rewrite IH, append_assoc. Qed.

Lemma utf8_string_ascii c s : utf8_string (String c s) = true → byte_of c ≤ 0x7F → utf8_string s = true.
Proof.
  unfold utf8_string. cbn [bytes_of utf8]. intros Hu Hc. unfold in_range in Hu. pose proof (byte_of_range c).
  by rewrite (proj2 (Z.leb_le 0x00 _)), (proj2 (Z.leb_le _ 0x7F)) in Hu by lia.
Qed.

Lemma escape_text s : utf8_string s = true → chars_text (escape s) s.
Proof.
  remember (String.length s) as n eqn:Hn. revert s Hn. induction n as [n IH] using lt_wf_ind. intros [|c s] -> Hu.
  { constructor. }
  cbn [escape]. destruct (decide (byte_of c ≤ 0x7F)) as [Hc|Hc].
  - apply (chars_cons _ (String c "")); [by apply escape_char_text|].
    eapply IH; [|reflexivity|by eapply utf8_string_ascii]. simpl. lia.
  - destruct (utf8_string_lead c s Hu) as (ranges & seg & s' & Hl & -> & Hseg & Hhigh & Hu'); [lia|].
    rewrite escape_char_high by lia. rewrite escape_app, (escape_high seg) by done. cbn [String.append].
    change (String c (seg +:+ escape s')) with (String c seg +:+ escape s').
    change (String c (seg +:+ s')) with (String c seg +:+ s').
    destruct (lead_encode _ _ _ Hl Hseg) as (cp & Hcp & Hge & He).
    assert (Hutf : String c seg = utf8_of cp).
    { unfold utf8_of. rewrite <-He. cbn [string_of]. by rewrite char_of_byte_of, string_of_bytes_of. }
    rewrite Hutf. apply chars_cons; [apply char_unescaped; [done|lia|lia|lia]|].
    eapply IH; [|reflexivity|done]. cbn [String.length]. rewrite length_append. lia.
Qed.

Lemma render_string_text s : utf8_string s = true → string_text (render_string s) s.
Proof. intros Hu. unfold render_string. by apply (StringText (escape s)), escape_text. Qed.

(** ** Numbers *)

(** A positive number starts with a digit other than 0. *)
(** The digits of a non-negative number as [scan_number] sees them. *)
Lemma to_string_shape n :
  0 ≤ n →
  (n = 0 ∧ to_string n = "0")
  ∨ ∃ d ds, to_string n = String (digit d) ds ∧ 1 ≤ d ≤ 9 ∧ all_digits ds = true
            ∧ dec_value 0 (String (digit d) ds) = n.
Proof.
  intros Hn. destruct (decide (n = 0)) as [->|Hne]; [by left|]. right.
  destruct (to_string_nonneg n Hn) as (Hv & Ha & _). unfold to_string in *.
  rewrite (proj2 (Z.ltb_ge n 0)) in * by lia.
  destruct (dec_digits_head (dec_fuel n) n "") as (d & ds & Hd & Hrange).
  { split; [lia|]. apply dec_fuel_enough. lia. }
  rewrite Hd in *. exists d, ds. split_and!; try done; [lia|lia|].
  cbn [all_digits] in Ha. by apply andb_true_iff in Ha as [_ ?].
Qed.

Lemma to_string_int n : 0 ≤ n → int_part (to_string n) ∧ dec_value 0 (to_string n) = n.
Proof.
  intros Hn. destruct (to_string_shape n Hn) as [[-> ->]|(d & ds & -> & Hd & Hds & Hv)]; [by repeat split; left|].
  split; [|done]. split.
  - cbn [all_digits]. rewrite digit_byte, Hds by lia. unfold is_digit. by rewrite !(proj2 (Z.leb_le _ _)) by lia.
  - right. split; [|done]. cbn [head_ok]. rewrite digit_byte by lia.
    apply negb_true_iff, Z.eqb_neq. lia.
Qed.

Lemma to_string_neg n : n < 0 → to_string n = String "-" (to_string (- n)).
Proof.
  intros Hn. unfold to_string. rewrite (proj2 (Z.ltb_lt n 0)), (proj2 (Z.ltb_ge (- n) 0)) by lia. done.
Qed.

Lemma unsigned_text n : 0 ≤ n < 2 ^ 64 → number_text (to_string n) (jnumber_unsigned n).
Proof.
  intros Hn. destruct (to_string_int n ltac:(lia)) as [Hip Hv].
  pose proof (number_unsigned (to_string n) Hip) as H. rewrite Hv in H. apply H. lia.
Qed.

Lemma integer_text n : - 2 ^ 63 ≤ n < 0 → number_text (to_string n) (jnumber_integer n).
Proof.
  intros Hn. destruct (to_string_int (- n) ltac:(lia)) as [Hip Hv]. rewrite to_string_neg by lia.
  pose proof (number_integer (to_string (- n)) Hip) as H. rewrite Hv, Z.opp_involutive in H. apply H. lia.
Qed.

Lemma float_text neg m e : valid_double (Dfin neg m e) = true →
  number_text (to_chars (Dfin neg m e)) (jnumber_float (Dfin neg m e)).
Proof.
  intros Hv. destruct (to_chars_literal neg m e Hv) as (s & M & e10 & -> & HL & <- & _). by constructor.
Qed.

(** ** Values *)

(** Values whose text the parser reads back: integers of the type the parser
    chooses, finite doubles, and well-formed strings. *)
Fixpoint canonical (v : json) : bool :=
  match v with
  | jnull | jboolean _ => true
  | jstring s => utf8_string s
  | jnumber_unsigned z => (0 <=? z) && (z <? 2 ^ 64)
  | jnumber_integer z => (- 2 ^ 63 <=? z) && (z <? 0)
  | jarray l => forallb canonical l
  | jobject m => forallb (λ kv, utf8_string kv.1 && canonical kv.2) m
  | jnumber_float d => valid_double d && isfinite d
  | jdiscarded => false
  end.

Lemma all_space_spaces n : all_space (spaces n) = true.
Proof. unfold spaces. induction (Z.to_nat n); [done|]. cbn [str_repeat String.append]. done. Qed.

(** The two layouts of a container have the same tokens. *)
Record layout (lead sep colon close : string) : Prop := {
  layout_lead : all_space lead = true;
  layout_sep : ∃ ws, sep = String "," ws ∧ all_space ws = true;
  layout_colon : ∃ ws, colon = String ":" ws ∧ all_space ws = true;
  layout_close : all_space close = true;
}.

Lemma render_array_layout v vs pretty step cur :
  ∃ open lead sep close cur', all_space open = true ∧ layout lead sep ":" close
    ∧ render (jarray (v :: vs)) pretty step cur
      = String "[" (open +:+ render_items (λ v, render v pretty step cur') lead sep (v :: vs)
                    +:+ close +:+ "]").
Proof.
  destruct pretty.
  - exists newline, (spaces (cur + step)), ("," +:+ newline), (newline +:+ spaces cur), (cur + step).
    split_and!; [done|constructor|].
    1: apply all_space_spaces. 1: by exists newline. 1: by exists "".
    1: apply all_space_app, all_space_spaces; done.
    cbn [render]. by rewrite !append_assoc.
  - exists "", "", ",", "", cur. split_and!; [done|constructor; try done; by exists ""|done].
Qed.

Lemma render_object_layout kv m pretty step cur :
  ∃ open lead sep colon close cur', all_space open = true ∧ layout lead sep colon close
    ∧ render (jobject (kv :: m)) pretty step cur
      = String "{" (open +:+ render_members (λ v, render v pretty step cur') lead colon sep (kv :: m)
                    +:+ close +:+ "}").
Proof.
  destruct pretty.
  - exists newline, (spaces (cur + step)), ("," +:+ newline), ": ", (newline +:+ spaces cur), (cur + step).
    split_and!; [done|constructor|].
    1: apply all_space_spaces. 1: by exists newline. 1: by exists " ".
    1: apply all_space_app, all_space_spaces; done.
    cbn [render]. by rewrite !append_assoc.
  - exists "", "", ",", ":", "", cur. split_and!; [done|constructor; try done; by exists ""|done].
Qed.

Lemma items_text f lead ws1 close v vs :
  all_space lead = true → all_space ws1 = true → all_space close = true →
  Forall (λ v, json_text (f v) v) (v :: vs) →
  ∀ ws, all_space ws = true → elements_text (ws +:+ render_items f lead (String "," ws1) (v :: vs) +:+ close) (v :: vs).
Proof.
  intros Hlead Hws1 Hclose. revert v. induction vs as [|v' vs IH]; intros v [Hv Hall]%Forall_cons ws Hws.
  - cbn [render_items]. pose proof (elements_one (ws +:+ lead) (f v) v close) as H.
    rewrite !append_assoc in *. apply H; [by apply all_space_app|done|done].
  - pose proof (elements_cons (ws +:+ lead) (f v) v "" (ws1 +:+ render_items f lead (String "," ws1) (v' :: vs) +:+ close)
      (v' :: vs)) as H. remember (v' :: vs) as l eqn:El. cbn [render_items]. rewrite El in *.
    cbn [String.append] in H |- *. rewrite !append_assoc in *. cbn [String.append] in H |- *. rewrite !append_assoc in *.
    apply H; [by apply all_space_app|done|done|by apply IH].
Qed.

Lemma render_members_text f lead ws1 ws4 close kv m :
  all_space lead = true → all_space ws1 = true → all_space ws4 = true → all_space close = true →
  Forall (λ kv, utf8_string kv.1 = true ∧ json_text (f kv.2) kv.2) (kv :: m) →
  ∀ ws, all_space ws = true →
    members_text (ws +:+ render_members f lead (String ":" ws4) (String "," ws1) (kv :: m) +:+ close) (kv :: m).
Proof.
  intros Hlead Hws1 Hws4 Hclose. revert kv.
  induction m as [|kv' m IH]; intros [k v] [[Hk Hv] Hall]%Forall_cons ws Hws; cbn [fst snd] in Hk, Hv.
  - cbn [render_members]. pose proof (members_one (ws +:+ lead) (render_string k) k "" ws4 (f v) v close) as H.
    cbn [String.append] in H |- *. rewrite !append_assoc in *. cbn [String.append] in H |- *. rewrite !append_assoc in *.
    apply H; [by apply all_space_app|by apply render_string_text|done|done|done|done].
  - pose proof (members_cons (ws +:+ lead) (render_string k) k "" ws4 (f v) v ""
      (ws1 +:+ render_members f lead (String ":" ws4) (String "," ws1) (kv' :: m) +:+ close) (kv' :: m)) as H.
    remember (kv' :: m) as l eqn:El. cbn [render_members]. rewrite El in *.
    repeat (cbn [String.append] in H |- *; rewrite ?append_assoc in * ).
    apply H; [by apply all_space_app|by apply render_string_text|done|done|done|done|by apply IH].
Qed.

Lemma array_text v vs pretty step cur :
  (∀ cur, Forall (λ v, json_text (render v pretty step cur) v) (v :: vs)) →
  json_text (render (jarray (v :: vs)) pretty step cur) (jarray (v :: vs)).
Proof.
  intros Hall. destruct (render_array_layout v vs pretty step cur)
    as (open & lead & sep & close & cur' & Hopen & [Hlead (ws1 & -> & Hws1) _ Hclose] & ->).
  pose proof (text_array _ _ (items_text (λ v, render v pretty step cur') lead ws1 close v vs
    Hlead Hws1 Hclose (Hall cur') open Hopen)) as H.
  by rewrite !append_assoc in H.
Qed.

Lemma object_text kv m pretty step cur :
  map_wf (kv :: m) → (∀ cur, Forall (λ kv, utf8_string kv.1 = true ∧ json_text (render kv.2 pretty step cur) kv.2) (kv :: m)) →
  json_text (render (jobject (kv :: m)) pretty step cur) (jobject (kv :: m)).
Proof.
  intros Hwf Hall. destruct (render_object_layout kv m pretty step cur)
    as (open & lead & sep & colon & close & cur' & Hopen & [Hlead (ws1 & -> & Hws1) (ws4 & -> & Hws4) Hclose] & ->).
  pose proof (text_object _ _ (render_members_text (λ v, render v pretty step cur') lead ws1 ws4 close kv m
    Hlead Hws1 Hws4 Hclose (Hall cur') open Hopen)) as H.
  rewrite (put_members_sorted (kv :: m) []) in H by done. by rewrite !append_assoc in H.
Qed.

(** [dump] prints a text of the grammar for its value. *)
Lemma render_text v : canonical v = true → json_wf v → ∀ pretty step cur, json_text (render v pretty step cur) v.
Proof.
  induction v as [|m IH|vs IH|s|b|z|z|d|] using json_ind; intros Hc Hwf pretty step cur; cbn [canonical] in Hc;
    inversion Hwf as [|m' Hm Hms|vs' Hvs| | | | | |]; subst.
  - by apply text_scalar; [constructor|].
  - destruct m as [|kv m]; [by apply (text_empty_object "")|]. apply object_text; [done|]. intros cur'.
    apply Forall_forall. intros kv' Hin. rewrite Forall_forall in IH, Hms. rewrite forallb_forall in Hc.
    specialize (Hc kv' ltac:(by apply list_elem_of_In)). apply andb_true_iff in Hc as [Hk Hv].
    split; [done|]. apply IH; auto.
  - destruct vs as [|v vs]; [by apply (text_empty_array "")|]. apply array_text. intros cur'.
    apply Forall_forall. intros w Hin. rewrite Forall_forall in IH, Hvs. rewrite forallb_forall in Hc.
    apply IH; auto. apply Hc. by apply list_elem_of_In.
  - apply text_scalar; [|done]. by apply scalar_string, render_string_text.
  - destruct b; by apply text_scalar; [constructor|].
  - apply andb_true_iff in Hc as [H1 H2]. zify_cmp. apply text_scalar; [|done].
    apply scalar_number. by apply integer_text.
  - apply andb_true_iff in Hc as [H1 H2]. zify_cmp. apply text_scalar; [|done].
    apply scalar_number. by apply unsigned_text.
  - apply andb_true_iff in Hc as [Hv Hfin]. destruct d as [neg m e| |]; [|done|done]. cbn [render isfinite].
    apply text_scalar; [|done]. apply scalar_number. by apply float_text.
  - done.
Qed.

(** ** The round trip *)

Lemma json_parse_render v pretty step cur :
  canonical v = true → json_wf v → json_parse (render v pretty step cur) = Ok v.
Proof.
  intros Hc Hwf. apply document_accepted.
  pose proof (Document "" "" (render v pretty step cur) v "" "" ltac:(by left) eq_refl
    (render_text v Hc Hwf pretty step cur) eq_refl ltac:(by left)) as H.
  by rewrite !append_nil_r in H.
Qed.

Lemma canonical_strings v : canonical v = true → strings_ok v = true.
Proof.
  induction v as [|m IH|vs IH|s|b|z|z|d|] using json_ind; try done; cbn [canonical strings_ok];
    rewrite !forallb_forall; intros Hc x Hx; rewrite Forall_forall in IH; specialize (Hc x Hx).
  - apply andb_true_iff in Hc as [-> Hv]. apply IH; [|done]. by apply list_elem_of_In.
  - apply IH; [|done]. by apply list_elem_of_In.
Qed.

Lemma canonical_numbers v : canonical v = true → numbers_ok v = true.
Proof.
  induction v as [|m IH|vs IH|s|b|z|z|d|] using json_ind; try done; cbn [canonical numbers_ok].
  - rewrite !forallb_forall; intros Hc x Hx; rewrite Forall_forall in IH; specialize (Hc x Hx).
    apply andb_true_iff in Hc as [_ Hv]. apply IH; [|done]. by apply list_elem_of_In.
  - rewrite !forallb_forall; intros Hc x Hx; rewrite Forall_forall in IH; specialize (Hc x Hx).
    apply IH; [|done]. by apply list_elem_of_In.
  - rewrite !andb_true_iff. intros [??]. zify_cmp. split; apply Z.leb_le || apply Z.ltb_lt; lia.
Qed.



(** ** Printing what was parsed *)

(** "-0" is parsed as a signed zero and printed as "0". *)
Fixpoint unsigned_zero (v : json) : json :=
  match v with
  | jnumber_integer 0 => jnumber_unsigned 0
  | jarray l => jarray (map unsigned_zero l)
  | jobject m => jobject (map (λ kv, (kv.1, unsigned_zero kv.2)) m)
  | v => v
  end.

Lemma render_items_map f g h lead sep l :
  Forall (λ v, f (h v) = g v) l → render_items f lead sep (map h l) = render_items g lead sep l.
Proof.
  induction 1 as [|v l Hv Hl IH]; [done|]. cbn [map render_items]. rewrite Hv.
  destruct l; [done|]. by rewrite <-IH.
Qed.

Lemma render_members_map f g h lead colon sep (m : list (string * json)) :
  Forall (λ kv, f (h kv.2) = g kv.2) m →
  render_members f lead colon sep (map (λ kv, (kv.1, h kv.2)) m) = render_members g lead colon sep m.
Proof.
  induction 1 as [|[k v] m Hv Hm IH]; [done|]. cbn [map render_members fst snd] in *. rewrite Hv.
  destruct m; [done|]. by rewrite <-IH.
Qed.

Lemma render_unsigned_zero v : ∀ pretty step cur,
  render (unsigned_zero v) pretty step cur = render v pretty step cur.
Proof.
  induction v as [|m IH|vs IH|s|b|z|z|d|] using json_ind; intros pretty step cur; try done.
  - destruct m as [|kv m]; [done|]. cbn [unsigned_zero map render].
    assert (Hall : ∀ p c, Forall (λ kv, render (unsigned_zero kv.2) p step c = render kv.2 p step c) (kv :: m)).
    { intros p c. eapply Forall_impl; [exact IH|]. auto. }
    set (f p c v := render v p step c). destruct pretty.
    + by rewrite <-(render_members_map (f true (cur + step)) (f true (cur + step)) unsigned_zero _ _ _ _ (Hall _ _)).
    + by rewrite <-(render_members_map (f false cur) (f false cur) unsigned_zero _ _ _ _ (Hall _ _)).
  - destruct vs as [|v vs]; [done|]. cbn [unsigned_zero map render].
    assert (Hall : ∀ p c, Forall (λ v, render (unsigned_zero v) p step c = render v p step c) (v :: vs)).
    { intros p c. eapply Forall_impl; [exact IH|]. auto. }
    set (f p c v := render v p step c). destruct pretty.
    + by rewrite <-(render_items_map (f true (cur + step)) (f true (cur + step)) unsigned_zero _ _ _ (Hall _ _)).
    + by rewrite <-(render_items_map (f false cur) (f false cur) unsigned_zero _ _ _ (Hall _ _)).
  - by destruct z.
Qed.

Lemma forallb_map {A B} (f : B → bool) (g : A → B) l : forallb f (map g l) = forallb (λ x, f (g x)) l.
Proof. induction l as [|x l IH]; [done|]. cbn [map forallb]. by rewrite IH. Qed.

Lemma forallb_Forall {A} (f : A → bool) l : Forall (λ x, f x = true) l → forallb f l = true.
Proof. induction 1 as [|x l Hx Hl IH]; [done|]. cbn [forallb]. by rewrite Hx, IH. Qed.

(** What was parsed is canonical up to the zero. *)
Lemma parsed_canonical v :
  parsed v → canonical (unsigned_zero v) = true ∧ json_wf (unsigned_zero v) ∧ numbers_ok v = true
             ∧ strings_ok v = true.
Proof.
  induction v as [|m IH|vs IH|s|b|z|z|d|] using json_ind; intros Hp; inversion Hp as [|m' Hwf Hm|vs' Hvs|s' Hs|b'|z' Hz|z' Hz|d' Hd Hf]; subst.
  - repeat constructor.
  - assert (Hall : Forall (λ kv, utf8_string kv.1 = true ∧ canonical (unsigned_zero kv.2) = true
      ∧ json_wf (unsigned_zero kv.2) ∧ numbers_ok kv.2 = true ∧ strings_ok kv.2 = true) m).
    { apply Forall_forall. intros kv Hin. rewrite Forall_forall in IH, Hm. destruct (Hm kv Hin). auto. }
    cbn [unsigned_zero canonical numbers_ok strings_ok]. rewrite forallb_map. split_and!.
    + apply forallb_Forall. eapply Forall_impl; [exact Hall|]. intros kv (H1 & H2 & _). cbn [fst snd]. by rewrite H1, H2.
    + constructor.
      * unfold map_wf in *. rewrite map_map. cbn. exact Hwf.
      * apply Forall_map. eapply Forall_impl; [exact Hall|]. intros kv (_ & _ & ? & _). done.
    + apply forallb_Forall. eapply Forall_impl; [exact Hall|]. by intros kv (_ & _ & _ & ? & _).
    + apply forallb_Forall. eapply Forall_impl; [exact Hall|]. intros kv (H1 & _ & _ & _ & H2). by rewrite H1, H2.
  - assert (Hall : Forall (λ v, canonical (unsigned_zero v) = true
      ∧ json_wf (unsigned_zero v) ∧ numbers_ok v = true ∧ strings_ok v = true) vs).
    { apply Forall_forall. intros v Hin. rewrite Forall_forall in IH, Hvs. auto. }
    cbn [unsigned_zero canonical numbers_ok strings_ok]. rewrite forallb_map. split_and!.
    + apply forallb_Forall. eapply Forall_impl; [exact Hall|]. by intros v (-> & _).
    + constructor. apply Forall_map. eapply Forall_impl; [exact Hall|]. by intros v (_ & ? & _).
    + apply forallb_Forall. eapply Forall_impl; [exact Hall|]. by intros v (_ & _ & -> & _).
    + apply forallb_Forall. eapply Forall_impl; [exact Hall|]. by intros v (_ & _ & _ & ->).
  - split_and!; [done|constructor|done|done].
  - repeat constructor.
  - cbn [numbers_ok strings_ok]. rewrite (proj2 (Z.leb_le _ _)), (proj2 (Z.ltb_lt _ _)) by lia.
    destruct z as [|z|z]; [split_and!; [done|constructor|done|done]|lia|].
    cbn [unsigned_zero canonical]. rewrite (proj2 (Z.leb_le _ _)) by lia. split_and!; [done|constructor|done|done].
  - cbn [unsigned_zero canonical numbers_ok strings_ok].
    rewrite (proj2 (Z.leb_le _ _)), (proj2 (Z.ltb_lt _ _)) by lia. split_and!; [done|constructor|done|done].
  - cbn [unsigned_zero canonical]. rewrite Hd, Hf. split_and!; [done|constructor|done|done].
Qed.

(** What [json::parse] accepts, [dump] prints, with any indentation up to
    512, and parsing the text again yields the same value, numbers included;
    only "-0" comes back as the unsigned zero. *)
Theorem reparse text v indent :
  indent ≤ 512 → json_parse text = Ok v →
  ∃ text', json_dump v indent = Ok text' ∧ json_parse text' = Ok (unsigned_zero v).
Proof.
  intros Hi Hparse. destruct (json_parse_cases text) as [(w & Hw & Hp)|(e & He & _)]; [|congruence].
  rewrite Hparse in Hw. injection Hw as <-.
  destruct (parsed_canonical v Hp) as (Hc & Hwf & Hn & Hs).
  pose proof (json_dump_render v indent Hi Hn) as Hd. rewrite Hs in Hd.
  exists (dump_text v indent). split; [exact Hd|]. unfold dump_text.
  case_match; rewrite <-render_unsigned_zero; by apply json_parse_render.
Qed.

Lemma reparse_witness :
  ∃ text', json_dump (jarray [jnumber_integer 0; jnumber_float (Dfin false 6755399441055744 (-52))]) 2 = Ok text'
    ∧ json_parse text' = Ok (unsigned_zero (jarray [jnumber_integer 0; jnumber_float (Dfin false 6755399441055744 (-52))])).
Proof. apply (reparse "[-0, 15E-1]"); [lia|]. vm_compute. reflexivity. Defined.
