(* ===== verification/JsonBinary.v ===== *)
(** * The binary formats: bytes, numbers and the reader (json.hpp)

    What [binary_writer] and [binary_reader] share between CBOR and
    MessagePack: numbers in network byte order whatever the byte order of the
    machine, IEEE-754 bit patterns, the input adapter and the loops that fill
    containers. *)

From stdpp Require Import base gmap strings list.
From Stdlib Require Import ZArith Ascii Lia.
From S2P Require Import Prelude Cxx StdMap JsonValue JsonSax.

(** The machine: its byte order, and [max_size] of the containers. *)
Class Machine : Type := {
  is_little_endian : bool;
  string_max_size : Z;
  array_max_size : Z;
  object_max_size : Z;
}.

(** Sizes are below 2^63. *)
Class MachineSpec `{Machine} : Prop := {
  string_max_size_small : string_max_size < 2 ^ 63;
  array_max_size_small : array_max_size < 2 ^ 63;
  object_max_size_small : object_max_size < 2 ^ 63;
}.

(** A 64-bit machine with its containers of [std::vector] and [std::map]. *)
Definition x86_64 : Machine := {|
  is_little_endian := true;
  string_max_size := 2 ^ 63 - 1;
  array_max_size := (2 ^ 63 - 1) / 16;
  object_max_size := (2 ^ 63 - 1) / 80;
|}.

#[export] Instance x86_64_spec : MachineSpec (H := x86_64).
Proof. by constructor. Qed.

(** A machine that stores the most significant byte first. *)
Definition big_endian_64 : Machine := {|
  is_little_endian := false;
  string_max_size := 2 ^ 63 - 1;
  array_max_size := (2 ^ 63 - 1) / 16;
  object_max_size := (2 ^ 63 - 1) / 80;
|}.

(** ** Numbers in memory *)

(** [w] bytes of a number, the least significant first, and the number they
    stand for. *)
Fixpoint le_bytes (w : nat) (z : Z) : list Z :=
  match w with
  | O => []
  | S w => z mod 256 :: le_bytes w (z / 256)
  end.

Fixpoint le_value (l : list Z) : Z :=
  match l with
  | [] => 0
  | b :: l => b + 256 * le_value l
  end.

(** [memcpy] from and to a number of [w] bytes. *)
Definition to_memory `{Machine} (w : nat) (z : Z) : list Z :=
  if is_little_endian then le_bytes w z else rev (le_bytes w z).
Definition from_memory `{Machine} (vec : list Z) : Z :=
  le_value (if is_little_endian then vec else rev vec).

(** [write_number] on a type of [w] bytes. *)
Definition write_number `{Machine} (w : nat) (n : Z) : string :=
  let vec := to_memory w n in
  string_of (if is_little_endian then rev vec else vec).

Definition byte (b : Z) : string := String (char_of b) "".
Definition between (lo hi c : Z) : bool := (lo <=? c) && (c <=? hi).

(** One, two, four or eight bytes follow, by the last bits of a control byte. *)
Definition follow (i : Z) : nat := Nat.pow 2 (Z.to_nat i).

(** Decide the comparisons of a goal. *)
Ltac decide_cmp :=
  repeat match goal with
  | |- context [?a =? ?b] => first [rewrite (proj2 (Z.eqb_eq a b)) by lia|rewrite (proj2 (Z.eqb_neq a b)) by lia]
  | |- context [?a <=? ?b] => first [rewrite (proj2 (Z.leb_le a b)) by lia|rewrite (proj2 (Z.leb_gt a b)) by lia]
  end; cbn [andb orb negb].

Lemma follow_0 : follow 0 = 1%nat. Proof. reflexivity. Qed.
Lemma follow_1 : follow 1 = 2%nat. Proof. reflexivity. Qed.
Lemma follow_2 : follow 2 = 4%nat. Proof. reflexivity. Qed.
Lemma follow_3 : follow 3 = 8%nat. Proof. reflexivity. Qed.

Lemma follow_range i n : i ≤ 3 → n < 2 ^ (8 * Z.of_nat (follow i)) → n < 2 ^ 64.
Proof.
  intros Hi Hn. eapply Z.lt_le_trans; [exact Hn|]. apply Z.pow_le_mono_r; [lia|].
  assert (Hf : (follow i ≤ 8)%nat); [|lia]. unfold follow. change 8%nat with (2 ^ 3)%nat.
  apply Nat.pow_le_mono_r; lia.
Qed.

Lemma follow_signed i x : 0 ≤ i ≤ 3 → - 2 ^ 63 ≤ wrap_signed (8 * Z.of_nat (follow i)) x < 2 ^ 63.
Proof.
  intros Hi. assert (Hf : (1 ≤ follow i ≤ 8)%nat).
  { unfold follow. split; [change 1%nat with (2 ^ 0)%nat|change 8%nat with (2 ^ 3)%nat]; apply Nat.pow_le_mono_r; lia. }
  pose proof (wrap_signed_range (8 * Z.of_nat (follow i)) x ltac:(lia)) as Hr.
  assert (Hp : 2 ^ (8 * Z.of_nat (follow i) - 1) ≤ 2 ^ 63) by (apply Z.pow_le_mono_r; lia). lia.
Qed.

Lemma le_bytes_range w z : Forall is_byte (le_bytes w z).
Proof.
  revert z. induction w as [|w IH]; intros z; simpl; constructor; [|done].
  apply Z.mod_pos_bound. lia.
Qed.

Lemma length_le_bytes w z : length (le_bytes w z) = w.
Proof. revert z. induction w as [|w IH]; intros z; simpl; congruence. Qed.

Lemma pow_bytes_S w : 2 ^ (8 * Z.of_nat (S w)) = 256 * 2 ^ (8 * Z.of_nat w).
Proof. rewrite Nat2Z.inj_succ, Z.mul_succ_r, Z.pow_add_r by lia. lia. Qed.

Lemma le_value_bytes w z : le_value (le_bytes w z) = wrap (8 * Z.of_nat w) z.
Proof.
  unfold wrap. revert z. induction w as [|w IH]; intros z; cbn [le_bytes le_value].
  { by rewrite Z.mod_1_r. }
  rewrite IH, pow_bytes_S, Z.rem_mul_r by lia. lia.
Qed.

Lemma le_value_range l : Forall is_byte l → 0 ≤ le_value l < 2 ^ (8 * Z.of_nat (length l)).
Proof.
  induction 1 as [|b l Hb _ IH]; cbn [le_value length]; [done|].
  rewrite pow_bytes_S. unfold is_byte in Hb. lia.
Qed.

Section machine.
Context `{Machine}.

(** The bytes are in network order on every machine. *)
Lemma write_number_order w n : write_number w n = string_of (rev (le_bytes w n)).
Proof. unfold write_number, to_memory. by destruct is_little_endian. Qed.

Lemma length_write_number w n : String.length (write_number w n) = w.
Proof. by rewrite write_number_order, length_string_of, length_rev, length_le_bytes. Qed.

Lemma write_byte z : write_number 1 z = byte z.
Proof. rewrite write_number_order. simpl. unfold byte, char_of. by rewrite Z.mod_mod by lia. Qed.
End machine.

(** ** Floating-point numbers as bits *)

Definition sign_bit (neg : bool) (bit : Z) : Z := if neg then 2 ^ bit else 0.

Definition double_bits (d : double) : Z :=
  match d with
  | Dfin neg m e => sign_bit neg 63 + (if m <? 2 ^ 52 then m else (e + 1075) * 2 ^ 52 + (m - 2 ^ 52))
  | Dinf neg => sign_bit neg 63 + 2047 * 2 ^ 52
  | Dnan neg payload => sign_bit neg 63 + 2047 * 2 ^ 52 + payload
  end.

Definition bits_double (b : Z) : double :=
  let neg := 2 ^ 63 <=? b in
  let exponent := (b / 2 ^ 52) mod 2048 in
  let fraction := b mod 2 ^ 52 in
  if exponent =? 0 then Dfin neg fraction (if fraction =? 0 then 0 else -1074)
  else if exponent =? 2047 then (if fraction =? 0 then Dinf neg else Dnan neg fraction)
  else Dfin neg (2 ^ 52 + fraction) (exponent - 1075).

(** The double m * 2^e, for a significand of at most 53 bits and an exponent
    far from the limits. *)
Definition exact_double (neg : bool) (m e : Z) : double :=
  if m =? 0 then Dfin neg 0 0
  else let shift := 52 - Z.log2 m in Dfin neg (m * 2 ^ shift) (e - shift).

(** [static_cast<double>] of a [float] with these bits; a NaN becomes quiet. *)
Definition bits_float (b : Z) : double :=
  let neg := 2 ^ 31 <=? b in
  let exponent := (b / 2 ^ 23) mod 256 in
  let fraction := b mod 2 ^ 23 in
  if exponent =? 0 then exact_double neg fraction (-149)
  else if exponent =? 255 then
    (if fraction =? 0 then Dinf neg else Dnan neg (Z.lor (2 ^ 51) (fraction * 2 ^ 29)))
  else exact_double neg (2 ^ 23 + fraction) (exponent - 150).

(** Unary minus. *)
Definition double_neg (d : double) : double :=
  match d with
  | Dfin neg m e => Dfin (negb neg) m e
  | Dinf neg => Dinf (negb neg)
  | Dnan neg payload => Dnan (negb neg) payload
  end.

(** The half-precision number of two bytes. *)
Definition half_float (byte1 byte2 : Z) : double :=
  let half := Z.shiftl byte1 8 + byte2 in
  let exp := Z.land (Z.shiftr half 10) 0x1F in
  let mant := Z.land half 0x3FF in
  let val := if exp =? 0 then exact_double false mant (-24)
             else if negb (exp =? 31) then exact_double false (mant + 1024) (exp - 25)
             else if mant =? 0 then Dinf false else Dnan false (2 ^ 51) in
  if negb (Z.land half 0x8000 =? 0) then double_neg val else val.

Example half_examples :
  half_float 0x3C 0 = Dfin false (2 ^ 52) (-52) ∧ half_float 0xC4 0 = Dfin true (2 ^ 52) (-50)
  ∧ half_float 0 1 = Dfin false (2 ^ 52) (-76) ∧ half_float 0xFC 0 = Dinf true.
Proof. vm_compute. done. Qed.

Example float_examples :
  bits_float 0x3F800000 = Dfin false (2 ^ 52) (-52) ∧ bits_float 1 = Dfin false (2 ^ 52) (-201)
  ∧ bits_float 0x80000000 = Dfin true 0 0 ∧ bits_float 0x7F800001 = Dnan false (2 ^ 51 + 2 ^ 29).
Proof. vm_compute. done. Qed.

(** A sum of a sign, an exponent and a fraction, taken apart. *)
Lemma bits_double_fields neg E f :
  0 ≤ E < 2048 → 0 ≤ f < 2 ^ 52 →
  let b := sign_bit neg 63 + E * 2 ^ 52 + f in
  0 ≤ b < 2 ^ 64 ∧ (2 ^ 63 <=? b) = neg ∧ (b / 2 ^ 52) mod 2048 = E ∧ b mod 2 ^ 52 = f.
Proof.
  intros HE Hf. cbv zeta. set (k := if neg then 1 else 0).
  assert (Hs : sign_bit neg 63 = k * 2048 * 2 ^ 52) by (by destruct neg).
  assert (Hk : k = 0 ∧ neg = false ∨ k = 1 ∧ neg = true) by (destruct neg; auto). rewrite Hs.
  replace (k * 2048 * 2 ^ 52 + E * 2 ^ 52 + f) with (f + (E + k * 2048) * 2 ^ 52) by lia.
  rewrite Z.div_add, Z.mod_add, (Z.div_small f), (Z.mod_small f), Z.add_0_l by lia.
  rewrite Z.mod_add, Z.mod_small by lia. split_and!; [lia|lia| |done|done].
  destruct Hk as [[-> ->]|[-> ->]]; [apply Z.leb_gt|apply Z.leb_le]; lia.
Qed.

Lemma double_bits_inv d :
  valid_double d = true → bits_double (double_bits d) = d ∧ 0 ≤ double_bits d < 2 ^ 64.
Proof.
  intros Hv. assert (Hf : ∃ neg E f, double_bits d = sign_bit neg 63 + E * 2 ^ 52 + f ∧ 0 ≤ E < 2048
      ∧ 0 ≤ f < 2 ^ 52 ∧ d = if E =? 0 then Dfin neg f (if f =? 0 then 0 else -1074)
        else if E =? 2047 then (if f =? 0 then Dinf neg else Dnan neg f) else Dfin neg (2 ^ 52 + f) (E - 1075)).
  2:{ destruct Hf as (neg & E & f & -> & HE & Hf & Hd).
      destruct (bits_double_fields neg E f HE Hf) as (Hr & Hn & He & Hm). split; [|done].
      unfold bits_double. cbv zeta. by rewrite Hn, He, Hm. }
  destruct d as [neg m e|neg|neg p]; cbn [valid_double double_bits] in *.
  - apply orb_true_iff in Hv as [[Hv|Hv]%orb_true_iff|Hv]; zify_cmp.
    + subst. exists neg, 0, 0. split_and!; [by destruct neg|lia..|done].
    + rewrite (proj2 (Z.ltb_lt m (2 ^ 52))) by lia. exists neg, 0, m. split_and!; try lia.
      simpl. rewrite (proj2 (Z.eqb_neq m 0)) by lia. by subst.
    + rewrite (proj2 (Z.ltb_ge m (2 ^ 52))) by lia. exists neg, (e + 1075), (m - 2 ^ 52).
      split_and!; try lia. rewrite !(proj2 (Z.eqb_neq _ _)) by lia. f_equal; lia.
  - exists neg, 2047, 0. split_and!; [lia..|done].
  - zify_cmp. exists neg, 2047, p. split_and!; [lia..|]. simpl. by rewrite (proj2 (Z.eqb_neq p 0)) by lia.
Qed.

(** *** Every pattern is a double *)

Lemma valid_bits_double b : valid_double (bits_double b) = true.
Proof.
  unfold bits_double. cbv zeta. set (E := (b / 2 ^ 52) mod 2048). set (f := b mod 2 ^ 52).
  assert (HE : 0 ≤ E < 2048) by (apply Z.mod_pos_bound; lia).
  assert (Hf : 0 ≤ f < 2 ^ 52) by (apply Z.mod_pos_bound; lia).
  assert (Hrange : ∀ neg m e, m = 0 ∧ e = 0 ∨ 0 < m < 2 ^ 52 ∧ e = -1074 ∨ 2 ^ 52 ≤ m < 2 ^ 53 ∧ -1074 ≤ e ≤ 971 →
    valid_double (Dfin neg m e) = true).
  { intros neg m e Hc. cbn [valid_double]. rewrite !orb_true_iff, !andb_true_iff. lia. }
  destruct (E =? 0) eqn:E0; zify_cmp; [|destruct (E =? 2047) eqn:E1; zify_cmp].
  - apply Hrange. destruct (f =? 0) eqn:F; zify_cmp; lia.
  - destruct (f =? 0) eqn:F; [done|]. zify_cmp. cbn [valid_double]. rewrite andb_true_iff. lia.
  - apply Hrange. lia.
Qed.

Lemma valid_exact neg m e : 0 ≤ m < 2 ^ 53 → -1000 ≤ e ≤ 900 → valid_double (exact_double neg m e) = true.
Proof.
  intros Hm He. unfold exact_double. destruct (m =? 0) eqn:E; zify_cmp; [done|].
  pose proof (Z.log2_spec m ltac:(lia)) as [Hlo Hhi].
  assert (Hlog : 0 ≤ Z.log2 m ≤ 52).
  { split; [apply Z.log2_nonneg|]. apply Z.lt_succ_r. apply Z.log2_lt_pow2; lia. }
  assert (Hpow : 2 ^ Z.log2 m * 2 ^ (52 - Z.log2 m) = 2 ^ 52) by (rewrite <-Z.pow_add_r by lia; f_equal; lia).
  assert (Hpos : 0 < 2 ^ (52 - Z.log2 m)) by (apply Z.pow_pos_nonneg; lia).
  rewrite Z.pow_succ_r in Hhi by lia. cbn [valid_double].
  rewrite !orb_true_iff, !andb_true_iff. right. split_and!; [apply Z.leb_le|apply Z.ltb_lt|apply Z.leb_le|apply Z.leb_le]; nia.
Qed.

Lemma valid_quiet neg f : 0 ≤ f < 2 ^ 23 → valid_double (Dnan neg (Z.lor (2 ^ 51) (f * 2 ^ 29))) = true.
Proof.
  intros Hf. set (x := Z.lor _ _). cbn [valid_double].
  assert (Hx : 0 ≤ x) by (apply Z.lor_nonneg; lia).
  assert (Hlog : Z.log2 x < 52).
  { unfold x. rewrite Z.log2_lor by lia. apply Z.max_lub_lt; [done|].
    destruct (decide (f = 0)) as [->|]; [done|]. apply Z.log2_lt_pow2; lia. }
  assert (Hne : x ≠ 0).
  { intros E. assert (Hb : Z.testbit x 51 = true) by (unfold x; rewrite Z.lor_spec, Z.pow2_bits_true by lia; done).
    by rewrite E, Z.bits_0 in Hb. }
  rewrite andb_true_iff. split; [apply Z.ltb_lt; lia|apply Z.ltb_lt]. apply Z.log2_lt_pow2; lia.
Qed.

Lemma valid_bits_float b : valid_double (bits_float b) = true.
Proof.
  unfold bits_float. cbv zeta. set (E := (b / 2 ^ 23) mod 256). set (f := b mod 2 ^ 23).
  assert (HE : 0 ≤ E < 256) by (apply Z.mod_pos_bound; lia).
  assert (Hf : 0 ≤ f < 2 ^ 23) by (apply Z.mod_pos_bound; lia).
  destruct (E =? 0); [apply valid_exact; lia|]. destruct (E =? 255); [|apply valid_exact; lia].
  destruct (f =? 0); [done|]. by apply valid_quiet.
Qed.

Lemma valid_double_neg d : valid_double (double_neg d) = valid_double d.
Proof. by destruct d. Qed.

Lemma valid_half byte1 byte2 : valid_double (half_float byte1 byte2) = true.
Proof.
  unfold half_float. cbv zeta. set (half := _ + byte2).
  assert (He : 0 ≤ Z.land (Z.shiftr half 10) 0x1F < 32)
    by (change 0x1F with (Z.ones 5); rewrite Z.land_ones by lia; apply Z.mod_pos_bound; lia).
  assert (Hm : 0 ≤ Z.land half 0x3FF < 1024)
    by (change 0x3FF with (Z.ones 10); rewrite Z.land_ones by lia; apply Z.mod_pos_bound; lia).
  set (e := Z.land _ 0x1F) in *. set (m := Z.land _ 0x3FF) in *.
  destruct (negb (Z.land half 0x8000 =? 0)); rewrite ?valid_double_neg; repeat case_match;
    try (apply valid_exact; lia); done.
Qed.
