(* ===== verification/BinaryReader.v ===== *)
(** * The binary reader (json.hpp, [class binary_reader])

    The input adapter, reading bytes, numbers and strings, and the loops over
    the elements of containers; the formats are in [Cbor] and [MsgPack].  The
    reader drives the handler of [JsonSax].  [allow_exceptions] has its default
    value, so a parse error is thrown and every [return false] is taken by an
    exception. *)

From stdpp Require Import base gmap strings list.
From Stdlib Require Import ZArith Ascii Lia.
From S2P Require Import Prelude Cxx StdMap JsonValue JsonSax JsonBinary.

(** The bytes read and the bytes left; the state holds [current] as its last
    unit. *)
Record adapter : Type := Adapter {
  chars_read : Z;
  rest : string;
}.

Abbreviation reader := (sax_state Z adapter).
Abbreviation RM := (M exn reader).

Definition eof : Z := -1.

Definition reader_init (input : string) : reader := Dom eof (Adapter 0 input) jnull [].

Definition get : RM Z := λ p,
  let n := chars_read (m_lexer p) + 1 in
  match rest (m_lexer p) with
  | EmptyString => (Ok eof, Dom eof (Adapter n "") (root p) (ref_stack p))
  | String c s => (Ok (byte_of c), Dom (byte_of c) (Adapter n s) (root p) (ref_stack p))
  end.

(** The last byte in messages is always XX. *)
Definition get_token_string : string := "XX".

Definition binary_error {A} (id : Z) (what_arg : string) : RM A := λ p,
  sax_parse_error (parse_error_create id (chars_read (m_lexer p)) what_arg) p.

Definition unexpect_eof : RM unit := λ p,
  if last_token p =? eof then binary_error 110 "unexpected end of input" p else (Ok tt, p).

(** [get_number]: the bytes go into an array in the byte order of the
    machine. *)
Fixpoint get_vec `{Machine} (w : nat) (vec : list Z) : RM (list Z) :=
  match w with
  | O => ret vec
  | S w =>
      get ;; unexpect_eof ;;
      current <- gets last_token ;;
      get_vec w (if is_little_endian then current :: vec else vec ++ [current])
  end.

Definition get_number `{Machine} (w : nat) : RM Z :=
  vec <- get_vec w [] ;; ret (from_memory vec).

(** [get_string]: [len] bytes; none when [len] is negative. *)
Fixpoint read_string (fuel : nat) (len : Z) : RM string :=
  match fuel with
  | O => out_of_fuel
  | S fuel =>
      if len <=? 0 then ret "" else
      get ;; unexpect_eof ;;
      current <- gets last_token ;;
      s <- read_string fuel (len - 1) ;;
      ret (String (char_of current) s)
  end.

(** [start_array] and [start_object] with a length. *)
Definition no_limit : Z := 2 ^ 64 - 1.

Definition start_array `{Machine} {T L} (len : Z) : M exn (sax_state T L) unit :=
  sax_start_array ;;
  if negb (len =? no_limit) && (array_max_size <? len)
  then throw (exception_create out_of_range 408 ("excessive array size: " +:+ to_string len))
  else ret tt.

Definition start_object `{Machine} {T L} (len : Z) : M exn (sax_state T L) unit :=
  sax_start_object ;;
  if negb (len =? no_limit) && (object_max_size <? len)
  then throw (exception_create out_of_range 408 ("excessive object size: " +:+ to_string len))
  else ret tt.

(** [for (i = 0; i < len; ++i) body]. *)
Fixpoint for_len (fuel : nat) (len : Z) (body : RM unit) : RM unit :=
  match fuel with
  | O => out_of_fuel
  | S fuel => if len <=? 0 then ret tt else body ;; for_len fuel (len - 1) body
  end.

(** [while (get() != stop) body]. *)
Fixpoint while_not (fuel : nat) (stop : Z) (body : RM unit) : RM unit :=
  match fuel with
  | O => out_of_fuel
  | S fuel =>
      c <- get ;;
      if c =? stop then ret tt else body ;; while_not fuel stop body
  end.

(** A member of an object, the first byte of its key having been read. *)
Definition get_member (get_key : RM string) (parse : RM unit) : RM unit :=
  key <- get_key ;; sax_key key ;; parse.

(** ** What reading does *)

Definition left (p : reader) : nat := String.length (rest (m_lexer p)).

(** The same value under construction. *)
Definition same (p p' : reader) : Prop := root p' = root p ∧ ref_stack p' = ref_stack p.

(** The value [v] was delivered. *)
Definition delivers (v : json) (p p' : reader) : Prop :=
  (root p', ref_stack p') = deliver v (root p) (ref_stack p).

(** The exceptions of the binary formats. *)
Definition binary_exn (e : exn) : Prop :=
  ∃ k id msg, e = json_exception k id msg ∧
    (k = parse_error ∧ id ∈ [110; 112; 113] ∨ k = out_of_range ∧ id = 408).

Definition XB (e : exn) (p : reader) : Prop := binary_exn e.

Lemma wp_binary_error {A} id msg p (Q : A → reader → Prop) :
  id ∈ [110; 112; 113] → wp (binary_error id msg) p Q XB.
Proof. intros Hid. eexists _, _, _. split; [done|]. by left. Qed.

Lemma wp_br_get p (Q : Z → reader → Prop) X :
  (∀ c s p', rest (m_lexer p) = String c s → rest (m_lexer p') = s → last_token p' = byte_of c → same p p' →
     Q (byte_of c) p') →
  (∀ p', rest (m_lexer p) = "" → rest (m_lexer p') = "" → last_token p' = eof → same p p' → Q eof p') →
  wp get p Q X.
Proof.
  intros Hc He. unfold wp, get. destruct (rest (m_lexer p)) as [|c s] eqn:E; [by apply He|by eapply Hc].
Qed.

Lemma wp_br_get_cons c s p (Q : Z → reader → Prop) X :
  rest (m_lexer p) = String c s →
  (∀ p', rest (m_lexer p') = s → last_token p' = byte_of c → same p p' → Q (byte_of c) p') → wp get p Q X.
Proof.
  intros E HQ. apply wp_br_get.
  - intros c0 s0 p'. rewrite E. intros [= <- <-]. by apply HQ.
  - intros p'. by rewrite E.
Qed.

Lemma byte_not_eof c : (byte_of c =? eof) = false.
Proof. apply Z.eqb_neq. pose proof (byte_of_range c). unfold eof. lia. Qed.

Lemma same_trans p1 p2 p3 : same p1 p2 → same p2 p3 → same p1 p3.
Proof. unfold same. intros [-> ->] [-> ->]. done. Qed.

Lemma same_delivers v p p' p'' : same p p' → delivers v p' p'' → delivers v p p''.
Proof. unfold same, delivers. intros [-> ->]. done. Qed.

Lemma wp_unexpect_eof p (Q : unit → reader → Prop) :
  (last_token p ≠ eof → Q tt p) → wp unexpect_eof p Q XB.
Proof.
  intros HQ. assert (Hrun : unexpect_eof p = if last_token p =? eof
    then binary_error 110 "unexpected end of input" p else ret tt p) by done.
  unfold wp. rewrite Hrun. destruct (last_token p =? eof) eqn:E; zify_cmp; [|by apply HQ].
  apply (wp_binary_error 110 "unexpected end of input" p Q). by left.
Qed.

Lemma unexpect_eof_run p (Q : unit → reader → Prop) X :
  last_token p ≠ eof → Q tt p → wp unexpect_eof p Q X.
Proof. intros Hne HQ. unfold wp, unexpect_eof. by rewrite (proj2 (Z.eqb_neq _ _)). Qed.

(** One byte, or the end of the input. *)
Lemma wp_byte {A} (k : Z → RM A) p (Q : A → reader → Prop) :
  (∀ c p', 0 ≤ c < 256 → last_token p' = c → same p p' → S (left p') = left p → wp (k c) p' Q XB) →
  wp (get ;; unexpect_eof ;; current <- gets last_token ;; k current) p Q XB.
Proof.
  intros HQ. wp_step. apply wp_br_get.
  - intros c s p' E E' Hl Hs. wp_step. apply wp_unexpect_eof. intros _. do 2 wp_step. rewrite Hl.
    apply HQ; [apply byte_of_range|done|done|]. unfold left. by rewrite E, E'.
  - intros p' E E' Hl Hs. wp_step. apply wp_unexpect_eof. by rewrite Hl.
Qed.

Lemma byte_run {A} c s (k : Z → RM A) p (Q : A → reader → Prop) X :
  rest (m_lexer p) = String c s →
  (∀ p', rest (m_lexer p') = s → last_token p' = byte_of c → same p p' → wp (k (byte_of c)) p' Q X) →
  wp (get ;; unexpect_eof ;; current <- gets last_token ;; k current) p Q X.
Proof.
  intros E HQ. wp_step. eapply wp_br_get_cons; [exact E|]. intros p' E' Hl Hs. wp_step.
  apply unexpect_eof_run; [rewrite Hl; apply Z.eqb_neq, byte_not_eof|]. do 2 wp_step. rewrite Hl. by apply HQ.
Qed.

(** *** Numbers *)

Section numbers.
Context `{Machine}.

(** The array, in the order of the input. *)
Definition input_order (vec : list Z) : list Z := if is_little_endian then rev vec else vec.

Lemma input_order_next vec c :
  input_order (if is_little_endian then c :: vec else vec ++ [c]) = input_order vec ++ [c].
Proof. unfold input_order. by destruct is_little_endian. Qed.

Lemma from_memory_order vec : from_memory vec = le_value (rev (input_order vec)).
Proof. unfold from_memory, input_order. destruct is_little_endian; by rewrite ?rev_involutive. Qed.

Lemma wp_get_vec w vec p (Q : list Z → reader → Prop) :
  (∀ l p', Forall is_byte l → length l = w → same p p' → (left p' + w = left p)%nat →
     ∀ vec', input_order vec' = input_order vec ++ l → Q vec' p') →
  wp (get_vec w vec) p Q XB.
Proof.
  revert vec p Q. induction w as [|w IH]; intros vec p Q HQ; cbn [get_vec].
  { wp_step. apply (HQ []); [constructor|done|done|lia|by rewrite app_nil_r]. }
  apply wp_byte. intros c p1 Hc _ Hs1 Hl1. apply IH. intros l p' Hl Hlen Hs Hleft vec' Hv.
  apply (HQ (c :: l)); [by constructor|simpl; congruence|by eapply same_trans|lia|].
  rewrite Hv, input_order_next, <-app_assoc. done.
Qed.

Lemma wp_get_number w p (Q : Z → reader → Prop) :
  (∀ n p', 0 ≤ n < 2 ^ (8 * Z.of_nat w) → same p p' → (left p' + w = left p)%nat → Q n p') →
  wp (get_number w) p Q XB.
Proof.
  intros HQ. unfold get_number. wp_step. apply wp_get_vec. intros l p' Hl Hlen Hs Hleft vec Hv. wp_step.
  apply HQ; [|done|done]. rewrite from_memory_order, Hv. unfold input_order.
  assert (Hr : Forall is_byte (rev l)) by (by apply Forall_rev). apply le_value_range in Hr.
  rewrite length_rev, Hlen in Hr. by destruct is_little_endian.
Qed.

Lemma get_vec_run l vec t p (Q : list Z → reader → Prop) X :
  Forall is_byte l → rest (m_lexer p) = string_of l +:+ t →
  (∀ vec' p', input_order vec' = input_order vec ++ l → rest (m_lexer p') = t → same p p' → Q vec' p') →
  wp (get_vec (length l) vec) p Q X.
Proof.
  intros Hl. revert vec p. induction Hl as [|b l Hb _ IH]; intros vec p E HQ; cbn [get_vec length].
  { wp_step. apply HQ; [by rewrite app_nil_r|done|done]. }
  cbn [string_of] in E. rewrite append_cons in E. eapply byte_run; [exact E|]. intros p1 E1 _ Hs1.
  rewrite byte_of_char_of by done. apply IH; [done|]. intros vec' p' Hv E' Hs.
  apply HQ; [|done|by eapply same_trans]. by rewrite Hv, input_order_next, <-app_assoc.
Qed.

(** What [write_number] wrote is read back. *)
Lemma get_number_run w n t p (Q : Z → reader → Prop) X :
  rest (m_lexer p) = write_number w n +:+ t →
  (∀ p', rest (m_lexer p') = t → same p p' → Q (wrap (8 * Z.of_nat w) n) p') →
  wp (get_number w) p Q X.
Proof.
  intros E HQ. rewrite write_number_order in E. unfold get_number. wp_step.
  rewrite <-(length_le_bytes w n), <-length_rev. eapply get_vec_run; [apply Forall_rev, le_bytes_range|exact E|].
  intros vec p' Hv E' Hs. wp_step. replace (from_memory vec) with (wrap (8 * Z.of_nat w) n); [by apply HQ|].
  rewrite from_memory_order, Hv, <-le_value_bytes. unfold input_order.
  by destruct is_little_endian; simpl; rewrite rev_involutive.
Qed.
End numbers.

(** *** Strings *)

Lemma wp_read_string fuel len p (Q : string → reader → Prop) :
  (left p < fuel)%nat →
  (∀ s p', same p p' → (left p' ≤ left p)%nat → Q s p') → wp (read_string fuel len) p Q XB.
Proof.
  revert len p Q. induction fuel as [|fuel IH]; intros len p Q Hf HQ; cbn [read_string]; [lia|].
  destruct (len <=? 0); [wp_step; by apply HQ|]. apply wp_byte. intros c p1 _ _ Hs1 Hl1. wp_step.
  apply IH; [lia|]. intros s p' Hs Hl. wp_step. apply HQ; [by eapply same_trans|lia].
Qed.

Lemma read_string_run s t fuel p (Q : string → reader → Prop) X :
  rest (m_lexer p) = s +:+ t → (String.length s < fuel)%nat →
  (∀ p', rest (m_lexer p') = t → same p p' → Q s p') → wp (read_string fuel (Z.of_nat (String.length s))) p Q X.
Proof.
  revert fuel p Q. induction s as [|c s IH]; intros [|fuel] p Q E Hf HQ; cbn [read_string]; [lia| |lia|].
  { change (wp (ret "") p Q X). wp_step. by apply HQ. }
  cbn [String.length] in *. rewrite (proj2 (Z.leb_gt _ 0)) by lia. rewrite append_cons in E.
  eapply byte_run; [exact E|]. intros p1 E1 _ Hs1. wp_step.
  replace (Z.of_nat (S (String.length s)) - 1) with (Z.of_nat (String.length s)) by lia.
  apply IH; [done|lia|]. intros p' E' Hs. wp_step. rewrite char_of_byte_of. apply HQ; [done|by eapply same_trans].
Qed.

(** *** Loops *)

Lemma wp_for_len fuel len body (I : reader → Prop) p X :
  (∀ p, I p → wp body p (λ _ p', I p' ∧ (left p' < left p)%nat) X) →
  I p → (left p < fuel)%nat → wp (for_len fuel len body) p (λ _ p', I p' ∧ (left p' ≤ left p)%nat) X.
Proof.
  intros Hbody. revert len p. induction fuel as [|fuel IH]; intros len p Hp Hf; cbn [for_len]; [lia|].
  destruct (len <=? 0); [by wp_step|]. wp_step.
  eapply wp_mono; [by apply Hbody| |done]. intros _ p1 [Hp1 Hl1]. cbv beta.
  eapply wp_mono; [apply IH; [done|lia]| |done]. intros _ p' [Hp' Hl']. split; [done|lia].
Qed.

Lemma wp_while_not fuel stop body (I : reader → Prop) p X :
  (∀ p p1 c, I p → last_token p1 = c → same p p1 →
     (c = eof ∧ left p1 = 0%nat ∨ 0 ≤ c ∧ S (left p1) = left p) →
     wp body p1 (λ _ p', I p' ∧ (left p' < left p)%nat) X) →
  (∀ p p1, I p → same p p1 → (left p1 ≤ left p)%nat → I p1) →
  I p → (left p < fuel)%nat → wp (while_not fuel stop body) p (λ _ p', I p' ∧ (left p' ≤ left p)%nat) X.
Proof.
  intros Hbody Hsame. revert p. induction fuel as [|fuel IH]; intros p Hp Hf; cbn [while_not]; [lia|].
  assert (Hstep : ∀ c p1, last_token p1 = c → same p p1 →
    (c = eof ∧ left p1 = 0%nat ∨ 0 ≤ c ∧ S (left p1) = left p) →
    wp (if c =? stop then ret tt else body ;; while_not fuel stop body) p1
      (λ _ p', I p' ∧ (left p' ≤ left p)%nat) X).
  { intros c p1 Hc Hs Hl. assert (Hle : (left p1 ≤ left p)%nat) by lia.
    destruct (c =? stop); [wp_step; split; [by eapply Hsame|done]|].
    wp_step. eapply wp_mono; [by eapply (Hbody p)| |done]. intros _ p2 [Hp2 Hl2]. cbv beta.
    eapply wp_mono; [apply IH; [done|lia]| |done]. intros _ p' [Hp' Hl']. split; [done|lia]. }
  wp_step. apply wp_br_get.
  - intros c s p1 E E1 Hl Hs. apply Hstep; [done|done|]. right. split; [apply byte_of_range|]. unfold left. by rewrite E, E1.
  - intros p1 E E1 Hl Hs. apply Hstep; [done|done|]. left. unfold left. by rewrite E1.
Qed.
