(* ===== verification/BinaryFormat.v ===== *)
(** * What a binary format promises

    A format writes values and drives the handler when it reads them.  Its
    laws: reading is total, and reads what was written.  [Cbor] and [MsgPack]
    are instances; that [from_...] inverts [to_...] and never fails silently is
    proved here for any format. *)

From stdpp Require Import base gmap strings list.
From Stdlib Require Import ZArith Ascii Lia.
From S2P Require Import Prelude Cxx StdMap JsonValue JsonSax JsonBinary BinaryReader.

(** ** Values *)

(** Numbers in the range of their types. *)
Fixpoint numbers_in_range (v : json) : bool :=
  match v with
  | jnumber_integer z => (- 2 ^ 63 <=? z) && (z <? 2 ^ 63)
  | jnumber_unsigned z => (0 <=? z) && (z <? 2 ^ 64)
  | jnumber_float d => valid_double d
  | jarray l => forallb numbers_in_range l
  | jobject m => forallb (λ kv, numbers_in_range kv.2) m
  | jdiscarded => false
  | _ => true
  end.

(** Strings, arrays and objects of bounded sizes. *)
Fixpoint sized (strings arrays objects : Z) (v : json) : bool :=
  match v with
  | jstring s => Z.of_nat (String.length s) <=? strings
  | jarray l => (Z.of_nat (length l) <=? arrays) && forallb (sized strings arrays objects) l
  | jobject m => (Z.of_nat (length m) <=? objects) &&
      forallb (λ kv, (Z.of_nat (String.length kv.1) <=? strings) && sized strings arrays objects kv.2) m
  | _ => true
  end.

Definition valid_value (v : json) : Prop := numbers_in_range v = true ∧ json_wf v.

(** The formats have no signed type for non-negative integers. *)
Fixpoint as_read (v : json) : json :=
  match v with
  | jnumber_integer z => if 0 <=? z then jnumber_unsigned z else v
  | jarray l => jarray (map as_read l)
  | jobject m => jobject (map (λ kv, (kv.1, as_read kv.2)) m)
  | _ => v
  end.

Lemma valid_array l : Forall valid_value l → valid_value (jarray l).
Proof.
  intros Hl. split; [|constructor]; [|by eapply Forall_impl; [exact Hl|]; intros v []].
  cbn [numbers_in_range]. apply forallb_forall. intros v Hv%list_elem_of_In. rewrite Forall_forall in Hl. by destruct (Hl v Hv).
Qed.

Lemma valid_object (m : std_map json) :
  map_wf m → Forall (λ kv, valid_value kv.2) m → valid_value (jobject m).
Proof.
  intros Hwf Hm. split; [|constructor; [done|]]; [|by eapply Forall_impl; [exact Hm|]; intros kv []].
  cbn [numbers_in_range]. apply forallb_forall. intros kv Hkv%list_elem_of_In. rewrite Forall_forall in Hm. by destruct (Hm kv Hkv).
Qed.

Lemma valid_unsigned n : 0 ≤ n < 2 ^ 64 → valid_value (jnumber_unsigned n).
Proof. intros Hn. split; [|constructor]. cbn. apply andb_true_iff. lia. Qed.

Lemma valid_integer n : - 2 ^ 63 ≤ n < 2 ^ 63 → valid_value (jnumber_integer n).
Proof. intros Hn. split; [|constructor]. cbn. apply andb_true_iff. lia. Qed.

Lemma valid_float d : valid_double d = true → valid_value (jnumber_float d).
Proof. intros Hd. by split; [|constructor]. Qed.

Lemma valid_boolean b : valid_value (jboolean b).
Proof. by split; [|constructor]. Qed.

Lemma valid_null : valid_value jnull.
Proof. by split; [|constructor]. Qed.

Lemma valid_string s : valid_value (jstring s).
Proof. by split; [|constructor]. Qed.

(** The parts of a value of bounded sizes. *)
Definition valid_sized (strings arrays objects : Z) (v : json) : Prop :=
  valid_value v ∧ sized strings arrays objects v = true.

(** A value the machine can hold. *)
Definition storable `{Machine} : json → Prop := valid_sized string_max_size array_max_size object_max_size.

Lemma sized_array ss sa so l :
  valid_sized ss sa so (jarray l) → Z.of_nat (length l) ≤ sa ∧ Forall (valid_sized ss sa so) l.
Proof.
  intros [[Hr Hwf] Hs]. inversion Hwf as [| |? Hl| | | | | |]; subst. cbn [numbers_in_range sized] in *. zify_cmp.
  split; [done|]. rewrite forallb_forall in *. apply Forall_forall. intros v Hv. rewrite Forall_forall in Hl.
  pose proof (proj1 (list_elem_of_In _ _) Hv). split; [split|]; auto.
Qed.

Lemma sized_object ss sa so m :
  valid_sized ss sa so (jobject m) → Z.of_nat (length m) ≤ so ∧ map_wf m ∧
  Forall (λ kv, Z.of_nat (String.length kv.1) ≤ ss ∧ valid_sized ss sa so kv.2) m.
Proof.
  intros [[Hr Hwf] Hs]. inversion Hwf as [|? Hm Hl| | | | | | |]; subst. cbn [numbers_in_range sized] in *. zify_cmp.
  split_and!; [done|done|]. rewrite forallb_forall in *. apply Forall_forall. intros kv Hv. rewrite Forall_forall in Hl.
  pose proof (proj1 (list_elem_of_In _ _) Hv) as Hin. pose proof (H0 kv Hin). zify_cmp. split; [done|]. split; [split|]; auto.
Qed.

Create HintDb valid discriminated.
#[export] Hint Resolve valid_array valid_object valid_float valid_boolean valid_null valid_string
  valid_bits_double valid_bits_float valid_half : valid.

(** ** The laws *)

(** [parses n m]: with at most [n] bytes left, [m] delivers a value and
    consumes some bytes, or throws. *)
Definition parses (n : nat) (m : RM unit) : Prop :=
  ∀ p, receives (ref_stack p) → (left p ≤ n)%nat →
  wp m p (λ _ p', ∃ v, valid_value v ∧ delivers v p p' ∧ (left p' < left p)%nat) XB.

(** [reads n m s v]: [m] reads the bytes [s] as [v]. *)
Definition reads (n : nat) (m : RM unit) (s : string) (v : json) : Prop :=
  (0 < String.length s)%nat ∧
  ∀ t p X, receives (ref_stack p) → (left p ≤ n)%nat → rest (m_lexer p) = s +:+ t →
  wp m p (λ _ p', delivers v p p' ∧ rest (m_lexer p') = t) X.

(** ** Containers

    [body] is the loop over the elements; the frames below are kept. *)

Section containers.
Context `{Machine}.

(** Inside an array, or an object, over the stack [st]. *)
Definition in_array (r : json) (st : list frame) (p : reader) : Prop :=
  ∃ items, Forall valid_value items ∧ root p = r ∧ ref_stack p = Farray items :: st.
Definition in_object (r : json) (st : list frame) (p : reader) : Prop :=
  ∃ m el, map_wf m ∧ Forall (λ kv, valid_value kv.2) m ∧ root p = r ∧ ref_stack p = Fobject m el :: st.

Lemma in_object_same r st p p' : same p p' → in_object r st p → in_object r st p'.
Proof.
  intros [Hroot Hst] (m & el & Hwf & Hm & Hr & Hs). exists m, el. split_and!; [done|done|congruence|congruence].
Qed.

(** [k] reads a key whose first byte has been read. *)
Definition key_total (n : nat) (k : RM string) : Prop :=
  ∀ p, (left p ≤ n)%nat → wp k p (λ _ p', same p p' ∧ (left p' ≤ left p)%nat) XB.

(** A length within the limits. *)
Definition array_len (len : Z) : Prop := len = no_limit ∨ len ≤ array_max_size.

Lemma wp_start_array len p (Q : unit → reader → Prop) :
  (array_len len → Q tt (with_sax (root p) (Farray [] :: ref_stack p) p)) → wp (start_array len) p Q XB.
Proof.
  intros HQ. unfold start_array, sax_start_array. do 2 wp_step.
  destruct (len =? no_limit) eqn:E; [cbn [negb andb]; wp_step; apply HQ; left; by apply Z.eqb_eq|].
  destruct (array_max_size <? len) eqn:E'; cbn [negb andb]; wp_step; zify_cmp; [|apply HQ; by right].
  eexists _, _, _. split; [done|]. by right.
Qed.

Lemma wp_start_object len p (Q : unit → reader → Prop) :
  Q tt (with_sax (root p) (Fobject [] None :: ref_stack p) p) → wp (start_object len) p Q XB.
Proof.
  intros HQ. unfold start_object, sax_start_object. do 2 wp_step. case_match; wp_step; [|done].
  eexists _, _, _. split; [done|]. by right.
Qed.

Lemma wp_deliver v p (Q : unit → reader → Prop) X :
  receives (ref_stack p) → (∀ p', delivers v p p' → m_lexer p' = m_lexer p → Q tt p') → wp (handle_value v) p Q X.
Proof.
  intros Hr HQ. eapply wp_run; [by apply handle_value_deliver|]. apply HQ; [|done].
  unfold delivers. simpl. symmetry. apply surjective_pairing.
Qed.

Lemma wp_end_array items p (Q : unit → reader → Prop) X st :
  receives st → ref_stack p = Farray items :: st →
  (∀ p', (root p', ref_stack p') = deliver (jarray items) (root p) st → m_lexer p' = m_lexer p → Q tt p') →
  wp sax_end_array p Q X.
Proof.
  intros Hr Hst HQ. unfold wp, sax_end_array. rewrite Hst.
  by apply (wp_deliver (jarray items) (with_sax (root p) st p)).
Qed.

Lemma wp_end_object m el p (Q : unit → reader → Prop) X st :
  receives st → ref_stack p = Fobject m el :: st →
  (∀ p', (root p', ref_stack p') = deliver (jobject m) (root p) st → m_lexer p' = m_lexer p → Q tt p') →
  wp sax_end_object p Q X.
Proof.
  intros Hr Hst HQ. unfold wp, sax_end_object. rewrite Hst.
  by apply (wp_deliver (jobject m) (with_sax (root p) st p)).
Qed.

(** A value delivered at the end of its bytes. *)
Lemma value_done v p p1 t X :
  receives (ref_stack p) → same p p1 → rest (m_lexer p1) = t →
  wp (handle_value v) p1 (λ _ p', delivers v p p' ∧ rest (m_lexer p') = t) X.
Proof.
  intros Hr Hs Ht. apply wp_deliver; [by destruct Hs as [_ ->]|]. intros p' Hd Hlex.
  split; [by eapply same_delivers|congruence].
Qed.

(** *** Any container *)

Lemma array_total_len len (body : RM unit) p :
  receives (ref_stack p) →
  (array_len len → ∀ p1, in_array (root p) (ref_stack p) p1 → left p1 = left p → last_token p1 = last_token p →
     wp body p1 (λ _ p', in_array (root p) (ref_stack p) p' ∧ (left p' ≤ left p1)%nat) XB) →
  wp (start_array len ;; body ;; sax_end_array) p
    (λ _ p', ∃ v, valid_value v ∧ delivers v p p' ∧ (left p' ≤ left p)%nat) XB.
Proof.
  intros Hr Hbody. wp_step. apply wp_start_array. intros Hlen. wp_step.
  eapply wp_mono; [apply Hbody; [done|by exists []|done|done]| |done].
  intros _ p2 [(items & Hitems & Hroot & Hst) Hl]. cbv beta. eapply wp_end_array; [exact Hr|exact Hst|].
  intros p' Hd Hlex. exists (jarray items). split_and!; [by apply valid_array| |].
  - unfold delivers. by rewrite Hd, Hroot.
  - unfold left in *. by rewrite Hlex.
Qed.

Lemma array_total len (body : RM unit) p :
  receives (ref_stack p) →
  (∀ p1, in_array (root p) (ref_stack p) p1 → left p1 = left p →
     wp body p1 (λ _ p', in_array (root p) (ref_stack p) p' ∧ (left p' ≤ left p1)%nat) XB) →
  wp (start_array len ;; body ;; sax_end_array) p
    (λ _ p', ∃ v, valid_value v ∧ delivers v p p' ∧ (left p' ≤ left p)%nat) XB.
Proof. intros Hr Hbody. apply array_total_len; auto. Qed.

Lemma object_total_len len (body : RM unit) p :
  receives (ref_stack p) →
  (∀ p1, in_object (root p) (ref_stack p) p1 → left p1 = left p → last_token p1 = last_token p →
     wp body p1 (λ _ p', in_object (root p) (ref_stack p) p' ∧ (left p' ≤ left p1)%nat) XB) →
  wp (start_object len ;; body ;; sax_end_object) p
    (λ _ p', ∃ v, valid_value v ∧ delivers v p p' ∧ (left p' ≤ left p)%nat) XB.
Proof.
  intros Hr Hbody. wp_step. apply wp_start_object. wp_step.
  eapply wp_mono; [apply Hbody; [exists [], None; by split_and!; [constructor|constructor|..]|done|done]| |done].
  intros _ p2 [(m & el & Hwf & Hm & Hroot & Hst) Hl]. cbv beta. eapply wp_end_object; [exact Hr|exact Hst|].
  intros p' Hd Hlex. exists (jobject m). split_and!; [by apply valid_object| |].
  - unfold delivers. by rewrite Hd, Hroot.
  - unfold left in *. by rewrite Hlex.
Qed.

Lemma object_total len (body : RM unit) p :
  receives (ref_stack p) →
  (∀ p1, in_object (root p) (ref_stack p) p1 → left p1 = left p →
     wp body p1 (λ _ p', in_object (root p) (ref_stack p) p' ∧ (left p' ≤ left p1)%nat) XB) →
  wp (start_object len ;; body ;; sax_end_object) p
    (λ _ p', ∃ v, valid_value v ∧ delivers v p p' ∧ (left p' ≤ left p)%nat) XB.
Proof. intros Hr Hbody. apply object_total_len; auto. Qed.

(** An element in its array. *)
Lemma item_total n m r st p :
  parses n m → in_array r st p → (left p ≤ n)%nat →
  wp m p (λ _ p', in_array r st p' ∧ (left p' < left p)%nat) XB.
Proof.
  intros Hm (items & Hitems & Hroot & Hst) Hl. eapply wp_mono; [apply Hm; [by rewrite Hst|done]| |done].
  intros _ p' (v & Hv & Hd & Hlt). split; [|done]. unfold delivers in Hd. rewrite Hst in Hd. simpl in Hd.
  injection Hd as Hroot' Hst'. exists (items ++ [v]). split_and!; [|congruence|done].
  apply Forall_app. by split; [|constructor].
Qed.

Lemma put_valid k v (m : std_map json) :
  valid_value v → Forall (λ kv, valid_value kv.2) m → Forall (λ kv, valid_value kv.2) (map_put k v m).
Proof.
  intros Hv. induction m as [|[k' v'] m IH]; intros Hm; simpl; [by constructor|].
  apply Forall_cons in Hm as [Hv' Hm]. destruct (String.compare k k'); (constructor; [done|]); [done|by constructor|by apply IH].
Qed.

(** A member in its object. *)
Lemma member_total n key m r st p :
  key_total n key → parses n m → in_object r st p → (left p ≤ n)%nat →
  wp (get_member key m) p (λ _ p', in_object r st p' ∧ (left p' < left p)%nat) XB.
Proof.
  intros Hk Hm (mm & el & Hwf & Hmm & Hroot & Hst) Hl. unfold get_member. wp_step.
  eapply wp_mono; [by apply Hk| |done]. intros k p1 [[Hroot1 Hst1] Hl1]. cbv beta. wp_step.
  set (mk := if map_mem k mm then mm else map_put k jnull mm).
  apply (wp_run _ _ _ _ tt (with_sax (root p1) (Fobject mk (Some k) :: st) p1)).
  { unfold sax_key. by rewrite Hst1, Hst. }
  eapply wp_mono; [apply Hm; [done|unfold left in *; simpl; lia]| |done].
  intros _ p' (v & Hv & Hd & Hlt). unfold delivers in Hd. simpl in Hd. injection Hd as Hroot' Hst'.
  split; [|unfold left in *; simpl in *; lia]. exists (map_put k v mk), (Some k).
  assert (Hmk : map_wf mk) by (unfold mk; case_match; [done|by apply map_put_wf]).
  split_and!; [by apply map_put_wf| |congruence|done]. apply put_valid; [done|].
  unfold mk. case_match; [done|]. by apply put_valid; [split; [|constructor]|].
Qed.
(** *** Any scalar *)

Definition some_value (p p' : reader) : Prop :=
  ∃ v, valid_value v ∧ delivers v p p' ∧ (left p' ≤ left p)%nat.

Lemma same_some p p1 p' : same p p1 → (left p1 ≤ left p)%nat → some_value p1 p' → some_value p p'.
Proof.
  intros Hs Hl (v & Hv & Hd & Hl'). exists v. split_and!; [done|by eapply same_delivers|lia].
Qed.

Lemma deliver_scalar v p (Q : unit → reader → Prop) X :
  receives (ref_stack p) → valid_value v → (∀ p', some_value p p' → Q tt p') → wp (handle_value v) p Q X.
Proof.
  intros Hr Hv HQ. apply wp_deliver; [done|]. intros p' Hd Hlex. apply HQ. exists v.
  split_and!; [done|done|]. unfold left. by rewrite Hlex.
Qed.

Lemma deliver_number w (g : Z → json) p (Q : unit → reader → Prop) :
  receives (ref_stack p) → (∀ n, 0 ≤ n < 2 ^ (8 * Z.of_nat w) → valid_value (g n)) →
  (∀ p', some_value p p' → Q tt p') → wp (n <- get_number w ;; handle_value (g n)) p Q XB.
Proof.
  intros Hr Hg HQ. wp_step. apply wp_get_number. intros n p1 Hn Hs Hl.
  apply deliver_scalar; [by destruct Hs as [_ ->]|by apply Hg|]. intros p' Hp'. apply HQ. eapply same_some; [done|lia|done].
Qed.

(** A length of the widths that follow is read first. *)
Lemma after_length (k : Z → RM unit) w p :
  (∀ len p1, same p p1 → (left p1 ≤ left p)%nat → wp (k len) p1 (λ _, some_value p) XB) →
  wp (len <- get_number w ;; k len) p (λ _, some_value p) XB.
Proof. intros Hk. wp_step. apply wp_get_number. intros n p1 _ Hs Hl. apply Hk; [done|lia]. Qed.

Lemma deliver_string n key p (Q : unit → reader → Prop) :
  key_total n key → receives (ref_stack p) → (left p ≤ n)%nat → (∀ p', some_value p p' → Q tt p') →
  wp (s <- key ;; handle_value (jstring s)) p Q XB.
Proof.
  intros Hk Hr Hl HQ. wp_step. eapply wp_mono; [by apply Hk| |done]. intros s p1 [Hs Hl1]. cbv beta.
  apply deliver_scalar; [by destruct Hs as [_ ->]|apply valid_string|]. intros p' Hp'. apply HQ. by eapply same_some.
Qed.

(** *** Containers that were written *)

(** The elements, one after the other. *)
Definition write_all {A} (f : A → string) (l : list A) : string := foldr (λ a s, f a +:+ s) "" l.

Lemma write_all_cons {A} (f : A → string) a l : write_all f (a :: l) = f a +:+ write_all f l.
Proof. done. Qed.

(** [key] reads the bytes [s] as [k]. *)
Definition key_reads (n : nat) (key : RM string) (s k : string) : Prop :=
  ∀ t p X, (left p ≤ n)%nat → rest (m_lexer p) = s +:+ t →
  wp get p (λ _ p1, wp key p1 (λ k' p', k' = k ∧ same p p' ∧ rest (m_lexer p') = t) X) X.

Lemma left_app p s t : rest (m_lexer p) = s +:+ t → left p = (String.length s + String.length t)%nat.
Proof. unfold left. intros ->. apply length_append. Qed.

Lemma items_run n m (f : json → string) fuel l seen st t p X :
  Forall (λ v, reads n m (f v) (as_read v)) l → (left p ≤ n)%nat → (left p < fuel)%nat →
  rest (m_lexer p) = write_all f l +:+ t → ref_stack p = Farray seen :: st →
  wp (for_len fuel (Z.of_nat (length l)) m) p
    (λ _ p', root p' = root p ∧ ref_stack p' = Farray (seen ++ map as_read l) :: st ∧ rest (m_lexer p') = t) X.
Proof.
  intros Hl. revert fuel seen p. induction Hl as [|v l [Hpos Hv] _ IH]; intros fuel seen p Hn Hf Hrest Hst;
    (destruct fuel as [|fuel]; [lia|]); cbn [for_len length].
  { change (wp (ret tt) p (λ _ p', root p' = root p ∧ ref_stack p' = Farray (seen ++ map as_read []) :: st
      ∧ rest (m_lexer p') = t) X). wp_step. by rewrite app_nil_r. }
  rewrite (proj2 (Z.leb_gt _ 0)) by lia. rewrite write_all_cons, append_assoc in Hrest. pose proof (left_app _ _ _ Hrest).
  wp_step. eapply wp_mono; [apply Hv; [by rewrite Hst|done|exact Hrest]| |done]. intros _ p1 [Hd Hr1]. cbv beta.
  unfold delivers in Hd. rewrite Hst in Hd. injection Hd as Hroot1 Hst1.
  assert (Hl1 : left p1 = String.length (write_all f l +:+ t)) by (unfold left; by rewrite Hr1).
  replace (Z.of_nat (S (length l)) - 1) with (Z.of_nat (length l)) by lia.
  eapply wp_mono; [apply (IH fuel (seen ++ [as_read v])); [lia|lia|done|done]| |done].
  intros _ p' (Hroot' & Hst' & Hr'). split_and!; [congruence| |done]. by rewrite Hst', <-app_assoc.
Qed.

Lemma members_run n key m (fk : string → string) (f : json → string) fuel l seen el st t p X :
  Forall (λ kv, key_reads n key (fk kv.1) kv.1 ∧ reads n m (f kv.2) (as_read kv.2)) l →
  map_wf seen → (left p ≤ n)%nat → (left p < fuel)%nat →
  rest (m_lexer p) = write_all (λ kv, fk kv.1 +:+ f kv.2) l +:+ t → ref_stack p = Fobject seen el :: st →
  wp (for_len fuel (Z.of_nat (length l)) (get ;; get_member key m)) p
    (λ _ p', root p' = root p ∧ rest (m_lexer p') = t ∧
       ∃ el', ref_stack p' = Fobject (put_members seen (map (λ kv, (kv.1, as_read kv.2)) l)) el' :: st) X.
Proof.
  intros Hl. revert fuel seen el p. induction Hl as [|[k v] l [Hk [Hpos Hv]] _ IH];
    intros fuel seen el p Hwf Hn Hf Hrest Hst; (destruct fuel as [|fuel]; [lia|]); cbn [for_len length].
  { change (wp (ret tt) p (λ _ p', root p' = root p ∧ rest (m_lexer p') = t ∧
      ∃ el', ref_stack p' = Fobject (put_members seen []) el' :: st) X). wp_step. eauto. }
  rewrite (proj2 (Z.leb_gt _ 0)) by lia. rewrite write_all_cons, !append_assoc in Hrest. cbn [fst snd] in *.
  pose proof (left_app _ _ _ Hrest) as Hlen. rewrite length_append in Hlen.
  do 2 wp_step. eapply wp_mono; [by apply Hk| |done]. intros c p0 Hkey. cbv beta. unfold get_member. wp_step.
  eapply wp_mono; [exact Hkey| |done]. clear Hkey. intros k' p1 (-> & [Hroot1 Hst1] & Hr1). cbv beta. wp_step.
  set (mk := if map_mem k seen then seen else map_put k jnull seen).
  apply (wp_run _ _ _ _ tt (with_sax (root p1) (Fobject mk (Some k) :: st) p1)).
  { unfold sax_key. by rewrite Hst1, Hst. }
  pose proof (left_app _ _ _ Hr1) as Hl1.
  eapply wp_mono; [apply Hv; [done|unfold left in *; simpl; lia|exact Hr1]| |done].
  intros _ p2 [Hd Hr2]. cbv beta. unfold delivers in Hd. simpl in Hd. injection Hd as Hroot2 Hst2.
  unfold mk in Hst2. rewrite member_put in Hst2 by done.
  assert (Hl2 : left p2 = String.length (write_all (λ kv, fk kv.1 +:+ f kv.2) l +:+ t)) by (unfold left; by rewrite Hr2).
  replace (Z.of_nat (S (length l)) - 1) with (Z.of_nat (length l)) by lia.
  eapply wp_mono; [apply (IH fuel (map_put k (as_read v) seen) (Some k)); [by apply map_put_wf|lia|lia|done|done]| |done].
  intros _ p' (Hroot' & Hr' & Hst'). split_and!; [congruence|done|exact Hst'].
Qed.

(** A definite length within the limits starts a container. *)
Lemma start_array_run len p (Q : unit → reader → Prop) X :
  len ≤ array_max_size → Q tt (with_sax (root p) (Farray [] :: ref_stack p) p) → wp (start_array len) p Q X.
Proof.
  intros Hlen HQ. unfold start_array, sax_start_array. do 2 wp_step.
  rewrite (proj2 (Z.ltb_ge _ _)), andb_false_r by done. by wp_step.
Qed.

Lemma start_object_run len p (Q : unit → reader → Prop) X :
  len ≤ object_max_size → Q tt (with_sax (root p) (Fobject [] None :: ref_stack p) p) → wp (start_object len) p Q X.
Proof.
  intros Hlen HQ. unfold start_object, sax_start_object. do 2 wp_step.
  rewrite (proj2 (Z.ltb_ge _ _)), andb_false_r by done. by wp_step.
Qed.

Lemma array_run n m f fuel l t p X :
  Forall (λ v, reads n m (f v) (as_read v)) l → Z.of_nat (length l) ≤ array_max_size →
  receives (ref_stack p) → (left p ≤ n)%nat → (n < fuel)%nat → rest (m_lexer p) = write_all f l +:+ t →
  wp (start_array (Z.of_nat (length l)) ;; for_len fuel (Z.of_nat (length l)) m ;; sax_end_array) p
    (λ _ p', delivers (as_read (jarray l)) p p' ∧ rest (m_lexer p') = t) X.
Proof.
  intros Hl Hlen Hr Hn Hf Hrest. wp_step. apply start_array_run; [done|]. wp_step.
  eapply wp_mono; [apply (items_run n m f fuel l [] (ref_stack p) t); [done|done| |done|done]| |done].
  { unfold left in *. simpl. lia. }
  intros _ p1 (Hroot & Hst & Hr1). cbv beta. eapply wp_end_array; [exact Hr|exact Hst|].
  intros p' Hd Hlex. split; [|congruence]. unfold delivers. by rewrite Hd, Hroot.
Qed.

Lemma object_run n key m fk f fuel (l : std_map json) t p X :
  Forall (λ kv, key_reads n key (fk kv.1) kv.1 ∧ reads n m (f kv.2) (as_read kv.2)) l → map_wf l →
  Z.of_nat (length l) ≤ object_max_size →
  receives (ref_stack p) → (left p ≤ n)%nat → (n < fuel)%nat →
  rest (m_lexer p) = write_all (λ kv, fk kv.1 +:+ f kv.2) l +:+ t →
  wp (start_object (Z.of_nat (length l)) ;; for_len fuel (Z.of_nat (length l)) (get ;; get_member key m) ;; sax_end_object) p
    (λ _ p', delivers (as_read (jobject l)) p p' ∧ rest (m_lexer p') = t) X.
Proof.
  intros Hl Hwf Hlen Hr Hn Hf Hrest. wp_step. apply start_object_run; [done|]. wp_step.
  eapply wp_mono; [apply (members_run n key m fk f fuel l [] None (ref_stack p) t); [done|constructor|done| |done|done]| |done].
  { unfold left in *. simpl. lia. }
  intros _ p1 (Hroot & Hr1 & el & Hst). cbv beta.
  rewrite put_members_sorted in Hst by (by apply (map_values_wf as_read)).
  eapply wp_end_object; [exact Hr|exact Hst|].
  intros p' Hd Hlex. split; [|congruence]. unfold delivers. by rewrite Hd, Hroot.
Qed.
End containers.

(** ** Formats *)

Class BinaryFormat : Type := {
  write : json → string;
  parse : nat → RM unit;
}.

Class BinaryFormatTotal `{BinaryFormat} : Prop := {
  parse_total n : parses n (parse (n + 2));
}.

Class BinaryFormatSpec (writable : json → Prop) `{BinaryFormat} : Prop := {
  parse_written n v : writable v → reads n (parse (n + 2)) (write v) (as_read v);
}.

(** [sax_parse] of the reader, in strict mode or not, and [from_...]. *)
Definition sax_parse (parse : nat → RM unit) (fuel : nat) (strict : bool) : RM unit :=
  parse fuel ;;
  if strict then
    get ;;
    current <- gets last_token ;;
    if negb (current =? eof) then binary_error 110 "expected end of input" else ret tt
  else ret tt.

(** A turn of the reader consumes a byte, or ends a loop or the value. *)
Definition binary_fuel (input : string) : nat := String.length input + 2.

Definition from_binary `{BinaryFormat} (strict : bool) (input : string) : outcome exn json :=
  (bind (sax_parse parse (binary_fuel input) strict) (λ _, gets root) (reader_init input)).1.

Section format.
Context `{BinaryFormat}.

Lemma from_written writable `{!BinaryFormatSpec writable} strict v t :
  writable v → (strict = true → t = "") → from_binary strict (write v +:+ t) = Ok (as_read v).
Proof.
  intros Hv Ht. set (input := write v +:+ t). unfold from_binary.
  assert (Hwp : wp (sax_parse parse (binary_fuel input) strict ;; gets root) (reader_init input)
                  (λ v' _, v' = as_read v) no_exn).
  2:{ unfold wp in Hwp. destruct (bind _ _ _) as [[v'| | |] p']; try done. simpl. by rewrite Hwp. }
  unfold sax_parse. do 2 wp_step.
  eapply wp_mono; [apply (proj2 (parse_written (String.length input) v Hv) t (reader_init input) no_exn)| |done];
    [done|done|done|].
  intros _ p [Hd Hr]. cbv beta. unfold delivers in Hd. injection Hd as Hroot _. destruct strict; cbv iota; [|do 2 wp_step; congruence].
  rewrite Ht in Hr by done. wp_step. apply wp_br_get; [intros c s p' E; congruence|].
  intros p' _ _ Hl [Hroot' _]. cbv beta. do 2 wp_step. rewrite Hl. change (negb (eof =? eof)) with false. cbv iota. do 2 wp_step. congruence.
Qed.

Lemma from_any `{!BinaryFormatTotal} strict input :
  (∃ v, from_binary strict input = Ok v ∧ valid_value v)
  ∨ (∃ e, from_binary strict input = Throw e ∧ binary_exn e).
Proof.
  unfold from_binary.
  assert (Hwp : wp (sax_parse parse (binary_fuel input) strict ;; gets root) (reader_init input)
                  (λ v _, valid_value v) XB).
  2:{ apply wp_inv in Hwp as [(v & p & -> & Hv)|(e & p & -> & He)]; eauto. }
  unfold sax_parse. do 2 wp_step.
  eapply wp_mono; [apply (parse_total (String.length input) (reader_init input))| |done]; [done|done|].
  intros _ p (v & Hv & Hd & _). cbv beta. unfold delivers in Hd. injection Hd as Hroot _.
  destruct strict; cbv iota; [|do 2 wp_step; congruence]. wp_step.
  apply wp_br_get; intros; cbv beta; do 2 wp_step; case_match.
  1, 3: apply wp_binary_error; by left.
  all: do 2 wp_step; match goal with Hs : same _ _ |- _ => destruct Hs as [-> _] end; congruence.
Qed.
End format.
