(* ===== verification/Cbor.v ===== *)
(** * CBOR (json.hpp, [write_cbor], [parse_cbor_internal])

    Both directions of the format, the reader on every byte sequence, and the
    round trip. *)

From stdpp Require Import base gmap strings list.
From Stdlib Require Import ZArith Ascii Lia.
From S2P Require Import Prelude Cxx StdMap JsonValue JsonSax JsonBinary BinaryReader BinaryFormat.

Section cbor.
Context `{Machine}.

(** ** The writer *)

(** The control byte and the number [n] of at most 64 bits, in the fewest
    bytes: [first] is the control byte for one byte that follows. *)
Definition cbor_head (first n : Z) : string :=
  if n <=? 0x17 then write_number 1 (first - 0x18 + n)
  else if n <=? 0xFF then byte first +:+ write_number 1 n
  else if n <=? 0xFFFF then byte (first + 1) +:+ write_number 2 n
  else if n <=? 0xFFFFFFFF then byte (first + 2) +:+ write_number 4 n
  else byte (first + 3) +:+ write_number 8 n.

Definition write_cbor_string (s : string) : string :=
  cbor_head 0x78 (Z.of_nat (String.length s)) +:+ s.

Fixpoint write_cbor (j : json) : string :=
  match j with
  | jnull => byte 0xF6
  | jboolean b => byte (if b then 0xF5 else 0xF4)
  | jnumber_integer z => if 0 <=? z then cbor_head 0x18 z else cbor_head 0x38 (-1 - z)
  | jnumber_unsigned z => cbor_head 0x18 z
  | jnumber_float d => byte 0xFB +:+ write_number 8 (double_bits d)
  | jstring s => write_cbor_string s
  | jarray l => cbor_head 0x98 (Z.of_nat (length l)) +:+ write_all write_cbor l
  | jobject m =>
      cbor_head 0xB8 (Z.of_nat (length m)) +:+
      write_all (λ el, write_cbor_string el.1 +:+ write_cbor el.2) m
  | jdiscarded => ""
  end.

(** ** The reader *)

(** [while (get() != 0xFF)], the chunks of a string. *)
Fixpoint cbor_chunks (fuel : nat) (get_chunk : RM string) (result : string) : RM string :=
  match fuel with
  | O => out_of_fuel
  | S fuel =>
      c <- get ;;
      if c =? 0xFF then ret result else
      chunk <- get_chunk ;; cbor_chunks fuel get_chunk (result +:+ chunk)
  end.

Fixpoint get_cbor_string (fuel : nat) : RM string :=
  match fuel with
  | O => out_of_fuel
  | S fuel =>
      unexpect_eof ;;
      current <- gets last_token ;;
      if between 0x60 0x77 current then read_string fuel (Z.land current 0x1F)
      else if between 0x78 0x7B current then
        len <- get_number (follow (current - 0x78)) ;; read_string fuel len
      else if current =? 0x7F then cbor_chunks fuel (get_cbor_string fuel) ""
      else binary_error 113 ("expected a CBOR string; last byte: 0x" +:+ get_token_string)
  end.

(** [parse get_char] is the reader of the elements. *)
Definition get_cbor_array (parse : bool → RM unit) (fuel : nat) (len : Z) : RM unit :=
  start_array len ;;
  (if negb (len =? no_limit) then for_len fuel len (parse true)
   else while_not fuel 0xFF (parse false)) ;;
  sax_end_array.

Definition get_cbor_object (parse : bool → RM unit) (fuel : nat) (len : Z) : RM unit :=
  start_object len ;;
  (if negb (len =? no_limit)
   then for_len fuel len (get ;; get_member (get_cbor_string fuel) (parse true))
   else while_not fuel 0xFF (get_member (get_cbor_string fuel) (parse true))) ;;
  sax_end_object.

(** The [switch] on a control byte, from its last cases to its first: constants
    and floating-point numbers, arrays and maps, integers and strings. *)
Definition parse_cbor_simple (c : Z) : RM unit :=
  if c =? 0xF4 then handle_value (jboolean false)
  else if c =? 0xF5 then handle_value (jboolean true)
  else if c =? 0xF6 then handle_value jnull
  else if c =? 0xF9 then
    get ;; unexpect_eof ;; byte1 <- gets last_token ;;
    get ;; unexpect_eof ;; byte2 <- gets last_token ;;
    handle_value (jnumber_float (half_float byte1 byte2))
  else if c =? 0xFA then
    number <- get_number 4 ;; handle_value (jnumber_float (bits_float number))
  else if c =? 0xFB then
    number <- get_number 8 ;; handle_value (jnumber_float (bits_double number))
  else binary_error 112 ("error reading CBOR; last byte: 0x" +:+ get_token_string).

Definition parse_cbor_container (parse : bool → RM unit) (fuel : nat) (c : Z) : RM unit :=
  if between 0x80 0x97 c then get_cbor_array parse fuel (Z.land c 0x1F)
  else if between 0x98 0x9B c then
    len <- get_number (follow (c - 0x98)) ;; get_cbor_array parse fuel len
  else if c =? 0x9F then get_cbor_array parse fuel no_limit
  else if between 0xA0 0xB7 c then get_cbor_object parse fuel (Z.land c 0x1F)
  else if between 0xB8 0xBB c then
    len <- get_number (follow (c - 0xB8)) ;; get_cbor_object parse fuel len
  else if c =? 0xBF then get_cbor_object parse fuel no_limit
  else parse_cbor_simple c.

Definition parse_cbor_byte (parse : bool → RM unit) (fuel : nat) (c : Z) : RM unit :=
  if c =? eof then unexpect_eof
  else if c <=? 0x17 then handle_value (jnumber_unsigned c)
  else if between 0x18 0x1B c then
    number <- get_number (follow (c - 0x18)) ;; handle_value (jnumber_unsigned number)
  else if between 0x20 0x37 c then handle_value (jnumber_integer (wrap_signed 8 (0x20 - 1 - c)))
  else if between 0x38 0x3A c then
    number <- get_number (follow (c - 0x38)) ;; handle_value (jnumber_integer (-1 - number))
  else if c =? 0x3B then
    number <- get_number 8 ;; handle_value (jnumber_integer (-1 - wrap_signed 64 number))
  else if between 0x60 0x7B c || (c =? 0x7F) then
    s <- get_cbor_string fuel ;; handle_value (jstring s)
  else parse_cbor_container parse fuel c.

Fixpoint parse_cbor_internal (fuel : nat) (get_char : bool) : RM unit :=
  match fuel with
  | O => out_of_fuel
  | S fuel =>
      c <- (if get_char then get else gets last_token) ;;
      parse_cbor_byte (parse_cbor_internal fuel) fuel c
  end.
End cbor.

#[export] Instance cbor `{Machine} : BinaryFormat := {
  write := write_cbor;
  parse fuel := parse_cbor_internal fuel true;
}.

Definition to_cbor `{Machine} (j : json) : string := write (BinaryFormat := cbor) j.
Definition from_cbor `{Machine} (strict : bool) (input : string) : outcome exn json :=
  from_binary (H := cbor) strict input.

Definition cbor_sample : json :=
  jobject [("a", jarray [jnumber_unsigned 23; jnumber_integer (-500); jboolean true; jnull]);
           ("b", jnumber_float (Dfin true (2 ^ 52 + 1) (-52))); ("c", jstring "text")].

Example cbor_sample_bytes :
  bytes_of (to_cbor (H := x86_64) cbor_sample)
  = [0xA3; 0x61; 97; 0x84; 23; 0x39; 1; 0xF3; 0xF5; 0xF6; 0x61; 98; 0xFB; 0xBF; 0xF0; 0; 0; 0; 0; 0; 1;
     0x61; 99; 0x64; 116; 101; 120; 116].
Proof. vm_compute. reflexivity. Qed.

Example cbor_sample_back :
  from_cbor (H := x86_64) true (to_cbor (H := x86_64) cbor_sample) = Ok cbor_sample.
Proof. vm_compute. reflexivity. Qed.

Example cbor_indefinite :
  from_cbor (H := x86_64) true (string_of [0x9F; 1; 0x7F; 0x61; 97; 0x60; 0xFF; 0xBF; 0x60; 0xF6; 0xFF; 0xFF])
  = Ok (jarray [jnumber_unsigned 1; jstring "a"; jobject [("", jnull)]]).
Proof. vm_compute. reflexivity. Qed.

(** ** Reading any bytes *)

Section total.
Context `{Machine}.

Lemma wp_cbor_chunks fuel chunk p r (Q : string → reader → Prop) :
  (∀ p1, (left p1 < left p)%nat ∨ last_token p1 = eof →
     wp chunk p1 (λ _ p', last_token p1 ≠ eof ∧ same p1 p' ∧ (left p' ≤ left p1)%nat) XB) →
  (left p < fuel)%nat →
  (∀ s p', same p p' → (left p' ≤ left p)%nat → Q s p') → wp (cbor_chunks fuel chunk r) p Q XB.
Proof.
  revert p r Q. induction fuel as [|fuel IH]; intros p r Q Hchunk Hf HQ; cbn [cbor_chunks]; [lia|].
  wp_step. apply wp_br_get.
  - intros c s p1 E E1 Hl1 Hs1. assert (Hleft : S (left p1) = left p) by (unfold left; by rewrite E, E1).
    destruct (byte_of c =? 0xFF); wp_step; [apply HQ; [done|lia]|].
    eapply wp_mono; [apply Hchunk; left; lia| |done]. intros s2 p2 (_ & Hs2 & Hl2). cbv beta.
    apply IH; [|lia|].
    + intros p3 [Hl3|Hl3]; apply Hchunk; [left; lia|by right].
    + intros s3 p3 Hs3 Hl3. apply HQ; [|lia]. by eapply same_trans; [|eapply same_trans].
  - intros p1 E E1 Hl1 Hs1. change (eof =? 0xFF) with false. cbv iota. wp_step.
    eapply wp_mono; [apply Hchunk; by right| |done]. intros s2 p2 [Hne _]. by destruct Hne.
Qed.

Lemma wp_get_cbor_string fuel p (Q : string → reader → Prop) :
  (left p + 2 ≤ fuel)%nat →
  (∀ s p', last_token p ≠ eof → same p p' → (left p' ≤ left p)%nat → Q s p') → wp (get_cbor_string fuel) p Q XB.
Proof.
  revert p Q. induction fuel as [|fuel IH]; intros p Q Hf HQ; cbn [get_cbor_string]; [lia|].
  wp_step. apply wp_unexpect_eof. intros Hne. do 2 wp_step.
  destruct (between 0x60 0x77 _); [|destruct (between 0x78 0x7B _); [|destruct (_ =? 0x7F)]].
  - apply wp_read_string; [lia|]. auto.
  - wp_step. apply wp_get_number. intros n p1 _ Hs1 Hl1. apply wp_read_string; [lia|].
    intros s p' Hs Hl. apply HQ; [done|by eapply same_trans|lia].
  - apply wp_cbor_chunks; [|lia|auto]. intros p1 Hp1.
    destruct (decide (last_token p1 = eof)) as [He|He].
    + destruct fuel as [|fuel]; [lia|]. cbn [get_cbor_string]. wp_step. by apply wp_unexpect_eof.
    + destruct Hp1 as [Hp1|]; [|done]. apply IH; [lia|]. auto.
  - apply wp_binary_error. set_solver.
Qed.

Lemma cbor_key_total n fuel : (n + 2 ≤ fuel)%nat → key_total n (get_cbor_string fuel).
Proof. intros Hn p Hp. apply wp_get_cbor_string; [lia|]. auto. Qed.

(** The reader with [fuel], with and without a byte to read first. *)
Definition cbor_parses (fuel : nat) : Prop :=
  (∀ p, receives (ref_stack p) → (left p + 2 ≤ fuel)%nat →
     wp (parse_cbor_internal fuel true) p (λ _ p', ∃ v, valid_value v ∧ delivers v p p' ∧ (left p' < left p)%nat) XB)
  ∧ (∀ p, receives (ref_stack p) → (0 < fuel)%nat → last_token p = eof ∨ 0 ≤ last_token p ∧ (left p + 3 ≤ fuel)%nat →
     wp (parse_cbor_internal fuel false) p
       (λ _ p', last_token p ≠ eof ∧ ∃ v, valid_value v ∧ delivers v p p' ∧ (left p' ≤ left p)%nat) XB).

Lemma cbor_parses_items fuel n : cbor_parses fuel → (n + 2 ≤ fuel)%nat → parses n (parse_cbor_internal fuel true).
Proof. intros [Hp _] Hn p Hr Hl. apply Hp; [done|lia]. Qed.

Lemma array_elements fuel len p p1 :
  cbor_parses fuel → (left p + 2 ≤ fuel)%nat → in_array (root p) (ref_stack p) p1 → left p1 = left p →
  wp (if negb (len =? no_limit) then for_len fuel len (parse_cbor_internal fuel true)
      else while_not fuel 0xFF (parse_cbor_internal fuel false)) p1
    (λ _ p', in_array (root p) (ref_stack p) p' ∧ (left p' ≤ left p1)%nat) XB.
Proof.
  intros Hp Hf Hin Hl1. set (I p' := in_array (root p) (ref_stack p) p' ∧ (left p' ≤ left p)%nat).
  assert (HI : I p1) by (split; [done|lia]). destruct (negb _).
  - eapply wp_mono; [apply (wp_for_len _ _ _ I); [|done|lia]| |done]; [|intros _ p' [[? _] ?]; by split].
    intros p2 [Hin2 Hl2]. eapply wp_mono; [eapply item_total; [by apply (cbor_parses_items fuel (left p))|done|done]| |done].
    intros _ p' [Hin' Hl']. split; [split; [done|lia]|lia].
  - eapply wp_mono; [apply (wp_while_not _ _ _ I); [| |done|lia]| |done]; [| |intros _ p' [[? _] ?]; by split].
    + intros p2 p3 c [(items & Hitems & Hroot2 & Hst2) Hl2] Hc [Hroot3 Hst3] Hcase.
      eapply wp_mono; [apply (proj2 Hp p3); [by rewrite Hst3, Hst2|lia|]| |done].
      { destruct Hcase as [[Hz _]|[Hz ?]]; [left; congruence|right; split; [congruence|lia]]. }
      intros _ p' (Hne & v & Hv & Hd & Hle). destruct Hcase as [[Hz _]|[_ Hz]]; [congruence|].
      assert (Hlt : (left p' < left p2)%nat) by lia. split; [|done]. split; [|lia]. unfold delivers in Hd. rewrite Hst3, Hst2 in Hd. simpl in Hd.
      injection Hd as Hroot' Hst'. exists (items ++ [v]). split_and!; [|congruence|done].
      apply Forall_app. by split; [|constructor].
    + intros p2 p3 [(items & Hitems & Hroot2 & Hst2) Hl2] [Hroot3 Hst3] Hl3. split; [|lia].
      exists items. split_and!; [done|congruence|congruence].
Qed.

Lemma object_elements fuel len p p1 :
  cbor_parses fuel → (left p + 2 ≤ fuel)%nat → in_object (root p) (ref_stack p) p1 → left p1 = left p →
  wp (if negb (len =? no_limit)
      then for_len fuel len (get ;; get_member (get_cbor_string fuel) (parse_cbor_internal fuel true))
      else while_not fuel 0xFF (get_member (get_cbor_string fuel) (parse_cbor_internal fuel true))) p1
    (λ _ p', in_object (root p) (ref_stack p) p' ∧ (left p' ≤ left p1)%nat) XB.
Proof.
  intros Hp Hf Hin Hl1. set (I p' := in_object (root p) (ref_stack p) p' ∧ (left p' ≤ left p)%nat).
  assert (Hsame : ∀ p2 p3, I p2 → same p2 p3 → (left p3 ≤ left p2)%nat → I p3).
  { intros p2 p3 [(m & el & Hwf & Hm & Hroot2 & Hst2) Hl2] [Hroot3 Hst3] Hl3. split; [|lia].
    exists m, el. split_and!; [done|done|congruence|congruence]. }
  assert (Hmember : ∀ p2, I p2 → wp (get_member (get_cbor_string fuel) (parse_cbor_internal fuel true)) p2
    (λ _ p', I p' ∧ (left p' < left p2)%nat) XB).
  { intros p2 [Hin2 Hl2]. eapply wp_mono; [eapply (member_total (left p)); [by apply cbor_key_total|by apply cbor_parses_items|done|done]| |done].
    intros _ p' [Hin' Hl']. split; [split; [done|lia]|lia]. }
  assert (HI : I p1) by (split; [done|lia]). destruct (negb _).
  - eapply wp_mono; [apply (wp_for_len _ _ _ I); [|done|lia]| |done]; [|intros _ p' [[? _] ?]; by split].
    intros p2 Hp2. wp_step. apply wp_br_get.
    + intros c s p3 E E3 Hl3 Hs3. assert (Hleft : S (left p3) = left p2) by (unfold left; by rewrite E, E3).
      eapply wp_mono; [apply Hmember; eapply Hsame; [exact Hp2|done|lia]| |done]. intros _ p' [Hp' Hl']. split; [done|lia].
    + intros p3 E E3 Hl3 Hs3. assert (Hleft : left p3 = left p2) by (unfold left; by rewrite E, E3).
      eapply wp_mono; [apply Hmember; eapply Hsame; [exact Hp2|done|lia]| |done]. intros _ p' [Hp' Hl']. split; [done|lia].
  - eapply wp_mono; [apply (wp_while_not _ _ _ I); [| |done|lia]| |done]; [|done|intros _ p' [[? _] ?]; by split].
    intros p2 p3 c Hp2 Hc Hs3 Hcase. assert (Hle : (left p3 ≤ left p2)%nat) by lia.
    eapply wp_mono; [apply Hmember; by eapply Hsame| |done]. intros _ p' [Hp' Hl']. split; [done|lia].
Qed.

Lemma cbor_array_total fuel len p p1 :
  cbor_parses fuel → receives (ref_stack p) → (left p + 2 ≤ fuel)%nat → same p p1 → (left p1 ≤ left p)%nat →
  wp (get_cbor_array (parse_cbor_internal fuel) fuel len) p1 (λ _, some_value p) XB.
Proof.
  intros Hp Hr Hf Hs1 Hl1. eapply wp_mono; [apply array_total; [by destruct Hs1 as [_ ->]|]| |done].
  - intros p2 Hin Hl2. apply (array_elements fuel len p1); [done|lia|done|done].
  - intros u p' Hsome. by eapply same_some.
Qed.

Lemma cbor_object_total fuel len p p1 :
  cbor_parses fuel → receives (ref_stack p) → (left p + 2 ≤ fuel)%nat → same p p1 → (left p1 ≤ left p)%nat →
  wp (get_cbor_object (parse_cbor_internal fuel) fuel len) p1 (λ _, some_value p) XB.
Proof.
  intros Hp Hr Hf Hs1 Hl1. eapply wp_mono; [apply object_total; [by destruct Hs1 as [_ ->]|]| |done].
  - intros p2 Hin Hl2. apply (object_elements fuel len p1); [done|lia|done|done].
  - intros u p' Hsome. by eapply same_some.
Qed.

Lemma follow_small i n : i ≤ 2 → n < 2 ^ (8 * Z.of_nat (follow i)) → n < 2 ^ 32.
Proof.
  intros Hi Hn. eapply Z.lt_le_trans; [exact Hn|]. apply Z.pow_le_mono_r; [lia|].
  assert (Hf : (follow i ≤ 4)%nat); [|lia]. unfold follow. change 4%nat with (2 ^ 2)%nat.
  apply Nat.pow_le_mono_r; lia.
Qed.

(** The [switch] on a byte. *)
Lemma wp_parse_cbor_byte fuel c p :
  cbor_parses fuel → receives (ref_stack p) → 0 ≤ c → (left p + 2 ≤ fuel)%nat →
  wp (parse_cbor_byte (parse_cbor_internal fuel) fuel c) p (λ _, some_value p) XB.
Proof.
  intros Hp Hr Hpos Hf. unfold parse_cbor_byte, parse_cbor_container, parse_cbor_simple. rewrite (proj2 (Z.eqb_neq c eof)) by (unfold eof; lia).
  unfold between. repeat case_match; zify_cmp.
  all: try (apply deliver_number; [done| |done]; intros n Hn).
  all: try (apply after_length; intros; by apply cbor_array_total).
  all: try (apply after_length; intros; by apply cbor_object_total).
  all: try (by apply cbor_array_total).
  all: try (by apply cbor_object_total).
  all: try (apply deliver_scalar; [done| |done]).
  all: try (apply (deliver_string (left p)); [by apply cbor_key_total|done|done|done]).
  all: try (apply wp_binary_error; set_solver).
  all: auto with valid.
  - apply valid_unsigned. lia.
  - apply valid_unsigned. split; [lia|]. apply (follow_range (c - 0x18)); [lia|apply Hn].
  - apply valid_integer. pose proof (wrap_signed_range 8 (0x20 - 1 - c) ltac:(lia)). lia.
  - apply valid_integer. destruct Hn as [Hn0 Hn]. apply follow_small in Hn; lia.
  - apply valid_integer. pose proof (wrap_signed_range 64 n ltac:(lia)). lia.
  - apply wp_byte. intros b1 p1 _ _ Hs1 Hl1. apply wp_byte. intros b2 p2 _ _ Hs2 Hl2.
    pose proof (same_trans _ _ _ Hs1 Hs2) as Hs.
    apply deliver_scalar; [by destruct Hs as [_ ->]|auto with valid|]. intros p' Hp'. eapply same_some; [done|lia|done].
Qed.

Lemma cbor_parses_all fuel : cbor_parses fuel.
Proof.
  induction fuel as [|fuel IH]; [split; intros; lia|]. split; [intros p Hr Hf|intros p Hr _ Hcase]; cbn [parse_cbor_internal]; wp_step.
  - apply wp_br_get.
    + intros c s p1 E E1 Hl1 Hs1. assert (Hleft : S (left p1) = left p) by (unfold left; by rewrite E, E1).
      eapply wp_mono; [apply wp_parse_cbor_byte; [done|by destruct Hs1 as [_ ->]|apply byte_of_range|lia]| |done].
      intros _ p' (v & Hv & Hd & Hl). exists v. split_and!; [done|by eapply same_delivers|lia].
    + intros p1 E E1 Hl1 Hs1. by apply wp_unexpect_eof.
  - wp_step. destruct (decide (last_token p = eof)) as [He|He].
    + unfold parse_cbor_byte. rewrite He. by apply wp_unexpect_eof.
    + destruct Hcase as [|[Hpos Hf]]; [done|].
      eapply wp_mono; [apply wp_parse_cbor_byte; [done|done|done|lia]| |done]. intros u p' Hsome. by split.
Qed.
End total.

(** ** Reading what was written *)

Section written.
Context `{Machine}.

Lemma cbor_head_cases first n :
  0 ≤ n < 2 ^ 64 →
  (n ≤ 0x17 ∧ cbor_head first n = byte (first - 0x18 + n)) ∨
  (∃ i, 0 ≤ i ≤ 3 ∧ cbor_head first n = byte (first + i) +:+ write_number (follow i) n
        ∧ wrap (8 * Z.of_nat (follow i)) n = n ∧ (i ≤ 2 → n < 2 ^ 32)).
Proof.
  intros Hn. unfold cbor_head.
  destruct (n <=? 0x17) eqn:E0; zify_cmp; [left; split; [done|apply write_byte]|right].
  destruct (n <=? 0xFF) eqn:E1; zify_cmp; [exists 0; rewrite follow_0, Z.add_0_r|].
  { split_and!; [lia|lia|done|apply wrap_small; lia|lia]. }
  destruct (n <=? 0xFFFF) eqn:E2; zify_cmp; [exists 1; rewrite follow_1|].
  { split_and!; [lia|lia|done|apply wrap_small; lia|lia]. }
  destruct (n <=? 0xFFFFFFFF) eqn:E3; zify_cmp; [exists 2; rewrite follow_2|exists 3; rewrite follow_3];
    (split_and!; [lia|lia|done|apply wrap_small; lia|lia]).
Qed.

(** A control byte and its number are read by the branch [K]. *)
Lemma head_run first n f t p (K : Z → RM unit) (Q : unit → reader → Prop) X :
  0x18 ≤ first ≤ 0xF0 → 0 ≤ n < 2 ^ 64 → rest (m_lexer p) = cbor_head first n +:+ t →
  (n ≤ 0x17 → parse_cbor_byte (parse_cbor_internal f) f (first - 0x18 + n) = K n) →
  (∀ i, 0 ≤ i ≤ 3 → (i ≤ 2 → n < 2 ^ 32) → ∃ K', K' n = K n ∧
     parse_cbor_byte (parse_cbor_internal f) f (first + i) = (m <- get_number (follow i) ;; K' m)) →
  (∀ p', same p p' → rest (m_lexer p') = t → wp (K n) p' Q X) →
  wp (parse_cbor_internal (S f) true) p Q X.
Proof.
  intros Hfirst Hn Hrest Hsmall Hbig HQ. cbn [parse_cbor_internal]. wp_step.
  destruct (cbor_head_cases first n Hn) as [[Hle E]|(i & Hi & E & Hw & Hi2)]; rewrite E in Hrest.
  - eapply wp_br_get_cons; [exact Hrest|]. intros p' Hr' _ Hs. rewrite byte_of_char_of by lia.
    rewrite Hsmall by done. by apply HQ.
  - rewrite append_assoc in Hrest. eapply wp_br_get_cons; [exact Hrest|]. intros p' Hr' _ Hs.
    rewrite byte_of_char_of by lia. destruct (Hbig i Hi Hi2) as (K' & HK & ->). wp_step.
    eapply get_number_run; [exact Hr'|]. intros p2 Hr2 Hs2. rewrite Hw, HK. apply HQ; [by eapply same_trans|done].
Qed.

Lemma head_length first n : 0 ≤ n < 2 ^ 64 → (0 < String.length (cbor_head first n))%nat.
Proof.
  intros Hn. destruct (cbor_head_cases first n Hn) as [[_ ->]|(i & _ & -> & _)]; [simpl; lia|].
  rewrite length_append. simpl. lia.
Qed.

Lemma land_small a n : a mod 32 = 0 → 0 ≤ n ≤ 0x17 → Z.land (a + n) 0x1F = n.
Proof.
  intros Ha Hn. change 0x1F with (Z.ones 5). rewrite Z.land_ones by lia. change (2 ^ 5) with 32.
  rewrite <-Z.add_mod_idemp_l, Ha by lia. apply Z.mod_small. lia.
Qed.

(** *** Strings *)

(** The first byte of a string announces one, and the rest is read as the
    string. *)
Lemma cbor_string_run s :
  Z.of_nat (String.length s) < 2 ^ 64 →
  ∃ c s', write_cbor_string s = String c s' ∧ 0x60 ≤ byte_of c ≤ 0x7B ∧
  ∀ t fuel p X, last_token p = byte_of c → rest (m_lexer p) = s' +:+ t → (left p < fuel)%nat →
  wp (get_cbor_string (S fuel)) p (λ k p', k = s ∧ same p p' ∧ rest (m_lexer p') = t) X.
Proof.
  intros Hs. set (n := Z.of_nat (String.length s)) in Hs. unfold write_cbor_string. fold n.
  assert (Hn : 0 ≤ n < 2 ^ 64) by lia.
  destruct (cbor_head_cases 0x78 n Hn) as [[Hle E]|(i & Hi & E & Hw & _)]; rewrite E.
  - exists (char_of (0x78 - 0x18 + n)), s. rewrite byte_of_char_of by lia. split_and!; [done|lia|lia|].
    intros t fuel p X Hlast Hrest Hf. cbn [get_cbor_string]. wp_step. apply unexpect_eof_run; [unfold eof; lia|].
    do 2 wp_step. rewrite Hlast. unfold between. decide_cmp.
    rewrite (land_small 0x60) by (done || lia).
    eapply read_string_run; [exact Hrest| |done]. rewrite (left_app _ _ _ Hrest) in Hf. lia.
  - exists (char_of (0x78 + i)), (write_number (follow i) n +:+ s). rewrite byte_of_char_of by lia.
    split_and!; [by rewrite append_assoc|lia|lia|].
    intros t fuel p X Hlast Hrest Hf. cbn [get_cbor_string]. wp_step. apply unexpect_eof_run; [unfold eof; lia|].
    do 2 wp_step. rewrite Hlast. unfold between. decide_cmp. replace (0x78 + i - 0x78) with i by lia. wp_step.
    rewrite append_assoc in Hrest. pose proof (left_app _ _ _ Hrest) as Hl. rewrite length_append in Hl.
    eapply get_number_run; [exact Hrest|]. intros p1 Hr1 Hs1. rewrite Hw.
    eapply read_string_run; [exact Hr1|lia|]. intros p' Hr' Hs'. split_and!; [done|by eapply same_trans|done].
Qed.
End written.

Section roundtrip.
Context `{MachineSpec}.

Lemma cbor_byte_reads n f b v :
  0 ≤ b < 256 → (∀ self fuel, parse_cbor_byte self fuel b = handle_value v) →
  reads n (parse_cbor_internal (S f) true) (byte b) v.
Proof.
  intros Hb Hrun. split; [simpl; lia|]. intros t p X Hr Hl Hrest. cbn [parse_cbor_internal]. wp_step.
  eapply wp_br_get_cons; [exact Hrest|]. intros p1 Hr1 _ Hs1. rewrite byte_of_char_of, Hrun by done.
  by apply value_done.
Qed.

Lemma cbor_unsigned_reads n f z :
  0 ≤ z < 2 ^ 64 → reads n (parse_cbor_internal (S f) true) (cbor_head 0x18 z) (jnumber_unsigned z).
Proof.
  intros Hz. split; [by apply head_length|]. intros t p X Hr Hl Hrest.
  apply (head_run 0x18 z f t p (λ z, handle_value (jnumber_unsigned z))); [lia|done|done| | |].
  - intros Hle. unfold parse_cbor_byte, parse_cbor_container, parse_cbor_simple, between, eof. decide_cmp. by replace (0x18 - 0x18 + z) with z by lia.
  - intros i Hi _. exists (λ z, handle_value (jnumber_unsigned z)). split; [reflexivity|]. unfold parse_cbor_byte, parse_cbor_container, parse_cbor_simple, between, eof. decide_cmp.
    by replace (0x18 + i - 0x18) with i by lia.
  - intros p1 Hs1 Hr1. by apply value_done.
Qed.

Lemma cbor_negative_reads n f z :
  - 2 ^ 63 ≤ z < 0 → reads n (parse_cbor_internal (S f) true) (cbor_head 0x38 (-1 - z)) (jnumber_integer z).
Proof.
  intros Hz. assert (Hn : 0 ≤ -1 - z < 2 ^ 64) by lia. split; [by apply head_length|]. intros t p X Hr Hl Hrest.
  apply (head_run 0x38 (-1 - z) f t p (λ n, handle_value (jnumber_integer (-1 - n)))); [lia|done|done| | |].
  - intros Hle. unfold parse_cbor_byte, parse_cbor_container, parse_cbor_simple, between, eof. decide_cmp. f_equal. f_equal.
    replace (0x20 - 1 - (0x38 - 0x18 + (-1 - z))) with z by lia.
    rewrite wrap_signed_small by lia. lia.
  - intros i Hi _. destruct (decide (i = 3)) as [->|Hne].
    + exists (λ n, handle_value (jnumber_integer (-1 - wrap_signed 64 n))). split; [|reflexivity].
      unfold wrap_signed. rewrite Z.mod_small by lia. change (64 - 1) with 63. by rewrite (proj2 (Z.ltb_lt (-1 - z) (2 ^ 63))) by lia.
    + exists (λ n, handle_value (jnumber_integer (-1 - n))). split; [reflexivity|]. unfold parse_cbor_byte, parse_cbor_container, parse_cbor_simple, between, eof. decide_cmp.
      by replace (0x38 + i - 0x38) with i by lia.
  - intros p1 Hs1 Hr1. replace (-1 - (-1 - z)) with z by lia. by apply value_done.
Qed.

Lemma cbor_float_reads n f d :
  valid_double d = true →
  reads n (parse_cbor_internal (S f) true) (byte 0xFB +:+ write_number 8 (double_bits d)) (jnumber_float d).
Proof.
  intros Hd. destruct (double_bits_inv d Hd) as [Hinv Hrange].
  split; [rewrite length_append; simpl; lia|]. intros t p X Hr Hl Hrest. rewrite append_assoc in Hrest.
  cbn [parse_cbor_internal]. wp_step. eapply wp_br_get_cons; [exact Hrest|]. intros p1 Hr1 _ Hs1.
  rewrite byte_of_char_of by lia. change (parse_cbor_byte (parse_cbor_internal f) f 0xFB) with
    (number <- get_number 8 ;; handle_value (jnumber_float (bits_double number))). wp_step.
  eapply get_number_run; [exact Hr1|]. intros p2 Hr2 Hs2. change (8 * Z.of_nat 8) with 64. rewrite wrap_small, Hinv by done.
  apply value_done; [done|by eapply same_trans|done].
Qed.

Lemma cbor_key_reads n s :
  Z.of_nat (String.length s) < 2 ^ 64 → key_reads n (get_cbor_string (n + 2)) (write_cbor_string s) s.
Proof.
  intros Hs t p X Hl Hrest. destruct (cbor_string_run s Hs) as (c & s' & E & _ & Hrun). rewrite E in Hrest.
  eapply wp_br_get_cons; [exact Hrest|]. intros p1 Hr1 Hl1 Hs1. replace (n + 2)%nat with (S (S n)) by lia.
  pose proof (left_app p (String c s') t Hrest) as Hlen. pose proof (left_app p1 s' t Hr1) as Hlen1. simpl in Hlen.
  eapply wp_mono; [apply (Hrun t); [done|done|lia]| |done].
  intros k p' (-> & Hs' & Hr'). split_and!; [done|by eapply same_trans|done].
Qed.

Lemma cbor_string_reads n s :
  Z.of_nat (String.length s) < 2 ^ 64 → reads n (parse_cbor_internal (n + 2) true) (write_cbor_string s) (jstring s).
Proof.
  intros Hs. destruct (cbor_string_run s Hs) as (c & s' & E & Hc & Hrun). rewrite E. split; [simpl; lia|].
  intros t p X Hr Hl Hrest. replace (n + 2)%nat with (S (S n)) by lia. cbn [parse_cbor_internal]. wp_step.
  eapply wp_br_get_cons; [exact Hrest|]. intros p1 Hr1 Hl1 Hs1.
  unfold parse_cbor_byte, parse_cbor_container, parse_cbor_simple, between, eof. decide_cmp. wp_step.
  pose proof (left_app p (String c s') t Hrest) as Hlen. pose proof (left_app p1 s' t Hr1) as Hlen1. simpl in Hlen.
  eapply wp_mono; [apply (Hrun t); [done|done|lia]| |done]. intros k p2 (-> & Hs2 & Hr2). cbv beta.
  apply value_done; [done|by eapply same_trans|done].
Qed.

Lemma cbor_array_reads n l :
  Forall (λ v, ∀ n, reads n (parse_cbor_internal (n + 2) true) (write_cbor v) (as_read v)) l →
  Z.of_nat (length l) ≤ array_max_size →
  reads n (parse_cbor_internal (n + 2) true) (write_cbor (jarray l)) (as_read (jarray l)).
Proof.
  intros Hl Hlen. pose proof array_max_size_small as Hmax. assert (Hn : 0 ≤ Z.of_nat (length l) < 2 ^ 64) by lia.
  pose proof (head_length 0x98 _ Hn) as Hh. cbn [write_cbor].
  split; [rewrite length_append; lia|]. intros t p X Hr Hleft Hrest. rewrite append_assoc in Hrest.
  pose proof (left_app p _ _ Hrest) as Hlp. destruct n as [|n]; [lia|]. replace (S n + 2)%nat with (S (n + 2)) by lia.
  eapply (head_run 0x98 (Z.of_nat (length l)) (n + 2) _ p (get_cbor_array (parse_cbor_internal (n + 2)) (n + 2)) _ X);
    [lia|done|exact Hrest| | |].
  - intros Hle. unfold parse_cbor_byte, parse_cbor_container, parse_cbor_simple, between, eof. decide_cmp. by rewrite (land_small 0x80) by (done || lia).
  - intros i Hi _. exists (get_cbor_array (parse_cbor_internal (n + 2)) (n + 2)). split; [reflexivity|]. unfold parse_cbor_byte, parse_cbor_container, parse_cbor_simple, between, eof. decide_cmp.
    by replace (0x98 + i - 0x98) with i by lia.
  - intros p1 Hs1 Hr1. unfold get_cbor_array. rewrite (proj2 (Z.eqb_neq _ no_limit)) by (unfold no_limit; lia). cbn [negb].
    pose proof (left_app p1 _ _ Hr1) as Hl1. rewrite length_append in Hlp.
    eapply wp_mono; [apply (array_run n (parse_cbor_internal (n + 2) true) write_cbor (n + 2) l t p1 X)| |done];
      [|done|by destruct Hs1 as [_ ->]|lia|lia|done|].
    + eapply Forall_impl; [exact Hl|]. intros v Hv. apply Hv.
    + intros _ p' [Hd Hr']. split; [by eapply same_delivers|done].
Qed.

Lemma cbor_object_reads n (m : std_map json) :
  Forall (λ kv, Z.of_nat (String.length kv.1) < 2 ^ 64 ∧
    ∀ n, reads n (parse_cbor_internal (n + 2) true) (write_cbor kv.2) (as_read kv.2)) m →
  map_wf m → Z.of_nat (length m) ≤ object_max_size →
  reads n (parse_cbor_internal (n + 2) true) (write_cbor (jobject m)) (as_read (jobject m)).
Proof.
  intros Hm Hwf Hlen. pose proof object_max_size_small as Hmax. assert (Hn : 0 ≤ Z.of_nat (length m) < 2 ^ 64) by lia.
  pose proof (head_length 0xB8 _ Hn) as Hh. cbn [write_cbor].
  split; [rewrite length_append; lia|]. intros t p X Hr Hleft Hrest. rewrite append_assoc in Hrest.
  pose proof (left_app p _ _ Hrest) as Hlp. destruct n as [|n]; [lia|]. replace (S n + 2)%nat with (S (n + 2)) by lia.
  eapply (head_run 0xB8 (Z.of_nat (length m)) (n + 2) _ p (get_cbor_object (parse_cbor_internal (n + 2)) (n + 2)) _ X);
    [lia|done|exact Hrest| | |].
  - intros Hle. unfold parse_cbor_byte, parse_cbor_container, parse_cbor_simple, between, eof. decide_cmp. by rewrite (land_small 0xA0) by (done || lia).
  - intros i Hi _. exists (get_cbor_object (parse_cbor_internal (n + 2)) (n + 2)). split; [reflexivity|]. unfold parse_cbor_byte, parse_cbor_container, parse_cbor_simple, between, eof. decide_cmp.
    by replace (0xB8 + i - 0xB8) with i by lia.
  - intros p1 Hs1 Hr1. unfold get_cbor_object. rewrite (proj2 (Z.eqb_neq _ no_limit)) by (unfold no_limit; lia). cbn [negb].
    pose proof (left_app p1 _ _ Hr1) as Hl1. rewrite length_append in Hlp.
    eapply wp_mono; [apply (object_run n (get_cbor_string (n + 2)) (parse_cbor_internal (n + 2) true)
        write_cbor_string write_cbor (n + 2) m t p1 X)| |done]; [|done|done|by destruct Hs1 as [_ ->]|lia|lia|done|].
    + eapply Forall_impl; [exact Hm|]. intros kv [Hk Hv]. split; [by apply cbor_key_reads|apply Hv].
    + intros _ p' [Hd Hr']. split; [by eapply same_delivers|done].
Qed.

Lemma cbor_written n v : storable v → reads n (parse_cbor_internal (n + 2) true) (write_cbor v) (as_read v).
Proof.
  replace (n + 2)%nat with (S (n + 1)) by lia. revert n.
  induction v as [|m IH|l IH|s|b|z|z|d|] using json_ind; intros n Hv; pose proof Hv as [[Hrange Hwf] Hsized];
    cbn [numbers_in_range] in Hrange.
  - by apply cbor_byte_reads.
  - destruct (sized_object _ _ _ _ Hv) as (Hlen & Hm & Hall). replace (S (n + 1)) with (n + 2)%nat by lia.
    apply cbor_object_reads; [|done|done]. rewrite Forall_forall in *. intros kv Hkv. destruct (Hall kv Hkv) as [Hk Hvk].
    pose proof string_max_size_small. split; [lia|]. intros n'. replace (n' + 2)%nat with (S (n' + 1)) by lia. by apply IH.
  - destruct (sized_array _ _ _ _ Hv) as [Hlen Hall]. replace (S (n + 1)) with (n + 2)%nat by lia.
    apply cbor_array_reads; [|done]. rewrite Forall_forall in *. intros v Hin n'.
    replace (n' + 2)%nat with (S (n' + 1)) by lia. by apply IH, Hall.
  - replace (S (n + 1)) with (n + 2)%nat by lia. cbn [sized] in Hsized. zify_cmp. pose proof string_max_size_small.
    apply cbor_string_reads. lia.
  - destruct b; by apply cbor_byte_reads.
  - zify_cmp. cbn [write_cbor as_read]. destruct (0 <=? z) eqn:E; zify_cmp; [apply cbor_unsigned_reads; lia|apply cbor_negative_reads; lia].
  - zify_cmp. by apply cbor_unsigned_reads.
  - by apply cbor_float_reads.
  - done.
Qed.
End roundtrip.

#[export] Instance cbor_total `{Machine} : BinaryFormatTotal (H := cbor).
Proof. constructor. intros n. exact (cbor_parses_items (n + 2) n (cbor_parses_all (n + 2)) (le_n (n + 2))). Qed.

#[export] Instance cbor_spec `{MachineSpec} : BinaryFormatSpec storable (H := cbor).
Proof. constructor. intros n v Hv. exact (cbor_written n v Hv). Qed.

(** C11: CBOR round trip: every value the machine can hold, with any bytes in
    its strings and any numbers, NaN and infinities included, is read back from
    what [to_cbor] wrote, on machines of either byte order; only the type of
    non-negative integers changes to unsigned.  Without [strict], bytes that
    follow are ignored. *)
Theorem cbor_roundtrip `{MachineSpec} v t :
  storable v →
  from_cbor true (to_cbor v) = Ok (as_read v) ∧ from_cbor false (to_cbor v +:+ t) = Ok (as_read v).
Proof.
  intros Hv. split; [|by apply from_written with storable; [apply cbor_spec|..]].
  rewrite <-(append_nil_r (to_cbor v)). by apply from_written with storable; [apply cbor_spec|..].
Qed.

Lemma cbor_sample_storable : storable (H := x86_64) cbor_sample.
Proof.
  split; [|vm_compute; reflexivity]. split; [vm_compute; reflexivity|].
  repeat first [constructor | apply map_wf_cons].
Qed.

Lemma cbor_roundtrip_witness :
  from_cbor (H := x86_64) true (to_cbor (H := x86_64) cbor_sample) = Ok (as_read cbor_sample)
  ∧ from_cbor (H := x86_64) false (to_cbor (H := x86_64) cbor_sample +:+ "rest") = Ok (as_read cbor_sample).
Proof. apply (cbor_roundtrip (H := x86_64) cbor_sample "rest"). apply cbor_sample_storable. Defined.

(** C25: [from_cbor] is total: on any bytes it ends, and returns a value whose
    numbers are in range and whose objects are sorted, or throws
    [parse_error] 110, 112 or 113 or [out_of_range] 408.  Neither nesting nor
    announced lengths make it loop. *)
Theorem from_cbor_total `{Machine} strict input :
  (∃ v, from_cbor strict input = Ok v ∧ valid_value v)
  ∨ (∃ e, from_cbor strict input = Throw e ∧ binary_exn e).
Proof. exact (@from_any cbor cbor_total strict input). Qed.
