(* ===== verification/MsgPack.v ===== *)
(** * MessagePack (json.hpp, [write_msgpack], [parse_msgpack_internal])

    Both directions of the format, the reader on every byte sequence, and the
    round trip of values whose sizes fit in 32 bits. *)

From stdpp Require Import base gmap strings list.
From Stdlib Require Import ZArith Ascii Lia.
From S2P Require Import Prelude Cxx StdMap JsonValue JsonSax JsonBinary BinaryReader BinaryFormat.

Section msgpack.
Context `{Machine}.

(** ** The writer *)

Definition msgpack_unsigned (n : Z) : string :=
  if n <? 128 then write_number 1 n
  else if n <=? 0xFF then byte 0xCC +:+ write_number 1 n
  else if n <=? 0xFFFF then byte 0xCD +:+ write_number 2 n
  else if n <=? 0xFFFFFFFF then byte 0xCE +:+ write_number 4 n
  else byte 0xCF +:+ write_number 8 n.

Definition msgpack_negative (n : Z) : string :=
  if -32 <=? n then write_number 1 n
  else if between (- 2 ^ 7) (2 ^ 7 - 1) n then byte 0xD0 +:+ write_number 1 n
  else if between (- 2 ^ 15) (2 ^ 15 - 1) n then byte 0xD1 +:+ write_number 2 n
  else if between (- 2 ^ 31) (2 ^ 31 - 1) n then byte 0xD2 +:+ write_number 4 n
  else if between (- 2 ^ 63) (2 ^ 63 - 1) n then byte 0xD3 +:+ write_number 8 n
  else "".

(** No header for a size beyond 32 bits. *)
Definition msgpack_string_head (n : Z) : string :=
  if n <=? 31 then write_number 1 (Z.lor 0xA0 n)
  else if n <=? 0xFF then byte 0xD9 +:+ write_number 1 n
  else if n <=? 0xFFFF then byte 0xDA +:+ write_number 2 n
  else if n <=? 0xFFFFFFFF then byte 0xDB +:+ write_number 4 n
  else "".

Definition msgpack_array_head (n : Z) : string :=
  if n <=? 15 then write_number 1 (Z.lor 0x90 n)
  else if n <=? 0xFFFF then byte 0xDC +:+ write_number 2 n
  else if n <=? 0xFFFFFFFF then byte 0xDD +:+ write_number 4 n
  else "".

Definition msgpack_object_head (n : Z) : string :=
  if n <=? 15 then write_number 1 (Z.lor 0x80 (Z.land n 0xF))
  else if n <=? 0xFFFF then byte 0xDE +:+ write_number 2 n
  else if n <=? 0xFFFFFFFF then byte 0xDF +:+ write_number 4 n
  else "".

Definition write_msgpack_string (s : string) : string :=
  msgpack_string_head (Z.of_nat (String.length s)) +:+ s.

Fixpoint write_msgpack (j : json) : string :=
  match j with
  | jnull => byte 0xC0
  | jboolean b => byte (if b then 0xC3 else 0xC2)
  | jnumber_integer z => if 0 <=? z then msgpack_unsigned z else msgpack_negative z
  | jnumber_unsigned z => msgpack_unsigned z
  | jnumber_float d => byte 0xCB +:+ write_number 8 (double_bits d)
  | jstring s => write_msgpack_string s
  | jarray l => msgpack_array_head (Z.of_nat (length l)) +:+ write_all write_msgpack l
  | jobject m =>
      msgpack_object_head (Z.of_nat (length m)) +:+
      write_all (λ el, write_msgpack_string el.1 +:+ write_msgpack el.2) m
  | jdiscarded => ""
  end.

(** ** The reader *)

Definition get_msgpack_string (fuel : nat) : RM string :=
  unexpect_eof ;;
  current <- gets last_token ;;
  if between 0xA0 0xBF current then read_string fuel (Z.land current 0x1F)
  else if between 0xD9 0xDB current then
    len <- get_number (follow (current - 0xD9)) ;; read_string fuel len
  else binary_error 113 ("expected a MessagePack string; last byte: 0x" +:+ get_token_string).

Definition get_msgpack_array (parse : RM unit) (fuel : nat) (len : Z) : RM unit :=
  start_array len ;; for_len fuel len parse ;; sax_end_array.

Definition get_msgpack_object (parse : RM unit) (fuel : nat) (len : Z) : RM unit :=
  start_object len ;; for_len fuel len (get ;; get_member (get_msgpack_string fuel) parse) ;; sax_end_object.

(** The [switch] on a byte, from its last cases to its first: sized types, then
    constants and values within one byte. *)
Definition parse_msgpack_sized (parse : RM unit) (fuel : nat) (c : Z) : RM unit :=
  if c =? 0xCA then number <- get_number 4 ;; handle_value (jnumber_float (bits_float number))
  else if c =? 0xCB then number <- get_number 8 ;; handle_value (jnumber_float (bits_double number))
  else if between 0xCC 0xCF c then
    number <- get_number (follow (c - 0xCC)) ;; handle_value (jnumber_unsigned number)
  else if between 0xD0 0xD3 c then
    number <- get_number (follow (c - 0xD0)) ;;
    handle_value (jnumber_integer (wrap_signed (8 * Z.of_nat (follow (c - 0xD0))) number))
  else if between 0xD9 0xDB c then s <- get_msgpack_string fuel ;; handle_value (jstring s)
  else if between 0xDC 0xDD c then
    len <- get_number (follow (c - 0xDB)) ;; get_msgpack_array parse fuel len
  else if between 0xDE 0xDF c then
    len <- get_number (follow (c - 0xDD)) ;; get_msgpack_object parse fuel len
  else if between 0xE0 0xFF c then handle_value (jnumber_integer (wrap_signed 8 c))
  else binary_error 112 ("error reading MessagePack; last byte: 0x" +:+ get_token_string).

Definition parse_msgpack_byte (parse : RM unit) (fuel : nat) (c : Z) : RM unit :=
  if c =? eof then unexpect_eof
  else if c <=? 0x7F then handle_value (jnumber_unsigned c)
  else if between 0x80 0x8F c then get_msgpack_object parse fuel (Z.land c 0x0F)
  else if between 0x90 0x9F c then get_msgpack_array parse fuel (Z.land c 0x0F)
  else if between 0xA0 0xBF c then s <- get_msgpack_string fuel ;; handle_value (jstring s)
  else if c =? 0xC0 then handle_value jnull
  else if c =? 0xC2 then handle_value (jboolean false)
  else if c =? 0xC3 then handle_value (jboolean true)
  else parse_msgpack_sized parse fuel c.

Fixpoint parse_msgpack_internal (fuel : nat) : RM unit :=
  match fuel with
  | O => out_of_fuel
  | S fuel => c <- get ;; parse_msgpack_byte (parse_msgpack_internal fuel) fuel c
  end.
End msgpack.

#[export] Instance msgpack `{Machine} : BinaryFormat := {
  write := write_msgpack;
  parse := parse_msgpack_internal;
}.

Definition to_msgpack `{Machine} (j : json) : string := write (BinaryFormat := msgpack) j.
Definition from_msgpack `{Machine} (strict : bool) (input : string) : outcome exn json :=
  from_binary (H := msgpack) strict input.

Definition msgpack_sample : json :=
  jobject [("a", jarray [jnumber_unsigned 200; jnumber_integer (-500); jnumber_integer (-1); jnull]);
           ("b", jnumber_float (Dnan true 7)); ("c", jstring "text")].

Example msgpack_sample_bytes :
  bytes_of (to_msgpack (H := big_endian_64) msgpack_sample)
  = [0x83; 0xA1; 97; 0x94; 0xCC; 200; 0xD1; 0xFE; 0x0C; 0xFF; 0xC0; 0xA1; 98; 0xCB; 0xFF; 0xF0; 0; 0; 0; 0; 0; 7;
     0xA1; 99; 0xA4; 116; 101; 120; 116].
Proof. vm_compute. reflexivity. Qed.

Example msgpack_sample_back :
  from_msgpack (H := big_endian_64) true (to_msgpack (H := big_endian_64) msgpack_sample) = Ok msgpack_sample.
Proof. vm_compute. reflexivity. Qed.

(** ** Reading any bytes *)

Section total.
Context `{Machine}.

Lemma msgpack_key_total n fuel : (n < fuel)%nat → key_total n (get_msgpack_string fuel).
Proof.
  intros Hf p Hl. unfold get_msgpack_string. wp_step. apply wp_unexpect_eof. intros _. do 2 wp_step.
  destruct (between 0xA0 0xBF _); [|destruct (between 0xD9 0xDB _)].
  - apply wp_read_string; [lia|]. auto.
  - wp_step. apply wp_get_number. intros len p1 _ Hs1 Hl1. apply wp_read_string; [lia|].
    intros s p' Hs Hl'. split; [by eapply same_trans|lia].
  - apply wp_binary_error. set_solver.
Qed.

Lemma msgpack_array_total n f fuel len p p1 :
  parses n f → (n < fuel)%nat → receives (ref_stack p) → (left p ≤ n)%nat → same p p1 → (left p1 ≤ left p)%nat →
  wp (get_msgpack_array f fuel len) p1 (λ _, some_value p) XB.
Proof.
  intros Hp Hf Hr Hn Hs1 Hl1. eapply wp_mono; [apply array_total; [by destruct Hs1 as [_ ->]|]| |done].
  2:{ intros u p' Hsome. by eapply same_some. }
  intros p2 Hin Hl2. set (I p' := in_array (root p1) (ref_stack p1) p' ∧ (left p' ≤ n)%nat).
  eapply wp_mono; [apply (wp_for_len _ _ _ I); [|split; [done|lia]|lia]| |done]; [|intros _ p' [[? _] ?]; by split].
  intros p3 [Hin3 Hl3]. eapply wp_mono; [by eapply item_total| |done].
  intros _ p' [Hin' Hl']. split; [split; [done|lia]|lia].
Qed.

Lemma msgpack_object_total n f fuel len p p1 :
  parses n f → (n < fuel)%nat → receives (ref_stack p) → (left p ≤ n)%nat → same p p1 → (left p1 ≤ left p)%nat →
  wp (get_msgpack_object f fuel len) p1 (λ _, some_value p) XB.
Proof.
  intros Hp Hf Hr Hn Hs1 Hl1. eapply wp_mono; [apply object_total; [by destruct Hs1 as [_ ->]|]| |done].
  2:{ intros u p' Hsome. by eapply same_some. }
  intros p2 Hin Hl2. set (I p' := in_object (root p1) (ref_stack p1) p' ∧ (left p' ≤ n)%nat).
  eapply wp_mono; [apply (wp_for_len _ _ _ I); [|split; [done|lia]|lia]| |done]; [|intros _ p' [[? _] ?]; by split].
  intros p3 [Hin3 Hl3]. wp_step.
  assert (Hmember : ∀ p4, same p3 p4 → (left p4 ≤ left p3)%nat → wp (get_member (get_msgpack_string fuel) f) p4
    (λ _ p', I p' ∧ (left p' < left p3)%nat) XB).
  { intros p4 Hs4 Hl4. eapply wp_mono; [eapply (member_total n); [by apply msgpack_key_total|done|by eapply in_object_same|lia]| |done].
    intros _ p' [Hin' Hl']. split; [split; [done|lia]|lia]. }
  apply wp_br_get.
  - intros c s p4 E E4 _ Hs4. apply Hmember; [done|]. unfold left. rewrite E, E4. simpl. lia.
  - intros p4 E E4 _ Hs4. apply Hmember; [done|]. unfold left. by rewrite E, E4.
Qed.

Lemma wp_parse_msgpack_byte n f fuel c p :
  parses n f → (n < fuel)%nat → receives (ref_stack p) → 0 ≤ c < 256 → (left p ≤ n)%nat →
  wp (parse_msgpack_byte f fuel c) p (λ _, some_value p) XB.
Proof.
  intros Hp Hf Hr Hc Hl. unfold parse_msgpack_byte, parse_msgpack_sized. rewrite (proj2 (Z.eqb_neq c eof)) by (unfold eof; lia).
  unfold between. repeat case_match; zify_cmp.
  all: try (apply deliver_number; [done| |done]; intros x Hx).
  all: try (apply after_length; intros; by eapply msgpack_array_total).
  all: try (apply after_length; intros; by eapply msgpack_object_total).
  all: try (by eapply msgpack_array_total).
  all: try (by eapply msgpack_object_total).
  all: try (apply deliver_scalar; [done| |done]).
  all: try (apply (deliver_string n); [by apply msgpack_key_total|done|done|done]).
  all: try (apply wp_binary_error; set_solver).
  all: auto with valid.
  - apply valid_unsigned. lia.
  - apply valid_unsigned. split; [lia|]. apply (follow_range (c - 0xCC)); [lia|apply Hx].
  - apply valid_integer, follow_signed. lia.
  - apply valid_integer. pose proof (wrap_signed_range 8 c ltac:(lia)). lia.
Qed.

Lemma msgpack_parses n fuel : (n + 2 ≤ fuel)%nat → parses n (parse_msgpack_internal fuel).
Proof.
  revert n. induction fuel as [|fuel IH]; intros n Hf p Hr Hl; [lia|]. cbn [parse_msgpack_internal]. wp_step. apply wp_br_get.
  - intros c s p1 E E1 Hl1 Hs1. assert (Hleft : S (left p1) = left p) by (unfold left; by rewrite E, E1).
    destruct n as [|n]; [lia|].
    eapply wp_mono; [apply (wp_parse_msgpack_byte n);
      [apply IH; lia|lia|by destruct Hs1 as [_ ->]|apply byte_of_range|lia]| |done].
    intros _ p' (v & Hv & Hd & Hl'). exists v. split_and!; [done|by eapply same_delivers|lia].
  - intros p1 E E1 Hl1 Hs1. by apply wp_unexpect_eof.
Qed.
End total.

(** ** Reading what was written *)

Section written.
Context `{Machine}.

(** A byte, or a control byte and a number, that lead to [K]. *)
Lemma pack_run s b first n f t p (K : RM unit) (Q : unit → reader → Prop) X :
  (s = byte b ∧ 0 ≤ b < 256 ∧ parse_msgpack_byte (parse_msgpack_internal f) f b = K) ∨
  (∃ i K', s = byte (first + i) +:+ write_number (follow i) n ∧ 0 ≤ first + i < 256 ∧
     parse_msgpack_byte (parse_msgpack_internal f) f (first + i) = (m <- get_number (follow i) ;; K' m)
     ∧ K' (wrap (8 * Z.of_nat (follow i)) n) = K) →
  rest (m_lexer p) = s +:+ t →
  (∀ p', same p p' → rest (m_lexer p') = t → wp K p' Q X) → wp (parse_msgpack_internal (S f)) p Q X.
Proof.
  intros [(-> & Hb & HK)|(i & K' & -> & Hb & Hrun & HK)] Hrest HQ; cbn [parse_msgpack_internal]; wp_step.
  - eapply wp_br_get_cons; [exact Hrest|]. intros p1 Hr1 _ Hs1. rewrite byte_of_char_of, HK by done. by apply HQ.
  - rewrite append_assoc in Hrest. eapply wp_br_get_cons; [exact Hrest|]. intros p1 Hr1 _ Hs1.
    rewrite byte_of_char_of, Hrun by done. wp_step. eapply get_number_run; [exact Hr1|]. intros p2 Hr2 Hs2.
    rewrite HK. apply HQ; [by eapply same_trans|done].
Qed.

Lemma head_nonempty b first i w (n : Z) s :
  s = byte b ∨ s = byte (first + i) +:+ write_number w n → (0 < String.length s)%nat.
Proof. intros [-> | ->]; [simpl; lia|]. rewrite length_append. simpl. lia. Qed.

Lemma unsigned_cases n :
  0 ≤ n < 2 ^ 64 →
  (n < 128 ∧ msgpack_unsigned n = byte n) ∨
  (∃ i, 0 ≤ i ≤ 3 ∧ msgpack_unsigned n = byte (0xCC + i) +:+ write_number (follow i) n
        ∧ wrap (8 * Z.of_nat (follow i)) n = n).
Proof.
  intros Hn. unfold msgpack_unsigned.
  destruct (n <? 128) eqn:E0; zify_cmp; [left; split; [done|apply write_byte]|right].
  destruct (n <=? 0xFF) eqn:E1; zify_cmp; [exists 0; rewrite follow_0|].
  { split_and!; [lia|lia|done|apply wrap_small; lia]. }
  destruct (n <=? 0xFFFF) eqn:E2; zify_cmp; [exists 1; rewrite follow_1|].
  { split_and!; [lia|lia|done|apply wrap_small; lia]. }
  destruct (n <=? 0xFFFFFFFF) eqn:E3; zify_cmp; [exists 2; rewrite follow_2|exists 3; rewrite follow_3];
    (split_and!; [lia|lia|done|apply wrap_small; lia]).
Qed.

Lemma negative_cases z :
  - 2 ^ 63 ≤ z < 0 →
  (-32 ≤ z ∧ msgpack_negative z = byte (256 + z)) ∨
  (∃ i, 0 ≤ i ≤ 3 ∧ msgpack_negative z = byte (0xD0 + i) +:+ write_number (follow i) z
        ∧ wrap_signed (8 * Z.of_nat (follow i)) (wrap (8 * Z.of_nat (follow i)) z) = z).
Proof.
  intros Hz. unfold msgpack_negative, between.
  destruct (-32 <=? z) eqn:E0; zify_cmp.
  { left. split; [done|]. rewrite write_byte. unfold byte, char_of.
    replace (256 + z) with (z + 1 * 256) by lia. by rewrite Z.mod_add by lia. }
  right. rewrite !(proj2 (Z.leb_le z _)), !andb_true_r by lia.
  destruct (- 2 ^ 7 <=? z) eqn:E1; zify_cmp; [exists 0; rewrite follow_0|].
  { split_and!; [lia|lia|done|apply wrap_signed_wrap; lia]. }
  destruct (- 2 ^ 15 <=? z) eqn:E2; zify_cmp; [exists 1; rewrite follow_1|].
  { split_and!; [lia|lia|done|apply wrap_signed_wrap; lia]. }
  destruct (- 2 ^ 31 <=? z) eqn:E3; zify_cmp; [exists 2; rewrite follow_2|].
  { split_and!; [lia|lia|done|apply wrap_signed_wrap; lia]. }
  rewrite (proj2 (Z.leb_le (- 2 ^ 63) z)) by lia. exists 3. rewrite follow_3.
  split_and!; [lia|lia|done|apply wrap_signed_wrap; lia].
Qed.

(** The low bits of a control byte are the size. *)
Lemma lor_add a n k : 0 ≤ k → a mod 2 ^ k = 0 → 0 ≤ n < 2 ^ k → Z.lor a n = a + n.
Proof.
  intros Hk Ha Hn. symmetry. apply Z.add_nocarry_lor. rewrite <-(Z.mod_small n (2 ^ k)) by done.
  rewrite <-Z.land_ones, (Z.land_comm n), Z.land_assoc, Z.land_ones, Ha by done. apply Z.land_0_l.
Qed.

Lemma land_add a n k : 0 ≤ k → a mod 2 ^ k = 0 → 0 ≤ n < 2 ^ k → Z.land (a + n) (Z.ones k) = n.
Proof.
  intros Hk Ha Hn. rewrite Z.land_ones, <-Z.add_mod_idemp_l, Ha, Z.add_0_l by lia. by apply Z.mod_small.
Qed.

Lemma array_head_cases n :
  0 ≤ n < 2 ^ 32 →
  (n ≤ 15 ∧ msgpack_array_head n = byte (0x90 + n)) ∨
  (∃ i, 1 ≤ i ≤ 2 ∧ msgpack_array_head n = byte (0xDB + i) +:+ write_number (follow i) n
        ∧ wrap (8 * Z.of_nat (follow i)) n = n).
Proof.
  intros Hn. unfold msgpack_array_head. destruct (n <=? 15) eqn:E0; zify_cmp.
  { left. split; [done|]. by rewrite (lor_add 0x90 n 4), write_byte by (done || lia). }
  right. destruct (n <=? 0xFFFF) eqn:E1; zify_cmp; [exists 1; rewrite follow_1|].
  { split_and!; [lia|lia|done|apply wrap_small; lia]. }
  rewrite (proj2 (Z.leb_le n _)) by lia. exists 2. rewrite follow_2. split_and!; [lia|lia|done|apply wrap_small; lia].
Qed.

Lemma object_head_cases n :
  0 ≤ n < 2 ^ 32 →
  (n ≤ 15 ∧ msgpack_object_head n = byte (0x80 + n)) ∨
  (∃ i, 1 ≤ i ≤ 2 ∧ msgpack_object_head n = byte (0xDD + i) +:+ write_number (follow i) n
        ∧ wrap (8 * Z.of_nat (follow i)) n = n).
Proof.
  intros Hn. unfold msgpack_object_head. destruct (n <=? 15) eqn:E0; zify_cmp.
  { left. split; [done|]. change 0xF with (Z.ones 4). rewrite Z.land_ones, Z.mod_small by lia.
    by rewrite (lor_add 0x80 n 4), write_byte by (done || lia). }
  right. destruct (n <=? 0xFFFF) eqn:E1; zify_cmp; [exists 1; rewrite follow_1|].
  { split_and!; [lia|lia|done|apply wrap_small; lia]. }
  rewrite (proj2 (Z.leb_le n _)) by lia. exists 2. rewrite follow_2. split_and!; [lia|lia|done|apply wrap_small; lia].
Qed.

Lemma string_head_cases n :
  0 ≤ n < 2 ^ 32 →
  (n ≤ 31 ∧ msgpack_string_head n = byte (0xA0 + n)) ∨
  (∃ i, 0 ≤ i ≤ 2 ∧ msgpack_string_head n = byte (0xD9 + i) +:+ write_number (follow i) n
        ∧ wrap (8 * Z.of_nat (follow i)) n = n).
Proof.
  intros Hn. unfold msgpack_string_head. destruct (n <=? 31) eqn:E0; zify_cmp.
  { left. split; [done|]. by rewrite (lor_add 0xA0 n 5), write_byte by (done || lia). }
  right. destruct (n <=? 0xFF) eqn:E1; zify_cmp; [exists 0; rewrite follow_0|].
  { split_and!; [lia|lia|done|apply wrap_small; lia]. }
  destruct (n <=? 0xFFFF) eqn:E2; zify_cmp; [exists 1; rewrite follow_1|].
  { split_and!; [lia|lia|done|apply wrap_small; lia]. }
  rewrite (proj2 (Z.leb_le n _)) by lia. exists 2. rewrite follow_2. split_and!; [lia|lia|done|apply wrap_small; lia].
Qed.
End written.

Section roundtrip.
Context `{Machine}.

(** Sizes that the machine and the format can hold. *)
Definition packable : json → Prop :=
  valid_sized (2 ^ 32 - 1) (Z.min (2 ^ 32 - 1) array_max_size) (Z.min (2 ^ 32 - 1) object_max_size).

Lemma msgpack_byte_reads n f b v :
  0 ≤ b < 256 → (∀ self fuel, parse_msgpack_byte self fuel b = handle_value v) →
  reads n (parse_msgpack_internal (S f)) (byte b) v.
Proof.
  intros Hb Hrun. split; [simpl; lia|]. intros t p X Hr Hl Hrest.
  eapply (pack_run (byte b) b 0 0 f t p (handle_value v)); [left; split_and!; [done|lia|lia|apply Hrun]|exact Hrest|].
  intros p1 Hs1 Hr1. by apply value_done.
Qed.

Lemma msgpack_unsigned_reads n f z :
  0 ≤ z < 2 ^ 64 → reads n (parse_msgpack_internal (S f)) (msgpack_unsigned z) (jnumber_unsigned z).
Proof.
  intros Hz. pose proof (unsigned_cases z Hz) as Hcase.
  split; [destruct Hcase as [[_ ->]|(i & _ & -> & _)]; [simpl; lia|rewrite length_append; simpl; lia]|].
  intros t p X Hr Hl Hrest. eapply (pack_run _ z 0xCC z f t p (handle_value (jnumber_unsigned z))); [|exact Hrest|].
  - destruct Hcase as [[Hlt ->]|(i & Hi & -> & Hw)]; [left|right; exists i, (λ n, handle_value (jnumber_unsigned n))].
    + split_and!; [done|lia|lia|]. unfold parse_msgpack_byte, parse_msgpack_sized, between, eof. by decide_cmp.
    + split_and!; [done|lia|lia| |by rewrite Hw]. unfold parse_msgpack_byte, parse_msgpack_sized, between, eof. decide_cmp.
      by replace (0xCC + i - 0xCC) with i by lia.
  - intros p1 Hs1 Hr1. by apply value_done.
Qed.

Lemma msgpack_negative_reads n f z :
  - 2 ^ 63 ≤ z < 0 → reads n (parse_msgpack_internal (S f)) (msgpack_negative z) (jnumber_integer z).
Proof.
  intros Hz. pose proof (negative_cases z Hz) as Hcase.
  split; [destruct Hcase as [[_ ->]|(i & _ & -> & _)]; [simpl; lia|rewrite length_append; simpl; lia]|].
  intros t p X Hr Hl Hrest. eapply (pack_run _ (256 + z) 0xD0 z f t p (handle_value (jnumber_integer z))); [|exact Hrest|].
  - destruct Hcase as [[Hlt ->]|(i & Hi & -> & Hw)];
      [left|right; exists i, (λ n, handle_value (jnumber_integer (wrap_signed (8 * Z.of_nat (follow i)) n)))].
    + split_and!; [done|lia|lia|]. unfold parse_msgpack_byte, parse_msgpack_sized, between, eof. decide_cmp. f_equal. f_equal.
      rewrite <-(wrap_signed_wrap 8 z) at 2 by lia. f_equal. unfold wrap.
      rewrite <-(Z.mod_add z 1), Z.mul_1_l, Z.mod_small by lia. lia.
    + split_and!; [done|lia|lia| |by rewrite Hw]. unfold parse_msgpack_byte, parse_msgpack_sized, between, eof. decide_cmp.
      by replace (0xD0 + i - 0xD0) with i by lia.
  - intros p1 Hs1 Hr1. by apply value_done.
Qed.

Lemma msgpack_float_reads n f d :
  valid_double d = true →
  reads n (parse_msgpack_internal (S f)) (byte 0xCB +:+ write_number 8 (double_bits d)) (jnumber_float d).
Proof.
  intros Hd. destruct (double_bits_inv d Hd) as [Hinv Hrange].
  split; [rewrite length_append; simpl; lia|]. intros t p X Hr Hl Hrest.
  eapply (pack_run _ 0 0xC8 (double_bits d) f t p (handle_value (jnumber_float d))); [right|exact Hrest|].
  - exists 3, (λ n, handle_value (jnumber_float (bits_double n))). rewrite follow_3.
    split_and!; [done|lia|lia|reflexivity|]. by rewrite wrap_small, Hinv by done.
  - intros p1 Hs1 Hr1. by apply value_done.
Qed.

(** The first byte of a string announces one, and the rest is read as the
    string. *)
Lemma msgpack_string_run s :
  Z.of_nat (String.length s) < 2 ^ 32 →
  ∃ c s', write_msgpack_string s = String c s' ∧ (0xA0 ≤ byte_of c ≤ 0xBF ∨ 0xD9 ≤ byte_of c ≤ 0xDB) ∧
  ∀ t fuel p X, last_token p = byte_of c → rest (m_lexer p) = s' +:+ t → (left p < fuel)%nat →
  wp (get_msgpack_string fuel) p (λ k p', k = s ∧ same p p' ∧ rest (m_lexer p') = t) X.
Proof.
  intros Hs. set (n := Z.of_nat (String.length s)) in Hs. unfold write_msgpack_string. fold n.
  assert (Hn : 0 ≤ n < 2 ^ 32) by lia.
  destruct (string_head_cases n Hn) as [[Hle E]|(i & Hi & E & Hw)]; rewrite E.
  - exists (char_of (0xA0 + n)), s. rewrite byte_of_char_of by lia. split_and!; [done|lia|].
    intros t fuel p X Hlast Hrest Hf. unfold get_msgpack_string. wp_step. apply unexpect_eof_run; [unfold eof; lia|].
    do 2 wp_step. rewrite Hlast. unfold between. decide_cmp. change 0x1F with (Z.ones 5).
    rewrite (land_add 0xA0 n 5) by (done || lia).
    eapply read_string_run; [exact Hrest| |done]. rewrite (left_app _ _ _ Hrest) in Hf. lia.
  - exists (char_of (0xD9 + i)), (write_number (follow i) n +:+ s). rewrite byte_of_char_of by lia.
    split_and!; [by rewrite append_assoc|lia|].
    intros t fuel p X Hlast Hrest Hf. unfold get_msgpack_string. wp_step. apply unexpect_eof_run; [unfold eof; lia|].
    do 2 wp_step. rewrite Hlast. unfold between. decide_cmp. replace (0xD9 + i - 0xD9) with i by lia. wp_step.
    rewrite append_assoc in Hrest. pose proof (left_app _ _ _ Hrest) as Hl. rewrite length_append in Hl.
    eapply get_number_run; [exact Hrest|]. intros p1 Hr1 Hs1. rewrite Hw.
    eapply read_string_run; [exact Hr1|lia|]. intros p' Hr' Hs'. split_and!; [done|by eapply same_trans|done].
Qed.

Lemma msgpack_key_reads n fuel s :
  Z.of_nat (String.length s) < 2 ^ 32 → (n < fuel)%nat →
  key_reads n (get_msgpack_string fuel) (write_msgpack_string s) s.
Proof.
  intros Hs Hf t p X Hl Hrest. destruct (msgpack_string_run s Hs) as (c & s' & E & _ & Hrun). rewrite E in Hrest.
  eapply wp_br_get_cons; [exact Hrest|]. intros p1 Hr1 Hl1 Hs1.
  pose proof (left_app p (String c s') t Hrest) as Hlen. pose proof (left_app p1 s' t Hr1) as Hlen1. simpl in Hlen.
  eapply wp_mono; [apply (Hrun t); [done|done|lia]| |done].
  intros k p' (-> & Hs' & Hr'). split_and!; [done|by eapply same_trans|done].
Qed.

Lemma msgpack_string_reads n f s :
  Z.of_nat (String.length s) < 2 ^ 32 → (n ≤ f)%nat →
  reads n (parse_msgpack_internal (S f)) (write_msgpack_string s) (jstring s).
Proof.
  intros Hs Hf. destruct (msgpack_string_run s Hs) as (c & s' & E & Hc & Hrun). rewrite E. split; [simpl; lia|].
  intros t p X Hr Hl Hrest. cbn [parse_msgpack_internal]. wp_step.
  eapply wp_br_get_cons; [exact Hrest|]. intros p1 Hr1 Hl1 Hs1.
  pose proof (left_app p (String c s') t Hrest) as Hlen. pose proof (left_app p1 s' t Hr1) as Hlen1. simpl in Hlen.
  assert (Hbranch : parse_msgpack_byte (parse_msgpack_internal f) f (byte_of c) =
    (s <- get_msgpack_string f ;; handle_value (jstring s))).
  { unfold parse_msgpack_byte, parse_msgpack_sized, between, eof. destruct Hc; by decide_cmp. }
  rewrite Hbranch. wp_step. eapply wp_mono; [apply (Hrun t); [done|done|lia]| |done].
  intros k p2 (-> & Hs2 & Hr2). cbv beta. apply value_done; [done|by eapply same_trans|done].
Qed.

Lemma msgpack_array_reads n l :
  Forall (λ v, ∀ n, reads n (parse_msgpack_internal (n + 2)) (write_msgpack v) (as_read v)) l →
  Z.of_nat (length l) ≤ Z.min (2 ^ 32 - 1) array_max_size →
  reads n (parse_msgpack_internal (n + 2)) (write_msgpack (jarray l)) (as_read (jarray l)).
Proof.
  intros Hl Hlen. assert (Hn : 0 ≤ Z.of_nat (length l) < 2 ^ 32) by lia. cbn [write_msgpack].
  pose proof (array_head_cases _ Hn) as Hcase.
  assert (Hh : (0 < String.length (msgpack_array_head (Z.of_nat (length l))))%nat)
    by (destruct Hcase as [[_ ->]|(i & _ & -> & _)]; [simpl; lia|rewrite length_append; simpl; lia]).
  split; [rewrite length_append; lia|]. intros t p X Hr Hleft Hrest. rewrite append_assoc in Hrest.
  pose proof (left_app p _ _ Hrest) as Hlp. destruct n as [|n]; [lia|]. replace (S n + 2)%nat with (S (n + 2)) by lia.
  set (K := get_msgpack_array (parse_msgpack_internal (n + 2)) (n + 2)).
  eapply (pack_run _ (0x90 + Z.of_nat (length l)) 0xDB (Z.of_nat (length l)) (n + 2) _ p (K (Z.of_nat (length l)))); [|exact Hrest|].
  - destruct Hcase as [[Hle ->]|(i & Hi & -> & Hw)]; [left|right; exists i, K].
    + split_and!; [done|lia|lia|]. unfold parse_msgpack_byte, parse_msgpack_sized, between, eof. decide_cmp. change 0xF with (Z.ones 4).
      by rewrite (land_add 0x90 _ 4) by (done || lia).
    + split_and!; [done|lia|lia| |by rewrite Hw]. unfold parse_msgpack_byte, parse_msgpack_sized, between, eof. decide_cmp.
      by replace (0xDB + i - 0xDB) with i by lia.
  - intros p1 Hs1 Hr1. pose proof (left_app p1 _ _ Hr1) as Hl1. rewrite length_append in Hlp. unfold K, get_msgpack_array.
    eapply wp_mono; [apply (array_run n (parse_msgpack_internal (n + 2)) write_msgpack (n + 2) l t p1 X)| |done];
      [|lia|by destruct Hs1 as [_ ->]|lia|lia|done|].
    + eapply Forall_impl; [exact Hl|]. intros v Hv. apply Hv.
    + intros _ p' [Hd Hr']. split; [by eapply same_delivers|done].
Qed.

Lemma msgpack_object_reads n (m : std_map json) :
  Forall (λ kv, Z.of_nat (String.length kv.1) < 2 ^ 32 ∧
    ∀ n, reads n (parse_msgpack_internal (n + 2)) (write_msgpack kv.2) (as_read kv.2)) m →
  map_wf m → Z.of_nat (length m) ≤ Z.min (2 ^ 32 - 1) object_max_size →
  reads n (parse_msgpack_internal (n + 2)) (write_msgpack (jobject m)) (as_read (jobject m)).
Proof.
  intros Hm Hwf Hlen. assert (Hn : 0 ≤ Z.of_nat (length m) < 2 ^ 32) by lia. cbn [write_msgpack].
  pose proof (object_head_cases _ Hn) as Hcase.
  assert (Hh : (0 < String.length (msgpack_object_head (Z.of_nat (length m))))%nat)
    by (destruct Hcase as [[_ ->]|(i & _ & -> & _)]; [simpl; lia|rewrite length_append; simpl; lia]).
  split; [rewrite length_append; lia|]. intros t p X Hr Hleft Hrest. rewrite append_assoc in Hrest.
  pose proof (left_app p _ _ Hrest) as Hlp. destruct n as [|n]; [lia|]. replace (S n + 2)%nat with (S (n + 2)) by lia.
  set (K := get_msgpack_object (parse_msgpack_internal (n + 2)) (n + 2)).
  eapply (pack_run _ (0x80 + Z.of_nat (length m)) 0xDD (Z.of_nat (length m)) (n + 2) _ p (K (Z.of_nat (length m)))); [|exact Hrest|].
  - destruct Hcase as [[Hle ->]|(i & Hi & -> & Hw)]; [left|right; exists i, K].
    + split_and!; [done|lia|lia|]. unfold parse_msgpack_byte, parse_msgpack_sized, between, eof. decide_cmp. change 0xF with (Z.ones 4).
      by rewrite (land_add 0x80 _ 4) by (done || lia).
    + split_and!; [done|lia|lia| |by rewrite Hw]. unfold parse_msgpack_byte, parse_msgpack_sized, between, eof. decide_cmp.
      by replace (0xDD + i - 0xDD) with i by lia.
  - intros p1 Hs1 Hr1. pose proof (left_app p1 _ _ Hr1) as Hl1. rewrite length_append in Hlp. unfold K, get_msgpack_object.
    eapply wp_mono; [apply (object_run n (get_msgpack_string (n + 2)) (parse_msgpack_internal (n + 2))
        write_msgpack_string write_msgpack (n + 2) m t p1 X)| |done]; [|done|lia|by destruct Hs1 as [_ ->]|lia|lia|done|].
    + eapply Forall_impl; [exact Hm|]. intros kv [Hk Hv]. split; [apply msgpack_key_reads; [done|lia]|apply Hv].
    + intros _ p' [Hd Hr']. split; [by eapply same_delivers|done].
Qed.

Lemma msgpack_written n v : packable v → reads n (parse_msgpack_internal (n + 2)) (write_msgpack v) (as_read v).
Proof.
  replace (n + 2)%nat with (S (n + 1)) by lia. revert n.
  induction v as [|m IH|l IH|s|b|z|z|d|] using json_ind; intros n Hv; pose proof Hv as [[Hrange Hwf] Hsized];
    cbn [numbers_in_range] in Hrange.
  - by apply msgpack_byte_reads.
  - destruct (sized_object _ _ _ _ Hv) as (Hlen & Hm & Hall). replace (S (n + 1)) with (n + 2)%nat by lia.
    apply msgpack_object_reads; [|done|done]. rewrite Forall_forall in *. intros kv Hkv. destruct (Hall kv Hkv) as [Hk Hvk].
    split; [lia|]. intros n'. replace (n' + 2)%nat with (S (n' + 1)) by lia. by apply IH.
  - destruct (sized_array _ _ _ _ Hv) as [Hlen Hall]. replace (S (n + 1)) with (n + 2)%nat by lia.
    apply msgpack_array_reads; [|done]. rewrite Forall_forall in *. intros v Hin n'.
    replace (n' + 2)%nat with (S (n' + 1)) by lia. by apply IH, Hall.
  - cbn [sized] in Hsized. zify_cmp. apply msgpack_string_reads; lia.
  - destruct b; by apply msgpack_byte_reads.
  - zify_cmp. cbn [write_msgpack as_read]. destruct (0 <=? z) eqn:E; zify_cmp; [apply msgpack_unsigned_reads; lia|apply msgpack_negative_reads; lia].
  - zify_cmp. by apply msgpack_unsigned_reads.
  - by apply msgpack_float_reads.
  - done.
Qed.
End roundtrip.

#[export] Instance msgpack_total `{Machine} : BinaryFormatTotal (H := msgpack).
Proof. constructor. intros n. by apply msgpack_parses. Qed.

#[export] Instance msgpack_spec `{Machine} : BinaryFormatSpec packable (H := msgpack).
Proof. constructor. intros n v Hv. exact (msgpack_written n v Hv). Qed.

(** C12: MessagePack round trip: a value whose strings, arrays and objects
    have at most 2^32 - 1 elements is read back from what [to_msgpack] wrote, on
    machines of either byte order; only the type of non-negative integers
    changes to unsigned.  Without [strict], bytes that follow are ignored. *)
Theorem msgpack_roundtrip `{Machine} v t :
  packable v →
  from_msgpack true (to_msgpack v) = Ok (as_read v) ∧ from_msgpack false (to_msgpack v +:+ t) = Ok (as_read v).
Proof.
  intros Hv. split; [|by apply from_written with packable; [apply msgpack_spec|..]].
  rewrite <-(append_nil_r (to_msgpack v)). by apply from_written with packable; [apply msgpack_spec|..].
Qed.

Lemma msgpack_sample_packable : packable (H := big_endian_64) msgpack_sample.
Proof.
  split; [|vm_compute; reflexivity]. split; [vm_compute; reflexivity|].
  repeat first [constructor | apply map_wf_cons].
Qed.

Lemma msgpack_roundtrip_witness :
  from_msgpack (H := big_endian_64) true (to_msgpack (H := big_endian_64) msgpack_sample) = Ok (as_read msgpack_sample)
  ∧ from_msgpack (H := big_endian_64) false (to_msgpack (H := big_endian_64) msgpack_sample +:+ "rest")
    = Ok (as_read msgpack_sample).
Proof. apply (msgpack_roundtrip (H := big_endian_64) msgpack_sample "rest"). apply msgpack_sample_packable. Defined.

(** [from_msgpack] is total: on any bytes it ends, and returns a value
    whose numbers are in range and whose objects are sorted, or throws
    [parse_error] 110, 112 or 113 or [out_of_range] 408. *)
Theorem from_msgpack_total `{Machine} strict input :
  (∃ v, from_msgpack strict input = Ok v ∧ valid_value v)
  ∨ (∃ e, from_msgpack strict input = Throw e ∧ binary_exn e).
Proof. exact (@from_any msgpack msgpack_total strict input). Qed.
