(* ===== verification/Ubjson.v ===== *)
(** * UBJSON (json.hpp, [write_ubjson], [get_ubjson_value])

    Both directions of the format with its optional counts and types.  The
    elements of an array of nulls or booleans take no bytes, so reading takes
    as many turns as the input announces; the fuel is an argument. *)

From stdpp Require Import base gmap strings list.
From Stdlib Require Import ZArith Ascii Lia.
From S2P Require Import Prelude Cxx StdMap JsonValue JsonSax JsonBinary BinaryReader BinaryFormat.

(** A marker, from its character. *)
Definition mark (c : ascii) : Z := byte_of c.

Section ubjson.
Context `{Machine}.

(** ** The writer

    The result is the bytes, or an exception. *)

Definition written (s : string) : outcome exn string := Ok s.
Definition oapp (a b : outcome exn string) : outcome exn string :=
  obind a (λ s, obind b (λ t, Ok (s +:+ t))).

Definition prefixed (add_prefix : bool) (c : ascii) (s : string) : outcome exn string :=
  Ok ((if add_prefix then byte (mark c) else "") +:+ s).

Definition number_overflow (n : Z) : exn :=
  exception_create out_of_range 407 ("number overflow serializing " +:+ to_string n).

(** [write_number_with_ubjson_prefix] on unsigned and signed numbers. *)
Definition write_unsigned (n : Z) (add_prefix : bool) : outcome exn string :=
  if n <=? 2 ^ 7 - 1 then prefixed add_prefix "i" (write_number 1 n)
  else if n <=? 2 ^ 8 - 1 then prefixed add_prefix "U" (write_number 1 n)
  else if n <=? 2 ^ 15 - 1 then prefixed add_prefix "I" (write_number 2 n)
  else if n <=? 2 ^ 31 - 1 then prefixed add_prefix "l" (write_number 4 n)
  else if n <=? 2 ^ 63 - 1 then prefixed add_prefix "L" (write_number 8 n)
  else Throw (number_overflow n).

Definition write_signed (n : Z) (add_prefix : bool) : outcome exn string :=
  if between (- 2 ^ 7) (2 ^ 7 - 1) n then prefixed add_prefix "i" (write_number 1 n)
  else if between 0 (2 ^ 8 - 1) n then prefixed add_prefix "U" (write_number 1 n)
  else if between (- 2 ^ 15) (2 ^ 15 - 1) n then prefixed add_prefix "I" (write_number 2 n)
  else if between (- 2 ^ 31) (2 ^ 31 - 1) n then prefixed add_prefix "l" (write_number 4 n)
  else if between (- 2 ^ 63) (2 ^ 63 - 1) n then prefixed add_prefix "L" (write_number 8 n)
  else Throw (number_overflow n).

Definition ubjson_prefix (j : json) : ascii :=
  match j with
  | jnull => "Z"%char
  | jboolean b => if b then "T"%char else "F"%char
  | jnumber_integer z =>
      if between (- 2 ^ 7) (2 ^ 7 - 1) z then "i"%char else if between 0 (2 ^ 8 - 1) z then "U"%char
      else if between (- 2 ^ 15) (2 ^ 15 - 1) z then "I"%char else if between (- 2 ^ 31) (2 ^ 31 - 1) z then "l"%char
      else "L"%char
  | jnumber_unsigned z =>
      if z <=? 2 ^ 7 - 1 then "i"%char else if z <=? 2 ^ 8 - 1 then "U"%char
      else if z <=? 2 ^ 15 - 1 then "I"%char else if z <=? 2 ^ 31 - 1 then "l"%char else "L"%char
  | jnumber_float _ => "D"%char
  | jstring _ => "S"%char
  | jarray _ => "["%char
  | jobject _ => "{"%char
  | jdiscarded => "N"%char
  end.

(** The characters of a string, after its length. *)
Definition write_ubjson_string (s : string) : outcome exn string :=
  oapp (write_unsigned (Z.of_nat (String.length s)) true) (written s).

Definition write_each {A} (f : A → outcome exn string) (l : list A) : outcome exn string :=
  foldr (λ a s, oapp (f a) s) (written "") l.

(** The optional type of the elements, when all have the same, and whether
    their prefixes are still required. *)
Definition same_prefix (vs : list json) : option ascii :=
  match vs with
  | [] => None
  | v :: vs => if forallb (λ w, Ascii.eqb (ubjson_prefix w) (ubjson_prefix v)) vs
               then Some (ubjson_prefix v) else None
  end.

(** What precedes the elements of a container, and what follows them. *)
Definition container_type (use_count use_type : bool) (vs : list json) : outcome exn (string * bool) :=
  if use_type && negb (bool_decide (vs = [])) then
    if negb use_count then Undefined else
    match same_prefix vs with
    | Some c => Ok (byte (mark "$") +:+ byte (mark c), false)
    | None => Ok ("", true)
    end
  else Ok ("", true).

Definition container_count (use_count : bool) (n : Z) : outcome exn string :=
  if use_count then oapp (written (byte (mark "#"))) (write_unsigned n true) else written "".

Fixpoint write_ubjson (use_count use_type add_prefix : bool) (j : json) : outcome exn string :=
  match j with
  | jnull => prefixed add_prefix "Z" ""
  | jboolean b => prefixed add_prefix (if b then "T" else "F") ""
  | jnumber_integer z => write_signed z add_prefix
  | jnumber_unsigned z => write_unsigned z add_prefix
  | jnumber_float d => prefixed add_prefix "D" (write_number 8 (double_bits d))
  | jstring s => oapp (prefixed add_prefix "S" "") (write_ubjson_string s)
  | jarray l =>
      oapp (prefixed add_prefix "[" "")
        (obind (container_type use_count use_type l) (λ '(type, prefix_required),
         oapp (written type)
           (oapp (container_count use_count (Z.of_nat (length l)))
             (oapp (write_each (write_ubjson use_count use_type prefix_required) l)
               (written (if use_count then "" else byte (mark "]")))))))
  | jobject m =>
      oapp (prefixed add_prefix "{" "")
        (obind (container_type use_count use_type m.*2) (λ '(type, prefix_required),
         oapp (written type)
           (oapp (container_count use_count (Z.of_nat (length m)))
             (oapp (write_each (λ el, oapp (write_ubjson_string el.1)
                                        (write_ubjson use_count use_type prefix_required el.2)) m)
               (written (if use_count then "" else byte (mark "}")))))))
  | jdiscarded => written ""
  end.

(** ** The reader *)

Fixpoint get_ignore_noop (fuel : nat) : RM Z :=
  match fuel with
  | O => out_of_fuel
  | S fuel => c <- get ;; if c =? mark "N" then get_ignore_noop fuel else ret c
  end.

(** The number after the marker [c] of an integer type; [None] for other
    markers. *)
Definition ubjson_integer (c : Z) : option (RM Z) :=
  if c =? mark "U" then Some (get_number 1)
  else if c =? mark "i" then Some (n <- get_number 1 ;; ret (wrap_signed 8 n))
  else if c =? mark "I" then Some (n <- get_number 2 ;; ret (wrap_signed 16 n))
  else if c =? mark "l" then Some (n <- get_number 4 ;; ret (wrap_signed 32 n))
  else if c =? mark "L" then Some (n <- get_number 8 ;; ret (wrap_signed 64 n))
  else None.

Definition get_ubjson_string (fuel : nat) (get_char : bool) : RM string :=
  (if get_char then get ;; ret tt else ret tt) ;;
  unexpect_eof ;;
  current <- gets last_token ;;
  match ubjson_integer current with
  | Some get_length => len <- get_length ;; read_string fuel len
  | None => binary_error 113 ("expected a UBJSON string; last byte: 0x" +:+ get_token_string)
  end.

(** The size is a [size_t]. *)
Definition get_ubjson_size_value (fuel : nat) : RM Z :=
  c <- get_ignore_noop fuel ;;
  match ubjson_integer c with
  | Some get_length => number <- get_length ;; ret (wrap 64 number)
  | None => binary_error 113 ("byte after '#' must denote a number type; last byte: 0x" +:+ get_token_string)
  end.

(** [string_t::npos]: no size. *)
Definition npos : Z := 2 ^ 64 - 1.

Definition get_ubjson_size_type (fuel : nat) : RM (Z * Z) :=
  current <- get_ignore_noop fuel ;;
  if current =? mark "$" then
    type <- get ;;
    unexpect_eof ;;
    current <- get_ignore_noop fuel ;;
    if negb (current =? mark "#") then
      unexpect_eof ;;
      binary_error 112 ("expected '#' after UBJSON type information; last byte: 0x" +:+ get_token_string)
    else
    size <- get_ubjson_size_value fuel ;; ret (size, type)
  else if current =? mark "#" then
    size <- get_ubjson_size_value fuel ;; ret (size, 0)
  else ret (npos, 0).

(** [while (current != stop) { body; get_ignore_noop(); }]. *)
Fixpoint until (fuel : nat) (stop : Z) (body : RM unit) : RM unit :=
  match fuel with
  | O => out_of_fuel
  | S fuel =>
      current <- gets last_token ;;
      if current =? stop then ret tt else body ;; get_ignore_noop fuel ;; until fuel stop body
  end.

(** [value prefix] reads a value whose marker is [prefix]. *)
Definition get_ubjson_array (value : Z → RM unit) (fuel : nat) : RM unit :=
  size_and_type <- get_ubjson_size_type fuel ;;
  let '(size, type) := size_and_type in
  if negb (size =? npos) then
    start_array size ;;
    (if negb (type =? 0) then
       if negb (type =? mark "N") then for_len fuel size (value type) else ret tt
     else for_len fuel size (c <- get_ignore_noop fuel ;; value c)) ;;
    sax_end_array
  else
    sax_start_array ;;
    until fuel (mark "]") (c <- gets last_token ;; value c) ;;
    sax_end_array.

Definition get_ubjson_object (value : Z → RM unit) (fuel : nat) : RM unit :=
  size_and_type <- get_ubjson_size_type fuel ;;
  let '(size, type) := size_and_type in
  if negb (size =? npos) then
    start_object size ;;
    (if negb (type =? 0)
     then for_len fuel size (get_member (get_ubjson_string fuel true) (value type))
     else for_len fuel size (get_member (get_ubjson_string fuel true) (c <- get_ignore_noop fuel ;; value c))) ;;
    sax_end_object
  else
    sax_start_object ;;
    until fuel (mark "}") (get_member (get_ubjson_string fuel false) (c <- get_ignore_noop fuel ;; value c)) ;;
    sax_end_object.

Definition get_ubjson_char : RM unit :=
  get ;; unexpect_eof ;;
  current <- gets last_token ;;
  if 127 <? current then
    binary_error 113 ("byte after 'C' must be in range 0x00..0x7F; last byte: 0x" +:+ get_token_string)
  else handle_value (jstring (byte current)).

Fixpoint get_ubjson_value (fuel : nat) (prefix : Z) : RM unit :=
  match fuel with
  | O => out_of_fuel
  | S fuel =>
      if prefix =? eof then unexpect_eof
      else if prefix =? mark "T" then handle_value (jboolean true)
      else if prefix =? mark "F" then handle_value (jboolean false)
      else if prefix =? mark "Z" then handle_value jnull
      else if prefix =? mark "U" then number <- get_number 1 ;; handle_value (jnumber_unsigned number)
      else if prefix =? mark "i" then number <- get_number 1 ;; handle_value (jnumber_integer (wrap_signed 8 number))
      else if prefix =? mark "I" then number <- get_number 2 ;; handle_value (jnumber_integer (wrap_signed 16 number))
      else if prefix =? mark "l" then number <- get_number 4 ;; handle_value (jnumber_integer (wrap_signed 32 number))
      else if prefix =? mark "L" then number <- get_number 8 ;; handle_value (jnumber_integer (wrap_signed 64 number))
      else if prefix =? mark "d" then number <- get_number 4 ;; handle_value (jnumber_float (bits_float number))
      else if prefix =? mark "D" then number <- get_number 8 ;; handle_value (jnumber_float (bits_double number))
      else if prefix =? mark "C" then get_ubjson_char
      else if prefix =? mark "S" then s <- get_ubjson_string fuel true ;; handle_value (jstring s)
      else if prefix =? mark "[" then get_ubjson_array (get_ubjson_value fuel) fuel
      else if prefix =? mark "{" then get_ubjson_object (get_ubjson_value fuel) fuel
      else binary_error 112 ("error reading UBJSON; last byte: 0x" +:+ get_token_string)
  end.

Definition parse_ubjson_internal (fuel : nat) : RM unit :=
  c <- get_ignore_noop fuel ;; get_ubjson_value fuel c.

(** [to_ubjson], [from_ubjson]: in strict mode nothing but no-ops may follow. *)
Definition to_ubjson (use_size use_type : bool) (j : json) : outcome exn string :=
  write_ubjson use_size use_type true j.

Definition sax_parse_ubjson (fuel : nat) (strict : bool) : RM unit :=
  parse_ubjson_internal fuel ;;
  if strict then
    current <- get_ignore_noop fuel ;;
    if negb (current =? eof) then binary_error 110 "expected end of input" else ret tt
  else ret tt.

Definition from_ubjson (fuel : nat) (strict : bool) (input : string) : outcome exn json :=
  (bind (sax_parse_ubjson fuel strict) (λ _, gets root) (reader_init input)).1.
End ubjson.

Definition ubjson_sample : json :=
  jobject [("a", jarray [jnumber_unsigned 200; jnumber_integer (-500); jnull]);
           ("b", jarray [jstring "x"; jstring "text"]); ("c", jarray [jarray [jboolean true; jboolean true]; jarray []])].

Definition back (use_size use_type : bool) : outcome exn json :=
  obind (to_ubjson (H := x86_64) use_size use_type ubjson_sample) (from_ubjson (H := x86_64) 50 true).

Example ubjson_back : back false false = Ok ubjson_sample ∧ back true false = Ok ubjson_sample ∧ back true true = Ok ubjson_sample.
Proof. vm_compute. done. Qed.
