(* ===== verification/UbjsonCorrect.v ===== *)
(** * UBJSON: what was written is read back

    The writer throws exactly for unsigned numbers beyond 63 bits; everything
    else is read back, with any combination of counts and types. *)

From stdpp Require Import base gmap strings list.
From Stdlib Require Import ZArith Ascii Lia.
From S2P Require Import Prelude Cxx StdMap JsonValue JsonSax JsonBinary BinaryReader BinaryFormat Ubjson.

(** ** Values *)

(** Numbers from 128 to 255 come back unsigned, other integers signed. *)
Definition ubjson_number (z : Z) : json :=
  if between 128 255 z then jnumber_unsigned z else jnumber_integer z.

Fixpoint ubjson_read (v : json) : json :=
  match v with
  | jnumber_integer z | jnumber_unsigned z => ubjson_number z
  | jarray l => jarray (map ubjson_read l)
  | jobject m => jobject (map (λ kv, (kv.1, ubjson_read kv.2)) m)
  | _ => v
  end.

(** No unsigned number beyond the largest signed one. *)
Fixpoint signed_range (v : json) : bool :=
  match v with
  | jnumber_unsigned z => z <? 2 ^ 63
  | jarray l => forallb signed_range l
  | jobject m => forallb (λ kv, signed_range kv.2) m
  | _ => true
  end.

(** Turns that reading a value takes. *)
Fixpoint turns (v : json) : nat :=
  match v with
  | jstring s => String.length s + 3
  | jarray l => length l + list_sum (map turns l) + 3
  | jobject m => length m + list_sum (map (λ kv, String.length kv.1 + turns kv.2)%nat m) + 3
  | _ => 1
  end.

Section correct.
Context `{Machine}.

Lemma byte_mark c : byte (mark c) = String c "".
Proof. unfold byte, mark. by rewrite char_of_byte_of. Qed.

(** ** Integers *)

(** The marker of an integer and its width. *)
Definition integer_form (z : Z) : ascii * nat :=
  if between (- 2 ^ 7) (2 ^ 7 - 1) z then ("i"%char, 1%nat) else if between 0 (2 ^ 8 - 1) z then ("U"%char, 1%nat)
  else if between (- 2 ^ 15) (2 ^ 15 - 1) z then ("I"%char, 2%nat)
  else if between (- 2 ^ 31) (2 ^ 31 - 1) z then ("l"%char, 4%nat) else ("L"%char, 8%nat).

Lemma write_signed_form z add :
  - 2 ^ 63 ≤ z < 2 ^ 63 → write_signed z add = prefixed add (integer_form z).1 (write_number (integer_form z).2 z).
Proof.
  intros Hz. unfold write_signed, integer_form. repeat case_match; try done.
  unfold between in *. exfalso. match goal with E : _ && _ = false |- _ => apply andb_false_iff in E as [E|E]; zify_cmp; lia end.
Qed.

Lemma unsigned_as_signed z add :
  0 ≤ z < 2 ^ 63 → write_unsigned z add = write_signed z add ∧
  ubjson_prefix (jnumber_unsigned z) = ubjson_prefix (jnumber_integer z).
Proof.
  intros Hz. unfold write_unsigned, write_signed, ubjson_prefix, between.
  rewrite !(proj2 (Z.leb_le _ z)) by lia. cbn [andb]. split; [|done].
  by repeat case_match.
Qed.

Lemma prefix_form z : ubjson_prefix (jnumber_integer z) = (integer_form z).1.
Proof. unfold ubjson_prefix, integer_form. by repeat case_match. Qed.

(** The value of a number after its marker. *)
Lemma integer_cases z :
  - 2 ^ 63 ≤ z < 2 ^ 63 →
  (integer_form z = ("U"%char, 1%nat) ∧ between 128 255 z = true ∧ 0 ≤ z < 256) ∨
  (∃ c w, integer_form z = (c, w) ∧ between 128 255 z = false ∧
     wrap_signed (8 * Z.of_nat w) (wrap (8 * Z.of_nat w) z) = z ∧
     ∀ fuel, get_ubjson_value (S fuel) (mark c)
       = (n <- get_number w ;; handle_value (jnumber_integer (wrap_signed (8 * Z.of_nat w) n)))).
Proof.
  intros Hz. unfold integer_form, between.
  destruct ((- 2 ^ 7 <=? z) && (z <=? 2 ^ 7 - 1)) eqn:E1; [right; exists "i"%char, 1%nat|].
  { zify_cmp. split_and!; [done|apply andb_false_iff; lia|apply wrap_signed_wrap; lia|done]. }
  destruct ((0 <=? z) && (z <=? 2 ^ 8 - 1)) eqn:E2; [left|right].
  { apply andb_false_iff in E1. zify_cmp. split_and!; [done|apply andb_true_iff; lia|lia..]. }
  assert (Hb : (128 <=? z) && (z <=? 255) = false) by (apply andb_false_iff in E2; apply andb_false_iff; lia).
  destruct ((- 2 ^ 15 <=? z) && (z <=? 2 ^ 15 - 1)) eqn:E3; [exists "I"%char, 2%nat|].
  { zify_cmp. split_and!; [done|done|apply wrap_signed_wrap; lia|done]. }
  destruct ((- 2 ^ 31 <=? z) && (z <=? 2 ^ 31 - 1)) eqn:E4; [exists "l"%char, 4%nat|exists "L"%char, 8%nat];
    zify_cmp; (split_and!; [done|done|apply wrap_signed_wrap; lia|done]).
Qed.

(** The number after its marker is the number written. *)
Lemma ubjson_integer_run z t p (Q : Z → reader → Prop) X :
  - 2 ^ 63 ≤ z < 2 ^ 63 → rest (m_lexer p) = write_number (integer_form z).2 z +:+ t →
  (∀ p', same p p' → rest (m_lexer p') = t → Q z p') →
  ∃ g, ubjson_integer (mark (integer_form z).1) = Some g ∧ wp g p Q X.
Proof.
  intros Hz Hrest HQ. unfold integer_form, between in *. repeat case_match; simplify_eq/=; zify_cmp;
    (eexists; split; [reflexivity|]); try wp_step; (eapply get_number_run; [exact Hrest|]); intros p' Hr Hs;
    try wp_step; change (8 * Z.of_nat 1) with 8; change (8 * Z.of_nat 2) with 16; change (8 * Z.of_nat 4) with 32;
    change (8 * Z.of_nat 8) with 64.
  - rewrite wrap_signed_wrap by lia. by apply HQ.
  - rewrite wrap_small by lia. by apply HQ.
  - rewrite wrap_signed_wrap by lia. by apply HQ.
  - rewrite wrap_signed_wrap by lia. by apply HQ.
  - rewrite wrap_signed_wrap by lia. by apply HQ.
Qed.

Lemma integer_value_run z fuel t p X :
  - 2 ^ 63 ≤ z < 2 ^ 63 → receives (ref_stack p) → rest (m_lexer p) = write_number (integer_form z).2 z +:+ t →
  wp (get_ubjson_value (S fuel) (mark (integer_form z).1)) p
    (λ _ p', delivers (ubjson_number z) p p' ∧ rest (m_lexer p') = t) X.
Proof.
  intros Hz Hr Hrest. pose proof (integer_cases z Hz) as Hcases. unfold ubjson_number.
  destruct Hcases as [(E & -> & Hb)|(c & w & E & -> & Hb & Hval)]; rewrite E in Hrest |- *; cbn [fst snd] in *.
  - change (wp (number <- get_number 1 ;; handle_value (jnumber_unsigned number)) p
      (λ _ p', delivers (jnumber_unsigned z) p p' ∧ rest (m_lexer p') = t) X).
    wp_step. eapply get_number_run; [exact Hrest|]. intros p' Ht Hs. change (8 * Z.of_nat 1) with 8.
    rewrite wrap_small by lia. by apply value_done.
  - rewrite Hval. wp_step. eapply get_number_run; [exact Hrest|]. intros p' Ht Hs.
    rewrite Hb. by apply value_done.
Qed.

(** ** Counts and strings *)

(** A size, with its marker. *)
Definition count_bytes (n : Z) : string :=
  String (integer_form n).1 (write_number (integer_form n).2 n).

Lemma write_count n : 0 ≤ n < 2 ^ 63 → write_unsigned n true = Ok (count_bytes n).
Proof.
  intros Hn. rewrite (proj1 (unsigned_as_signed n true Hn)), write_signed_form by lia.
  unfold prefixed. by rewrite byte_mark.
Qed.

Lemma write_string_count s :
  Z.of_nat (String.length s) < 2 ^ 63 →
  write_ubjson_string s = Ok (count_bytes (Z.of_nat (String.length s)) +:+ s).
Proof. intros Hs. unfold write_ubjson_string. rewrite write_count by lia. done. Qed.

(** The key of a member whose first byte has been read. *)
Lemma string_tail_run fuel s c u t p (Q : string → reader → Prop) X :
  Z.of_nat (String.length s) < 2 ^ 63 → (String.length s < fuel)%nat →
  count_bytes (Z.of_nat (String.length s)) +:+ s = String c u → last_token p = mark c → rest (m_lexer p) = u +:+ t →
  (∀ p', same p p' → rest (m_lexer p') = t → Q s p') → wp (get_ubjson_string fuel false) p Q X.
Proof.
  intros Hs Hf Hcu Hl Hrest HQ. unfold count_bytes in Hcu. rewrite append_cons in Hcu. injection Hcu as <- <-.
  rewrite append_assoc in Hrest.
  unfold get_ubjson_string. cbv iota. do 3 wp_step.
  apply unexpect_eof_run; [rewrite Hl; apply Z.eqb_neq, byte_not_eof|]. do 2 wp_step. rewrite Hl.
  destruct (ubjson_integer_run (Z.of_nat (String.length s)) (s +:+ t) p
    (λ len p1, wp (read_string fuel len) p1 Q X) X) as (g & -> & Hg); [lia|done| |].
  - intros p1 Hs1 Hr1. eapply read_string_run; [exact Hr1|done|]. intros p' Hr' Hs'. apply HQ; [by eapply same_trans|done].
  - wp_step. exact Hg.
Qed.

Lemma string_run fuel s t p (Q : string → reader → Prop) X :
  Z.of_nat (String.length s) < 2 ^ 63 → (String.length s < fuel)%nat →
  rest (m_lexer p) = (count_bytes (Z.of_nat (String.length s)) +:+ s) +:+ t →
  (∀ p', same p p' → rest (m_lexer p') = t → Q s p') → wp (get_ubjson_string fuel true) p Q X.
Proof.
  intros Hs Hf Hrest HQ.
  assert (Hcons : ∃ c u, count_bytes (Z.of_nat (String.length s)) +:+ s = String c u) by (unfold count_bytes; eauto).
  destruct Hcons as (c & u & Hcu). rewrite Hcu in Hrest. unfold get_ubjson_string. cbv iota. do 2 wp_step.
  eapply wp_br_get_cons; [exact Hrest|]. intros p1 Hr1 Hl1 Hs1. cbv beta. wp_step.
  refine (string_tail_run fuel s c u t p1 Q X Hs Hf Hcu Hl1 Hr1 _).
  intros p' Hs' Hr'. apply HQ; [by eapply same_trans|done].
Qed.

(** ** What precedes the elements *)

Lemma noop_run fuel c s p (Q : Z → reader → Prop) X :
  rest (m_lexer p) = String c s → c ≠ "N"%char → (0 < fuel)%nat →
  (∀ p', rest (m_lexer p') = s → last_token p' = mark c → same p p' → Q (mark c) p') →
  wp (get_ignore_noop fuel) p Q X.
Proof.
  intros Hrest Hc Hf HQ. destruct fuel as [|fuel]; [lia|]. cbn [get_ignore_noop]. wp_step.
  eapply wp_br_get_cons; [exact Hrest|]. intros p' Hr' Hl Hs. cbv beta.
  rewrite (proj2 (Z.eqb_neq _ _)) by (intros E; by apply Hc, byte_of_inj). wp_step. by apply HQ.
Qed.

Lemma size_value_run fuel n t p (Q : Z → reader → Prop) X :
  0 ≤ n < 2 ^ 63 → (0 < fuel)%nat → rest (m_lexer p) = count_bytes n +:+ t →
  (∀ p', same p p' → rest (m_lexer p') = t → Q n p') → wp (get_ubjson_size_value fuel) p Q X.
Proof.
  intros Hn Hf Hrest HQ. unfold count_bytes in Hrest. rewrite append_cons in Hrest. unfold get_ubjson_size_value. wp_step.
  eapply noop_run; [exact Hrest| |done|].
  { unfold integer_form. by repeat case_match. }
  intros p1 Hr1 _ Hs1. cbv beta. destruct (ubjson_integer_run n t p1 (λ number p2, Q (wrap 64 number) p2) X) as (g & -> & Hg); [lia|done| |].
  - intros p' Hs' Hr'. rewrite wrap_small by lia. apply HQ; [by eapply same_trans|done].
  - wp_step. eapply wp_mono; [exact Hg| |done]. intros number p' HQ'. by wp_step.
Qed.

(** The characters that announce no size and no type. *)
Definition plain (c : ascii) : Prop := c ∉ ["$"%char; "#"%char; "N"%char].

Lemma size_type_plain fuel c s p (Q : Z * Z → reader → Prop) X :
  rest (m_lexer p) = String c s → plain c → (0 < fuel)%nat →
  (∀ p', rest (m_lexer p') = s → last_token p' = mark c → same p p' → Q (npos, 0) p') →
  wp (get_ubjson_size_type fuel) p Q X.
Proof.
  intros Hrest Hc Hf HQ. unfold get_ubjson_size_type. wp_step. unfold plain in Hc.
  eapply noop_run; [exact Hrest|set_solver|done|]. intros p1 Hr1 Hl1 Hs1. cbv beta.
  rewrite !(proj2 (Z.eqb_neq _ _)) by (intros E%byte_of_inj; set_solver). wp_step. by apply HQ.
Qed.

Lemma size_type_count fuel n t p (Q : Z * Z → reader → Prop) X :
  0 ≤ n < 2 ^ 63 → (0 < fuel)%nat → rest (m_lexer p) = String "#" (count_bytes n +:+ t) →
  (∀ p', same p p' → rest (m_lexer p') = t → Q (n, 0) p') → wp (get_ubjson_size_type fuel) p Q X.
Proof.
  intros Hn Hf Hrest HQ. unfold get_ubjson_size_type. wp_step. eapply noop_run; [exact Hrest|done|done|].
  intros p1 Hr1 _ Hs1. cbv beta. change (mark "#" =? mark "$") with false. rewrite Z.eqb_refl. cbv iota. wp_step.
  eapply size_value_run; [exact Hn|done|exact Hr1|]. intros p' Hs' Hr'. wp_step. apply HQ; [by eapply same_trans|done].
Qed.

Lemma size_type_typed fuel c n t p (Q : Z * Z → reader → Prop) X :
  0 ≤ n < 2 ^ 63 → (0 < fuel)%nat → rest (m_lexer p) = String "$" (String c (String "#" (count_bytes n +:+ t))) →
  (∀ p', same p p' → rest (m_lexer p') = t → Q (n, mark c) p') → wp (get_ubjson_size_type fuel) p Q X.
Proof.
  intros Hn Hf Hrest HQ. unfold get_ubjson_size_type. wp_step. eapply noop_run; [exact Hrest|done|done|].
  intros p1 Hr1 _ Hs1. cbv beta. rewrite Z.eqb_refl. wp_step. eapply wp_br_get_cons; [exact Hr1|].
  intros p2 Hr2 Hl2 Hs2. wp_step. apply unexpect_eof_run; [rewrite Hl2; apply Z.eqb_neq, byte_not_eof|]. wp_step.
  eapply noop_run; [exact Hr2|done|done|]. intros p3 Hr3 _ Hs3. cbv beta. rewrite Z.eqb_refl. cbn [negb]. cbv iota. wp_step.
  eapply size_value_run; [exact Hn|done|exact Hr3|]. intros p' Hs' Hr'. wp_step.
  apply HQ; [|done]. eauto using same_trans.
Qed.

(** ** Loops over what was written

    [I seen p]: the elements [seen] have been read. *)

Section loops.
Context {A : Type} (g : A → string) (I : list A → reader → Prop) (X : exn → reader → Prop).

(** [body] reads an element; in the second case its first byte has been read. *)
Definition reads_each (body : RM unit) (l : list A) : Prop :=
  ∀ seen a t p, a ∈ l → I seen p → rest (m_lexer p) = g a +:+ t →
  wp body p (λ _ p', I (seen ++ [a]) p' ∧ rest (m_lexer p') = t) X.

Definition reads_tail (body : RM unit) (l : list A) : Prop :=
  ∀ seen a c s t p, a ∈ l → I seen p → g a = String c s → last_token p = mark c → rest (m_lexer p) = s +:+ t →
  wp body p (λ _ p', I (seen ++ [a]) p' ∧ rest (m_lexer p') = t) X.

Lemma for_run body fuel l seen t p :
  reads_each body l → (length l < fuel)%nat → I seen p → rest (m_lexer p) = write_all g l +:+ t →
  wp (for_len fuel (Z.of_nat (length l)) body) p (λ _ p', I (seen ++ l) p' ∧ rest (m_lexer p') = t) X.
Proof.
  revert fuel seen p. induction l as [|a l IH]; intros [|fuel] seen p Hb Hf Hp Hrest; cbn [length] in *; try lia;
    cbn [for_len].
  { rewrite app_nil_r. change (wp (ret tt) p (λ _ p', I seen p' ∧ rest (m_lexer p') = t) X). by wp_step. }
  rewrite (proj2 (Z.leb_gt _ 0)) by lia. rewrite write_all_cons, append_assoc in Hrest. wp_step.
  eapply wp_mono; [eapply Hb; [by left|done|exact Hrest]| |done]. intros _ p1 [Hp1 Hr1]. cbv beta.
  replace (Z.of_nat (S (length l)) - 1) with (Z.of_nat (length l)) by lia.
  eapply wp_mono; [apply (IH fuel (seen ++ [a])); [|lia|done|done]| |done].
  - intros seen' b t' p' Hin. apply Hb. by right.
  - intros ? p'. by rewrite <-app_assoc.
Qed.

Context (Hsame : ∀ seen p p', same p p' → I seen p → I seen p').

(** The first byte of an element, or of the end. *)
Definition starts (stop : ascii) (l : list A) : Prop :=
  ∀ a, a ∈ l → ∃ c s, g a = String c s ∧ c ≠ stop ∧ plain c.

Lemma first_byte stop l t :
  starts stop l → plain stop →
  ∃ c s, write_all g l +:+ String stop t = String c s ∧ plain c ∧
    match l with [] => c = stop ∧ s = t
    | a :: l => ∃ u, g a = String c u ∧ c ≠ stop ∧ s = u +:+ (write_all g l +:+ String stop t) end.
Proof.
  intros Hl Hstop. destruct l as [|a l]; [by exists stop, t|].
  destruct (Hl a) as (c & u & E & Hc & Hp); [by left|]. rewrite write_all_cons, E, append_assoc. eauto 10.
Qed.

Lemma until_run body stop fuel l seen c s t p :
  reads_tail body l → starts stop l → plain stop → (length l < fuel)%nat →
  write_all g l +:+ String stop t = String c s → last_token p = mark c → rest (m_lexer p) = s → I seen p →
  wp (until fuel (mark stop) body) p (λ _ p', I (seen ++ l) p' ∧ rest (m_lexer p') = t) X.
Proof.
  intros Hb Hl Hstop. revert fuel seen c s p Hb Hl. induction l as [|a l IH];
    intros [|fuel] seen c s p Hb Hl Hf Hcs Htok Hrest Hp; cbn [length] in *; try lia; cbn [until]; do 2 wp_step; rewrite Htok;
    destruct (first_byte stop _ t Hl Hstop) as (c' & s' & E & Hpl & Hcase); rewrite Hcs in E; injection E as <- <-; cbv iota in Hcase.
  { destruct Hcase as [-> ->]. rewrite Z.eqb_refl, app_nil_r. by wp_step. }
  destruct Hcase as (u & Ea & Hne & ->).
  rewrite (proj2 (Z.eqb_neq _ _)) by (intros Eb; by apply Hne, byte_of_inj). wp_step.
  eapply wp_mono; [eapply Hb; [by left|done|exact Ea|exact Htok|exact Hrest]| |done]. intros _ p1 [Hp1 Hr1]. cbv beta. wp_step.
  assert (Hl' : starts stop l) by (intros b Hin; apply Hl; by right).
  destruct (first_byte stop l t Hl' Hstop) as (c1 & s1 & E1 & Hpl1 & _). rewrite E1 in Hr1.
  eapply noop_run; [exact Hr1|unfold plain in Hpl1; set_solver|lia|]. intros p2 Hr2 Hl2 Hs2. cbv beta.
  eapply wp_mono; [apply (IH fuel (seen ++ [a]) c1 s1); [|done|lia|done|done|done|by eapply Hsame]| |done].
  - intros seen' b c2 s2 t2 p3 Hin. apply Hb. by right.
  - intros ? p'. by rewrite <-app_assoc.
Qed.
End loops.

(** ** Elements and members *)

(** [m] reads the bytes [s] as [v]. *)
Definition yields (m : RM unit) (s : string) (v : json) : Prop :=
  ∀ t p X, receives (ref_stack p) → rest (m_lexer p) = s +:+ t →
  wp m p (λ _ p', delivers v p p' ∧ rest (m_lexer p') = t) X.

Lemma yields_marked fuel (value : Z → RM unit) c s v :
  (0 < fuel)%nat → c ≠ "N"%char → yields (value (mark c)) s v →
  yields (c <- get_ignore_noop fuel ;; value c) (String c s) v.
Proof.
  intros Hf Hc Hv t p X Hr Hrest. rewrite append_cons in Hrest. wp_step. eapply noop_run; [exact Hrest|done|done|].
  intros p1 Hr1 _ Hs1. eapply wp_mono; [apply Hv; [by destruct Hs1 as [_ ->]|exact Hr1]| |done].
  intros _ p' [Hd Hr']. split; [by eapply same_delivers|done].
Qed.

(** In an array, in an object: the elements read so far. *)
Definition read_items (r : json) (st : list frame) (seen : list json) (p : reader) : Prop :=
  root p = r ∧ ref_stack p = Farray (map ubjson_read seen) :: st.

Definition read_member (kv : string * json) : string * json := (kv.1, ubjson_read kv.2).
Definition read_members (r : json) (st : list frame) (seen : list (string * json)) (p : reader) : Prop :=
  root p = r ∧ ∃ el, ref_stack p = Fobject (put_members [] (map read_member seen)) el :: st.

Lemma read_items_same r st seen p p' : same p p' → read_items r st seen p → read_items r st seen p'.
Proof. unfold read_items. by intros [-> ->]. Qed.

Lemma read_members_same r st seen p p' : same p p' → read_members r st seen p → read_members r st seen p'.
Proof. unfold read_members. by intros [-> ->]. Qed.

Lemma item_run body s v r st seen t p X :
  yields body s (ubjson_read v) → read_items r st seen p → rest (m_lexer p) = s +:+ t →
  wp body p (λ _ p', read_items r st (seen ++ [v]) p' ∧ rest (m_lexer p') = t) X.
Proof.
  intros Hv [Hroot Hst] Hrest. eapply wp_mono; [apply Hv; [by rewrite Hst|exact Hrest]| |done].
  intros _ p' [Hd Hr]. split; [|done]. unfold delivers in Hd. rewrite Hst in Hd. injection Hd as Hroot' Hst'.
  unfold read_items. rewrite map_app. split; [congruence|done].
Qed.

Lemma member_run key value k s v r st seen t p X :
  wp key p (λ k' p', k' = k ∧ same p p' ∧ rest (m_lexer p') = s +:+ t) X →
  yields value s (ubjson_read v) → read_members r st seen p →
  wp (get_member key value) p (λ _ p', read_members r st (seen ++ [(k, v)]) p' ∧ rest (m_lexer p') = t) X.
Proof.
  intros Hk Hv [Hroot [el Hst]]. unfold get_member. wp_step. eapply wp_mono; [exact Hk| |done].
  intros k' p1 (-> & [Hroot1 Hst1] & Hr1). cbv beta. wp_step. set (m := put_members [] (map read_member seen)) in *.
  assert (Hwf : map_wf m) by (apply put_members_wf; constructor).
  apply (wp_run _ _ _ _ tt (with_sax (root p1) (Fobject (if map_mem k m then m else map_put k jnull m) (Some k) :: st) p1)).
  { unfold sax_key. by rewrite Hst1, Hst. }
  eapply wp_mono; [apply Hv; [done|exact Hr1]| |done]. intros _ p' [Hd Hr']. split; [|done].
  unfold delivers in Hd. simpl in Hd. injection Hd as Hroot' Hst'. rewrite member_put in Hst' by done.
  split; [congruence|]. exists (Some k). rewrite Hst', map_app. unfold put_members. by rewrite foldl_app.
Qed.

(** ** Containers

    A count, with or without the type of all elements before it; without the
    type each element has its marker. *)

Definition type_bytes (type : option ascii) : string :=
  match type with Some c => String "$" (String c "") | None => "" end.
Definition head (type : option ascii) (n : Z) : string := type_bytes type +:+ String "#" (count_bytes n).
Definition marked (f : json → string) (type : option ascii) (v : json) : string :=
  match type with Some _ => f v | None => String (ubjson_prefix v) (f v) end.

(** How the elements [vs] may be laid out. *)
Definition layout (type : option ascii) (vs : list json) : Prop :=
  match type with Some c => 0 < mark c ∧ c ≠ "N"%char ∧ ∀ v, v ∈ vs → ubjson_prefix v = c | None => True end.

Section containers.
Context `{!MachineSpec} (value : Z → RM unit) (fuel : nat) (f : json → string).

Definition element (v : json) : Prop :=
  plain (ubjson_prefix v) ∧ (ubjson_prefix v ∉ ["]"%char; "}"%char]) ∧
  yields (value (mark (ubjson_prefix v))) (f v) (ubjson_read v).

Lemma end_items r st l p0 t p X :
  receives st → root p0 = r → ref_stack p0 = st → read_items r st l p → rest (m_lexer p) = t →
  wp sax_end_array p (λ _ p', delivers (ubjson_read (jarray l)) p0 p' ∧ rest (m_lexer p') = t) X.
Proof.
  intros Hr <- <- [Hroot Hst] Ht. eapply wp_end_array; [exact Hr|exact Hst|]. intros p' Hd Hlex.
  split; [|congruence]. unfold delivers. by rewrite Hd, Hroot.
Qed.

Lemma end_members r st (l : std_map json) p0 t p X :
  map_wf l → receives st → root p0 = r → ref_stack p0 = st → read_members r st l p → rest (m_lexer p) = t →
  wp sax_end_object p (λ _ p', delivers (ubjson_read (jobject l)) p0 p' ∧ rest (m_lexer p') = t) X.
Proof.
  intros Hwf Hr <- <- [Hroot [el Hst]] Ht. rewrite put_members_sorted in Hst by (by apply (map_values_wf ubjson_read)).
  eapply wp_end_object; [exact Hr|exact Hst|]. intros p' Hd Hlex.
  split; [|congruence]. unfold delivers. by rewrite Hd, Hroot.
Qed.

(** The value of an element with or without its own marker. *)
Definition get_value (type : option ascii) : RM unit :=
  match type with Some c => value (mark c) | None => c <- get_ignore_noop fuel ;; value c end.

Lemma value_run type vs v :
  (0 < fuel)%nat → layout type vs → v ∈ vs → element v →
  yields (get_value type) (marked f type v) (ubjson_read v).
Proof.
  intros Hf Hlay Hin (Hpl & _ & Hv). destruct type as [c|]; cbn [get_value marked].
  - destruct Hlay as (_ & _ & Hc). by rewrite <-(Hc v Hin).
  - apply (yields_marked fuel value); [done| |done]. unfold plain in Hpl. set_solver.
Qed.

Lemma counted_run {A} type n t p (k : Z * Z → RM A) (Q : A → reader → Prop) X :
  0 ≤ n < 2 ^ 63 → (0 < fuel)%nat → rest (m_lexer p) = head type n +:+ t →
  (∀ p', same p p' → rest (m_lexer p') = t → wp (k (n, match type with Some c => mark c | None => 0 end)) p' Q X) →
  wp (size_and_type <- get_ubjson_size_type fuel ;; k size_and_type) p Q X.
Proof.
  intros Hn Hf Hrest Hk. wp_step. unfold head in Hrest. rewrite append_assoc in Hrest. destruct type as [c|].
  - eapply size_type_typed; [exact Hn|done|exact Hrest|exact Hk].
  - eapply size_type_count; [exact Hn|done|exact Hrest|exact Hk].
Qed.

(** The element loop of a counted container does not look at its type. *)
Lemma items_loop type n :
  (match type with Some c => 0 < mark c ∧ c ≠ "N"%char | None => True end) →
  (let t := match type with Some c => mark c | None => 0 end in
   if negb (t =? 0) then if negb (t =? mark "N") then for_len fuel n (value t) else ret tt
   else for_len fuel n (c <- get_ignore_noop fuel ;; value c)) = for_len fuel n (get_value type).
Proof.
  destruct type as [c|]; [intros [Hpos Hc]|done]. cbv zeta. rewrite !(proj2 (Z.eqb_neq _ _)); [done| |lia].
  intros E. by apply Hc, byte_of_inj.
Qed.

Lemma members_loop type n :
  (match type with Some c => 0 < mark c | None => True end) →
  (let t := match type with Some c => mark c | None => 0 end in
   if negb (t =? 0) then for_len fuel n (get_member (get_ubjson_string fuel true) (value t))
   else for_len fuel n (get_member (get_ubjson_string fuel true) (c <- get_ignore_noop fuel ;; value c)))
  = for_len fuel n (get_member (get_ubjson_string fuel true) (get_value type)).
Proof. destruct type as [c|]; [intros Hpos|done]. cbv zeta. by rewrite (proj2 (Z.eqb_neq _ _)) by lia. Qed.

Lemma length_not_npos n : 0 ≤ n < 2 ^ 63 → (n =? npos) = false.
Proof. intros Hn. apply Z.eqb_neq. unfold npos. lia. Qed.

Lemma plain_stop c : c ∈ ["]"%char; "}"%char] → plain c.
Proof. intros Hc. rewrite !elem_of_cons in Hc. destruct Hc as [->|[->|[]%not_elem_of_nil]]; by apply (bool_decide_unpack _). Qed.

Lemma array_counted type l :
  layout type l →
  (length l < fuel)%nat → Z.of_nat (length l) ≤ array_max_size → Forall element l →
  yields (get_ubjson_array value fuel) (head type (Z.of_nat (length l)) +:+ write_all (marked f type) l)
    (ubjson_read (jarray l)).
Proof.
  intros Hlay Hf Hlen Hl t p X Hr Hrest. rewrite !append_assoc in Hrest. pose proof array_max_size_small.
  rewrite Forall_forall in Hl. unfold get_ubjson_array.
  apply (counted_run type (Z.of_nat (length l)) (write_all (marked f type) l +:+ t)); [lia|lia|exact Hrest|].
  intros p1 Hs1 Hr1. cbv beta iota zeta. rewrite length_not_npos by lia. cbn [negb]. cbv iota. wp_step.
  apply start_array_run; [lia|]. rewrite items_loop by (destruct type; [by destruct Hlay as (? & ? & _)|done]).
  wp_step. destruct Hs1 as [Hroot1 Hst1].
  eapply wp_mono; [apply (for_run (marked f type) (read_items (root p1) (ref_stack p1)) X _ fuel l [] t)| |done];
    [|lia|done|exact Hr1|].
  + intros seen v t' p' Hin Hp' Hr'. eapply item_run; [|exact Hp'|exact Hr']. eapply value_run; [lia|exact Hlay|done|auto].
  + intros _ p2 [Hp2 Hr2]. cbv beta. eapply end_items; [|exact (eq_sym Hroot1)|exact (eq_sym Hst1)|exact Hp2|done].
    by rewrite Hst1.
Qed.

Lemma array_open l :
  (length l < fuel)%nat → Z.of_nat (length l) ≤ array_max_size → Forall element l →
  yields (get_ubjson_array value fuel) (write_all (marked f None) l +:+ String "]" "") (ubjson_read (jarray l)).
Proof.
  intros Hf Hlen Hl t p X Hr Hrest. rewrite append_assoc in Hrest. change (String "]" "" +:+ t) with (String "]" t) in Hrest.
  rewrite Forall_forall in Hl. unfold get_ubjson_array.
  assert (Hst : starts (marked f None) "]" l).
  { intros v Hv. destruct (Hl v Hv) as (Hpl & Hne & _). eexists _, _. split; [reflexivity|]. split; [set_solver|done]. }
  destruct (first_byte (marked f None) "]" l t Hst) as (c & s & E & Hpl & _); [apply plain_stop; set_solver|]. wp_step.
  rewrite E in Hrest. eapply size_type_plain; [exact Hrest|exact Hpl|lia|]. intros p1 Hr1 Hl1 [Hroot1 Hst1]. cbv beta iota.
  rewrite Z.eqb_refl. cbn [negb]. cbv iota. unfold sax_start_array. do 3 wp_step.
  eapply wp_mono; [eapply (until_run (marked f None) (read_items (root p1) (ref_stack p1)) X
    (read_items_same _ _) _ "]" fuel l [] c s t); [|exact Hst|apply plain_stop; set_solver|lia|exact E|exact Hl1|exact Hr1|done]| |done].
  + intros seen v c' s' t' p' Hin Hp' [= <- <-] Hl' Hr'. do 2 wp_step. rewrite Hl'.
    eapply item_run; [|exact Hp'|exact Hr']. apply (Hl v Hin).
  + intros _ p2 [Hp2 Hr2]. cbv beta. eapply end_items; [|exact (eq_sym Hroot1)|exact (eq_sym Hst1)|exact Hp2|done].
    by rewrite Hst1.
Qed.

Definition member_bytes (type : option ascii) (kv : string * json) : string :=
  (count_bytes (Z.of_nat (String.length kv.1)) +:+ kv.1) +:+ marked f type kv.2.

Definition member (kv : string * json) : Prop :=
  Z.of_nat (String.length kv.1) < 2 ^ 63 ∧ (String.length kv.1 < fuel)%nat ∧ element kv.2.

Lemma member_starts kv : ∃ s, member_bytes None kv = String (integer_form (Z.of_nat (String.length kv.1))).1 s.
Proof. unfold member_bytes, count_bytes. rewrite !append_cons. eauto. Qed.

Lemma form_plain z : plain (integer_form z).1 ∧ (integer_form z).1 ∉ ["]"%char; "}"%char].
Proof. unfold integer_form, plain. repeat case_match; split; by apply (bool_decide_unpack _). Qed.

Lemma object_counted type l :
  layout type l.*2 →
  (length l < fuel)%nat → Z.of_nat (length l) ≤ object_max_size → map_wf l → Forall member l →
  yields (get_ubjson_object value fuel) (head type (Z.of_nat (length l)) +:+ write_all (member_bytes type) l)
    (ubjson_read (jobject l)).
Proof.
  intros Hlay Hf Hlen Hwf Hl t p X Hr Hrest. rewrite !append_assoc in Hrest. pose proof object_max_size_small.
  rewrite Forall_forall in Hl. unfold get_ubjson_object.
  apply (counted_run type (Z.of_nat (length l)) (write_all (member_bytes type) l +:+ t)); [lia|lia|exact Hrest|].
  intros p1 Hs1 Hr1. cbv beta iota zeta. rewrite length_not_npos by lia. cbn [negb]. cbv iota. wp_step.
  apply start_object_run; [lia|]. rewrite members_loop by (destruct type; [by destruct Hlay as [? _]|done]).
  wp_step. destruct Hs1 as [Hroot1 Hst1].
  eapply wp_mono; [apply (for_run (member_bytes type) (read_members (root p1) (ref_stack p1)) X _ fuel l [] t)| |done];
    [|lia|split; [done|by exists None]|exact Hr1|].
  + intros seen [k v] t' p' Hin Hp' Hr'. destruct (Hl _ Hin) as (Hk & Hkf & Hv). cbn [fst snd] in *.
    unfold member_bytes in Hr'. rewrite append_assoc in Hr'. eapply member_run; [| |exact Hp'].
    * eapply string_run; [exact Hk|exact Hkf|exact Hr'|]. intros p2 Hs2 Hr2. eauto.
    * eapply value_run; [lia|exact Hlay| |exact Hv]. by apply (list_elem_of_fmap_2 snd l (k, v)).
  + intros _ p2 [Hp2 Hr2]. cbv beta.
    eapply end_members; [exact Hwf| |exact (eq_sym Hroot1)|exact (eq_sym Hst1)|exact Hp2|done]. by rewrite Hst1.
Qed.

Lemma object_open l :
  (length l < fuel)%nat → Z.of_nat (length l) ≤ object_max_size → map_wf l → Forall member l →
  yields (get_ubjson_object value fuel) (write_all (member_bytes None) l +:+ String "}" "") (ubjson_read (jobject l)).
Proof.
  intros Hf Hlen Hwf Hl t p X Hr Hrest. rewrite append_assoc in Hrest. change (String "}" "" +:+ t) with (String "}" t) in Hrest.
  rewrite Forall_forall in Hl. unfold get_ubjson_object.
  assert (Hst : starts (member_bytes None) "}" l).
  { intros kv _. destruct (member_starts kv) as [s Hs]. destruct (form_plain (Z.of_nat (String.length kv.1))) as [Hpl Hne].
    eexists _, s. split; [exact Hs|]. split; [set_solver|done]. }
  destruct (first_byte (member_bytes None) "}" l t Hst) as (c & s & E & Hpl & _); [apply plain_stop; set_solver|]. wp_step.
  rewrite E in Hrest. eapply size_type_plain; [exact Hrest|exact Hpl|lia|]. intros p1 Hr1 Hl1 [Hroot1 Hst1]. cbv beta iota.
  rewrite Z.eqb_refl. cbn [negb]. cbv iota. unfold sax_start_object. do 3 wp_step.
  eapply wp_mono; [eapply (until_run (member_bytes None) (read_members (root p1) (ref_stack p1)) X
    (read_members_same _ _) _ "}" fuel l [] c s t);
    [|exact Hst|apply plain_stop; set_solver|lia|exact E|exact Hl1|exact Hr1|split; [done|by exists None]]| |done].
  + intros seen [k v] c' s' t' p' Hin Hp' Hcs Hl' Hr'. destruct (Hl _ Hin) as (Hk & Hkf & Hv). cbn [fst snd] in *.
    assert (Hcu : ∃ u, count_bytes (Z.of_nat (String.length k)) +:+ k = String c' u ∧ s' = u +:+ marked f None v).
    { unfold member_bytes, count_bytes in Hcs. cbn [fst snd] in Hcs. rewrite !append_cons in Hcs. injection Hcs as <- <-.
      unfold count_bytes. rewrite append_cons. eauto. }
    destruct Hcu as (u & Hu & ->). rewrite append_assoc in Hr'. eapply member_run; [| |exact Hp'].
    * eapply string_tail_run; [exact Hk|exact Hkf|exact Hu|exact Hl'|exact Hr'|]. intros p2 Hs2 Hr2. eauto.
    * eapply (value_run None l.*2); [lia|done| |exact Hv]. by apply (list_elem_of_fmap_2 snd l (k, v)).
  + intros _ p2 [Hp2 Hr2]. cbv beta.
    eapply end_members; [exact Hwf| |exact (eq_sym Hroot1)|exact (eq_sym Hst1)|exact Hp2|done]. by rewrite Hst1.
Qed.

End containers.

(** ** The writer *)

Section writer.
Context `{!MachineSpec} (use_count use_type : bool) (Htype : use_type = true → use_count = true).

Definition payload (v : json) : string :=
  match write_ubjson use_count use_type false v with Ok s => s | _ => "" end.

Definition is_written (v : json) : Prop :=
  ∀ add, write_ubjson use_count use_type add v = prefixed add (ubjson_prefix v) (payload v).

Lemma written_payload v s : (∀ add, write_ubjson use_count use_type add v = prefixed add (ubjson_prefix v) s) →
  is_written v ∧ payload v = s.
Proof.
  intros Hw. assert (Hs : payload v = s) by (unfold payload; rewrite Hw; done). split; [|done].
  intros add. by rewrite Hw, Hs.
Qed.

(** The markers of values. *)
Lemma prefix_plain v : v ≠ jdiscarded →
  plain (ubjson_prefix v) ∧ (ubjson_prefix v ∉ ["]"%char; "}"%char]) ∧ 0 < mark (ubjson_prefix v).
Proof.
  intros Hv. unfold plain. destruct v as [| | | |[]|z|z| |]; try done; cbn [ubjson_prefix]; repeat case_match;
    (split_and!; [by apply (bool_decide_unpack _)|by apply (bool_decide_unpack _)|done]).
Qed.

Lemma write_each_all {A} (g : A → outcome exn string) (h : A → string) l :
  Forall (λ a, g a = Ok (h a)) l → write_each g l = Ok (write_all h l).
Proof. induction 1 as [|a l Ha _ IH]; [done|]. simpl. by rewrite Ha, IH. Qed.

Lemma same_prefix_spec vs c : same_prefix vs = Some c → ∀ v, v ∈ vs → ubjson_prefix v = c.
Proof.
  destruct vs as [|w vs]; [done|]. simpl. case_match eqn:E; [|done]. intros [= <-] v Hv. apply elem_of_cons in Hv as [->|Hv]; [done|].
  rewrite forallb_forall in E. by apply Ascii.eqb_eq, E, list_elem_of_In.
Qed.

(** How the elements are laid out. *)
Lemma type_layout vs : Forall (.≠ jdiscarded) vs →
  ∃ type, layout type vs ∧ (use_count = false → type = None) ∧
    container_type use_count use_type vs = Ok (type_bytes type, bool_decide (type = None)).
Proof.
  intros Hvs. unfold container_type. destruct (use_type && negb (bool_decide (vs = []))) eqn:E; [|by exists None].
  apply andb_true_iff in E as [Hut Hne]. rewrite Htype by done. cbn [negb].
  destruct (same_prefix vs) as [c|] eqn:Ec; [|by exists None]. exists (Some c). pose proof (same_prefix_spec vs c Ec) as Hc.
  split_and!; [|done|by rewrite !byte_mark]. destruct vs as [|v vs]; [done|].
  apply Forall_cons in Hvs as [Hv _]. destruct (prefix_plain v Hv) as (Hpl & _ & Hpos).
  rewrite (Hc v) in Hpl, Hpos by (by left). cbn [layout]. split_and!; [done|unfold plain in Hpl; set_solver|done].
Qed.

Lemma marked_written type v : is_written v →
  write_ubjson use_count use_type (bool_decide (type = None)) v = Ok (marked payload type v).
Proof. intros Hv. rewrite Hv. destruct type; [done|]. unfold prefixed. by rewrite byte_mark. Qed.

Definition container_bytes (type : option ascii) (n : Z) (elements : string) (stop : ascii) : string :=
  if use_count then head type n +:+ elements else elements +:+ String stop "".

Lemma count_written type n elements stop add c :
  0 ≤ n < 2 ^ 63 → (use_count = false → type = None) →
  oapp (prefixed add c "") (oapp (written (type_bytes type)) (oapp (container_count use_count n)
    (oapp (Ok elements) (written (if use_count then "" else byte (mark stop))))))
  = prefixed add c (container_bytes type n elements stop).
Proof.
  intros Hn Ht. unfold container_count, container_bytes. destruct use_count.
  - rewrite write_count by done. unfold prefixed, head. simpl. rewrite byte_mark, !append_nil_r, !append_assoc. by rewrite append_cons.
  - rewrite Ht by done. unfold prefixed. by rewrite !byte_mark, append_nil_r.
Qed.

(** *** Every value *)

Definition codes (v : json) : Prop :=
  is_written v ∧
  ∀ fuel, (turns v ≤ fuel)%nat → yields (get_ubjson_value fuel (mark (ubjson_prefix v))) (payload v) (ubjson_read v).

Lemma coded v s :
  (∀ add, write_ubjson use_count use_type add v = prefixed add (ubjson_prefix v) s) →
  (∀ fuel, (turns v ≤ S fuel)%nat → yields (get_ubjson_value (S fuel) (mark (ubjson_prefix v))) s (ubjson_read v)) →
  (0 < turns v)%nat → codes v.
Proof.
  intros Hw Hy Hpos. destruct (written_payload v s Hw) as [Hw' Hs]. split; [done|]. intros [|fuel] Hf; [lia|]. rewrite Hs. by apply Hy.
Qed.

Lemma yields_scalar v fuel prefix : get_ubjson_value (S fuel) prefix = handle_value v → yields (get_ubjson_value (S fuel) prefix) "" v.
Proof. intros -> t p X Hr Hrest. by apply value_done. Qed.

Lemma codes_number v z :
  v = jnumber_integer z ∨ v = jnumber_unsigned z ∧ 0 ≤ z → - 2 ^ 63 ≤ z < 2 ^ 63 → codes v.
Proof.
  intros Hv Hz. assert (Hw : ∀ add, write_ubjson use_count use_type add v = write_signed z add).
  { intros add. destruct Hv as [->|[-> Hpos]]; [done|]. apply unsigned_as_signed. lia. }
  assert (Hp : ubjson_prefix v = (integer_form z).1).
  { rewrite <-prefix_form. destruct Hv as [->|[-> Hpos]]; [done|]. apply (unsigned_as_signed z true). lia. }
  assert (Hr : ubjson_read v = ubjson_number z) by (by destruct Hv as [->|[-> _]]).
  apply (coded v (write_number (integer_form z).2 z)).
  - intros add. by rewrite Hw, Hp, write_signed_form.
  - intros fuel _ t p X Hrec Hrest. rewrite Hp, Hr. by apply integer_value_run.
  - destruct Hv as [->|[-> _]]; simpl; lia.
Qed.

Lemma codes_float d : valid_double d = true → codes (jnumber_float d).
Proof.
  intros Hd. destruct (double_bits_inv d Hd) as [Hinv Hbits]. apply (coded _ (write_number 8 (double_bits d))); [done| |simpl; lia].
  intros fuel _ t p X Hr Hrest. change (wp (number <- get_number 8 ;; handle_value (jnumber_float (bits_double number))) p
    (λ _ p', delivers (jnumber_float d) p p' ∧ rest (m_lexer p') = t) X).
  wp_step. eapply get_number_run; [exact Hrest|]. intros p' Ht Hs. change (8 * Z.of_nat 8) with 64.
  rewrite wrap_small, Hinv by lia. by apply value_done.
Qed.

Lemma codes_string s : Z.of_nat (String.length s) < 2 ^ 63 → codes (jstring s).
Proof.
  intros Hs. apply (coded _ (count_bytes (Z.of_nat (String.length s)) +:+ s)); [| |simpl; lia].
  - intros add. cbn [write_ubjson]. rewrite write_string_count by done. unfold prefixed. simpl. by rewrite append_nil_r.
  - intros fuel Hf t p X Hr Hrest. cbn [turns] in Hf. change (wp (s <- get_ubjson_string fuel true ;; handle_value (jstring s)) p
      (λ _ p', delivers (jstring s) p p' ∧ rest (m_lexer p') = t) X).
    wp_step. eapply string_run; [exact Hs|lia|exact Hrest|]. intros p' Hs' Hr'. by apply value_done.
Qed.

Lemma list_sum_in (l : list nat) n : n ∈ l → (n ≤ list_sum l)%nat.
Proof. induction 1 as [|n m l _ IH]; simpl; lia. Qed.

Lemma element_coded fuel v : v ≠ jdiscarded → codes v → (turns v ≤ fuel)%nat → element (get_ubjson_value fuel) payload v.
Proof. intros Hv [_ Hy] Hf. destruct (prefix_plain v Hv) as (Hpl & Hst & _). split_and!; [done|done|by apply Hy]. Qed.

Lemma codes_array l :
  Z.of_nat (length l) ≤ array_max_size → Forall (.≠ jdiscarded) l → Forall codes l → codes (jarray l).
Proof.
  intros Hlen Hnd Hl. pose proof array_max_size_small. destruct (type_layout l Hnd) as (type & Hlay & Hcount & Htb).
  set (bytes := write_all (marked payload type) l).
  apply (coded _ (container_bytes type (Z.of_nat (length l)) bytes "]")); [| |simpl; lia].
  - intros add. cbn [write_ubjson]. rewrite Htb. cbn [obind].
    rewrite (write_each_all _ (marked payload type)); [by apply count_written; [lia|]|].
    eapply Forall_impl; [exact Hl|]. intros v [Hv _]. by apply marked_written.
  - intros fuel Hf. cbn [turns] in Hf. change (yields (get_ubjson_array (get_ubjson_value fuel) fuel)
      (container_bytes type (Z.of_nat (length l)) bytes "]") (ubjson_read (jarray l))).
    assert (Hel : Forall (element (get_ubjson_value fuel) payload) l).
    { rewrite Forall_forall in *. intros v Hv. apply element_coded; [by apply Hnd|by apply Hl|].
      pose proof (list_sum_in (map turns l) (turns v) (list_elem_of_fmap_2 turns l v Hv)). lia. }
    unfold container_bytes, bytes. destruct use_count; [apply array_counted; [done|lia|lia|done]|].
    rewrite Hcount by done. apply array_open; [lia|lia|done].
Qed.

Lemma codes_object (m : std_map json) :
  Z.of_nat (length m) ≤ object_max_size → map_wf m → Forall (λ kv, Z.of_nat (String.length kv.1) < 2 ^ 63) m →
  Forall (.≠ jdiscarded) m.*2 → Forall (λ kv, codes kv.2) m → codes (jobject m).
Proof.
  intros Hlen Hwf Hk Hnd Hm. pose proof object_max_size_small. destruct (type_layout m.*2 Hnd) as (type & Hlay & Hcount & Htb).
  set (bytes := write_all (member_bytes payload type) m).
  apply (coded _ (container_bytes type (Z.of_nat (length m)) bytes "}")); [| |simpl; lia].
  - intros add. cbn [write_ubjson]. rewrite Htb. cbn [obind].
    rewrite (write_each_all _ (member_bytes payload type)); [by apply count_written; [lia|]|].
    rewrite Forall_forall in *. intros kv Hkv. rewrite write_string_count by (by apply Hk).
    by rewrite marked_written by (by apply Hm).
  - intros fuel Hf. cbn [turns] in Hf. change (yields (get_ubjson_object (get_ubjson_value fuel) fuel)
      (container_bytes type (Z.of_nat (length m)) bytes "}") (ubjson_read (jobject m))).
    assert (Hel : Forall (member (get_ubjson_value fuel) fuel payload) m).
    { rewrite Forall_forall in *. intros kv Hkv.
      pose proof (list_sum_in (map (λ kv, String.length kv.1 + turns kv.2)%nat m) (String.length kv.1 + turns kv.2)
        (list_elem_of_fmap_2 (λ kv, String.length kv.1 + turns kv.2)%nat m kv Hkv)) as Hsum. split_and!; [by apply Hk|lia|].
      apply element_coded; [|by apply Hm|lia]. rewrite Forall_fmap, Forall_forall in Hnd. by apply Hnd. }
    unfold container_bytes, bytes. destruct use_count; [apply object_counted; [done|lia|lia|done|done]|].
    rewrite Hcount by done. apply object_open; [lia|lia|done|done].
Qed.

Lemma not_discarded v : valid_value v → v ≠ jdiscarded.
Proof. by intros [Hr _] ->. Qed.

Lemma value_codes v : storable v → signed_range v = true → codes v.
Proof.
  pose proof string_max_size_small.
  induction v as [|m IH|l IH|s|b|z|z|d|] using json_ind; intros Hv Hsr; pose proof Hv as [[Hrange Hwf] Hsized];
    cbn [numbers_in_range signed_range sized] in *.
  - apply (coded _ ""); [done| |simpl; lia]. intros fuel _. by apply yields_scalar.
  - destruct (sized_object _ _ _ m Hv) as (Hlen & Hm & Hall). rewrite Forall_forall in *. rewrite forallb_forall in Hsr.
    apply codes_object; [done|done|..]; rewrite Forall_forall; intros kv Hkv.
    + destruct (Hall kv Hkv) as [Hk _]. lia.
    + apply list_elem_of_fmap in Hkv as (kv' & -> & Hkv'). by apply not_discarded, (Hall kv').
    + apply IH; [done|by apply Hall|]. by apply Hsr, list_elem_of_In.
  - destruct (sized_array _ _ _ l Hv) as [Hlen Hall]. rewrite forallb_forall in Hsr. rewrite Forall_forall in *.
    apply codes_array; [done|..]; rewrite Forall_forall; intros v Hin.
    + by apply not_discarded, Hall.
    + apply IH; [done|by apply Hall|]. by apply Hsr, list_elem_of_In.
  - zify_cmp. apply codes_string. lia.
  - apply (coded _ ""); [by destruct b| |simpl; lia]. intros fuel _. destruct b; by apply yields_scalar.
  - zify_cmp. apply (codes_number _ z); [by left|lia].
  - zify_cmp. apply (codes_number _ z); [by right|lia].
  - by apply codes_float.
  - done.
Qed.

(** *** Numbers beyond 63 bits *)

Definition overflows (o : outcome exn string) : Prop := ∃ n, 2 ^ 63 ≤ n ∧ o = Throw (number_overflow n).

Lemma oapp_overflows a b : (∃ s, a = Ok s) → overflows b → overflows (oapp a b).
Proof. intros [s ->] (n & Hn & ->). by exists n. Qed.

Lemma overflows_oapp a b : overflows a → overflows (oapp a b).
Proof. intros (n & Hn & ->). by exists n. Qed.

(** The first element that cannot be written stops the writer. *)
Lemma each_overflows {A} (g : A → outcome exn string) (ok : A → bool) l :
  Forall (λ a, (ok a = true → ∃ s, g a = Ok s) ∧ (ok a = false → overflows (g a))) l →
  forallb ok l = false → overflows (write_each g l).
Proof.
  induction 1 as [|a l [Hok Hno] _ IH]; [done|]. simpl. destruct (ok a); intros Hl.
  - apply oapp_overflows; [by apply Hok|by apply IH].
  - by apply overflows_oapp, Hno.
Qed.

Lemma container_overflows add c vs n (each : bool → outcome exn string) stop :
  0 ≤ n < 2 ^ 63 → Forall (.≠ jdiscarded) vs → (∀ required, overflows (each required)) →
  overflows (oapp (prefixed add c "") (obind (container_type use_count use_type vs) (λ '(type, required),
    oapp (written type) (oapp (container_count use_count n) (oapp (each required) stop))))).
Proof.
  intros Hn Hvs Heach. destruct (type_layout vs Hvs) as (type & _ & _ & ->). cbn [obind].
  apply oapp_overflows; [by eexists|]. apply oapp_overflows; [by eexists|].
  apply oapp_overflows; [|by apply overflows_oapp]. unfold container_count.
  destruct use_count; [rewrite write_count by done|]; by eexists.
Qed.

Lemma codes_ok v : codes v → ∀ add, ∃ s, write_ubjson use_count use_type add v = Ok s.
Proof. intros [Hw _] add. rewrite Hw. by eexists. Qed.

Lemma value_overflows v add : storable v → signed_range v = false → overflows (write_ubjson use_count use_type add v).
Proof.
  revert add. pose proof string_max_size_small. pose proof array_max_size_small. pose proof object_max_size_small.
  induction v as [|m IH|l IH|s|b|z|z|d|] using json_ind; intros add Hv Hsr; try done; pose proof Hv as [[Hrange Hwf] Hsized];
    cbn [numbers_in_range signed_range sized write_ubjson] in *.
  - destruct (sized_object _ _ _ m Hv) as (Hlen & Hm & Hall). rewrite Forall_forall in *.
    apply (container_overflows _ _ _ _ (λ required, write_each (λ el, oapp (write_ubjson_string el.1)
      (write_ubjson use_count use_type required el.2)) m)); [lia|..].
    { rewrite Forall_fmap, Forall_forall. intros kv Hkv. by apply not_discarded, (Hall kv). }
    intros required. apply (each_overflows _ (λ kv, signed_range kv.2)); [|done]. rewrite Forall_forall. intros kv Hkv.
    destruct (Hall kv Hkv) as [Hk Hst]. rewrite write_string_count by lia. split; intros Hs.
    + destruct (codes_ok kv.2 (value_codes _ Hst Hs) required) as [s ->]. by eexists.
    + apply oapp_overflows; [by eexists|by apply IH].
  - destruct (sized_array _ _ _ l Hv) as [Hlen Hall]. rewrite Forall_forall in *.
    apply (container_overflows _ _ _ _ (λ required, write_each (write_ubjson use_count use_type required) l)); [lia|..].
    { rewrite Forall_forall. intros v Hin. by apply not_discarded, (Hall v). }
    intros required. apply (each_overflows _ signed_range); [|done]. rewrite Forall_forall. intros v Hin.
    split; intros Hs; [|by apply IH; [|apply Hall|]]. apply codes_ok, value_codes; [by apply Hall|done].
  - zify_cmp. exists z. split; [done|]. unfold write_unsigned. by rewrite !(proj2 (Z.leb_gt z _)) by lia.
Qed.
End writer.

(** *** From the input to the value *)

Lemma from_coded v uc ut fuel strict t :
  codes uc ut v → v ≠ jdiscarded → (turns v ≤ fuel)%nat → (0 < turns v)%nat → (strict = true → t = "") →
  from_ubjson fuel strict ((byte (mark (ubjson_prefix v)) +:+ payload uc ut v) +:+ t) = Ok (ubjson_read v).
Proof.
  intros [_ Hy] Hnd Hf Hpos Ht. rewrite byte_mark. set (input := _ +:+ t). unfold from_ubjson.
  assert (Hwp : wp (sax_parse_ubjson fuel strict ;; gets root) (reader_init input) (λ v' _, v' = ubjson_read v) no_exn).
  2:{ unfold wp in Hwp. destruct (bind _ _ _) as [[v'| | |] p']; try done. simpl. by rewrite Hwp. }
  unfold sax_parse_ubjson, parse_ubjson_internal. do 2 wp_step.
  eapply wp_mono; [apply (yields_marked fuel (get_ubjson_value fuel) (ubjson_prefix v) (payload uc ut v) (ubjson_read v));
    [lia| |by apply Hy|done|]| |done].
  { destruct (prefix_plain v Hnd) as (Hpl & _). unfold plain in Hpl. set_solver. }
  { reflexivity. }
  intros _ p [Hd Hr]. cbv beta. unfold delivers in Hd. injection Hd as Hroot _.
  destruct strict; cbv iota; [|do 2 wp_step; congruence]. rewrite Ht in Hr by done. wp_step.
  destruct fuel as [|fuel]; [lia|]. cbn [get_ignore_noop]. wp_step.
  apply wp_br_get; [intros c s p' E; congruence|]. intros p' _ _ Hl [Hroot' _]. cbv beta.
  change (eof =? mark "N") with false. cbv iota. wp_step. rewrite Z.eqb_refl. cbn [negb]. do 2 wp_step. congruence.
Qed.

Lemma turns_pos v : (0 < turns v)%nat.
Proof. destruct v; simpl; lia. Qed.
End correct.

(** C13: UBJSON round trip: with any combination of counts and types that the
    writer supports, a value whose unsigned numbers fit in 63 bits is written
    and read back in full, integers as [ubjson_number] types them, whatever
    follows when [strict] is off; a value with a larger number is not
    written at all but makes the writer throw [out_of_range] 407. *)
Theorem ubjson_roundtrip `{MachineSpec} use_count use_type v :
  (use_type = true → use_count = true) → storable v →
  (signed_range v = true → ∃ s, to_ubjson use_count use_type v = Ok s ∧
     ∀ fuel t, (turns v ≤ fuel)%nat →
       from_ubjson fuel true s = Ok (ubjson_read v) ∧ from_ubjson fuel false (s +:+ t) = Ok (ubjson_read v)) ∧
  (signed_range v = false → ∃ n, 2 ^ 63 ≤ n ∧ to_ubjson use_count use_type v = Throw (number_overflow n)).
Proof.
  intros Htype Hv. split; intros Hs; [|by apply value_overflows].
  pose proof (value_codes use_count use_type Htype v Hv Hs) as Hc. pose proof Hc as [Hw _]. eexists. split; [apply (Hw true)|].
  intros fuel t Hf. pose proof (turns_pos v). assert (Hnd : v ≠ jdiscarded) by (by apply not_discarded, Hv).
  split; [|by apply from_coded]. rewrite <-(append_nil_r (_ +:+ _)). by apply from_coded.
Qed.

Lemma ubjson_sample_storable : storable (H := x86_64) ubjson_sample.
Proof.
  split; [|vm_compute; reflexivity]. split; [vm_compute; reflexivity|].
  repeat first [constructor | apply map_wf_cons].
Qed.

Lemma ubjson_roundtrip_witness :
  ∃ s, to_ubjson (H := x86_64) true true ubjson_sample = Ok s ∧
    from_ubjson (H := x86_64) 50 true s = Ok (ubjson_read ubjson_sample).
Proof.
  destruct (ubjson_roundtrip (H := x86_64) true true ubjson_sample) as [Hok _]; [done|apply ubjson_sample_storable|].
  destruct Hok as (s & Hs & Hback); [reflexivity|]. exists s. split; [done|].
  apply (Hback 50%nat ""). vm_compute. lia.
Defined.
