(* ===== verification/UbjsonTotal.v ===== *)
(** * UBJSON: every input

    Reading ends on every input: a value consumes bytes, or an announced number
    of elements within the limit of arrays bounds the turns, or the end of the
    input raises an error. *)

From stdpp Require Import base gmap strings list.
From Stdlib Require Import ZArith Ascii Lia.
From S2P Require Import Prelude Cxx StdMap JsonValue JsonSax JsonBinary BinaryReader BinaryFormat Ubjson.

Section total.
Context `{Machine}.

(** ** No-ops, numbers and strings *)

Lemma noop_total fuel p (Q : Z → reader → Prop) X :
  (left p < fuel)%nat →
  (∀ c p', same p p' → last_token p' = c → (c = eof ∧ left p' = 0%nat) ∨ (0 ≤ c < 256 ∧ (left p' < left p)%nat) → Q c p') →
  wp (get_ignore_noop fuel) p Q X.
Proof.
  revert p. induction fuel as [|fuel IH]; intros p Hf HQ; [lia|]. cbn [get_ignore_noop]. wp_step. apply wp_br_get.
  - intros c s p1 E E1 Hl1 Hs1. assert (Hleft : S (left p1) = left p) by (unfold left; by rewrite E, E1).
    destruct (byte_of c =? mark "N"); [|wp_step; apply HQ; [done|done|right; split; [apply byte_of_range|lia]]].
    apply IH; [lia|]. intros c' p' Hs Hl Hc. apply HQ; [by eapply same_trans|done|]. destruct Hc as [?|[? ?]]; [by left|right; split; [done|lia]].
  - intros p1 E E1 Hl1 Hs1. change (eof =? mark "N") with false. cbv iota. wp_step. apply HQ; [done|done|left]. unfold left. by rewrite E1.
Qed.

(** An integer type, whatever its value: some bytes are consumed. *)
Lemma integer_total c g p (Q : Z → reader → Prop) :
  ubjson_integer c = Some g → (∀ n p', same p p' → (left p' < left p)%nat → Q n p') → wp g p Q XB.
Proof.
  intros Hg HQ. unfold ubjson_integer in Hg. repeat case_match; simplify_eq; try wp_step;
    (apply wp_get_number; intros n p' _ Hs Hl); try wp_step; (apply HQ; [done|lia]).
Qed.

Lemma ubjson_key_total fuel get_char p :
  (left p < fuel)%nat → wp (get_ubjson_string fuel get_char) p (λ _ p', same p p' ∧ (left p' < left p)%nat) XB.
Proof.
  intros Hf. unfold get_ubjson_string. wp_step.
  assert (Hget : wp (if get_char then get ;; ret tt else ret tt) p (λ _ p1, same p p1 ∧ (left p1 ≤ left p)%nat) XB).
  { destruct get_char; [|by wp_step]. wp_step. apply wp_br_get.
    - intros c s p1 E E1 _ Hs1. wp_step. split; [done|]. unfold left. rewrite E, E1. simpl. lia.
    - intros p1 E E1 _ Hs1. wp_step. split; [done|]. unfold left. rewrite E1. simpl. lia. }
  eapply wp_mono; [exact Hget| |done]. intros _ p1 [Hs1 Hl1]. cbv beta. wp_step. apply wp_unexpect_eof. intros _. do 2 wp_step.
  destruct (ubjson_integer (last_token p1)) as [g|] eqn:Eg; [|apply wp_binary_error; set_solver]. wp_step.
  eapply integer_total; [exact Eg|]. intros n p2 Hs2 Hl2. apply wp_read_string; [lia|]. intros s p' Hs' Hl'.
  split; [|lia]. eauto using same_trans.
Qed.

Lemma size_value_total fuel p :
  (left p < fuel)%nat →
  wp (get_ubjson_size_value fuel) p (λ n p', same p p' ∧ (left p' < left p)%nat) XB.
Proof.
  intros Hf. unfold get_ubjson_size_value. wp_step. apply noop_total; [done|]. intros c p1 Hs1 Hl1 Hc.
  destruct (ubjson_integer c) as [g|] eqn:Eg; [|apply wp_binary_error; set_solver]. wp_step.
  eapply integer_total; [exact Eg|]. intros n p2 Hs2 Hl2. wp_step. split; [by eapply same_trans|lia].
Qed.

(** A size has consumed bytes; without one a byte was consumed or there is none. *)
Lemma size_type_total fuel p :
  (left p < fuel)%nat →
  wp (get_ubjson_size_type fuel) p (λ st p', same p p' ∧ (left p' < left p ∨ left p' = 0%nat ∧ last_token p' = eof)%nat
    ∧ (st.1 ≠ npos → st.2 ≠ eof ∧ (left p' < left p)%nat)) XB.
Proof.
  intros Hf. unfold get_ubjson_size_type. wp_step. apply noop_total; [done|]. intros c p1 Hs1 Hl1 Hc.
  destruct (c =? mark "$"); [|destruct (c =? mark "#")].
  - wp_step. apply wp_br_get.
    2:{ intros p2 E E2 Hl2 Hs2. wp_step. apply wp_unexpect_eof. by rewrite Hl2. }
    intros type s p2 E E2 Hl2 Hs2. assert (Hleft : S (left p2) = left p1) by (unfold left; by rewrite E, E2).
    wp_step. apply wp_unexpect_eof. intros Hne. wp_step. apply noop_total; [lia|]. intros c3 p3 Hs3 Hl3 Hc3.
    case_match; [wp_step; apply wp_unexpect_eof; intros _; apply wp_binary_error; set_solver|]. wp_step.
    eapply wp_mono; [apply size_value_total; lia| |done]. intros size p' [Hs' Hl']. cbv beta. wp_step.
    split_and!; [eauto using same_trans|lia|]. intros _. split; [by rewrite <-Hl2|simpl; lia].
  - wp_step. eapply wp_mono; [apply size_value_total; lia| |done]. intros size p' [Hs' Hl']. cbv beta. wp_step.
    split_and!; [by eapply same_trans|lia|]. intros _. split; [done|simpl; lia].
  - wp_step. split_and!; [done| |done]. rewrite Hl1. destruct Hc as [[-> ?]|[? ?]]; [right|left]; done.
Qed.

(** ** Loops *)

Section loops.
Context (I : reader → Prop) (body : RM unit).
Context (Hbody : ∀ p, I p → last_token p ≠ eof → wp body p (λ _ p', I p' ∧ (left p' ≤ left p)%nat) XB).

(** As many turns as announced. *)
Lemma for_total fuel len p :
  (∀ p, I p → wp body p (λ _ p', I p' ∧ (left p' ≤ left p)%nat) XB) →
  (Z.to_nat len < fuel)%nat → I p → wp (for_len fuel len body) p (λ _ p', I p' ∧ (left p' ≤ left p)%nat) XB.
Proof.
  intros Hany. clear Hbody. revert len p. induction fuel as [|fuel IH]; intros len p Hf Hp; [lia|]. cbn [for_len].
  destruct (len <=? 0) eqn:E; [by wp_step|]. zify_cmp. wp_step. eapply wp_mono; [by apply Hany| |done].
  intros _ p1 [Hp1 Hl1]. cbv beta. eapply wp_mono; [apply IH; [lia|done]| |done].
  intros _ p' [Hp' Hl']. split; [done|lia].
Qed.

Context (Hsame : ∀ p p', I p → same p p' → (left p' ≤ left p)%nat → I p').
Context (Heof : ∀ p, I p → last_token p = eof → wp body p (λ _ _, False) XB).

(** A byte between two turns, or the end of the input. *)
Lemma until_total fuel stop p :
  0 ≤ stop → I p → (left p + 2 ≤ fuel ∨ last_token p = eof ∧ 1 ≤ fuel)%nat →
  wp (until fuel stop body) p (λ _ p', I p' ∧ (left p' ≤ left p)%nat) XB.
Proof.
  intros Hstop. revert p. induction fuel as [|fuel IH]; intros p Hp Hf; [lia|]. cbn [until]. do 2 wp_step.
  destruct (last_token p =? stop) eqn:E; [by wp_step|]. wp_step. destruct (decide (last_token p = eof)) as [He|Hne].
  { eapply wp_mono; [by apply Heof| |done]. by intros ? ? []. }
  destruct Hf as [Hf|[? _]]; [|done]. eapply wp_mono; [by apply Hbody| |done]. intros _ p1 [Hp1 Hl1]. cbv beta. wp_step.
  apply noop_total; [lia|]. intros c p2 Hs2 Hl2 Hc.
  assert (Hle : (left p2 ≤ left p1)%nat) by lia.
  eapply wp_mono; [apply IH; [by eapply Hsame|]| |done].
  - destruct Hc as [[-> _]|[_ Hlt]]; [right; split; [done|lia]|left; lia].
  - intros _ p' [Hp' Hl']. split; [done|lia].
Qed.
End loops.

(** ** Containers *)

(** [value] reads values while fewer than [n] bytes are left, and fails at the
    end of the input. *)
Definition value_total (value : Z → RM unit) (n : nat) : Prop :=
  (∀ p : reader, last_token p = eof → wp (value eof) p (λ _ _, False) XB) ∧
  (∀ c (p : reader), c ≠ eof → receives (ref_stack p) → (left p < n)%nat → wp (value c) p (λ _, some_value p) XB).

Lemma item_kept (m : RM unit) r st p :
  in_array r st p → (receives (ref_stack p) → wp m p (λ _, some_value p) XB) →
  wp m p (λ _ p', in_array r st p' ∧ (left p' ≤ left p)%nat) XB.
Proof.
  intros (items & Hitems & Hroot & Hst) Hm. eapply wp_mono; [apply Hm; by rewrite Hst| |done].
  intros _ p' (v & Hv & Hd & Hle). split; [|done]. unfold delivers in Hd. rewrite Hst in Hd. simpl in Hd.
  injection Hd as Hroot' Hst'. exists (items ++ [v]). split_and!; [|congruence|done].
  apply Forall_app. by split; [|constructor].
Qed.

Lemma marked_total value n fuel p :
  value_total value n → receives (ref_stack p) → (left p ≤ n)%nat → (n < fuel)%nat →
  wp (c <- get_ignore_noop fuel ;; value c) p (λ _, some_value p) XB.
Proof.
  intros [He Hv] Hr Hl Hf. wp_step. apply noop_total; [lia|]. intros c p1 Hs1 Htok [[-> _]|[Hc Hlt]].
  - eapply wp_mono; [by apply He| |done]. by intros ? ? [].
  - eapply wp_mono; [apply Hv; [unfold eof; lia|by destruct Hs1 as [_ ->]|lia]| |done].
    intros u p' Hp'. eapply same_some; [done|lia|done].
Qed.

Lemma start_unlimited : (sax_start_array : RM unit) = start_array no_limit ∧ (sax_start_object : RM unit) = start_object no_limit.
Proof. split; reflexivity. Qed.

(** A member: its key consumes bytes. *)
Lemma member_kept get_char value fuel r st (p : reader) :
  in_object r st p → (left p < fuel)%nat →
  (∀ p1 : reader, receives (ref_stack p1) → (left p1 < left p)%nat → wp value p1 (λ _, some_value p1) XB) →
  wp (get_member (get_ubjson_string fuel get_char) value) p (λ _ p', in_object r st p' ∧ (left p' < left p)%nat) XB.
Proof.
  intros (mm & el & Hwf & Hmm & Hroot & Hst) Hf Hv. unfold get_member. wp_step.
  eapply wp_mono; [by apply ubjson_key_total| |done]. intros k p1 [[Hroot1 Hst1] Hl1]. cbv beta. wp_step.
  set (mk := if map_mem k mm then mm else map_put k jnull mm).
  apply (wp_run _ _ _ _ tt (with_sax (root p1) (Fobject mk (Some k) :: st) p1)).
  { unfold sax_key. by rewrite Hst1, Hst. }
  eapply wp_mono; [apply Hv; [done|done]| |done]. intros _ p' (v & Hvv & Hd & Hle). unfold delivers in Hd. simpl in Hd.
  injection Hd as Hroot' Hst'. split; [|unfold left in *; simpl in *; lia]. exists (map_put k v mk), (Some k).
  assert (Hmk : map_wf mk) by (unfold mk; case_match; [done|by apply map_put_wf]).
  split_and!; [by apply map_put_wf| |congruence|done]. apply put_valid; [done|].
  unfold mk. case_match; [done|]. by apply put_valid; [apply valid_null|].
Qed.

Lemma in_array_same r st p p' : same p p' → in_array r st p → in_array r st p'.
Proof. intros [Hroot Hst] (items & Hi & Hr & Hs). exists items. split_and!; [done|congruence|congruence]. Qed.

(** At the end of the input a loop fails. *)
Lemma until_eof fuel stop body (p : reader) (Q : unit → reader → Prop) :
  0 ≤ stop → (0 < fuel)%nat → last_token p = eof → wp body p (λ _ _, False) XB → wp (until fuel stop body) p Q XB.
Proof.
  intros Hstop Hf He Hb. destruct fuel as [|fuel]; [lia|]. cbn [until]. do 2 wp_step.
  rewrite (proj2 (Z.eqb_neq _ _)) by (rewrite He; unfold eof; lia). wp_step. eapply wp_mono; [exact Hb| |done]. by intros ? ? [].
Qed.

Lemma string_eof fuel value (p : reader) :
  last_token p = eof → wp (get_member (get_ubjson_string fuel false) value) p (λ _ _, False) XB.
Proof.
  intros He. unfold get_member, get_ubjson_string. cbv iota. do 4 wp_step. apply wp_unexpect_eof. by rewrite He.
Qed.

Lemma items_total value n r st fuel p :
  value_total value n → in_array r st p → (left p < n ∨ last_token p = eof)%nat → (n < fuel)%nat →
  wp (until fuel (mark "]") (c <- gets last_token ;; value c)) p (λ _ p', in_array r st p' ∧ (left p' ≤ left p)%nat) XB.
Proof.
  intros [He Hv] Hin Hl Hf. assert (Heof : ∀ p : reader, last_token p = eof → wp (c <- gets last_token ;; value c) p (λ _ _, False) XB).
  { intros p1 He1. do 2 wp_step. rewrite He1. by apply He. }
  destruct Hl as [Hl|Hl]; [|apply until_eof; [done|lia|done|by apply Heof]].
  eapply wp_mono; [apply (until_total (λ p, in_array r st p ∧ (left p < n)%nat)); [| | |done|done|lia]| |done].
  - intros p1 [Hin1 Hl1] Hne. do 2 wp_step. eapply wp_mono; [apply item_kept; [exact Hin1|by intros; apply Hv]| |done].
    intros _ p' [Hin' Hle]. split; [split; [done|lia]|done].
  - intros p1 p2 [Hin1 Hl1] Hs Hle. split; [by eapply in_array_same|lia].
  - intros p1 _. apply Heof.
  - intros _ p' [[Hin' _] Hle]. done.
Qed.

Lemma members_total value n r st fuel p :
  value_total value n → in_object r st p → (left p < n ∨ last_token p = eof)%nat → (n < fuel)%nat →
  wp (until fuel (mark "}") (get_member (get_ubjson_string fuel false) (c <- get_ignore_noop fuel ;; value c))) p
    (λ _ p', in_object r st p' ∧ (left p' ≤ left p)%nat) XB.
Proof.
  intros Hv Hin Hl Hf. destruct Hl as [Hl|Hl]; [|apply until_eof; [done|lia|done|by apply string_eof]].
  eapply wp_mono; [apply (until_total (λ p, in_object r st p ∧ (left p < n)%nat)); [| | |done|done|lia]| |done].
  - intros p1 [Hin1 Hl1] Hne. eapply wp_mono; [apply member_kept; [exact Hin1|lia|]| |done].
    + intros p2 Hr2 Hl2. apply (marked_total value n); [done|done|lia|lia].
    + intros _ p' [Hin' Hle]. split; [split; [done|lia]|lia].
  - intros p1 p2 [Hin1 Hl1] Hs Hle. split; [by eapply in_object_same|lia].
  - intros p1 _. apply string_eof.
  - intros _ p' [[Hin' _] Hle]. done.
Qed.

Section containers.
Context (value : Z → RM unit) (n fuel : nat).
Context (Hv : value_total value n) (Hn : (n < fuel)%nat) (Hmax : (Z.to_nat array_max_size < fuel)%nat).

Lemma array_ok p :
  receives (ref_stack p) → (left p ≤ n)%nat → wp (get_ubjson_array value fuel) p (λ _, some_value p) XB.
Proof.
  intros Hr Hl. unfold get_ubjson_array. wp_step. eapply wp_mono; [apply size_type_total; lia| |done].
  intros [size type] p1 (Hs1 & Hl1 & Hsize). cbv beta iota. cbn [fst snd] in Hsize.
  assert (Hr1 : receives (ref_stack p1)) by (by destruct Hs1 as [_ ->]).
  destruct (size =? npos) eqn:E; zify_cmp; cbn [negb]; cbv iota; rewrite ?(proj1 start_unlimited);
    (eapply wp_mono; [apply array_total_len; [done|]| |done]; [|intros u p' Hp'; eapply same_some; [done|lia|done]]).
  - intros _ p2 Hin Hl2 Ht2. apply (items_total value n); [done|done| |done]. rewrite Ht2, Hl2. destruct Hl1 as [Hl1|[_ Hl1]]; [left; lia|by right].
  - intros Hlen p2 Hin Hl2 _. destruct (Hsize E) as [Htype Hlt]. destruct Hlen as [->|Hlen]; [done|].
    destruct (negb (type =? 0)); [destruct (negb (type =? mark "N")); [|by wp_step]|].
    all: eapply wp_mono; [apply (for_total (λ p, in_array (root p1) (ref_stack p1) p ∧ (left p < n)%nat)); [|lia|split; [done|lia]]| |done];
      [|intros _ p' [[? _] ?]; done].
    all: intros p3 [Hin3 Hl3]; (eapply wp_mono; [apply item_kept; [exact Hin3|intros Hr3]| |done]);
      [|intros _ p' [Hin' Hl']; split; [split; [done|lia]|done]].
    + by apply Hv.
    + apply (marked_total value n); [done|done|lia|lia].
Qed.

Lemma object_ok p :
  receives (ref_stack p) → (left p ≤ n)%nat → wp (get_ubjson_object value fuel) p (λ _, some_value p) XB.
Proof.
  intros Hr Hl. unfold get_ubjson_object. wp_step. eapply wp_mono; [apply size_type_total; lia| |done].
  intros [size type] p1 (Hs1 & Hl1 & Hsize). cbv beta iota. cbn [fst snd] in Hsize.
  assert (Hr1 : receives (ref_stack p1)) by (by destruct Hs1 as [_ ->]).
  destruct (size =? npos) eqn:E; zify_cmp; cbn [negb]; cbv iota; rewrite ?(proj2 start_unlimited);
    (eapply wp_mono; [apply object_total_len; [done|]| |done]; [|intros u p' Hp'; eapply same_some; [done|lia|done]]).
  - intros p2 Hin Hl2 Ht2. apply (members_total value n); [done|done| |done]. rewrite Ht2, Hl2. destruct Hl1 as [Hl1|[_ Hl1]]; [left; lia|by right].
  - intros p2 Hin Hl2 _. destruct (Hsize E) as [Htype Hlt].
    destruct (negb (type =? 0)).
    all: eapply wp_mono; [apply (wp_for_len _ _ _ (λ p, in_object (root p1) (ref_stack p1) p ∧ (left p < n)%nat)); [|split; [done|lia]|lia]| |done];
      [|intros _ p' [[? _] ?]; done].
    all: intros p3 [Hin3 Hl3]; (eapply wp_mono; [apply member_kept; [exact Hin3|lia|intros p4 Hr4 Hl4]| |done]);
      [|intros _ p' [Hin' Hl']; split; [split; [done|lia]|done]].
    + apply Hv; [done|done|lia].
    + apply (marked_total value n); [done|done|lia|lia].
Qed.
End containers.

(** ** Values *)

Lemma char_ok p : receives (ref_stack p) → wp get_ubjson_char p (λ _, some_value p) XB.
Proof.
  intros Hr. unfold get_ubjson_char. apply wp_byte. intros c p1 Hc _ Hs1 Hl1.
  case_match; [apply wp_binary_error; set_solver|]. apply deliver_scalar; [by destruct Hs1 as [_ ->]|apply valid_string|].
  intros p' Hp'. eapply same_some; [done|lia|done].
Qed.

Lemma string_ok fuel p :
  receives (ref_stack p) → (left p < fuel)%nat →
  wp (s <- get_ubjson_string fuel true ;; handle_value (jstring s)) p (λ _, some_value p) XB.
Proof.
  intros Hr Hf. wp_step. eapply wp_mono; [by apply ubjson_key_total| |done]. intros s p1 [Hs1 Hl1]. cbv beta.
  apply deliver_scalar; [by destruct Hs1 as [_ ->]|apply valid_string|]. intros p' Hp'. eapply same_some; [done|lia|done].
Qed.

Lemma value_ok n fuel :
  (n < fuel)%nat → (Z.to_nat array_max_size + n < fuel)%nat → value_total (get_ubjson_value fuel) n.
Proof.
  revert n. induction fuel as [|fuel IH]; intros n Hn Hmax; [lia|]. split.
  { intros p He. cbn [get_ubjson_value]. rewrite Z.eqb_refl. apply wp_unexpect_eof. by rewrite He. }
  intros c p Hc Hr Hl. destruct n as [|n]; [lia|]. specialize (IH n ltac:(lia) ltac:(lia)).
  cbn [get_ubjson_value]. rewrite (proj2 (Z.eqb_neq _ _)) by done.
  repeat case_match.
  all: try (apply deliver_number; [done| |done]; intros x Hx).
  all: try (apply deliver_scalar; [done| |done]).
  all: auto with valid.
  all: try (apply valid_integer; match goal with |- context [wrap_signed ?w ?y] =>
    pose proof (wrap_signed_range w y ltac:(lia)) end; lia).
  - apply valid_unsigned. lia.
  - by apply char_ok.
  - apply string_ok; [done|lia].
  - apply (array_ok _ n); [done|lia|lia|done|lia].
  - apply (object_ok _ n); [done|lia|lia|done|lia].
  - apply wp_binary_error. set_solver.
Qed.
End total.

(** Turns enough for any input: its bytes, and the largest array. *)
Definition ubjson_fuel `{Machine} (input : string) : nat := Z.to_nat array_max_size + String.length input + 2.

(** [from_ubjson] is total: on any bytes it ends, within as many turns as
    the input is long or the largest array has elements, and returns a value
    whose numbers are in range and whose objects are sorted, or throws
    [parse_error] 110, 112 or 113 or [out_of_range] 408. *)
Theorem from_ubjson_total `{Machine} strict input fuel :
  (ubjson_fuel input ≤ fuel)%nat →
  (∃ v, from_ubjson fuel strict input = Ok v ∧ valid_value v)
  ∨ (∃ e, from_ubjson fuel strict input = Throw e ∧ binary_exn e).
Proof.
  intros Hf. unfold ubjson_fuel in Hf. unfold from_ubjson.
  assert (Hwp : wp (sax_parse_ubjson fuel strict ;; gets root) (reader_init input) (λ v _, valid_value v) XB).
  2:{ apply wp_inv in Hwp as [(v & p & -> & Hv)|(e & p & -> & He)]; eauto. }
  unfold sax_parse_ubjson, parse_ubjson_internal. do 2 wp_step.
  eapply wp_mono; [apply (marked_total (get_ubjson_value fuel) (String.length input)); [|done|done|lia]| |done].
  { apply value_ok; lia. }
  intros _ p (v & Hv & Hd & Hl). cbv beta. unfold delivers in Hd. injection Hd as Hroot _.
  destruct strict; cbv iota; [|do 2 wp_step; congruence]. wp_step.
  apply noop_total; [unfold left in Hl |- *; simpl in Hl; lia|]. intros c p' [Hroot' _] _ _.
  destruct (negb (c =? eof)); [apply wp_binary_error; by left|]. do 2 wp_step. congruence.
Qed.
