(* ===== verification/JsonSaxParser.v ===== *)
(** * The parser and its handlers (json.hpp, [class json_sax], [class parser])

    [JsonParser] is the parser with the calls of the handler that builds values
    resolved.  Here it drives any handler that implements [json_sax]: the
    handler that builds values, with and without exceptions, and the acceptor.
    What the parser tells a handler does not depend on the handler: it is the
    sequence of events that a recorder keeps. *)

From stdpp Require Import base gmap strings list.
From Stdlib Require Import ZArith Ascii Lia.
From S2P Require Import Prelude Cxx StdMap JsonValue JsonLexer JsonSax JsonParser JsonLexerSpec JsonParserSpec JsonBinary BinaryReader.

(** ** Handlers *)

(** The calls of a handler; [start_object] and [start_array] are told a length. *)
Inductive sax_event : Type :=
| ev_null
| ev_boolean (val : bool)
| ev_number_integer (val : Z)
| ev_number_unsigned (val : Z)
| ev_number_float (val : double) (s : string)
| ev_string (val : string)
| ev_start_object (len : Z)
| ev_key (val : string)
| ev_end_object
| ev_start_array (len : Z)
| ev_end_array.

(** [class json_sax]: a handler answers whether to go on. *)
Class SaxHandler (H : Type) : Type := {
  on_event : sax_event → M exn H bool;
  on_parse_error : exn → M exn H bool;
}.

(** The parser with its handler. *)
Record driver (H : Type) : Type := Driver {
  drv_token : token_type;
  drv_lexer : lexer;
  drv_sax : H;
}.
Arguments Driver {H} drv_token drv_lexer drv_sax.
Arguments drv_token {H} d.
Arguments drv_lexer {H} d.
Arguments drv_sax {H} d.

(** ** The parser *)

(** A computation may [return] from the parser. *)
Definition rbind {S A B} (stop : bool → B) (m : M exn S (bool + A)) (k : A → M exn S B) : M exn S B :=
  bind m (λ r, match r with inl b => ret (stop b) | inr a => k a end).

Notation "x <~ m ;; k" := (rbind inl m (λ x, k)) (at level 100, m at next level, right associativity) : cxx_scope.

Section parser.
Context {H : Type} {handler : SaxHandler H}.

Definition with_handler (s : H) (p : driver H) : driver H := Driver (drv_token p) (drv_lexer p) s.

(** [if (not sax->e) return false]. *)
Definition emit (e : sax_event) : M exn (driver H) (bool + unit) :=
  b <- zoom drv_sax with_handler (on_event e) ;; ret (if b then inr tt else inl false).

(** [return sax->parse_error(ex)]. *)
Definition report {A} (ex : exn) : M exn (driver H) (bool + A) :=
  b <- zoom drv_sax with_handler (on_parse_error ex) ;; ret (inl b).

(** The last token and the lexer. *)
Definition look : M exn (driver H) (bool + (token_type * lexer)) := gets (λ p, inr (drv_token p, drv_lexer p)).

Definition drv_get_token : M exn (driver H) token_type :=
  t <- zoom drv_lexer (λ l p, Driver (drv_token p) l (drv_sax p)) scan ;;
  modify (λ p, Driver t (drv_lexer p) (drv_sax p)) ;;
  ret t.

Definition next_token : M exn (driver H) (bool + token_type) := t <- drv_get_token ;; ret (inr t).

Definition report_syntax {A} (expected : token_type) : M exn (driver H) (bool + A) :=
  l <~ look ;; report (parse_error_create 101 (get_position l.2) (exception_message l.1 l.2 expected)).

Definition drv_parse_key : M exn (driver H) (bool + unit) :=
  l <~ look ;;
  if decide (l.1 ≠ value_string) then report_syntax value_string else
  _ <~ emit (ev_key (token_buffer l.2)) ;;
  t <~ next_token ;;
  if decide (t ≠ name_separator) then report_syntax name_separator else ret (inr tt).

(** An event for a whole value. *)
Definition emit_value (e : sax_event) : M exn (driver H) (bool + option (list bool)) :=
  _ <~ emit e ;; ret (inr None).

(** The [switch] on [last_token], as in [JsonParser.parse_value]. *)
Definition drv_parse_value (states : list bool) : M exn (driver H) (bool + option (list bool)) :=
  l <~ look ;;
  match l.1 with
  | begin_object =>
      _ <~ emit (ev_start_object no_limit) ;;
      t <~ next_token ;;
      if decide (t = end_object) then emit_value ev_end_object else
      _ <~ drv_parse_key ;;
      _ <~ next_token ;;
      ret (inr (Some (false :: states)))
  | begin_array =>
      _ <~ emit (ev_start_array no_limit) ;;
      t <~ next_token ;;
      if decide (t = end_array) then emit_value ev_end_array else
      ret (inr (Some (true :: states)))
  | value_float =>
      let res := lx_float l.2 in
      if negb (isfinite res) then
        report (exception_create out_of_range 406
          ("number overflow parsing '" +:+ JsonLexer.get_token_string (token_string l.2) +:+ "'"))
      else emit_value (ev_number_float res (token_buffer l.2))
  | literal_false => emit_value (ev_boolean false)
  | literal_null => emit_value ev_null
  | literal_true => emit_value (ev_boolean true)
  | value_integer => emit_value (ev_number_integer (lx_integer l.2))
  | value_string => emit_value (ev_string (token_buffer l.2))
  | value_unsigned => emit_value (ev_number_unsigned (lx_unsigned l.2))
  | tok_parse_error => report_syntax uninitialized
  | _ => report_syntax literal_or_value
  end.

(** What follows a complete value: the states and whether to skip the switch. *)
Definition drv_evaluate_state (states : list bool) : M exn (driver H) (bool + (list bool * bool)) :=
  match states with
  | [] => ret (inl true)
  | true :: rest =>
      t <~ next_token ;;
      if decide (t = value_separator) then _ <~ next_token ;; ret (inr (states, false))
      else if decide (t = end_array) then _ <~ emit ev_end_array ;; ret (inr (rest, true))
      else report_syntax end_array
  | false :: rest =>
      t <~ next_token ;;
      if decide (t = value_separator) then
        _ <~ next_token ;; _ <~ drv_parse_key ;; _ <~ next_token ;; ret (inr (states, false))
      else if decide (t = end_object) then _ <~ emit ev_end_object ;; ret (inr (rest, true))
      else report_syntax end_object
  end.

Fixpoint drv_parse_internal (fuel : nat) (states : list bool) (skip : bool) : M exn (driver H) bool :=
  match fuel with
  | O => out_of_fuel
  | S fuel =>
      rbind id (if skip then ret (inr None) else drv_parse_value states) (λ r,
      match r with
      | Some states => drv_parse_internal fuel states false
      | None =>
          rbind id (drv_evaluate_state states) (λ '(states, skip), drv_parse_internal fuel states skip)
      end)
  end.

(** The constructor of the parser reads the first token. *)
Definition drv_init (input : string) (s : H) : driver H := Driver uninitialized (lexer_init input) s.

(** [sax_parse(sax, strict = true)]. *)
Definition drv_sax_parse (fuel : nat) : M exn (driver H) bool :=
  drv_get_token ;;
  result <- drv_parse_internal fuel [] false ;;
  if negb result then ret false else
  t <- drv_get_token ;;
  if decide (t ≠ end_of_input) then rbind id (report_syntax (A := bool) end_of_input) ret else ret true.

(** The calls of a handler one after the other, until one says stop. *)
Fixpoint run_events (es : list sax_event) : M exn H bool :=
  match es with
  | [] => ret true
  | e :: es => b <- on_event e ;; if (b : bool) then run_events es else ret false
  end.
End parser.

(** ** Three handlers *)

Definition recorder : SaxHandler (list sax_event) := {|
  on_event e := modify (λ es, es ++ [e]) ;; ret true;
  on_parse_error ex := throw ex;
|}.

(** [class json_sax_acceptor]. *)
Definition acceptor : SaxHandler unit := {|
  on_event _ := ret true;
  on_parse_error _ := ret false;
|}.

(** [class json_sax_dom_parser]: the value under construction, and whether a
    syntax error occurred. *)
Record dom_state : Type := DomState {
  dom_value : sax_state unit unit;
  dom_errored : bool;
}.

Definition build_value `{Machine} {T L} (e : sax_event) : M exn (sax_state T L) unit :=
  match e with
  | ev_null => handle_value jnull
  | ev_boolean val => handle_value (jboolean val)
  | ev_number_integer val => handle_value (jnumber_integer val)
  | ev_number_unsigned val => handle_value (jnumber_unsigned val)
  | ev_number_float val _ => handle_value (jnumber_float val)
  | ev_string val => handle_value (jstring val)
  | ev_start_object len => start_object len
  | ev_key val => sax_key val
  | ev_end_object => sax_end_object
  | ev_start_array len => start_array len
  | ev_end_array => sax_end_array
  end.

Definition dom_handler `{Machine} (allow_exceptions : bool) : SaxHandler dom_state := {|
  on_event e := zoom dom_value (λ v s, DomState v (dom_errored s)) (build_value e) ;; ret true;
  on_parse_error ex :=
    modify (λ s, DomState (dom_value s) true) ;;
    if allow_exceptions then throw ex else ret false;
|}.

(** ** Parsing a text *)

(** [json::accept(input)]. *)
Definition json_accept (input : string) : outcome exn bool :=
  (drv_sax_parse (handler := acceptor) (parse_fuel input) (drv_init input tt)).1.

(** [parser::parse(strict = true)] with a handler that keeps [errored]: after
    an error the next token is read all the same. *)
Definition drv_parse {H} (handler : SaxHandler H) (fuel : nat) : M exn (driver H) unit :=
  drv_get_token ;;
  drv_parse_internal (handler := handler) fuel [] false ;;
  t <- drv_get_token ;;
  if decide (t ≠ end_of_input)
  then rbind (λ _, tt) (report_syntax (handler := handler) (A := unit) end_of_input) ret
  else ret tt.

(** [json::parse(input, nullptr, allow_exceptions)]. *)
Definition json_parse_exceptions `{Machine} (allow_exceptions : bool) (input : string) : outcome exn json :=
  let '(o, p) := drv_parse (dom_handler allow_exceptions) (parse_fuel input)
                   (drv_init input (DomState (Dom tt tt jnull []) false)) in
  obind o (λ _, Ok (if dom_errored (drv_sax p) then jdiscarded else root (dom_value (drv_sax p)))).

Example accept_samples :
  json_accept (quoted "{|a|: [1, 2.5e3, null]}") = Ok true ∧ json_accept "[1,]" = Ok false ∧ json_accept "1e999" = Ok false.
Proof. vm_compute. done. Qed.

Example exceptions_samples :
  json_parse_exceptions (H := x86_64) false "[1, [2]]" = Ok (jarray [jnumber_unsigned 1; jarray [jnumber_unsigned 2]])
  ∧ json_parse_exceptions (H := x86_64) false "[1, [2]" = Ok jdiscarded.
Proof. vm_compute. done. Qed.

(** ** Every handler hears the same *)

Definition stop_with {A} (stop : bool → A) (o : outcome exn bool) : outcome exn A := obind o (λ b, Ok (stop b)).

(** Texts do not tell lengths. *)
Definition text_event (e : sax_event) : Prop :=
  match e with ev_start_object len | ev_start_array len => len = no_limit | _ => True end.

(** With a handler, the parser does what it does with the recorder as long as
    the handler goes on, and ends with the handler's answer to a parse error. *)
Definition replay {H} (handler : SaxHandler H) {A} (stop : bool → A)
    (m : M exn (driver H) A) (r : M exn (driver (list sax_event)) A) : Prop :=
  ∀ t l s es, ∃ new t' l' o, r (Driver t l es) = (o, Driver t' l' (es ++ new)) ∧ Forall text_event new ∧
    match run_events new s with
    | (Ok true, s') =>
        match o with
        | Throw ex =>
            let '(o', s'') := on_parse_error ex s' in
            ∃ p, m (Driver t l s) = (stop_with stop o', p) ∧ drv_sax p = s''
        | _ => m (Driver t l s) = (o, Driver t' l' s')
        end
    | (o', s') => ∃ p, m (Driver t l s) = (stop_with stop o', p) ∧ drv_sax p = s'
    end.

Section replay.
Context {H : Type} (handler : SaxHandler H).

Lemma run_events_app es es' (s : H) :
  run_events (es ++ es') s = match run_events es s with (Ok true, s') => run_events es' s' | r => r end.
Proof.
  revert s. induction es as [|e es IH]; intros s; [done|]. cbn. unfold bind.
  destruct (on_event e s) as [[[]| | |] s']; [apply IH|done..].
Qed.

Lemma replay_rbind {A B} (stop : bool → B) (m : M exn (driver H) (bool + A)) r (k : A → M exn (driver H) B) k' :
  replay handler inl m r → (∀ a, replay handler stop (k a) (k' a)) →
  replay handler stop (rbind stop m k) (rbind stop r k').
Proof.
  intros Hm Hk t l s es. destruct (Hm t l s es) as (new & t1 & l1 & o & Hr & Hnew & Hrun).
  unfold rbind, bind. rewrite Hr. destruct o as [[b|a]|ex| |].
  - exists new, t1, l1, (Ok (stop b)). split_and!; [done..|]. destruct (run_events new s) as [[[]| | |] s'];
      [by rewrite Hrun|..]; destruct Hrun as (p & -> & Hp); by exists p.
  - destruct (run_events new s) as [o' s'] eqn:E.
    destruct (Hk a t1 l1 s' (es ++ new)) as (new2 & t2 & l2 & o2 & Hr2 & Hnew2 & Hrun2). exists (new ++ new2), t2, l2, o2.
    rewrite run_events_app, E, app_assoc. split_and!; [done|by apply Forall_app|].
    destruct o' as [[]| | |]; [by rewrite Hrun|..]; destruct Hrun as (p & -> & Hp); by exists p.
  - exists new, t1, l1, (Throw ex). split_and!; [done..|]. destruct (run_events new s) as [[[]| | |] s'];
      [destruct (on_parse_error ex s') as [[]]|..]; destruct Hrun as (p & -> & Hp); by exists p.
  - exists new, t1, l1, OutOfFuel. split_and!; [done..|]. destruct (run_events new s) as [[[]| | |] s'];
      [by rewrite Hrun|..]; destruct Hrun as (p & -> & Hp); by exists p.
  - exists new, t1, l1, Undefined. split_and!; [done..|]. destruct (run_events new s) as [[[]| | |] s'];
      [by rewrite Hrun|..]; destruct Hrun as (p & -> & Hp); by exists p.
Qed.

Lemma replay_ret {A} (stop : bool → A) a : replay handler stop (ret a) (ret a).
Proof. intros t l s es. exists [], t, l, (Ok a). by rewrite app_nil_r. Qed.

Lemma replay_fuel {A} (stop : bool → A) : replay handler stop out_of_fuel out_of_fuel.
Proof. intros t l s es. exists [], t, l, OutOfFuel. by rewrite app_nil_r. Qed.

Lemma replay_emit e : text_event e → replay handler inl (emit e) (emit (handler := recorder) e).
Proof.
  intros He t l s es. exists [e], t, l, (Ok (inr tt)). split_and!; [done|by constructor|]. unfold emit, zoom, bind. cbn [run_events drv_sax].
  unfold bind. destruct (on_event e s) as [[[]| | |] s']; cbn; eauto.
Qed.

Lemma replay_report {A} ex : replay handler (inl : bool → bool + A) (report ex) (report (handler := recorder) ex).
Proof.
  intros t l s es. exists [], t, l, (Throw ex). rewrite app_nil_r. split_and!; [done..|]. cbn [run_events ret].
  unfold report, zoom, bind. cbn [drv_sax]. destruct (on_parse_error ex s) as [[b| | |] s']; cbn; eauto.
Qed.

Lemma replay_look : replay handler inl look look.
Proof. intros t l s es. exists [], t, l, (Ok (inr (t, l))). by rewrite app_nil_r. Qed.

Lemma scan_returns l : ∃ t l', scan l = (Ok t, l').
Proof. destruct (wp_inv _ _ _ _ (wp_scan l no_exn)) as [(t & l' & E & _)|(e & l' & _ & [])]. eauto. Qed.

Lemma replay_next_token : replay handler inl next_token next_token.
Proof.
  intros t l s es. destruct (scan_returns l) as (t' & l' & E). exists [], t', l', (Ok (inr t')). rewrite app_nil_r.
  unfold next_token, drv_get_token, zoom, bind. cbn [drv_lexer]. by rewrite E.
Qed.
End replay.

Create HintDb replay.
#[export] Hint Extern 1 (text_event _) => done : replay.
#[export] Hint Resolve replay_ret replay_fuel replay_emit replay_report replay_look replay_next_token : replay.

Ltac replay_step :=
  repeat first
    [ solve [auto with replay]
    | apply replay_rbind; [|intros ?]
    | case_decide | case_match ].

Section parser_replay.
Context {H : Type} (handler : SaxHandler H).

Lemma replay_syntax {A} t :
  replay handler (inl : bool → bool + A) (report_syntax t) (report_syntax (handler := recorder) t).
Proof. unfold report_syntax. replay_step. Qed.
Local Hint Resolve replay_syntax : replay.

Lemma replay_parse_key : replay handler inl drv_parse_key (drv_parse_key (handler := recorder)).
Proof. unfold drv_parse_key. replay_step. Qed.
Local Hint Resolve replay_parse_key : replay.

Lemma replay_emit_value e : text_event e → replay handler inl (emit_value e) (emit_value (handler := recorder) e).
Proof. intros He. unfold emit_value. replay_step. Qed.
Local Hint Resolve replay_emit_value : replay.

Lemma replay_parse_value states :
  replay handler inl (drv_parse_value states) (drv_parse_value (handler := recorder) states).
Proof. unfold drv_parse_value. replay_step. Qed.
Local Hint Resolve replay_parse_value : replay.

Lemma replay_evaluate_state states :
  replay handler inl (drv_evaluate_state states) (drv_evaluate_state (handler := recorder) states).
Proof. unfold drv_evaluate_state. replay_step. Qed.
Local Hint Resolve replay_evaluate_state : replay.

Lemma replay_parse_internal fuel states skip :
  replay handler id (drv_parse_internal fuel states skip) (drv_parse_internal (handler := recorder) fuel states skip).
Proof. revert states skip. induction fuel as [|fuel IH]; intros states skip; cbn [drv_parse_internal]; replay_step. Qed.
End parser_replay.

(** *** A whole text *)

Section text_replay.
Context {H : Type} (handler : SaxHandler H).

Lemma replay_token {A} (stop : bool → A) k k' :
  (∀ t, replay handler stop (k t) (k' t)) → replay handler stop (bind drv_get_token k) (bind drv_get_token k').
Proof.
  intros Hk t l s es. destruct (scan_returns l) as (t' & l' & E).
  assert (Htok : ∀ K (s : K), drv_get_token (Driver t l s) = (Ok t', Driver t' l' s)).
  { intros K s0. unfold drv_get_token, zoom, bind. cbn [drv_lexer]. by rewrite E. }
  unfold bind. rewrite !Htok. apply (Hk t' t' l').
Qed.

Lemma replay_ext {A} (stop : bool → A) m m' r r' :
  (∀ p, m p = m' p) → (∀ q, r q = r' q) → replay handler stop m r → replay handler stop m' r'.
Proof. intros Em Er Hr t l s es. specialize (Hr t l s es). by rewrite Em, Er in Hr. Qed.

(** No handler goes on after a parse error. *)
Context (Hstop : ∀ ex s s', on_parse_error ex s ≠ (Ok true, s')).

Definition proceed {S} (m : M exn S bool) : M exn S (bool + unit) :=
  b <- m ;; ret (if (b : bool) then inr tt else inl false).

Lemma replay_proceed m r : replay handler id m r → replay handler inl (proceed m) (proceed r).
Proof.
  intros Hm t l s es. destruct (Hm t l s es) as (new & t' & l' & o & Hr & Hnew & Hrun).
  exists new, t', l', (obind o (λ b, Ok (if b : bool then inr tt else inl false))).
  unfold proceed, bind. rewrite Hr. split_and!; [by destruct o|done|].
  destruct (run_events new s) as [[[]| | |] s']; [|destruct Hrun as (p & -> & Hp); by exists p..].
  destruct o as [b|ex| |]; simpl; [by rewrite Hrun| |by rewrite Hrun..].
  pose proof (Hstop ex s') as Hex. destruct (on_parse_error ex s') as [[[]| | |] s''];
    [by destruct (Hex s'')|destruct Hrun as (p & -> & Hp); by exists p..].
Qed.

Lemma replay_sax_parse fuel :
  replay handler id (drv_sax_parse fuel) (drv_sax_parse (handler := recorder) fuel).
Proof.
  unfold drv_sax_parse. apply replay_token. intros _.
  assert (Hshape : ∀ S (m : M exn S bool) k p,
    rbind id (proceed m) (λ _, k) p = (b <- m ;; if negb b then ret false else k) p).
  { intros S m k p. unfold rbind, proceed, bind, ret. by destruct (m p) as [[[]| | |] p']. }
  eapply replay_ext; [apply Hshape|apply Hshape|]. apply replay_rbind; [apply replay_proceed, replay_parse_internal|intros _].
  apply replay_token. intros t. case_decide; [|apply replay_ret].
  apply replay_rbind; [apply replay_syntax|intros b; apply replay_ret].
Qed.
End text_replay.

(** ** The handler that builds values *)

Section agreement.
Context `{Machine}.

Definition embed (p : parser) (errored : bool) : driver dom_state :=
  Driver (last_token p) (m_lexer p) (DomState (Dom tt tt (root p) (ref_stack p)) errored).

(** The parser of [JsonParser] and the one that drives a handler do the same. *)
Definition agrees {A B} (inj : A → B) (m : M exn parser A) (g : M exn (driver dom_state) B) (p : parser) (er : bool) : Prop :=
  ∃ er', g (embed p er) = (obind (m p).1 (λ a, Ok (inj a)), embed (m p).2 er').

Lemma agrees_bind {A B C} (stop : bool → C) (inj : B → C) (m : M exn parser A) g k k' p er :
  agrees inr m g p er → (∀ a p' er', agrees inj (k a) (k' a) p' er') →
  agrees inj (bind m k) (rbind stop g k') p er.
Proof.
  intros [er1 Hm] Hk. unfold agrees, rbind, bind. rewrite Hm. destruct (m p) as [[a| | |] p']; simpl; eauto. apply Hk.
Qed.

Lemma agrees_look {B C} (stop : bool → C) (inj : B → C) (k : parser → M exn parser B) k' p er :
  agrees inj (k p) (k' (last_token p, m_lexer p)) p er → agrees inj (bind get_state k) (rbind stop look k') p er.
Proof. intros Hk. exact Hk. Qed.

Lemma agrees_ret {A B} (inj : A → B) a p er : agrees inj (ret a) (ret (inj a)) p er.
Proof. by exists er. Qed.

(** The handler's operations do not look at the parser. *)
Lemma build_value_embed {T L} e (t : T) (l : L) r st :
  build_value e (Dom t l r st)
  = let '(o, s) := build_value e (Dom tt tt r st) in (o, Dom t l (root s) (ref_stack s)).
Proof.
  destruct e; cbn; unfold handle_value, start_object, start_array, sax_end_object, sax_end_array, sax_key, bind, modify, throw; cbn;
    repeat (case_match; cbn; simplify_eq; try done);
    unfold handle_value in *; cbn in *; repeat (case_match; cbn in *; simplify_eq; try done).
Qed.

Lemma agrees_emit e p er : agrees inr (build_value e) (emit (handler := dom_handler true) e) p er.
Proof.
  exists er. unfold emit, zoom, bind. cbn -[build_value]. unfold zoom, bind. cbn -[build_value]. destruct p as [t l r st].
  rewrite (build_value_embed e t l r st). cbn -[build_value].
  by destruct (build_value e (Dom tt tt r st)) as [[[]| | |] [[] [] r' st']].
Qed.

Lemma agrees_throw {A B} (inj : A → bool + B) ex p er :
  agrees inj (throw ex) (report (handler := dom_handler true) ex) p er.
Proof. by exists true. Qed.

Lemma agrees_token p er : agrees inr get_token next_token p er.
Proof.
  exists er. unfold next_token, drv_get_token, get_token, zoom, bind. cbn [drv_lexer embed].
  by destruct (scan_returns (m_lexer p)) as (t & l & ->).
Qed.

Local Abbreviation dom := (dom_handler true).

Lemma agrees_syntax {A B} (inj : A → bool + B) t p er :
  agrees inj (syntax_error t) (report_syntax (handler := dom) t) p er.
Proof. apply agrees_look. apply agrees_throw. Qed.

Lemma agrees_parse_key p er : agrees inr parse_key (drv_parse_key (handler := dom)) p er.
Proof.
  apply agrees_look. cbn [fst snd]. case_decide; [apply agrees_syntax|].
  apply agrees_bind; [apply (agrees_emit (ev_key _))|intros _ p' er'].
  apply agrees_bind; [apply agrees_token|intros t p2 er2]. case_decide; [apply agrees_syntax|apply agrees_ret].
Qed.

Lemma agrees_parse_value states p er : agrees inr (parse_value states) (drv_parse_value (handler := dom) states) p er.
Proof.
  assert (Hval : ∀ e p er, agrees inr (build_value e ;; ret None) (emit_value (handler := dom) e) p er).
  { intros e p0 er0. apply agrees_bind; [apply agrees_emit|intros; apply agrees_ret]. }
  apply agrees_look. cbn [fst snd]. destruct (last_token p); try apply agrees_syntax.
  - apply (Hval (ev_boolean true)).
  - apply (Hval (ev_boolean false)).
  - apply (Hval ev_null).
  - apply (Hval (ev_string _)).
  - apply (Hval (ev_number_unsigned _)).
  - apply (Hval (ev_number_integer _)).
  - destruct (negb _); [apply agrees_throw|apply (Hval (ev_number_float _ _))].
  - apply agrees_bind; [apply (agrees_emit (ev_start_array no_limit))|intros _ p1 er1].
    apply agrees_bind; [apply agrees_token|intros t p2 er2]. case_decide; [apply (Hval ev_end_array)|apply agrees_ret].
  - apply agrees_bind; [apply (agrees_emit (ev_start_object no_limit))|intros _ p1 er1].
    apply agrees_bind; [apply agrees_token|intros t p2 er2]. case_decide; [apply (Hval ev_end_object)|].
    apply agrees_bind; [apply agrees_parse_key|intros _ p3 er3].
    apply agrees_bind; [apply agrees_token|intros _ p4 er4; apply agrees_ret].
Qed.

(** The end of the outermost value is a [return]. *)
Lemma agrees_evaluate_state states p er :
  agrees (from_option inr (inl true)) (evaluate_state states) (drv_evaluate_state (handler := dom) states) p er.
Proof.
  destruct states as [|[] rest]; cbn [evaluate_state drv_evaluate_state].
  - apply (agrees_ret (from_option inr (inl true)) None).
  - apply agrees_bind; [apply agrees_token|intros t p1 er1]. case_decide.
    { apply agrees_bind; [apply agrees_token|intros _ p2 er2]. apply (agrees_ret (from_option inr (inl true)) (Some _)). }
    case_decide; [|apply agrees_syntax].
    apply agrees_bind; [apply (agrees_emit ev_end_array)|intros _ p2 er2]. apply (agrees_ret (from_option inr (inl true)) (Some _)).
  - apply agrees_bind; [apply agrees_token|intros t p1 er1]. case_decide.
    { apply agrees_bind; [apply agrees_token|intros _ p2 er2]. apply agrees_bind; [apply agrees_parse_key|intros _ p3 er3].
      apply agrees_bind; [apply agrees_token|intros _ p4 er4]. apply (agrees_ret (from_option inr (inl true)) (Some _)). }
    case_decide; [|apply agrees_syntax].
    apply agrees_bind; [apply (agrees_emit ev_end_object)|intros _ p2 er2]. apply (agrees_ret (from_option inr (inl true)) (Some _)).
Qed.

Lemma agrees_parse_internal fuel states skip p er :
  agrees id (sax_parse_internal fuel states skip) (drv_parse_internal (handler := dom) fuel states skip) p er.
Proof.
  revert states skip p er. induction fuel as [|fuel IH]; intros states skip p er; [by exists er|].
  cbn [sax_parse_internal drv_parse_internal]. apply agrees_bind.
  { destruct skip; [apply agrees_ret|apply agrees_parse_value]. }
  intros [states1|] p1 er1; [apply IH|].
  destruct (agrees_evaluate_state states p1 er1) as [er2 Hev]. unfold agrees, rbind, bind. rewrite Hev.
  destruct (evaluate_state states p1) as [[[[states2 skip2]|]| | |] p2]; cbn; eauto. apply IH.
Qed.

Lemma parse_internal_true fuel states skip p b p' :
  sax_parse_internal fuel states skip p = (Ok b, p') → b = true.
Proof.
  revert states skip p. induction fuel as [|fuel IH]; intros states skip p; [done|]. cbn [sax_parse_internal].
  intros (r & p1 & _ & Hr)%bind_ok. destruct r as [states1|]; [by apply IH in Hr|].
  apply bind_ok in Hr as (r & p2 & _ & Hr). destruct r as [[states2 skip2]|]; [by apply IH in Hr|]. by injection Hr.
Qed.

Lemma parse_strict_root fuel p v p' : parse_strict fuel p = (Ok v, p') → root p' = v.
Proof.
  unfold parse_strict. intros (t1 & p1 & _ & Hr)%bind_ok. apply bind_ok in Hr as (b & p2 & _ & Hr).
  apply bind_ok in Hr as (t & p3 & _ & Hr). case_decide; [by apply bind_ok in Hr as (? & ? & _ & [=])|].
  by injection Hr as <- <-.
Qed.

Lemma agrees_get_token {A B} (inj : A → B) k k' p er :
  (∀ t p' er', agrees inj (k t) (k' t) p' er') → agrees inj (bind get_token k) (bind drv_get_token k') p er.
Proof.
  intros Hk. destruct (scan_returns (m_lexer p)) as (t & l & E).
  unfold agrees, bind, drv_get_token, get_token, zoom, bind. cbn [drv_lexer embed]. rewrite E.
  exact (Hk t (Dom t l (root p) (ref_stack p)) er).
Qed.

Lemma agrees_true {A B} (inj : A → B) m g k k' (stopped : B) p er :
  agrees id m g p er → (∀ b p', m p = (Ok b, p') → b = true) → (∀ p' er', agrees inj k k' p' er') →
  agrees inj (bind m (λ _, k)) (b <- g ;; if negb b then ret stopped else k') p er.
Proof.
  intros [er1 Hm] Ht Hk. unfold agrees, bind. rewrite Hm. destruct (m p) as [[b| | |] p'] eqn:E; simpl; eauto.
  rewrite (Ht b p' eq_refl). apply Hk.
Qed.

(** With exceptions, [parse] and [sax_parse] end alike. *)
Lemma agrees_sax_parse fuel p er :
  agrees (λ _, true) (parse_strict fuel) (drv_sax_parse (handler := dom) fuel) p er.
Proof.
  unfold parse_strict, drv_sax_parse. apply agrees_get_token. intros _ p1 er1.
  apply agrees_true; [apply agrees_parse_internal|intros b p'; apply parse_internal_true|intros p2 er2].
  apply agrees_get_token. intros t p3 er3. case_decide; [by exists true|by exists er3].
Qed.
End agreement.

(** ** What is recorded *)

Definition dom_init : dom_state := DomState (Dom tt tt jnull []) false.

(** The recorder's run over a text. *)
Definition record (input : string) : outcome exn bool * driver (list sax_event) :=
  drv_sax_parse (handler := recorder) (parse_fuel input) (drv_init input []).

Lemma run_events_dom `{Machine} allow es s :
  run_events (handler := dom_handler allow) es s = run_events (handler := dom_handler true) es s
  ∧ dom_errored (run_events (handler := dom_handler true) es s).2 = dom_errored s.
Proof.
  revert s. induction es as [|e es IH]; intros s; [done|].
  cbn -[build_value]. unfold zoom, bind, ret. destruct (build_value e (dom_value s)) as [[u| | |] v]; [|done..].
  destruct (IH (DomState v (dom_errored s))) as [-> ->]. done.
Qed.

(** Building a value from the events of a text neither throws nor stops. *)
Lemma dom_run_text `{Machine} es s : Forall text_event es →
  match (run_events (handler := dom_handler true) es s).1 with Ok b => b = true | Throw _ => False | _ => True end.
Proof.
  intros Hes. revert s. induction Hes as [|e es He _ IH]; intros s; [done|].
  assert (Hb : ∀ v ex v', build_value (T := unit) (L := unit) e v ≠ (Throw ex, v')).
  { intros v ex v'. destruct e; cbn in He; subst; cbn; unfold handle_value, sax_end_object, sax_end_array, sax_key, handle_value;
      repeat case_match; done. }
  cbn -[build_value]. unfold zoom, bind, ret. specialize (Hb (dom_value s)).
  destruct (build_value e (dom_value s)) as [[u|ex| |] v]; [apply IH|by destruct (Hb ex v)|done..].
Qed.

(** If a text is parsed, the events of it build the value; otherwise the
    exception is that of the parse error. *)
Lemma recorded `{Machine} input :
  (∃ t l es s, record input = (Ok true, Driver t l es) ∧ json_parse input = Ok (root (dom_value s))
     ∧ run_events (handler := dom_handler true) es dom_init = (Ok true, s))
  ∨ (∃ t l es ex s, record input = (Throw ex, Driver t l es) ∧ json_parse input = Throw ex
     ∧ run_events (handler := dom_handler true) es dom_init = (Ok true, s)).
Proof.
  destruct (replay_sax_parse (dom_handler true) ltac:(done) (parse_fuel input) uninitialized (lexer_init input) dom_init [])
    as (es & t & l & o & Hrec & Htext & Hrun). rewrite app_nil_l in Hrec.
  destruct (agrees_sax_parse (parse_fuel input) (parser_init input) false) as [er Hag].
  change (embed (parser_init input) false) with (Driver uninitialized (lexer_init input) dom_init) in Hag.
  rewrite Hag in Hrun. pose proof (dom_run_text es dom_init Htext) as Hok.
  pose proof (json_parse_cases input) as Hcases. pose proof (parse_strict_root (parse_fuel input) (parser_init input)) as Hroot.
  unfold record, drv_init. rewrite Hrec. unfold json_parse in *.
  destruct (parse_strict (parse_fuel input) (parser_init input)) as [oj p]. cbn [fst snd] in *.
  destruct (run_events es dom_init) as [[b| | |] s] eqn:Er; cbn [fst] in Hok; try done.
  - subst b. destruct o as [b|ex| |].
    + left. destruct oj as [v| | |]; try done. injection Hrun as <- <- <- <-. exists (last_token p), (m_lexer p), es.
      eexists. rewrite Er. split_and!; [done| |done]. f_equal. symmetry. exact (Hroot v p eq_refl).
    + right. destruct Hrun as (p' & Hp & _). destruct oj as [v| | |]; try done. injection Hp as -> _. by eexists t, l, es, ex, s.
    + destruct oj as [v| | |]; try done. destruct Hcases as [(? & [=] & _)|(? & [=] & _)].
    + destruct oj as [v| | |]; try done. destruct Hcases as [(? & [=] & _)|(? & [=] & _)].
  - destruct Hrun as (p' & Hp & _). destruct oj as [v| | |]; try done. destruct Hcases as [(? & [=] & _)|(? & [=] & _)].
  - destruct Hrun as (p' & Hp & _). destruct oj as [v| | |]; try done. destruct Hcases as [(? & [=] & _)|(? & [=] & _)].
Qed.

(** ** [parse] and [accept] *)

(** [parse] reads on after an error the handler did not throw for, and may
    report another one. *)
Definition after_error {H} (handler : SaxHandler H) (ex : exn) (s : H) (o : outcome exn unit) (s' : H) : Prop :=
  match on_parse_error ex s with
  | (Ok _, s1) => o = Ok tt ∧ s' = s1 ∨ ∃ ex', let '(o2, s2) := on_parse_error ex' s1 in o = stop_with (λ _, tt) o2 ∧ s' = s2
  | (o1, s1) => o = stop_with (λ _, tt) o1 ∧ s' = s1
  end.

Lemma get_token_runs t l : ∃ t' l', ∀ K (s : K), drv_get_token (Driver t l s) = (Ok t', Driver t' l' s).
Proof.
  destruct (scan_returns l) as (t' & l' & E). exists t', l'. intros K s.
  unfold drv_get_token, zoom, bind. cbn [drv_lexer]. by rewrite E.
Qed.

Section parse_replay.
Context {H : Type} (handler : SaxHandler H).

(** The check for the end of the input. *)
Definition drv_parse_end : M exn (driver H) unit :=
  t <- drv_get_token ;;
  if decide (t ≠ end_of_input) then rbind (λ _, tt) (report_syntax (A := unit) end_of_input) ret else ret tt.

Definition drv_sax_end {K} {hdl : SaxHandler K} : M exn (driver K) bool :=
  t <- drv_get_token ;;
  if decide (t ≠ end_of_input) then rbind id (report_syntax (A := bool) end_of_input) ret else ret true.

Lemma parse_end_replay t l : ∃ o t' l', (∀ es, drv_sax_end (hdl := recorder) (Driver t l es) = (o, Driver t' l' es)) ∧
  ∀ s, match o with
       | Ok b => b = true ∧ drv_parse_end (Driver t l s) = (Ok tt, Driver t' l' s)
       | Throw ex =>
           let '(o2, s2) := on_parse_error ex s in
           ∃ p, drv_parse_end (Driver t l s) = (stop_with (λ _, tt) o2, p) ∧ drv_sax p = s2
       | _ => False
       end.
Proof.
  destruct (get_token_runs t l) as (t' & l' & Htok). unfold drv_parse_end, drv_sax_end.
  destruct (decide (t' = end_of_input)) as [Ht|Ht].
  { exists (Ok true), t', l'. split; [intros es|intros s; split; [done|]];
      rewrite (bind_run _ _ _ _ _ (Htok _ _)), decide_False by auto; done. }
  exists (Throw (parse_error_create 101 (get_position l') (exception_message t' l' end_of_input))), t', l'.
  split; [intros es|intros s]; rewrite (bind_run _ _ _ _ _ (Htok _ _)), decide_True by auto; [done|].
  unfold rbind, bind, report_syntax, look, rbind, report, zoom, bind, gets. cbn [drv_sax drv_token drv_lexer fst snd].
  destruct (on_parse_error _ s) as [[b| | |] s'] eqn:E; eexists; by split.
Qed.

Lemma parse_replay input s o t l es :
  record input = (o, Driver t l es) → o ≠ Ok false →
  let '(or, s') := run_events es s in
  let '(oh, p) := drv_parse handler (parse_fuel input) (drv_init input s) in
  match or with
  | Ok true =>
      match o with
      | Ok _ => oh = Ok tt ∧ drv_sax p = s'
      | Throw ex => after_error handler ex s' oh (drv_sax p)
      | _ => True
      end
  | Ok false => True
  | or => oh = stop_with (λ _, tt) or ∧ drv_sax p = s'
  end.
Proof.
  unfold record, drv_parse, drv_sax_parse, drv_init. fold drv_parse_end. fold (drv_sax_end (hdl := recorder)).
  destruct (get_token_runs uninitialized (lexer_init input)) as (t0 & l0 & Htok). intros Hrec Hne.
  rewrite (bind_run _ _ _ _ _ (Htok _ _)) in Hrec. rewrite (bind_run _ _ _ _ _ (Htok _ _)).
  destruct (replay_parse_internal handler (parse_fuel input) [] false t0 l0 s []) as (new & t1 & l1 & o1 & Hr & _ & Hrun).
  rewrite app_nil_l in Hr. unfold bind in Hrec |- *. rewrite Hr in Hrec.
  destruct (parse_end_replay t1 l1) as (o2 & t2 & l2 & Hend & Hends).
  assert (es = new ∧ (o1 = Ok true ∧ o2 = o ∨ (∀ b, o1 ≠ Ok b) ∧ o1 = o)) as [-> Ho].
  { destruct o1 as [[]| | |]; cbn [negb] in Hrec; unfold ret in Hrec; [rewrite Hend in Hrec|..]; simplify_eq; naive_solver. }
  destruct (run_events new s) as [or s'].
  destruct or as [[]| | |]; [|by destruct (drv_parse_internal _ _ _ _) as [[]]; repeat case_match|destruct Hrun as (p & -> & Hp); cbn; by rewrite Hp..].
  destruct Ho as [[-> ->]|[Hno ->]].
  - rewrite Hrun. specialize (Hends s'). destruct o as [b|ex| |]; [by destruct Hends as [_ ->]| |done..].
    unfold after_error. destruct (on_parse_error ex s') as [[b| | |] s''] eqn:E; destruct Hends as (p & -> & Hp); auto.
  - destruct o as [b|ex| |]; [by destruct (Hno b)| |by rewrite Hrun..]. unfold after_error.
    destruct (on_parse_error ex s') as [[b| | |] s'']; destruct Hrun as (p & -> & Hp); [|by cbn..]. cbn [stop_with obind id].
    destruct p as [t3 l3 s3]. cbn [drv_sax] in Hp. subst s3. destruct (parse_end_replay t3 l3) as (o3 & t4 & l4 & _ & Hend3).
    specialize (Hend3 s''). destruct o3 as [b3|ex3| |]; [destruct Hend3 as [_ ->]; by left| |done..].
    destruct (on_parse_error ex3 s'') as [o4 s4] eqn:E4; destruct Hend3 as (p & -> & Hp). right. exists ex3. by rewrite E4.
Qed.
End parse_replay.

(** [accept] returns true exactly for the texts that [parse] returns a value for. *)
Lemma accept_variant input :
  json_accept input = Ok (match json_parse input with Ok _ => true | _ => false end).
Proof.
  destruct (replay_sax_parse acceptor ltac:(done) (parse_fuel input) uninitialized (lexer_init input) tt [])
    as (es & t & l & o & Hrec & _ & Hrun).
  assert (Hall : ∀ es, run_events (handler := acceptor) es tt = (Ok true, tt)) by (intros es0; induction es0 as [|e es0 IH]; [done|exact IH]).
  rewrite Hall in Hrun. unfold json_accept, drv_init. unfold record, drv_init in *.
  destruct (recorded (H := x86_64) input) as [(t' & l' & es' & s & Hr & -> & _)|(t' & l' & es' & ex & s & Hr & -> & _)];
    unfold record, drv_init in Hr; rewrite Hr in Hrec; simplify_eq.
  - by rewrite Hrun.
  - destruct Hrun as (p & -> & _). done.
Qed.

(** Without exceptions a discarded value stands for what would be thrown. *)
Lemma exceptions_variant `{Machine} input :
  json_parse_exceptions true input = json_parse input
  ∧ json_parse_exceptions false input = Ok (match json_parse input with Ok v => v | _ => jdiscarded end).
Proof.
  assert (Hp : ∀ allow, json_parse_exceptions allow input = match json_parse input with
    | Ok v => Ok v | o => if allow then o else Ok jdiscarded end).
  2:{ rewrite !Hp. by destruct (json_parse_cases input) as [(v & -> & _)|(e & -> & _)]. }
  intros allow. unfold json_parse_exceptions.
  destruct (recorded input) as [(t & l & es & s & Hr & -> & Hrun)|(t & l & es & ex & s & Hr & -> & Hrun)];
    pose proof (parse_replay (dom_handler allow) input dom_init _ _ _ _ Hr ltac:(done)) as Hrep;
    destruct (run_events_dom allow es dom_init) as [Hd Her]; rewrite Hd, Hrun in Hrep; rewrite Hrun in Her; cbn in Her;
    change (DomState (Dom tt tt jnull []) false) with dom_init;
    destruct (drv_parse _ _ _) as [oh p].
  - destruct Hrep as [-> ->]. cbn. by rewrite Her.
  - unfold after_error in Hrep. destruct allow; cbn in Hrep.
    + by destruct Hrep as [-> ->].
    + by destruct Hrep as [[-> ->]|(ex' & -> & ->)].
Qed.

(** C7: The parser with the acceptor, and with the handler that builds values
    with and without exceptions, against [json_parse]: [accept] never throws
    and answers whether [json_parse] returns a value; with exceptions [parse]
    is [json_parse]; without, it returns the same value, and a discarded value
    for every text that makes [json_parse] throw. *)
Theorem parse_variants `{Machine} input :
  json_accept input = Ok (match json_parse input with Ok _ => true | _ => false end)
  ∧ json_parse_exceptions true input = json_parse input
  ∧ json_parse_exceptions false input = Ok (match json_parse input with Ok v => v | _ => jdiscarded end).
Proof. split; [apply accept_variant|apply exceptions_variant]. Qed.
