(* ===== verification/JsonEvents.v ===== *)
(** * The events of documents

    The events that the parser tells a handler are those of one document,
    given as a tree with the members of its objects in the order of the text. *)

From stdpp Require Import base gmap strings list.
From Stdlib Require Import ZArith Ascii Lia.
From S2P Require Import Prelude Cxx StdMap JsonValue JsonLexer JsonSax JsonParser JsonCorrect JsonBinary BinaryReader JsonSaxParser.

(** ** Documents *)

Unset Elimination Schemes.
Inductive doc : Type :=
| Dscalar (e : sax_event)
| Darray (ds : list doc)
| Dobject (ms : list (string * doc)).
Set Elimination Schemes.

Section doc_ind.
Context (P : doc → Prop) (Hscalar : ∀ e, P (Dscalar e)) (Harray : ∀ ds, Forall P ds → P (Darray ds))
  (Hobject : ∀ ms, Forall (λ kd, P kd.2) ms → P (Dobject ms)).

Fixpoint doc_ind (d : doc) : P d :=
  match d with
  | Dscalar e => Hscalar e
  | Darray ds =>
      Harray ds ((fix go ds : Forall P ds :=
        match ds with [] => Forall_nil_2 _ | d :: ds => Forall_cons_2 _ _ _ (doc_ind d) (go ds) end) ds)
  | Dobject ms =>
      Hobject ms ((fix go ms : Forall (λ kd, P kd.2) ms :=
        match ms with [] => Forall_nil_2 _ | kd :: ms => Forall_cons_2 _ _ _ (doc_ind kd.2) (go ms) end) ms)
  end.
End doc_ind.

Definition scalar_value_of (e : sax_event) : option json :=
  match e with
  | ev_null => Some jnull
  | ev_boolean b => Some (jboolean b)
  | ev_number_integer z => Some (jnumber_integer z)
  | ev_number_unsigned z => Some (jnumber_unsigned z)
  | ev_number_float d _ => Some (jnumber_float d)
  | ev_string s => Some (jstring s)
  | _ => None
  end.

(** The leaves of a document are scalars. *)
Fixpoint doc_ok (d : doc) : bool :=
  match d with
  | Dscalar e => match scalar_value_of e with Some _ => true | None => false end
  | Darray ds => forallb doc_ok ds
  | Dobject ms => forallb (λ kd, doc_ok kd.2) ms
  end.

Fixpoint events_of (d : doc) : list sax_event :=
  match d with
  | Dscalar e => [e]
  | Darray ds => ev_start_array no_limit :: concat (map events_of ds) ++ [ev_end_array]
  | Dobject ms => ev_start_object no_limit :: concat (map (λ kd, ev_key kd.1 :: events_of kd.2) ms) ++ [ev_end_object]
  end.

(** The value of a document: the last member of a name counts. *)
Fixpoint value_of (d : doc) : json :=
  match d with
  | Dscalar e => default jnull (scalar_value_of e)
  | Darray ds => jarray (map value_of ds)
  | Dobject ms => jobject (foldl (λ m kv, map_put kv.1 kv.2 m) [] (map (λ kd, (kd.1, value_of kd.2)) ms))
  end.

(** ** What is recorded is a document *)

(** An unfinished container; an object has read the key of the next member. *)
Inductive open_doc : Type :=
| Oarray (ds : list doc)
| Oobject (ms : list (string * doc)) (key : string).

Definition elements_events (ds : list doc) : list sax_event := concat (map events_of ds).
Definition members_events (ms : list (string * doc)) : list sax_event :=
  concat (map (λ kd, ev_key kd.1 :: events_of kd.2) ms).

Fixpoint events_before (st : list open_doc) : list sax_event :=
  match st with
  | [] => []
  | Oarray ds :: st => events_before st ++ ev_start_array no_limit :: elements_events ds
  | Oobject ms k :: st => events_before st ++ ev_start_object no_limit :: members_events ms ++ [ev_key k]
  end.

Definition open_ok_doc (o : open_doc) : bool :=
  match o with Oarray ds => forallb doc_ok ds | Oobject ms _ => forallb (λ kd, doc_ok kd.2) ms end.

Definition is_open_array (o : open_doc) : bool := match o with Oarray _ => true | _ => false end.

(** A value is expected. *)
Definition expecting (states : list bool) (es : list sax_event) : Prop :=
  ∃ st, states = map is_open_array st ∧ forallb open_ok_doc st = true ∧ es = events_before st.

(** A value has been read. *)
Definition complete_doc (states : list bool) (es : list sax_event) : Prop :=
  ∃ st d, states = map is_open_array st ∧ forallb open_ok_doc st = true ∧ doc_ok d = true ∧ es = events_before st ++ events_of d.

Section recorder.
Local Abbreviation rec := (driver (list sax_event)).

Lemma ensures_rbind {A B} (stop : bool → B) (m : M exn rec (bool + A)) k p (Q : B → rec → Prop) :
  ensures m p (λ r p', match r with inl b => Q (stop b) p' | inr a => ensures (k a) p' Q end) →
  ensures (rbind stop m k) p Q.
Proof. unfold ensures, rbind, bind. destruct (m p) as [[[b|a]| | |] p']; done. Qed.

Lemma ensures_next p (Q : bool + token_type → rec → Prop) :
  (∀ t l, Q (inr t) (Driver t l (drv_sax p))) → ensures next_token p Q.
Proof.
  intros HQ. destruct p as [t l es]. destruct (get_token_runs t l) as (t' & l' & Htok).
  unfold ensures, next_token, bind. rewrite Htok. apply HQ.
Qed.

Lemma ensures_emit e p (Q : bool + unit → rec → Prop) :
  Q (inr tt) (Driver (drv_token p) (drv_lexer p) (drv_sax p ++ [e])) → ensures (emit (handler := recorder) e) p Q.
Proof. done. Qed.

Lemma ensures_report {A} t p (Q : bool + A → rec → Prop) : ensures (report_syntax (handler := recorder) t) p Q.
Proof. done. Qed.

Lemma ensures_look p (Q : bool + (token_type * lexer) → rec → Prop) : Q (inr (drv_token p, drv_lexer p)) p → ensures look p Q.
Proof. done. Qed.
End recorder.

Ltac ens_rec :=
  repeat lazymatch goal with
  | |- ensures (rbind _ _ _) _ _ => apply ensures_rbind
  | |- ensures (report_syntax _) _ _ => apply ensures_report
  | |- ensures look _ _ => apply ensures_look; cbv beta iota
  | |- ensures next_token _ _ => apply ensures_next; intros ? ?; cbv beta iota; cbn [drv_sax]
  | |- ensures (emit _) _ _ => apply ensures_emit; cbv beta iota; cbn [drv_sax]
  | |- ensures (ret _) _ _ => apply ensures_ret; cbv beta iota; cbn [drv_sax]
  | |- ensures (if decide _ then _ else _) _ _ => case_decide
  end.

Lemma ensures_parse_key p :
  ensures (drv_parse_key (handler := recorder)) p
    (λ r p', match r with inl _ => False | inr _ => ∃ k, drv_sax p' = drv_sax p ++ [ev_key k] end).
Proof. unfold drv_parse_key. ens_rec. eauto. Qed.

Lemma expecting_key st (ms : list (string * doc)) k es :
  forallb open_ok_doc st = true → forallb (λ kd, doc_ok kd.2) ms = true →
  es = events_before st ++ ev_start_object no_limit :: members_events ms ++ [ev_key k] →
  expecting (false :: map is_open_array st) es.
Proof. intros Hst Hms ->. exists (Oobject ms k :: st). cbn. by rewrite Hst, Hms. Qed.

(** The switch begins a container or completes a value. *)
Lemma ensures_parse_value states p :
  expecting states (drv_sax p) →
  ensures (drv_parse_value (handler := recorder) states) p
    (λ r p', match r with
             | inl _ => False
             | inr (Some states') => expecting states' (drv_sax p')
             | inr None => complete_doc states (drv_sax p')
             end).
Proof.
  intros (st & -> & Hst & Hes).
  assert (Hval : ∀ d es, doc_ok d = true → es = drv_sax p ++ events_of d → complete_doc (map is_open_array st) es).
  { intros d es Hd ->. exists st, d. by rewrite Hes. }
  unfold drv_parse_value, emit_value. apply ensures_rbind, ensures_look. cbv beta iota. cbn [fst snd].
  destruct (drv_token p); ens_rec;
    try lazymatch goal with |- complete_doc _ (_ ++ [?e]) =>
      lazymatch e with ev_end_array => fail | ev_end_object => fail | _ => by apply (Hval (Dscalar e)) end end.
  - destruct (negb _); [done|]. ens_rec. by eapply (Hval (Dscalar (ev_number_float _ _))).
  - apply (Hval (Darray [])); [done|]. by rewrite <-app_assoc.
  - exists (Oarray [] :: st). cbn. by rewrite Hst, Hes.
  - apply (Hval (Dobject [])); [done|]. by rewrite <-app_assoc.
  - eapply ensures_mono; [apply ensures_parse_key|]. intros [|[]] p' Hp'; [done|]. destruct Hp' as [k Hk]. ens_rec.
    apply (expecting_key st [] k); [done|done|]. rewrite Hk, Hes. cbn. by rewrite <-app_assoc.
Qed.

Lemma ensures_evaluate_state states p :
  complete_doc states (drv_sax p) →
  ensures (drv_evaluate_state (handler := recorder) states) p
    (λ r p', match r with
             | inl b => b = true ∧ ∃ d, doc_ok d = true ∧ drv_sax p' = events_of d
             | inr (states', true) => complete_doc states' (drv_sax p')
             | inr (states', false) => expecting states' (drv_sax p')
             end).
Proof.
  intros (st & d & -> & Hst & Hd & Hes). destruct st as [|[ds|ms k] st]; cbn [map is_open_array drv_evaluate_state].
  - ens_rec. split; [done|]. by exists d.
  - cbn in Hst. apply andb_true_iff in Hst as [Hds Hst].
    assert (Hds' : forallb doc_ok (ds ++ [d]) = true) by (rewrite forallb_app; cbn; by rewrite Hds, Hd).
    assert (Hev : elements_events (ds ++ [d]) = elements_events ds ++ events_of d).
    { unfold elements_events. rewrite map_app, concat_app. cbn. by rewrite app_nil_r. }
    ens_rec.
    + exists (Oarray (ds ++ [d]) :: st). cbn. rewrite Hds', Hst, Hes, Hev. split_and!; [done..|]. cbn. by rewrite <-app_assoc.
    + exists st, (Darray (ds ++ [d])). split_and!; [done..|]. rewrite Hes. cbn. fold (elements_events (ds ++ [d])).
      rewrite Hev. by rewrite <-!app_assoc.
  - cbn in Hst. apply andb_true_iff in Hst as [Hms Hst].
    assert (Hms' : forallb (λ kd, doc_ok kd.2) (ms ++ [(k, d)]) = true) by (rewrite forallb_app; cbn; by rewrite Hms, Hd).
    assert (Hev : members_events (ms ++ [(k, d)]) = (members_events ms ++ [ev_key k]) ++ events_of d).
    { unfold members_events. rewrite map_app, concat_app. cbn. rewrite app_nil_r, <-app_assoc. done. }
    ens_rec.
    + eapply ensures_mono; [apply ensures_parse_key|]. intros [|[]] p' Hp'; [done|]. destruct Hp' as [k2 Hk2]. ens_rec.
      apply (expecting_key st (ms ++ [(k, d)]) k2); [done|done|]. rewrite Hk2, Hev. cbn [drv_sax]. rewrite Hes. cbn.
      rewrite <-!app_assoc; cbn; by rewrite <-?app_assoc.
    + exists st, (Dobject (ms ++ [(k, d)])). split_and!; [done..|]. rewrite Hes. cbn. fold (members_events (ms ++ [(k, d)])).
      rewrite Hev. rewrite <-!app_assoc; cbn; by rewrite <-?app_assoc.
Qed.

Lemma ensures_parse_internal fuel states (skip : bool) p :
  (if skip then complete_doc states (drv_sax p) else expecting states (drv_sax p)) →
  ensures (drv_parse_internal (handler := recorder) fuel states skip) p
    (λ b p', b = true ∧ ∃ d, doc_ok d = true ∧ drv_sax p' = events_of d).
Proof.
  revert states skip p. induction fuel as [|fuel IH]; intros states skip p Hp; [done|]. cbn [drv_parse_internal].
  apply ensures_rbind. eapply (ensures_mono _ _ _ (λ r p', match r with
    | inl _ => False
    | inr (Some states') => expecting states' (drv_sax p')
    | inr None => complete_doc states (drv_sax p')
    end)).
  { destruct skip; [by ens_rec|by apply ensures_parse_value]. }
  intros [b|[states1|]] p1 Hp1; [done|by apply IH|]. apply ensures_rbind.
  eapply ensures_mono; [by apply ensures_evaluate_state|]. intros [b|[states2 skip2]] p2 Hp2; [done|].
  apply IH. by destruct skip2.
Qed.

(** The events of a text that is accepted are those of a document. *)
Lemma recorded_document input b t l es :
  record input = (Ok b, Driver t l es) → ∃ d, doc_ok d = true ∧ es = events_of d.
Proof.
  intros Hr. assert (He : ensures (drv_sax_parse (handler := recorder) (parse_fuel input)) (drv_init input [])
    (λ _ p', ∃ d, doc_ok d = true ∧ drv_sax p' = events_of d)).
  { unfold drv_sax_parse, drv_init. destruct (get_token_runs uninitialized (lexer_init input)) as (t0 & l0 & Htok).
    apply ensures_bind. unfold ensures at 1. rewrite Htok. apply ensures_bind.
    eapply ensures_mono; [apply ensures_parse_internal; by exists []|]. intros b1 [t1 l1 es1] [-> Hd]. cbn [negb].
    destruct (get_token_runs t1 l1) as (t2 & l2 & Htok2). apply ensures_bind. unfold ensures at 1. rewrite Htok2.
    case_decide; [done|exact Hd]. }
  unfold record in Hr. unfold ensures in He. by rewrite Hr in He.
Qed.

(** ** Building the value of a document *)

Section build.
Context `{Machine}.
Local Abbreviation dom := (dom_handler true).

Definition dom_at (r : json) (st : list frame) (er : bool) : dom_state := DomState (Dom tt tt r st) er.

(** [es] delivers the value [v] to the container on top. *)
Definition dom_delivers (es : list sax_event) (v : json) : Prop :=
  ∀ r st er, receives st →
  run_events (handler := dom) es (dom_at r st er) = (Ok true, dom_at (deliver v r st).1 (deliver v r st).2 er).

Lemma dom_scalar e v : scalar_value_of e = Some v → dom_delivers [e] v.
Proof.
  intros He r st er Hr.
  assert (Hb : build_value e (Dom tt tt r st) = handle_value v (Dom tt tt r st)) by (destruct e; cbn in He; by simplify_eq).
  cbn -[build_value]. unfold zoom, bind. cbn [dom_value dom_at]. by rewrite Hb, handle_value_deliver.
Qed.

Lemma run_event_dom e es r st er v' :
  build_value e (Dom tt tt r st) = (Ok tt, v') →
  run_events (handler := dom) (e :: es) (dom_at r st er) = run_events (handler := dom) es (DomState v' er).
Proof. intros Hb. cbn -[build_value]. unfold zoom, bind. cbn [dom_value dom_at]. by rewrite Hb. Qed.

Lemma dom_elements ds items es r st er :
  Forall (λ d, dom_delivers (events_of d) (value_of d)) ds →
  run_events (handler := dom) (elements_events ds ++ es) (dom_at r (Farray items :: st) er)
  = run_events (handler := dom) es (dom_at r (Farray (items ++ map value_of ds) :: st) er).
Proof.
  intros Hds. revert items. induction Hds as [|d ds Hd _ IH]; intros items; [by rewrite app_nil_r|].
  change (elements_events (d :: ds)) with (events_of d ++ elements_events ds).
  rewrite <-app_assoc, run_events_app, Hd by done. cbn [deliver fst snd]. rewrite IH, <-app_assoc. done.
Qed.

Lemma dom_members ms m k es r st er :
  Forall (λ kd, dom_delivers (events_of kd.2) (value_of kd.2)) ms → map_wf m →
  ∃ k', run_events (handler := dom) (members_events ms ++ es) (dom_at r (Fobject m k :: st) er)
  = run_events (handler := dom) es
      (dom_at r (Fobject (foldl (λ m kv, map_put kv.1 kv.2 m) m (map (λ kd, (kd.1, value_of kd.2)) ms)) k' :: st) er).
Proof.
  intros Hms. revert m k. induction Hms as [|[k0 d] ms Hd _ IH]; intros m k Hwf; [by exists k|].
  change (members_events ((k0, d) :: ms)) with (ev_key k0 :: events_of d ++ members_events ms).
  rewrite <-app_comm_cons. erewrite run_event_dom by reflexivity.
  change (DomState ?v er) with (dom_at r (Fobject (if map_mem k0 m then m else map_put k0 jnull m) (Some k0) :: st) er).
  cbn [fst snd] in *. rewrite <-app_assoc, run_events_app, Hd by done. cbn [deliver fst snd]. rewrite member_put by done. apply IH. by apply map_put_wf.
Qed.

Lemma dom_document d : doc_ok d = true → dom_delivers (events_of d) (value_of d).
Proof.
  induction d as [e|ds IH|ms IH] using doc_ind; intros Hok.
  - cbn in Hok. destruct (scalar_value_of e) as [v|] eqn:E; [|done]. cbn. rewrite E. by apply dom_scalar.
  - intros r st er Hr. cbn [events_of]. fold (elements_events ds). erewrite run_event_dom by reflexivity.
    cbn in Hok. rewrite forallb_forall in Hok.
    assert (Hds : Forall (λ d, dom_delivers (events_of d) (value_of d)) ds).
    { rewrite Forall_forall in *. intros d Hd. apply IH; [done|]. by apply Hok, list_elem_of_In. }
    change (DomState ?v er) with (dom_at r (Farray [] :: st) er). rewrite dom_elements by done.
    erewrite run_event_dom; [reflexivity|]. cbn [build_value sax_end_array ref_stack]. by rewrite handle_value_deliver.
  - intros r st er Hr. cbn [events_of]. fold (members_events ms). erewrite run_event_dom by reflexivity.
    cbn in Hok. rewrite forallb_forall in Hok.
    assert (Hms : Forall (λ kd, dom_delivers (events_of kd.2) (value_of kd.2)) ms).
    { rewrite Forall_forall in *. intros d Hd. apply IH; [done|]. by apply Hok, list_elem_of_In. }
    change (DomState ?v er) with (dom_at r (Fobject [] None :: st) er).
    destruct (dom_members ms [] None [ev_end_object] r st er Hms map_wf_nil) as [k' ->].
    erewrite run_event_dom; [reflexivity|]. cbn [build_value sax_end_object ref_stack]. by rewrite handle_value_deliver.
Qed.
End build.

(** A text that is parsed is heard as a document with the value parsed. *)
Lemma parsed_document input v :
  json_parse input = Ok v → ∃ t l d, record input = (Ok true, Driver t l (events_of d)) ∧ doc_ok d = true ∧ value_of d = v.
Proof.
  intros Hv. destruct (recorded (H := x86_64) input) as [(t & l & es & s & Hr & Hj & Hrun)|(t & l & es & ex & s & _ & Hj & _)];
    [|congruence].
  destruct (recorded_document _ _ _ _ _ Hr) as (d & Hd & ->). exists t, l, d. split_and!; [done|done|].
  pose proof (dom_document (H := x86_64) d Hd jnull [] false I) as Hb. cbn [deliver fst snd] in Hb.
  change dom_init with (dom_at jnull [] false) in Hrun. rewrite Hb in Hrun. injection Hrun as <-. cbn in Hj. congruence.
Qed.
