(* ===== verification/JsonCallback.v ===== *)
(** * Parsing with a callback (json.hpp, [json_sax_dom_callback_parser])

    The handler that asks a callback which parts of the document to keep.  As
    in [JsonSax] a container under construction is a frame that is delivered to
    its parent when it is closed; a container that is not kept is a null
    pointer in [ref_stack]. *)

From stdpp Require Import base gmap strings list.
From Stdlib Require Import ZArith Ascii Lia.
From S2P Require Import Prelude Cxx StdMap JsonValue JsonLexer JsonSax JsonParser JsonParserSpec JsonBinary BinaryReader JsonSaxParser JsonEvents.

(** [enum class parse_event_t]. *)
Inductive parse_event_t : Type :=
| object_start | object_end | array_start | array_end | key | value.

(** [parser_callback_t]: the callback has a state of its own and may write to
    the value it is passed. *)
Definition parser_callback_t (C : Type) : Type := Z → parse_event_t → json → C → bool * json * C.

Record callback_state (C : Type) : Type := CallbackState {
  cb_root : json;
  cb_refs : list (option frame);
  keep_stack : list bool;
  key_keep_stack : list bool;
  discarded : json;
  cb_errored : bool;
  cb_own : C;
}.
Arguments CallbackState {C} _ _ _ _ _ _ _.
Arguments cb_root {C} c.
Arguments cb_refs {C} c.
Arguments keep_stack {C} c.
Arguments key_keep_stack {C} c.
Arguments discarded {C} c.
Arguments cb_errored {C} c.
Arguments cb_own {C} c.

Section handler.
Context `{Machine} {C : Type} (callback : parser_callback_t C).
Local Abbreviation CM := (M exn (callback_state C)).

Definition with_root (r : json) (s : callback_state C) : callback_state C :=
  CallbackState r (cb_refs s) (keep_stack s) (key_keep_stack s) (discarded s) (cb_errored s) (cb_own s).
Definition with_refs (refs : list (option frame)) (s : callback_state C) : callback_state C :=
  CallbackState (cb_root s) refs (keep_stack s) (key_keep_stack s) (discarded s) (cb_errored s) (cb_own s).
Definition with_keep (ks : list bool) (s : callback_state C) : callback_state C :=
  CallbackState (cb_root s) (cb_refs s) ks (key_keep_stack s) (discarded s) (cb_errored s) (cb_own s).
Definition with_key_keep (ks : list bool) (s : callback_state C) : callback_state C :=
  CallbackState (cb_root s) (cb_refs s) (keep_stack s) ks (discarded s) (cb_errored s) (cb_own s).
Definition with_discarded (d : json) (s : callback_state C) : callback_state C :=
  CallbackState (cb_root s) (cb_refs s) (keep_stack s) (key_keep_stack s) d (cb_errored s) (cb_own s).
Definition with_errored (s : callback_state C) : callback_state C :=
  CallbackState (cb_root s) (cb_refs s) (keep_stack s) (key_keep_stack s) (discarded s) true (cb_own s).
Definition with_own (c : C) (s : callback_state C) : callback_state C :=
  CallbackState (cb_root s) (cb_refs s) (keep_stack s) (key_keep_stack s) (discarded s) (cb_errored s) c.

(** [callback(depth, event, v)]: whether to keep, and what [v] has become. *)
Definition ask (depth : Z) (event : parse_event_t) (v : json) : CM (bool * json) := λ s,
  let '(keep, v', c) := callback (wrap_signed 32 depth) event v (cb_own s) in (Ok (keep, v'), with_own c s).

Definition depth (s : callback_state C) : Z := Z.of_nat (length (cb_refs s)).

(** The first part of [handle_value]: whether the value has a place; the key's
    decision is used up. *)
Definition place (v : json) (skip_callback : bool) : CM (option json) :=
  s <- get_state ;;
  match keep_stack s with
  | [] => lift Undefined
  | false :: _ => ret None
  | true :: _ =>
      r <- (if skip_callback then ret (true, v) else ask (depth s) value v) ;;
      let '(keep, v) := r in
      if negb keep then ret None else
      match cb_refs s with
      | [] | Some (Farray _) :: _ => ret (Some v)
      | None :: _ => lift Undefined
      | Some (Fobject _ object_element) :: _ =>
          match key_keep_stack s with
          | [] => lift Undefined
          | store_element :: ks =>
              modify (with_key_keep ks) ;;
              if negb store_element then ret None else
              match object_element with Some _ => ret (Some v) | None => lift Undefined end
          end
      end
  end.

(** The second part: the value is put there. *)
Definition store (v : json) : CM unit := λ s,
  match cb_refs s with
  | [] => (Ok tt, with_root v s)
  | Some (Farray items) :: refs => (Ok tt, with_refs (Some (Farray (items ++ [v])) :: refs) s)
  | Some (Fobject m (Some k)) :: refs => (Ok tt, with_refs (Some (Fobject (map_put k v m) (Some k)) :: refs) s)
  | _ => (Undefined, s)
  end.

Definition cb_handle_value (v : json) : CM unit :=
  r <- place v false ;; match r with Some v => store v | None => ret tt end.

(** [start_object] and [start_array]. *)
Definition start_container (event : parse_event_t) (v : json) (f : frame) (len max_size : Z) (kind : string) : CM unit :=
  s <- get_state ;;
  r <- ask (depth s) event (discarded s) ;;
  modify (with_discarded r.2) ;;
  modify (λ s, with_keep (r.1 :: keep_stack s) s) ;;
  r <- place v true ;;
  modify (λ s, with_refs (((λ _, f) <$> r) :: cb_refs s) s) ;;
  match r with
  | Some _ =>
      if negb (len =? no_limit) && (max_size <? len)
      then throw (exception_create out_of_range 408 ("excessive " +:+ kind +:+ " size: " +:+ to_string len))
      else ret tt
  | None => ret tt
  end.

Definition cb_key (val : string) : CM unit :=
  s <- get_state ;;
  r <- ask (depth s) key (jstring val) ;;
  modify (λ s, with_key_keep (r.1 :: key_keep_stack s) s) ;;
  match cb_refs s with
  | [] => lift Undefined
  | Some (Fobject m object_element) :: refs =>
      if r.1 then modify (λ s, with_refs (Some (Fobject (map_put val (discarded s) m) (Some val)) :: refs) s) else ret tt
  | Some (Farray _) :: _ => if r.1 then lift Undefined else ret tt
  | None :: _ => ret tt
  end.

Definition frame_value (f : frame) : json :=
  match f with Farray items => jarray items | Fobject m _ => jobject m end.

(** The end of a container: it is what the callback made of it, or discarded. *)
Definition end_container (event : parse_event_t) : CM bool :=
  s <- get_state ;;
  match cb_refs s, keep_stack s with
  | Some f :: refs, _ :: ks =>
      r <- ask (depth s - 1) event (frame_value f) ;;
      modify (λ s, with_keep ks (with_refs refs s)) ;;
      store (if r.1 then r.2 else discarded s) ;;
      ret r.1
  | None :: refs, _ :: ks =>
      modify (λ s, with_keep ks (with_refs refs s)) ;;
      ret true
  | _, _ => lift Undefined
  end.

(** The loop over the members that erases the first discarded one. *)
Fixpoint erase_discarded (m : std_map json) : std_map json :=
  match m with
  | [] => []
  | (k, v) :: m => match v with jdiscarded => m | _ => (k, v) :: erase_discarded m end
  end.

Definition cb_end_object : CM unit :=
  end_container object_end ;;
  s <- get_state ;;
  match cb_refs s with
  | Some (Fobject m object_element) :: refs => put_state (with_refs (Some (Fobject (erase_discarded m) object_element) :: refs) s)
  | _ => ret tt
  end.

Definition cb_end_array : CM unit :=
  keep <- end_container array_end ;;
  if keep : bool then ret tt else
  s <- get_state ;;
  match cb_refs s with
  | [] => ret tt
  | None :: _ => lift Undefined
  | Some (Farray items) :: refs => put_state (with_refs (Some (Farray (removelast items)) :: refs) s)
  | Some (Fobject _ _) :: _ => ret tt
  end.

Definition cb_event (e : sax_event) : CM unit :=
  match e with
  | ev_null => cb_handle_value jnull
  | ev_boolean val => cb_handle_value (jboolean val)
  | ev_number_integer val => cb_handle_value (jnumber_integer val)
  | ev_number_unsigned val => cb_handle_value (jnumber_unsigned val)
  | ev_number_float val _ => cb_handle_value (jnumber_float val)
  | ev_string val => cb_handle_value (jstring val)
  | ev_start_object len => start_container object_start (jobject []) (Fobject [] None) len object_max_size "object"
  | ev_key val => cb_key val
  | ev_end_object => cb_end_object
  | ev_start_array len => start_container array_start (jarray []) (Farray []) len array_max_size "array"
  | ev_end_array => cb_end_array
  end.

Definition callback_handler (allow_exceptions : bool) : SaxHandler (callback_state C) := {|
  on_event e := cb_event e ;; ret true;
  on_parse_error ex :=
    modify with_errored ;;
    if allow_exceptions then throw ex else ret false;
|}.

(** The constructor. *)
Definition callback_init (c : C) : callback_state C :=
  CallbackState jnull [] [true] [] jdiscarded false c.

(** [parser::parse] with a callback, at its end. *)
Definition finish_callback (s : callback_state C) : json :=
  if cb_errored s then jdiscarded
  else match cb_root s with jdiscarded => jnull | v => v end.

(** [json::parse(input, callback, allow_exceptions)]. *)
Definition json_parse_callback (allow_exceptions : bool) (input : string) (c : C) : outcome exn json :=
  let '(o, p) := drv_parse (callback_handler allow_exceptions) (parse_fuel input) (drv_init input (callback_init c)) in
  obind o (λ _, Ok (finish_callback (drv_sax p))).
End handler.

(** A callback without state that decides by the event and the value. *)
Definition pure_callback (keep : Z → parse_event_t → json → bool) : parser_callback_t unit :=
  λ d e v _, (keep d e v, v, tt).

Local Abbreviation filter keep text := (json_parse_callback (H := x86_64) (pure_callback keep) true (quoted text) tt).

(** Values of arrays, and objects of objects, are left out. *)
Example filter_samples :
  filter (λ _ e v, match e, v with value, jnumber_unsigned 2 => false | _, _ => true end) "[1, 2, 3]"
    = Ok (jarray [jnumber_unsigned 1; jnumber_unsigned 3])
  ∧ filter (λ d e _, match e with object_start => d =? 0 | _ => true end) "{|a|: {|x|: 1}, |b|: 2}"
    = Ok (jobject [("b", jnumber_unsigned 2)])
  ∧ filter (λ _ e _, match e with object_start => false | _ => true end) "{}" = Ok jnull.
Proof. vm_compute. done. Qed.

(** A member whose value is discarded stays, as does an array in an object or
    an object in an array. *)
Example filter_leaves :
  filter (λ _ e _, match e with value => false | _ => true end) "{|a|: 1}" = Ok (jobject [("a", jdiscarded)])
  ∧ filter (λ _ e _, match e with array_start => false | _ => true end) "{|a|: [1]}" = Ok (jobject [("a", jdiscarded)])
  ∧ filter (λ _ e _, match e with object_end => false | _ => true end) "[{}]" = Ok (jarray [jdiscarded]).
Proof. vm_compute. done. Qed.

(** What is inside of a discarded container is put below a null pointer. *)
Example filter_null_pointer :
  filter (λ _ e _, match e with key => false | _ => true end) "{|a|: [1]}" = Undefined
  ∧ filter (λ d e _, match e with array_start => negb (d =? 0) | _ => true end) "[[]]" = Undefined.
Proof. vm_compute. done. Qed.

(** ** What is left of a document

    The same by recursion on the document.  A value has a spot: at the top, in
    an array, in an object at a key that is kept or not, or nowhere, below a
    container that was not kept. *)

Inductive spot : Type := At_top | In_array | In_object (store_element : bool) | Nowhere.

(** A value that has no spot is written through a null pointer. *)
Definition at_spot (sp : spot) (v : json) : outcome exn (option json) :=
  match sp with
  | Nowhere => Undefined
  | In_object false => Ok None
  | _ => Ok (Some v)
  end.

Definition is_object_doc (d : doc) : bool := match d with Dobject _ => true | _ => false end.

Section visit.
Context {C : Type} (callback : parser_callback_t C).

(** The discarded value and the callback's own state. *)
Local Abbreviation VM := (M exn (json * C)).

Definition consult (depth : nat) (event : parse_event_t) (v : json) : VM (bool * json) := λ e,
  let '(keep, v', c) := callback (wrap_signed 32 (Z.of_nat depth)) event v e.2 in (Ok (keep, v'), (e.1, c)).

(** At the start of a container: the callback's decision, and the spot if there
    is one; the callback may write to the discarded value. *)
Definition enter (depth : nat) (event : parse_event_t) (sp : spot) (v : json) : VM (bool * option json) :=
  e <- get_state ;;
  r <- consult depth event e.1 ;;
  modify (λ e, (r.2, e.2)) ;;
  p <- (if (r.1 : bool) then lift (at_spot sp v) else ret None) ;;
  ret (r.1, p).

Definition visit_elements (visit : doc → VM (option json)) : list doc → VM (list json) :=
  fix go ds :=
    match ds with
    | [] => ret []
    | d :: ds => r <- visit d ;; items <- go ds ;; ret (option_list r ++ items)
    end.

(** A member of an object that is kept, then those that follow. *)
Definition visit_members (visit : bool → doc → VM (option json)) (depth : nat) :
    list (string * doc) → std_map json → VM (std_map json) :=
  fix go ms m :=
    match ms with
    | [] => ret m
    | (k, d) :: ms =>
        r <- consult depth key (jstring k) ;;
        e <- get_state ;;
        let m := if (r.1 : bool) then map_put k e.1 m else m in
        v <- visit r.1 d ;;
        let m := match v with Some v => map_put k v m | None => m end in
        go ms (if is_object_doc d then erase_discarded m else m)
    end.

(** The members of an object that is not kept. *)
Definition skip_members (visit : doc → VM (option json)) (depth : nat) : list (string * doc) → VM unit :=
  fix go ms :=
    match ms with
    | [] => ret tt
    | (k, d) :: ms => consult depth key (jstring k) ;; visit d ;; go ms
    end.

(** What becomes of the value: [None] when it is left out.  [keep] is the
    decision on the container around it. *)
Fixpoint visit (d : doc) (sp : spot) (keep : bool) (depth : nat) : VM (option json) :=
  match d with
  | Dscalar e =>
      if negb keep then ret None else
      r <- consult depth value (default jnull (scalar_value_of e)) ;;
      if (r.1 : bool) then lift (at_spot sp r.2) else ret None
  | Darray ds =>
      r <- enter depth array_start sp (jarray []) ;;
      match r.2 with
      | None => visit_elements (λ d, visit d Nowhere r.1 (S depth)) ds ;; ret None
      | Some _ =>
          items <- visit_elements (λ d, visit d In_array true (S depth)) ds ;;
          r <- consult depth array_end (jarray items) ;;
          e <- get_state ;;
          ret (if (r.1 : bool) then Some r.2 else match sp with In_array => None | _ => Some e.1 end)
      end
  | Dobject ms =>
      r <- enter depth object_start sp (jobject []) ;;
      match r.2 with
      | None => skip_members (λ d, visit d Nowhere r.1 (S depth)) (S depth) ms ;; ret None
      | Some _ =>
          m <- visit_members (λ b d, visit d (In_object b) true (S depth)) (S depth) ms [] ;;
          r <- consult depth object_end (jobject m) ;;
          e <- get_state ;;
          ret (Some (if (r.1 : bool) then r.2 else e.1))
      end
  end.

(** What is left at the top. *)
Definition visit_top (d : doc) (c : C) : outcome exn json :=
  obind (visit d At_top true O (jdiscarded, c)).1
    (λ r, Ok (match r with None | Some jdiscarded => jnull | Some v => v end)).
End visit.

(** ** The handler follows the recursion *)

Section heard.
Context `{Machine} {C : Type} (callback : parser_callback_t C).
Local Abbreviation VM := (M exn (json * C)).
Local Abbreviation hdl := (callback_handler callback true).

Definition cb_at (r : json) (refs : list (option frame)) (ks kk : list bool) (e : json * C) : callback_state C :=
  CallbackState r refs ks kk e.1 false e.2.

(** After [es] the handler is where the result says, or had the same failure. *)
Definition heard {A} (es : list sax_event) (s : callback_state C) (res : outcome exn A * (json * C))
    (Q : A → json * C → callback_state C → Prop) : Prop :=
  match res.1 with
  | Ok a => ∃ s', run_events (handler := hdl) es s = (Ok true, s') ∧ Q a res.2 s'
  | o => ∃ s', run_events (handler := hdl) es s = (obind o (λ _, Ok true), s')
  end.

Lemma heard_seq {A B} es es' s (m : VM A) (k : A → VM B) e Q' Q :
  heard es s (m e) Q' → (∀ a e' s', Q' a e' s' → heard es' s' (k a e') Q) → heard (es ++ es') s (bind m k e) Q.
Proof.
  intros Hm Hk. unfold heard, bind in *. rewrite run_events_app. destruct (m e) as [[a|ex| |] e']; cbn [fst snd] in *;
    [|by destruct Hm as [s' ->]; exists s'..].
  destruct Hm as (s' & -> & HQ). apply (Hk a e' s' HQ).
Qed.

Lemma heard_event {A} ev s (res : outcome exn A * (json * C)) Q o s' :
  cb_event callback ev s = (o, s') →
  match res.1 with Ok a => o = Ok tt ∧ Q a res.2 s' | o' => o = obind o' (λ _, Ok tt) end →
  heard [ev] s res Q.
Proof.
  intros Hev Hres. unfold heard. cbn. unfold bind. rewrite Hev.
  destruct res as [[a|ex| |] e']; cbn [fst snd] in *; [destruct Hres as [-> HQ]; by exists s'|subst o; by exists s'..].
Qed.

Lemma heard_mono {A} es s (res : outcome exn A * (json * C)) (Q Q' : A → json * C → callback_state C → Prop) :
  heard es s res Q' → (∀ a e' s', Q' a e' s' → Q a e' s') → heard es s res Q.
Proof. unfold heard. destruct res as [[a|ex| |] e']; cbn; [|done..]. intros (s' & -> & HQ) Hm. eauto. Qed.

Lemma heard_done {A} s (a : A) e Q : Q a e s → heard [] s (Ok a, e) Q.
Proof. intros HQ. by exists s. Qed.

(** The stacks for a value at a spot. *)
Definition spot_ok (sp : spot) (refs : list (option frame)) (kk : list bool) : Prop :=
  match sp, refs with
  | At_top, [] | In_array, Some (Farray _) :: _ | Nowhere, None :: _ => True
  | In_object b, Some (Fobject _ el) :: _ => hd_error kk = Some b ∧ (b = true → is_Some el)
  | _, _ => False
  end.

(** Where the value goes; the end of an object erases a discarded member. *)
Definition delivered (object : bool) (v : option json) (r : json) (refs : list (option frame)) : json * list (option frame) :=
  match refs with
  | [] => (default r v, [])
  | Some (Farray items) :: refs => (r, Some (Farray (items ++ option_list v)) :: refs)
  | Some (Fobject m el) :: refs =>
      let m := match v, el with Some v, Some k => map_put k v m | _, _ => m end in
      (r, Some (Fobject (if object then erase_discarded m else m) el) :: refs)
  | None :: refs => (r, None :: refs)
  end.

Definition value_heard (d : doc) : Prop := ∀ sp refs kk r ks keep e, spot_ok sp refs kk →
  heard (events_of d) (cb_at r refs (keep :: ks) kk e) (visit callback d sp keep (length refs) e) (λ v e' s',
    (sp = In_object false → v = None) ∧
    ∃ kk', s' = cb_at (delivered (is_object_doc d) v r refs).1 (delivered (is_object_doc d) v r refs).2 (keep :: ks) kk' e').

Lemma scalar_event ev v : scalar_value_of ev = Some v → cb_event callback ev = cb_handle_value callback v.
Proof. destruct ev; cbn; intros; by simplify_eq. Qed.

Lemma place_spot v sp refs kk r ks e :
  spot_ok sp refs kk →
  ∃ kk', place callback v true (cb_at r refs (true :: ks) kk e) = (at_spot sp v, cb_at r refs (true :: ks) kk' e).
Proof.
  intros Hsp. unfold place, bind, get_state, ret, lift, modify. cbn [keep_stack cb_at cb_refs key_keep_stack negb].
  destruct sp as [| |b|], refs as [|[[items|m el]|] refs]; cbn in Hsp; try done; eauto.
  destruct kk as [|b' kk]; destruct Hsp as [[= ->] Hel]. exists kk. destruct b; cbn; [|done].
  by destruct (Hel eq_refl) as [k ->].
Qed.

Lemma place_ask v refs kk r ks e :
  place callback v false (cb_at r refs (true :: ks) kk e)
  = let '(keep, v', c) := callback (wrap_signed 32 (Z.of_nat (length refs))) value v e.2 in
    if keep then place callback v' true (cb_at r refs (true :: ks) kk (e.1, c))
    else (Ok None, cb_at r refs (true :: ks) kk (e.1, c)).
Proof.
  unfold place, bind, get_state, ret, lift, modify, ask, depth. cbn [keep_stack cb_at cb_refs key_keep_stack negb cb_own].
  by destruct (callback _ _ _ _) as [[[] v'] c].
Qed.

Lemma store_spot v sp refs kk kk' r ks e :
  spot_ok sp refs kk → at_spot sp v = Ok (Some v) →
  store v (cb_at r refs ks kk' e) = (Ok tt, cb_at (delivered false (Some v) r refs).1 (delivered false (Some v) r refs).2 ks kk' e).
Proof.
  intros Hsp Hat. unfold store. destruct sp as [| |[]|], refs as [|[[items|m el]|] refs]; cbn in Hsp; try done.
  destruct Hsp as [_ Hel]. by destruct (Hel eq_refl) as [k ->].
Qed.

(** Nothing is delivered. *)
Lemma delivered_none r refs : delivered false None r refs = (r, refs).
Proof. destruct refs as [|[[items|m el]|] refs]; cbn; by rewrite ?app_nil_r. Qed.

Lemma at_spot_cases sp v :
  at_spot sp v = Undefined ∨ at_spot sp v = Ok None ∧ sp = In_object false ∨ at_spot sp v = Ok (Some v) ∧ sp ≠ In_object false.
Proof. destruct sp as [| |[]|]; auto. Qed.

Lemma scalar_heard ev v : scalar_value_of ev = Some v → value_heard (Dscalar ev).
Proof.
  intros Hv sp refs kk r ks keep e Hsp. cbn [events_of visit is_object_doc]. rewrite Hv. cbn [default].
  destruct keep; cbn [negb].
  2:{ eapply heard_event; [by rewrite (scalar_event ev v Hv)|]. cbn. rewrite delivered_none. eauto. }
  pose proof (scalar_event ev v Hv) as Hev. unfold consult, bind. unfold cb_handle_value in Hev.
  pose proof (place_ask v refs kk r ks e) as Hp. destruct (callback _ _ _ _) as [[b v'] c]. destruct b; cbn [fst snd].
  2:{ eapply heard_event; [rewrite Hev; unfold bind; by rewrite Hp|]. cbn. rewrite delivered_none. eauto. }
  destruct (place_spot v' sp refs kk r ks (e.1, c) Hsp) as [kk' Hpl]. rewrite Hpl in Hp.
  unfold lift. destruct (at_spot_cases sp v') as [Ha|[[Ha ->]|[Ha Hne]]]; rewrite Ha in *;
    (eapply heard_event; [rewrite Hev; unfold bind; rewrite Hp; by try apply (store_spot v' sp refs kk)|]); cbn; [done|..].
  - rewrite delivered_none. eauto.
  - split; [done|]. split; [done|by exists kk'].
Qed.

(** *** Containers *)

(** The start of an array or of an object. *)
Definition container_start (ev : sax_event) (event : parse_event_t) (v : json) (f : frame) : Prop :=
  ev = ev_start_array no_limit ∧ event = array_start ∧ v = jarray [] ∧ f = Farray []
  ∨ ev = ev_start_object no_limit ∧ event = object_start ∧ v = jobject [] ∧ f = Fobject [] None.

Lemma start_heard ev event v f sp refs kk r ks keep e :
  container_start ev event v f → spot_ok sp refs kk →
  heard [ev] (cb_at r refs (keep :: ks) kk e) (enter callback (length refs) event sp v e) (λ b e' s',
    (b.2 = None ∨ b.1 = true ∧ at_spot sp jnull = Ok (Some jnull)) ∧
    ∃ kk', s' = cb_at r (((λ _, f) <$> b.2) :: refs) (b.1 :: keep :: ks) kk' e').
Proof.
  intros Hst Hsp.
  assert (Hev : ∃ max kind, cb_event callback ev = start_container callback event v f no_limit max kind)
    by (destruct Hst as [(-> & -> & -> & ->)|(-> & -> & -> & ->)]; cbn; eauto).
  destruct Hev as (max & kind & Hev). unfold enter, consult, bind, get_state, modify.
  unfold start_container, bind, get_state, modify, ask, depth in Hev. apply (f_equal (λ m, m (cb_at r refs (keep :: ks) kk e))) in Hev.
  cbn [cb_own cb_refs discarded cb_at fst snd] in *. destruct (callback _ _ _ _) as [[b v'] c]. cbn [fst snd] in *.
  change (with_keep _ _) with (cb_at r refs (b :: keep :: ks) kk (v', c)) in Hev.
  destruct b.
  2:{ eapply heard_event; [rewrite Hev; reflexivity|]. cbn. eauto. }
  destruct (place_spot v sp refs kk r (keep :: ks) (v', c) Hsp) as [kk' Hpl]. rewrite Hpl in Hev. unfold lift.
  destruct (at_spot_cases sp v) as [Ha|[[Ha ->]|[Ha Hne]]]; rewrite Ha in *;
    (eapply heard_event; [rewrite Hev; reflexivity|]); cbn; [done|..].
  - eauto.
  - split; [done|]. split; [right; split; [done|]; by destruct sp as [| |[]|]|]. by exists kk'.
Qed.

(** The elements of an array that is kept, and of one that is not. *)
Lemma elements_heard ds items r refs ks kk e :
  Forall value_heard ds →
  heard (elements_events ds) (cb_at r (Some (Farray items) :: refs) (true :: ks) kk e)
    (visit_elements (λ d, visit callback d In_array true (S (length refs))) ds e)
    (λ its e' s', ∃ kk', s' = cb_at r (Some (Farray (items ++ its)) :: refs) (true :: ks) kk' e').
Proof.
  intros Hds. revert items kk e. induction Hds as [|d ds Hd _ IH]; intros items kk e.
  { apply heard_done. exists kk. by rewrite app_nil_r. }
  change (elements_events (d :: ds)) with (events_of d ++ elements_events ds). cbn [visit_elements].
  eapply heard_seq; [by apply (Hd In_array (Some (Farray items) :: refs))|].
  intros v e' s' (_ & kk' & ->). cbn [delivered fst snd].
  rewrite <-(app_nil_r (elements_events ds)). eapply heard_seq; [apply IH|]. intros its e2 s2 (kk2 & ->).
  apply heard_done. exists kk2. by rewrite app_assoc.
Qed.

Lemma elements_skipped ds r refs ks keep kk e :
  Forall value_heard ds →
  heard (elements_events ds) (cb_at r (None :: refs) (keep :: ks) kk e)
    (visit_elements (λ d, visit callback d Nowhere keep (S (length refs))) ds e)
    (λ _ e' s', ∃ kk', s' = cb_at r (None :: refs) (keep :: ks) kk' e').
Proof.
  intros Hds. revert kk e. induction Hds as [|d ds Hd _ IH]; intros kk e; [apply heard_done; by exists kk|].
  change (elements_events (d :: ds)) with (events_of d ++ elements_events ds). cbn [visit_elements].
  eapply heard_seq; [by apply (Hd Nowhere (None :: refs))|]. intros v e' s' (_ & kk' & ->). cbn [delivered fst snd].
  rewrite <-(app_nil_r (elements_events ds)). eapply heard_seq; [apply IH|]. intros its e2 s2 (kk2 & ->).
  apply heard_done. by exists kk2.
Qed.

(** The key of a member. *)
Lemma key_heard k m el r refs ks kk e :
  heard [ev_key k] (cb_at r (Some (Fobject m el) :: refs) ks kk e) (consult callback (S (length refs)) key (jstring k) e)
    (λ b e' s', s' = cb_at r (Some (if b.1 then Fobject (map_put k e'.1 m) (Some k) else Fobject m el) :: refs) ks (b.1 :: kk) e').
Proof.
  set (s := cb_at _ _ _ _ _).
  assert (Hev : cb_event callback (ev_key k) s
    = let '(b, _, c) := callback (wrap_signed 32 (Z.of_nat (S (length refs)))) key (jstring k) e.2 in
      (Ok tt, cb_at r (Some (if b then Fobject (map_put k e.1 m) (Some k) else Fobject m el) :: refs) ks (b :: kk) (e.1, c))).
  { cbn [cb_event]. unfold cb_key, bind, get_state, modify, ask, depth, s. cbn [cb_refs cb_at length cb_own].
    by destruct (callback _ _ _ _) as [[[] v'] c]. }
  unfold consult. destruct (callback _ _ _ _) as [[b v'] c]. by eapply heard_event; [exact Hev|].
Qed.

Lemma key_skipped k r refs ks kk e :
  heard [ev_key k] (cb_at r (None :: refs) ks kk e) (consult callback (S (length refs)) key (jstring k) e)
    (λ b e' s', s' = cb_at r (None :: refs) ks (b.1 :: kk) e').
Proof.
  set (s := cb_at _ _ _ _ _).
  assert (Hev : cb_event callback (ev_key k) s
    = let '(b, _, c) := callback (wrap_signed 32 (Z.of_nat (S (length refs)))) key (jstring k) e.2 in
      (Ok tt, cb_at r (None :: refs) ks (b :: kk) (e.1, c))).
  { cbn [cb_event]. unfold cb_key, bind, get_state, modify, ask, depth, s. cbn [cb_refs cb_at length cb_own].
    by destruct (callback _ _ _ _) as [[[] v'] c]. }
  unfold consult. destruct (callback _ _ _ _) as [[b v'] c]. by eapply heard_event; [exact Hev|].
Qed.

(** The members of an object that is kept, and of one that is not. *)
Lemma members_heard ms m el r refs ks kk e :
  Forall (λ kd, value_heard kd.2) ms →
  heard (members_events ms) (cb_at r (Some (Fobject m el) :: refs) (true :: ks) kk e)
    (visit_members callback (λ b d, visit callback d (In_object b) true (S (length refs))) (S (length refs)) ms m e)
    (λ m' e' s', ∃ el' kk', s' = cb_at r (Some (Fobject m' el') :: refs) (true :: ks) kk' e').
Proof.
  intros Hms. revert m el kk e. induction Hms as [|[k d] ms Hd _ IH]; intros m el kk e.
  { apply heard_done. by exists el, kk. }
  change (members_events ((k, d) :: ms)) with ([ev_key k] ++ events_of d ++ members_events ms). cbn [visit_members].
  eapply heard_seq; [apply key_heard|]. intros b e1 s1 ->. unfold bind at 1, get_state.
  set (f := if b.1 then Fobject (map_put k e1.1 m) (Some k) else Fobject m el).
  assert (Hsp : spot_ok (In_object b.1) (Some f :: refs) (b.1 :: kk)) by (unfold f; by destruct b.1; cbn; split; eauto).
  eapply heard_seq; [exact (Hd _ _ _ r ks true e1 Hsp)|]. intros v e2 s2 (Hnone & kk2 & ->). unfold f. destruct b as [[] b2]; cbn [fst].
  - cbn [delivered fst snd]. apply IH.
  - rewrite (Hnone eq_refl). cbn [delivered fst snd]. apply IH.
Qed.

Lemma members_skipped ms r refs ks keep kk e :
  Forall (λ kd, value_heard kd.2) ms →
  heard (members_events ms) (cb_at r (None :: refs) (keep :: ks) kk e)
    (skip_members callback (λ d, visit callback d Nowhere keep (S (length refs))) (S (length refs)) ms e)
    (λ _ e' s', ∃ kk', s' = cb_at r (None :: refs) (keep :: ks) kk' e').
Proof.
  intros Hms. revert kk e. induction Hms as [|[k d] ms Hd _ IH]; intros kk e; [apply heard_done; by exists kk|].
  change (members_events ((k, d) :: ms)) with ([ev_key k] ++ events_of d ++ members_events ms). cbn [skip_members].
  eapply heard_seq; [apply key_skipped|]. intros b e1 s1 ->.
  eapply heard_seq; [by apply (Hd Nowhere (None :: refs))|]. intros v e2 s2 (_ & kk2 & ->). apply IH.
Qed.

(** The end of a container that was kept. *)
Lemma end_kept f event sp refs kk kk0 b r ks e :
  spot_ok sp refs kk0 → at_spot sp jnull = Ok (Some jnull) →
  end_container callback event (cb_at r (Some f :: refs) (b :: ks) kk e)
  = let '(keep, v', c) := callback (wrap_signed 32 (Z.of_nat (length refs))) event (frame_value f) e.2 in
    let v := if (keep : bool) then v' else e.1 in
    (Ok keep, cb_at (delivered false (Some v) r refs).1 (delivered false (Some v) r refs).2 ks kk (e.1, c)).
Proof.
  intros Hsp Hat. unfold end_container, bind, get_state, modify, ask, depth. cbn [cb_refs keep_stack cb_at length cb_own].
  replace (Z.of_nat (S (length refs)) - 1) with (Z.of_nat (length refs)) by lia.
  destruct (callback _ _ _ _) as [[keep v'] c]. cbn [fst snd discarded].
  change (with_keep ks _) with (cb_at r refs ks kk (e.1, c)).
  rewrite (store_spot _ sp refs kk0); [done|done|]. by destruct sp as [| |[]|].
Qed.

Lemma end_array_heard items sp refs kk kk0 b r ks e :
  spot_ok sp refs kk0 → at_spot sp jnull = Ok (Some jnull) →
  heard [ev_end_array] (cb_at r (Some (Farray items) :: refs) (b :: ks) kk e)
    ((r <- consult callback (length refs) array_end (jarray items) ;; e <- get_state ;;
      ret (if (r.1 : bool) then Some r.2 else match sp with In_array => None | _ => Some e.1 end)) e)
    (λ v e' s', s' = cb_at (delivered false v r refs).1 (delivered false v r refs).2 ks kk e').
Proof.
  intros Hsp Hat. pose proof (end_kept (Farray items) array_end sp refs kk kk0 b r ks e Hsp Hat) as Hend.
  unfold consult, bind at 1 2, get_state. cbn [frame_value] in Hend. destruct (callback _ _ _ _) as [[keep v'] c].
  eapply heard_event; [cbn [cb_event]; unfold cb_end_array, bind at 1; rewrite Hend; apply surjective_pairing|].
  destruct keep; [done|]. unfold bind, get_state.
  destruct sp as [| |[]|], refs as [|[[its|m el]|] refs]; cbn in Hsp; try done.
  cbn. by rewrite removelast_last, app_nil_r.
Qed.

Lemma end_object_heard m el sp refs kk kk0 b r ks e :
  spot_ok sp refs kk0 → at_spot sp jnull = Ok (Some jnull) →
  heard [ev_end_object] (cb_at r (Some (Fobject m el) :: refs) (b :: ks) kk e)
    ((r <- consult callback (length refs) object_end (jobject m) ;; e <- get_state ;;
      ret (Some (if (r.1 : bool) then r.2 else e.1))) e)
    (λ v e' s', s' = cb_at (delivered true v r refs).1 (delivered true v r refs).2 ks kk e').
Proof.
  intros Hsp Hat. pose proof (end_kept (Fobject m el) object_end sp refs kk kk0 b r ks e Hsp Hat) as Hend.
  unfold consult, bind at 1 2, get_state. cbn [frame_value] in Hend. destruct (callback _ _ _ _) as [[keep v'] c].
  eapply heard_event; [cbn [cb_event]; unfold cb_end_object, bind at 1; rewrite Hend; apply surjective_pairing|].
  unfold bind, get_state. by destruct sp as [| |[]|], refs as [|[[its|m' el']|] refs]; cbn in Hsp; try done.
Qed.

(** The end of one that was not. *)
Lemma end_skipped ev (object : bool) refs b kk r ks e :
  ev = (if object then ev_end_object else ev_end_array) →
  heard [ev] (cb_at r (None :: refs) (b :: ks) kk e) (Ok None, e)
    (λ v e' s', v = None ∧ s' = cb_at (delivered object v r refs).1 (delivered object v r refs).2 ks kk e').
Proof.
  intros ->. destruct object; (eapply heard_event; [apply surjective_pairing|]); cbn.
  - by destruct refs as [|[[items|m el]|] refs]; cbn; rewrite ?app_nil_r.
  - by rewrite delivered_none.
Qed.


Lemma array_heard ds : Forall value_heard ds → value_heard (Darray ds).
Proof.
  intros Hds sp refs kk r ks keep e Hsp. cbn [events_of visit is_object_doc]. fold (elements_events ds).
  change (?x :: ?l ++ ?y) with ([x] ++ (l ++ y)).
  eapply heard_seq; [eapply start_heard; [by left|exact Hsp]|]. intros [b p] e1 s1 [Hp [kk1 ->]]. cbn [fst snd] in *.
  destruct p as [x|]; cbn [fmap option_fmap option_map].
  - destruct Hp as [|[-> Hat]]; [done|]. eapply heard_seq; [by apply elements_heard|].
    intros its e2 s2 [kk2 ->]. cbn [app]. eapply heard_mono; [by eapply end_array_heard|].
    intros v e' s' ->. split; [by intros ->|eauto].
  - eapply heard_seq; [by apply elements_skipped|]. intros _ e2 s2 [kk2 ->].
    eapply heard_mono; [by apply (end_skipped _ false)|]. intros v e' s' [-> ->]. eauto.
Qed.

Lemma object_heard ms : Forall (λ kd, value_heard kd.2) ms → value_heard (Dobject ms).
Proof.
  intros Hms sp refs kk r ks keep e Hsp. cbn [events_of visit is_object_doc]. fold (members_events ms).
  change (?x :: ?l ++ ?y) with ([x] ++ (l ++ y)).
  eapply heard_seq; [eapply start_heard; [by right|exact Hsp]|]. intros [b p] e1 s1 [Hp [kk1 ->]]. cbn [fst snd] in *.
  destruct p as [x|]; cbn [fmap option_fmap option_map].
  - destruct Hp as [|[-> Hat]]; [done|]. eapply heard_seq; [by apply members_heard|].
    intros m e2 s2 (el & kk2 & ->). eapply heard_mono; [by eapply end_object_heard|].
    intros v e' s' ->. split; [by intros ->|eauto].
  - eapply heard_seq; [by apply members_skipped|]. intros _ e2 s2 [kk2 ->].
    eapply heard_mono; [by apply (end_skipped _ true)|]. intros v e' s' [-> ->]. eauto.
Qed.

Lemma doc_heard d : doc_ok d = true → value_heard d.
Proof.
  induction d as [ev|ds IH|ms IH] using doc_ind; intros Hok; cbn in Hok.
  - destruct (scalar_value_of ev) as [v|] eqn:E; [|done]. by eapply scalar_heard.
  - rewrite forallb_forall in Hok. apply array_heard. rewrite Forall_forall in *. intros d Hd. apply IH; [done|].
    by apply Hok, list_elem_of_In.
  - rewrite forallb_forall in Hok. apply object_heard. rewrite Forall_forall in *. intros d Hd. apply IH; [done|].
    by apply Hok, list_elem_of_In.
Qed.

(** A whole document. *)
Lemma top_heard d c : doc_ok d = true →
  match visit_top callback d c with
  | Ok v => ∃ s, run_events (handler := hdl) (events_of d) (callback_init c) = (Ok true, s) ∧ finish_callback s = v
  | o => ∃ s, run_events (handler := hdl) (events_of d) (callback_init c) = (obind o (λ _, Ok true), s)
  end.
Proof.
  intros Hd. pose proof (doc_heard d Hd At_top [] [] jnull [] true (jdiscarded, c) I) as Hh.
  unfold heard, visit_top in *. change (cb_at jnull [] [true] [] (jdiscarded, c)) with (callback_init c) in Hh.
  cbn [length] in Hh. destruct (visit callback d At_top true 0 (jdiscarded, c)) as [[v|ex| |] e']; cbn [fst snd obind] in *; try done.
  destruct Hh as (s & -> & _ & kk & ->). eexists. split; [done|]. by destruct v as [[]|].
Qed.
End heard.

(** Events do not depend on what happens at errors. *)
Lemma run_events_callback `{Machine} {C} (callback : parser_callback_t C) allow es s :
  run_events (handler := callback_handler callback allow) es s = run_events (handler := callback_handler callback true) es s.
Proof.
  revert s. induction es as [|e es IH]; intros s; [done|]. cbn. unfold bind. by destruct (cb_event callback e s) as [[u| | |] s'].
Qed.

(** A text that [parse] accepts, as a document. *)
Lemma callback_document `{Machine} {C} (callback : parser_callback_t C) allow input c v :
  json_parse input = Ok v →
  ∃ d, doc_ok d = true ∧ value_of d = v ∧ json_parse_callback callback allow input c = visit_top callback d c.
Proof.
  intros Hv. destruct (parsed_document input v Hv) as (t & l & d & Hr & Hd & Hval). exists d. split_and!; [done|done|].
  unfold json_parse_callback.
  pose proof (parse_replay (callback_handler callback allow) input (callback_init c) _ _ _ _ Hr ltac:(done)) as Hrep.
  rewrite run_events_callback in Hrep. pose proof (top_heard callback d c Hd) as Htop.
  destruct (drv_parse _ _ _) as [o p].
  destruct (visit_top callback d c) as [w|ex| |]; [destruct Htop as (s & Hs & Hw)|destruct Htop as (s & Hs)..]; rewrite Hs in Hrep.
  - destruct Hrep as [-> ->]. cbn. by rewrite Hw.
  - by destruct Hrep as [-> _].
  - by destruct Hrep as [-> _].
  - by destruct Hrep as [-> _].
Qed.


(** A callback that counts the values and leaves out those of the keys it does
    not know. *)
Definition counting_callback : parser_callback_t nat := λ _ e v n,
  match e, v with
  | key, jstring k => (String.eqb k "a", v, n)
  | value, _ => (true, v, S n)
  | _, _ => (true, v, n)
  end.


(** ** Callbacks that keep everything *)

Section keep_all.
Context {C : Type} (callback : parser_callback_t C).
Context (Hkeep : ∀ d e v c, (callback d e v c).1 = (true, v)).

Lemma consult_keeps depth event v e :
  ∃ c, consult callback depth event v e = (Ok (true, v), (e.1, c)).
Proof.
  unfold consult. pose proof (Hkeep (wrap_signed 32 (Z.of_nat depth)) event v e.2) as Hk.
  destruct (callback _ _ _ _) as [[b v'] c]. injection Hk as -> ->. by exists c.
Qed.

Lemma enter_keeps depth event sp v e :
  at_spot sp v = Ok (Some v) → ∃ c, enter callback depth event sp v e = (Ok (true, Some v), (e.1, c)).
Proof.
  intros Hat. unfold enter, bind, get_state, modify. destruct (consult_keeps depth event e.1 e) as [c ->]. cbn.
  unfold lift. rewrite Hat. by exists c.
Qed.

Definition visit_keeps (d : doc) : Prop := ∀ sp depth c,
  (∀ v, at_spot sp v = Ok (Some v)) →
  ∃ c', visit callback d sp true depth (jdiscarded, c) = (Ok (Some (value_of d)), (jdiscarded, c')).

Lemma elements_keep ds depth c :
  Forall visit_keeps ds →
  ∃ c', visit_elements (λ d, visit callback d In_array true depth) ds (jdiscarded, c)
        = (Ok (map value_of ds), (jdiscarded, c')).
Proof.
  intros Hds. revert c. induction Hds as [|d ds Hd _ IH]; intros c; cbn [visit_elements]; [by exists c|].
  destruct (Hd In_array depth c ltac:(done)) as [c1 H1]. rewrite (bind_run _ _ _ _ _ H1).
  destruct (IH c1) as [c2 H2]. rewrite (bind_run _ _ _ _ _ H2). by exists c2.
Qed.

Definition no_discarded (m : std_map json) : Prop := Forall (λ kv, kv.2 ≠ jdiscarded) m.

Lemma erase_no_discarded m : no_discarded m → erase_discarded m = m.
Proof. induction 1 as [|[k v] m Hv _ IH]; [done|]. cbn in *. rewrite IH. by destruct v. Qed.

Lemma no_discarded_put k v m : v ≠ jdiscarded → no_discarded m → no_discarded (map_put k v m).
Proof.
  intros Hv. unfold no_discarded. induction 1 as [|[k' v'] m Hv' Hm IH]; cbn [map_put]; [by repeat constructor|].
  destruct (String.compare k k'); by repeat constructor.
Qed.

Lemma value_of_kept d : doc_ok d = true → value_of d ≠ jdiscarded.
Proof. destruct d as [e| |]; cbn; [|done..]. by destruct e. Qed.

Lemma members_keep ms depth m c :
  Forall (λ kd, visit_keeps kd.2 ∧ doc_ok kd.2 = true) ms → map_wf m → no_discarded m →
  ∃ c', visit_members callback (λ b d, visit callback d (In_object b) true depth) depth ms m (jdiscarded, c)
        = (Ok (foldl (λ m kv, map_put kv.1 kv.2 m) m (map (λ kd, (kd.1, value_of kd.2)) ms)), (jdiscarded, c')).
Proof.
  intros Hms. revert m c. induction Hms as [|[k d] ms [Hd Hok] _ IH]; intros m c Hwf Hm; cbn [visit_members]; [by exists c|].
  destruct (consult_keeps depth key (jstring k) (jdiscarded, c)) as [c1 H1]. rewrite (bind_run _ _ _ _ _ H1).
  rewrite (bind_run _ _ _ _ _ (eq_refl : get_state (E := exn) (jdiscarded, c1) = (Ok (jdiscarded, c1), (jdiscarded, c1)))).
  cbn [fst snd] in *. destruct (Hd (In_object true) depth c1 ltac:(done)) as [c2 H2]. rewrite (bind_run _ _ _ _ _ H2).
  rewrite map_put_put by done. assert (Hm' : no_discarded (map_put k (value_of d) m)).
  { apply no_discarded_put; [by apply value_of_kept|done]. }
  rewrite erase_no_discarded by done. replace (if is_object_doc d then _ else _) with (map_put k (value_of d) m) by (by case_match).
  apply IH; [by apply map_put_wf|done].
Qed.

Lemma doc_keeps d : doc_ok d = true → visit_keeps d.
Proof.
  induction d as [ev|ds IH|ms IH] using doc_ind; intros Hok sp depth c Hat; cbn [visit value_of].
  - cbn [negb]. destruct (consult_keeps depth value (default jnull (scalar_value_of ev)) (jdiscarded, c)) as [c1 H1].
    rewrite (bind_run _ _ _ _ _ H1). cbn [fst snd]. unfold lift. rewrite Hat. by exists c1.
  - destruct (enter_keeps depth array_start sp (jarray []) (jdiscarded, c) (Hat _)) as [c1 H1]. rewrite (bind_run _ _ _ _ _ H1).
    cbn [fst snd]. cbn in Hok. rewrite forallb_forall in Hok.
    destruct (elements_keep ds (S depth) c1) as [c2 H2].
    { rewrite Forall_forall in *. intros d Hd. apply IH; [done|]. by apply Hok, list_elem_of_In. }
    rewrite (bind_run _ _ _ _ _ H2). destruct (consult_keeps depth array_end (jarray (map value_of ds)) (jdiscarded, c2)) as [c3 H3].
    rewrite (bind_run _ _ _ _ _ H3). by exists c3.
  - destruct (enter_keeps depth object_start sp (jobject []) (jdiscarded, c) (Hat _)) as [c1 H1]. rewrite (bind_run _ _ _ _ _ H1).
    cbn [fst snd]. cbn in Hok. rewrite forallb_forall in Hok.
    destruct (members_keep ms (S depth) [] c1) as [c2 H2]; [|apply map_wf_nil|constructor|].
    { rewrite Forall_forall in *. intros kd Hd. assert (Hk : doc_ok kd.2 = true) by (by apply Hok, list_elem_of_In).
      split; [by apply IH|done]. }
    rewrite (bind_run _ _ _ _ _ H2). edestruct (consult_keeps depth object_end) as [c3 H3]. rewrite (bind_run _ _ _ _ _ H3). by exists c3.
Qed.
End keep_all.

(** A callback that keeps everything and leaves the values alone, whatever
    it notes for itself, does not change what a text is parsed to. *)
Theorem parse_callback_keeps `{Machine} {C} (callback : parser_callback_t C) allow input c v :
  (∀ d e v c, (callback d e v c).1 = (true, v)) → json_parse input = Ok v →
  json_parse_callback callback allow input c = Ok v.
Proof.
  intros Hkeep Hv. destruct (callback_document callback allow input c v Hv) as (d & Hd & <- & ->). unfold visit_top.
  destruct (doc_keeps callback Hkeep d Hd At_top O c ltac:(done)) as [c' ->]. cbn.
  pose proof (value_of_kept d Hd) as Hne. by destruct (value_of d).
Qed.

Lemma parse_callback_keeps_witness :
  json_parse_callback (H := x86_64) (λ _ _ v n, (true, v, S n)) true (quoted "{|b|: {}, |a|: [1, {|c|: null}]}") O
  = Ok (jobject [("a", jarray [jnumber_unsigned 1; jobject [("c", jnull)]]); ("b", jobject [])]).
Proof. apply (parse_callback_keeps (H := x86_64)); [done|by vm_compute]. Defined.
