(* ===== verification/JsonEqual.v ===== *)
(** * Equality of values (json.hpp, [operator==])

    Numbers of different types are converted before they are compared, so the
    relation is neither reflexive (NaN) nor transitive. *)

From stdpp Require Import base gmap strings list.
From Stdlib Require Import ZArith Ascii Lia.
From S2P Require Import Prelude Cxx StdMap JsonValue JsonLexer.

(** ** Numbers *)

(** [static_cast<double>] of an integer: to nearest. *)
Definition integer_to_double (z : Z) : double := round_ratio (z <? 0) (Z.abs z) 1.

(** [==] on doubles. *)
Definition double_eq (a b : double) : bool :=
  match a, b with
  | Dfin s m e, Dfin s' m' e' =>
      let least := Z.min e e' in
      let value (s : bool) m e := (if s then - m else m) * 2 ^ (e - least) in
      value s m e =? value s' m' e'
  | Dinf s, Dinf s' => Bool.eqb s s'
  | _, _ => false
  end.

(** ** Values *)

Definition list_eqb {A} (f : A → A → bool) : list A → list A → bool :=
  fix go l r :=
    match l, r with
    | [], [] => true
    | a :: l, b :: r => f a b && go l r
    | _, _ => false
    end.

Fixpoint json_eq (lhs rhs : json) : bool :=
  match lhs, rhs with
  | jarray l, jarray r => list_eqb json_eq l r
  | jobject l, jobject r => list_eqb (λ a b, String.eqb a.1 b.1 && json_eq a.2 b.2) l r
  | jnull, jnull => true
  | jstring l, jstring r => String.eqb l r
  | jboolean l, jboolean r => Bool.eqb l r
  | jnumber_integer l, jnumber_integer r => l =? r
  | jnumber_unsigned l, jnumber_unsigned r => l =? r
  | jnumber_float l, jnumber_float r => double_eq l r
  | jnumber_integer l, jnumber_float r => double_eq (integer_to_double l) r
  | jnumber_float l, jnumber_integer r => double_eq l (integer_to_double r)
  | jnumber_unsigned l, jnumber_float r => double_eq (integer_to_double l) r
  | jnumber_float l, jnumber_unsigned r => double_eq l (integer_to_double r)
  | jnumber_unsigned l, jnumber_integer r => wrap_signed 64 l =? r
  | jnumber_integer l, jnumber_unsigned r => l =? wrap_signed 64 r
  | _, _ => false
  end.

(** 2^53 + 1 is the double 2^53 when it is compared, but not the integer 2^53;
    zeros of both signs are equal. *)
Example json_eq_samples :
  json_eq (jnumber_unsigned (2 ^ 53 + 1)) (jnumber_float (Dfin false (2 ^ 52) 1)) = true
  ∧ json_eq (jnumber_float (Dfin false (2 ^ 52) 1)) (jnumber_unsigned (2 ^ 53)) = true
  ∧ json_eq (jnumber_unsigned (2 ^ 53 + 1)) (jnumber_unsigned (2 ^ 53)) = false
  ∧ json_eq (jnumber_float (Dfin true 0 0)) (jnumber_integer 0) = true
  ∧ json_eq (jnumber_unsigned (2 ^ 64 - 1)) (jnumber_integer (-1)) = true
  ∧ json_eq (jnumber_float (Dnan false 1)) (jnumber_float (Dnan false 1)) = false.
Proof. vm_compute. done. Qed.

(** ** Element by element *)

Lemma list_eqb_Forall2 {A} (f : A → A → bool) l r :
  list_eqb f l r = true ↔ Forall2 (λ a b, f a b = true) l r.
Proof.
  revert r. induction l as [|a l IH]; intros [|b r]; simpl; split; intros Hl; try done.
  - by inversion Hl.
  - by inversion Hl.
  - apply andb_true_iff in Hl as [Ha Hl]. constructor; [done|by apply IH].
  - apply Forall2_cons in Hl as [Ha Hl]. rewrite Ha. by apply IH.
Qed.

Lemma list_eqb_refl {A} (f : A → A → bool) l :
  list_eqb f l l = true ↔ Forall (λ a, f a a = true) l.
Proof.
  induction l as [|a l IH]; simpl; [done|]. rewrite andb_true_iff, IH. split.
  - intros []. by constructor.
  - by intros [? ?]%Forall_cons.
Qed.

Lemma array_eq_refl l : json_eq (jarray l) (jarray l) = true ↔ Forall (λ v, json_eq v v = true) l.
Proof. apply list_eqb_refl. Qed.

Lemma object_eq_refl m : json_eq (jobject m) (jobject m) = true ↔ Forall (λ kv, json_eq kv.2 kv.2 = true) m.
Proof.
  simpl. rewrite list_eqb_refl. split; intros Hm; (eapply Forall_impl; [exact Hm|]); intros kv; cbv beta; by rewrite String.eqb_refl.
Qed.

(** *** Objects by their lookups *)

Definition opt_eq (a b : option json) : Prop :=
  match a, b with
  | Some v, Some w => json_eq v w = true
  | None, None => True
  | _, _ => False
  end.

Lemma object_eq_ext (m1 m2 : std_map json) :
  map_wf m1 → map_wf m2 → (∀ k, opt_eq (map_find k m1) (map_find k m2)) → json_eq (jobject m1) (jobject m2) = true.
Proof.
  simpl. revert m2. induction m1 as [|[k1 v1] m1 IH]; intros [|[k2 v2] m2] H1 H2 He; [done| | |].
  { specialize (He k2). simpl in He. by rewrite str_compare_refl in He. }
  { specialize (He k1). simpl in He. by rewrite str_compare_refl in He. }
  apply map_wf_cons in H1 as [Hg1 H1]. apply map_wf_cons in H2 as [Hg2 H2].
  assert (k1 = k2) as ->.
  { pose proof (He k1) as E1. pose proof (He k2) as E2. simpl in E1, E2. rewrite str_compare_refl in E1, E2.
    destruct (str_compareP k1 k2) as [|Hl|Hl]; [done|done|]. unfold str_lt in Hl. by rewrite Hl in E2. }
  pose proof (He k2) as E. simpl in E. rewrite str_compare_refl in E. simpl in E.
  simpl. rewrite String.eqb_refl, E. simpl. apply IH; [done|done|]. intros k. specialize (He k). simpl in He.
  destruct (str_compareP k k2) as [Heq|Hl|Hl]; [subst k| |done];
    by rewrite !map_find_all_gt by eauto using all_gt_lt.
Qed.

Lemma object_eq_find (m1 m2 : std_map json) k :
  json_eq (jobject m1) (jobject m2) = true → opt_eq (map_find k m1) (map_find k m2).
Proof.
  simpl. rewrite list_eqb_Forall2. induction 1 as [|[k1 v1] [k2 v2] m1 m2 He _ IH]; [done|]. cbv beta in He.
  apply andb_true_iff in He as [Hk%String.eqb_eq Hv]. simpl in *. subst k2. by destruct (String.compare k k1).
Qed.
