(* ===== verification/JsonPointer.v ===== *)
(** * JSON pointers (json.hpp, [class json_pointer])

    Pointers as lists of reference tokens, their text, and the accesses through
    them.  A reference to a part of a value is modelled by the computation that
    is run on it: [get_checked ts m] runs [m] on the part [ts] points to and
    leaves the rest as it is; what an access created before it threw stays. *)

From stdpp Require Import base gmap strings list.
From Stdlib Require Import ZArith Ascii Lia.
From S2P Require Import Prelude Cxx StdMap JsonValue JsonSax JsonBinary.

(** ** Text *)

(** [s.find(f)] and [s.find(f, pos)]. *)
Fixpoint string_find (f s : string) : option nat :=
  if String.prefix f s then Some O else
  match s with
  | EmptyString => None
  | String _ s => S <$> string_find f s
  end.

Definition find_from (s f : string) (pos : nat) : option nat :=
  (λ p, (pos + p)%nat) <$> string_find f (str_drop pos s).

(** [s.replace(pos, len, t)]. *)
Definition string_replace (s : string) (pos len : nat) (t : string) : string :=
  str_take pos s +:+ (t +:+ str_drop (pos + len) s).

Fixpoint replace_loop (fuel : nat) (s f t : string) (pos : nat) : string :=
  match fuel with
  | O => s
  | S fuel =>
      match find_from s f pos with
      | None => s
      | Some pos =>
          replace_loop fuel (string_replace s pos (String.length f) t) f t (pos + String.length t)
      end
  end.

(** Each turn leaves a character of [s] behind. *)
Definition replace_substring (s f t : string) : string := replace_loop (S (String.length s)) s f t 0.

Definition escape (s : string) : string :=
  replace_substring (replace_substring s "~" "~0") "/" "~1".
Definition unescape (s : string) : string :=
  replace_substring (replace_substring s "~1" "/") "~0" "~".

Definition pointer_to_string (reference_tokens : list string) : string :=
  foldl (λ a b, (a +:+ "/") +:+ escape b) "" reference_tokens.

(** The text between slashes. *)
Fixpoint between_slashes (s : string) : list string :=
  match s with
  | EmptyString => [""]
  | String c s =>
      if Ascii.eqb c "/" then "" :: between_slashes s
      else match between_slashes s with
           | t :: ts => String c t :: ts
           | [] => [String c ""]
           end
  end.

(** Every tilde is followed by 0 or 1. *)
Fixpoint properly_escaped (reference_token : string) : bool :=
  match reference_token with
  | EmptyString => true
  | String c s =>
      (if Ascii.eqb c "~"
       then match s with String d _ => Ascii.eqb d "0" || Ascii.eqb d "1" | EmptyString => false end
       else true) && properly_escaped s
  end.

Fixpoint split_tokens (ts : list string) : outcome exn (list string) :=
  match ts with
  | [] => Ok []
  | t :: ts =>
      if properly_escaped t then obind (split_tokens ts) (λ us, Ok (unescape t :: us))
      else Throw (parse_error_create 108 0 "escape character '~' must be followed with '0' or '1'")
  end.

(** [split]: the constructor of a pointer. *)
Definition split (reference_string : string) : outcome exn (list string) :=
  match reference_string with
  | EmptyString => Ok []
  | String c s =>
      if negb (Ascii.eqb c "/") then
        Throw (parse_error_create 107 1
          ("JSON pointer must be empty or begin with '/' - was: '" +:+ reference_string +:+ "'"))
      else split_tokens (between_slashes s)
  end.

Example split_samples :
  split "/a~1b/~01//" = Ok ["a/b"; "~1"; ""; ""] ∧ pointer_to_string ["a/b"; "~1"; ""; ""] = "/a~1b/~01//"
  ∧ split "" = Ok [] ∧ split "/" = Ok [""].
Proof. vm_compute. done. Qed.

(** ** Indices *)

Definition array_index (s : string) : outcome exn Z :=
  match stoi s with
  | StoiInvalid => Throw (std_invalid_argument "stoi")
  | StoiOutOfRange => Throw (std_logic_error "stoi")
  | Stoi res =>
      if negb (stoi_processed s =? Z.of_nat (String.length s)) then
        Throw (exception_create out_of_range 404 ("unresolved reference token '" +:+ s +:+ "'"))
      else Ok res
  end.

(** [JSON_CATCH(std::invalid_argument&)] around the conversion. *)
Definition index_of_token (reference_token : string) : outcome exn Z :=
  match array_index reference_token with
  | Throw (std_invalid_argument _) =>
      Throw (parse_error_create 109 0 ("array index '" +:+ reference_token +:+ "' is not a number"))
  | o => o
  end.

Definition leading_zero (reference_token : string) : bool :=
  match reference_token with
  | String c (String _ _) => Ascii.eqb c "0"
  | _ => false
  end.

Definition begins_with_zero {A} (reference_token : string) : M exn json A :=
  throw (parse_error_create 106 0 ("array index '" +:+ reference_token +:+ "' must not begin with '0'")).
Definition unresolved {A} (reference_token : string) : M exn json A :=
  throw (exception_create out_of_range 404 ("unresolved reference token '" +:+ reference_token +:+ "'")).
Definition beyond_the_end {A} (l : list json) : M exn json A :=
  throw (exception_create out_of_range 402 ("array index '-' (" +:+ to_string (Z.of_nat (length l)) +:+ ") is out of range")).

(** ** References *)

Definition element_at (l : list json) (idx : Z) : option json :=
  if idx <? Z.of_nat (length l) then l !! Z.to_nat idx else None.

Section references.
Context {A : Type}.
Implicit Types (m : M exn json A).

(** [m] on a member, which is null when there was none. *)
Definition member_ref (key : string) m (kvs : std_map json) : outcome exn A * json :=
  let '(o, w) := m (default jnull (map_find key kvs)) in (o, jobject (map_put key w kvs)).

(** [m] on an element; beyond the end it is undefined. *)
Definition element_ref (idx : Z) m (l : list json) : outcome exn A * json :=
  match element_at l idx with
  | Some v => let '(o, w) := m v in (o, jarray (<[Z.to_nat idx := w]> l))
  | None => (Undefined, jarray l)
  end.

(** [at(key)] and [at(idx)]. *)
Definition at_member (key : string) m : M exn json A := λ v,
  match v with
  | jobject kvs =>
      match map_find key kvs with
      | Some _ => member_ref key m kvs
      | None => (Throw (exception_create out_of_range 403 ("key '" +:+ key +:+ "' not found")), v)
      end
  | _ => (Throw (exception_create type_error 304 ("cannot use at() with " +:+ type_name v)), v)
  end.

Definition at_element (idx : Z) m : M exn json A := λ v,
  match v with
  | jarray l =>
      if idx <? Z.of_nat (length l) then element_ref idx m l
      else (Throw (exception_create out_of_range 401 ("array index " +:+ to_string idx +:+ " is out of range")), v)
  | _ => (Throw (exception_create type_error 304 ("cannot use at() with " +:+ type_name v)), v)
  end.

Definition cannot_index (v : json) : outcome exn A * json :=
  (Throw (exception_create type_error 305 ("cannot use operator[] with " +:+ type_name v)), v).

(** [operator[](key)]: null becomes an object. *)
Definition index_member (key : string) m : M exn json A := λ v,
  match v with
  | jnull => member_ref key m []
  | jobject kvs => member_ref key m kvs
  | _ => cannot_index v
  end.

(** [operator[](idx)]: null becomes an array, and an array is filled up with
    nulls; the number of them is a [size_t]. *)
Definition filled_ref `{Machine} (idx : Z) m (l : list json) : outcome exn A * json :=
  let size := Z.of_nat (length l) in
  if size <=? idx then
    let missing := wrap 64 (idx - size + 1) in
    if array_max_size - size <? missing then (Throw (std_logic_error "vector::_M_fill_insert"), jarray l)
    else element_ref idx m (l ++ replicate (Z.to_nat missing) jnull)
  else element_ref idx m l.

Definition index_element `{Machine} (idx : Z) m : M exn json A := λ v,
  match v with
  | jnull => filled_ref idx m []
  | jarray l => filled_ref idx m l
  | _ => cannot_index v
  end.
End references.

(** ** Access through pointers *)

Section access.
Context `{Machine} {A : Type}.
Implicit Types (m : M exn json A).

Fixpoint get_checked (reference_tokens : list string) m : M exn json A :=
  match reference_tokens with
  | [] => m
  | t :: ts =>
      v <- get_state ;;
      match v with
      | jobject _ => at_member t (get_checked ts m)
      | jarray l =>
          if String.eqb t "-" then beyond_the_end l
          else if leading_zero t then begins_with_zero t
          else idx <- lift (index_of_token t) ;; at_element (wrap 64 idx) (get_checked ts m)
      | _ => unresolved t
      end
  end.

(** A null becomes an array or an object, by the token. *)
Definition convert_null (reference_token : string) (v : json) : json :=
  match v with
  | jnull => if all_digits reference_token || String.eqb reference_token "-" then jarray [] else jobject []
  | _ => v
  end.

Fixpoint get_unchecked (reference_tokens : list string) m : M exn json A :=
  match reference_tokens with
  | [] => m
  | t :: ts =>
      modify (convert_null t) ;;
      v <- get_state ;;
      match v with
      | jobject _ => index_member t (get_unchecked ts m)
      | jarray l =>
          if leading_zero t then begins_with_zero t
          else if String.eqb t "-" then index_element (Z.of_nat (length l)) (get_unchecked ts m)
          else idx <- lift (index_of_token t) ;; index_element (wrap 64 idx) (get_unchecked ts m)
      | _ => unresolved t
      end
  end.

Fixpoint get_and_create (reference_tokens : list string) m : M exn json A :=
  match reference_tokens with
  | [] => m
  | t :: ts =>
      v <- get_state ;;
      match v with
      | jnull =>
          if String.eqb t "0" then index_element 0 (get_and_create ts m)
          else index_member t (get_and_create ts m)
      | jobject _ => index_member t (get_and_create ts m)
      | jarray _ => idx <- lift (index_of_token t) ;; index_element (wrap 64 idx) (get_and_create ts m)
      | _ => throw (exception_create type_error 313 "invalid value to unflatten")
      end
  end.
End access.

(** *** On constant values *)

Fixpoint get_checked_const (reference_tokens : list string) (v : json) : outcome exn json :=
  match reference_tokens with
  | [] => Ok v
  | t :: ts =>
      match v with
      | jobject _ => obind (at_key v t) (get_checked_const ts)
      | jarray l =>
          if String.eqb t "-" then (beyond_the_end l v).1
          else if leading_zero t then (begins_with_zero t v).1
          else obind (index_of_token t) (λ idx,
            match element_at l (wrap 64 idx) with
            | Some w => get_checked_const ts w
            | None => Throw (exception_create out_of_range 401
                        ("array index " +:+ to_string (wrap 64 idx) +:+ " is out of range"))
            end)
      | _ => (unresolved t v).1
      end
  end.

(** A missing member or element is undefined behaviour. *)
Fixpoint get_unchecked_const (reference_tokens : list string) (v : json) : outcome exn json :=
  match reference_tokens with
  | [] => Ok v
  | t :: ts =>
      match v with
      | jobject kvs => match map_find t kvs with Some w => get_unchecked_const ts w | None => Undefined end
      | jarray l =>
          if String.eqb t "-" then (beyond_the_end l v).1
          else if leading_zero t then (begins_with_zero t v).1
          else obind (index_of_token t) (λ idx,
            match element_at l (wrap 64 idx) with
            | Some w => get_unchecked_const ts w
            | None => Undefined
            end)
      | _ => (unresolved t v).1
      end
  end.

(** ** Flattening *)

Definition is_primitive (v : json) : bool :=
  match v with jobject _ | jarray _ | jdiscarded => false | _ => true end.

(** The members of [result] so far are the last argument. *)
Definition flatten_elements (flatten : string → json → std_map json → std_map json) (reference_string : string) :
    nat → list json → std_map json → std_map json :=
  fix elements i l result :=
    match l with
    | [] => result
    | v :: l => elements (S i) l (flatten ((reference_string +:+ "/") +:+ to_string (Z.of_nat i)) v result)
    end.

Definition flatten_members (flatten : string → json → std_map json → std_map json) (reference_string : string) :
    list (string * json) → std_map json → std_map json :=
  fix members m result :=
    match m with
    | [] => result
    | (k, v) :: m => members m (flatten ((reference_string +:+ "/") +:+ escape k) v result)
    end.

Fixpoint flatten_value (reference_string : string) (value : json) (result : std_map json) : std_map json :=
  match value with
  | jarray [] | jobject [] => map_put reference_string jnull result
  | jarray l => flatten_elements (λ r v, flatten_value r v) reference_string O l result
  | jobject m => flatten_members (λ r v, flatten_value r v) reference_string m result
  | v => map_put reference_string v result
  end.

Definition flatten (v : json) : json := jobject (flatten_value "" v []).

(** [get_and_create(result) = value] for each member. *)
Fixpoint unflatten_members `{Machine} (kvs : std_map json) : M exn json unit :=
  match kvs with
  | [] => ret tt
  | (k, v) :: kvs =>
      (if negb (is_primitive v) then throw (exception_create type_error 315 "values in object must be primitive")
       else ts <- lift (split k) ;; get_and_create ts (put_state v)) ;;
      unflatten_members kvs
  end.

Definition unflatten `{Machine} (value : json) : outcome exn json :=
  match value with
  | jobject kvs => (bind (unflatten_members kvs) (λ _, get_state) jnull).1
  | _ => Throw (exception_create type_error 314 "only objects can be unflattened")
  end.

(** ** The text of a pointer

    [replace_substring] replaces what is found from left to right. *)

Section replace.
Context (f t : string) (Hf : f ≠ "").

Lemma find_app pre s pos :
  find_from (pre +:+ s) f (String.length pre + pos) = (λ p, (String.length pre + p)%nat) <$> find_from s f pos.
Proof.
  unfold find_from. rewrite str_drop_add, str_drop_app by done. destruct (string_find _ _); simpl; [|done].
  f_equal. lia.
Qed.

Lemma replace_app pre s pos len :
  string_replace (pre +:+ s) (String.length pre + pos) len t = pre +:+ string_replace s pos len t.
Proof.
  unfold string_replace. rewrite <-Nat.add_assoc, str_drop_add, str_drop_app by done.
  assert (Ht : str_take (String.length pre + pos) (pre +:+ s) = pre +:+ str_take pos s)
    by (clear; induction pre as [|c pre IH]; simpl; [done|by rewrite IH]).
  by rewrite Ht, append_assoc.
Qed.

Lemma replace_loop_app fuel pre s pos :
  replace_loop fuel (pre +:+ s) f t (String.length pre + pos) = pre +:+ replace_loop fuel s f t pos.
Proof.
  revert s pos. induction fuel as [|fuel IH]; intros s pos; simpl; [done|]. rewrite find_app.
  destruct (find_from s f pos) as [p|]; simpl; [|done]. by rewrite replace_app, <-Nat.add_assoc, IH.
Qed.

Lemma prefix_append s : String.prefix f (f +:+ s) = true.
Proof. clear Hf. induction f as [|c g IH]; simpl; [by destruct s|]. destruct (ascii_dec c c); [done|done]. Qed.

Lemma find_found s : string_find f (f +:+ s) = Some O.
Proof. pose proof (prefix_append s) as Hp. destruct (f +:+ s) as [|c r]; cbn [string_find]; by rewrite Hp. Qed.

Lemma replace_loop_found fuel s :
  replace_loop (S fuel) (f +:+ s) f t 0 = t +:+ replace_loop fuel s f t 0.
Proof.
  cbn [replace_loop]. unfold find_from. change (str_drop 0 (f +:+ s)) with (f +:+ s). rewrite find_found. simpl.
  unfold string_replace. rewrite Nat.add_0_l, str_drop_app by done.
  change (str_take 0 (f +:+ s)) with "". change ("" +:+ (t +:+ s)) with (t +:+ s).
  rewrite <-(Nat.add_0_r (String.length t)). apply replace_loop_app.
Qed.

Lemma replace_loop_other fuel c s :
  String.prefix f (String c s) = false →
  replace_loop fuel (String c s) f t 0 = String c (replace_loop fuel s f t 0).
Proof.
  intros Hp. destruct fuel as [|fuel]; [done|]. cbn [replace_loop]. unfold find_from.
  change (str_drop 0 (String c s)) with (String c s). change (str_drop 0 s) with s. cbn [string_find]. rewrite Hp.
  destruct (string_find f s) as [p|]; simpl; [|done].
  pose proof (replace_app (String c "") s p (String.length f)) as Hr.
  change (String.length (String c "") + p)%nat with (S p) in Hr. change (String c "" +:+ ?x) with (String c x) in Hr.
  rewrite Hr. apply (replace_loop_app fuel (String c "")).
Qed.

Lemma prefix_cut s : String.prefix f s = true → ∃ r, s = f +:+ r.
Proof.
  clear Hf. revert s. induction f as [|c g IH]; intros s; simpl; [eauto|].
  destruct s as [|d s]; [done|]. simpl. destruct (ascii_dec c d) as [->|]; [|done]. intros [r ->]%IH. by exists r.
Qed.

Lemma find_none : find_from "" f 0 = None.
Proof. unfold find_from. simpl. destruct f; [congruence|done]. Qed.

Lemma replace_fuel n s fuel fuel' :
  (String.length s ≤ n)%nat → (String.length s < fuel)%nat → (String.length s < fuel')%nat →
  replace_loop fuel s f t 0 = replace_loop fuel' s f t 0.
Proof.
  revert s fuel fuel'. induction n as [|n IH]; intros s fuel fuel' Hn H1 H2;
    (destruct fuel as [|fuel]; [lia|]); (destruct fuel' as [|fuel']; [lia|]).
  { destruct s; [|simpl in Hn; lia]. cbn [replace_loop]. by rewrite find_none. }
  destruct (String.prefix f s) eqn:Hp.
  - apply prefix_cut in Hp as [r ->]. rewrite !replace_loop_found. f_equal. rewrite length_append in *.
    assert (0 < String.length f)%nat by (destruct f; [congruence|simpl; lia]). apply IH; lia.
  - destruct s as [|c s]; [cbn [replace_loop]; by rewrite find_none|]. rewrite !replace_loop_other by done.
    cbn [String.length] in *. f_equal. apply IH; lia.
Qed.

Lemma replace_empty : replace_substring "" f t = "".
Proof. unfold replace_substring. cbn [replace_loop]. by rewrite find_none. Qed.

Lemma replace_found s : replace_substring (f +:+ s) f t = t +:+ replace_substring s f t.
Proof.
  unfold replace_substring. rewrite replace_loop_found. f_equal.
  assert (0 < String.length f)%nat by (destruct f; [congruence|simpl; lia]).
  apply (replace_fuel (String.length s)); rewrite ?length_append; lia.
Qed.

Lemma replace_other c s :
  String.prefix f (String c s) = false →
  replace_substring (String c s) f t = String c (replace_substring s f t).
Proof.
  intros Hp. unfold replace_substring. rewrite replace_loop_other by done. f_equal.
  apply (replace_fuel (String.length s)); cbn [String.length]; lia.
Qed.
End replace.

(** *** Escaping character by character *)

Definition escape_unit (c : ascii) : string :=
  if Ascii.eqb c "~" then "~0" else if Ascii.eqb c "/" then "~1" else String c "".

Lemma single_prefix c d s : String.prefix (String c "") (String d s) = Ascii.eqb d c.
Proof.
  simpl. destruct (ascii_dec c d) as [->|Hne]; [rewrite Ascii.eqb_refl; by destruct s|].
  symmetry. apply Ascii.eqb_neq. congruence.
Qed.

(** One character is replaced everywhere. *)
Lemma replace_char c t d s :
  replace_substring (String d s) (String c "") t
  = (if Ascii.eqb d c then t else String d "") +:+ replace_substring s (String c "") t.
Proof.
  destruct (Ascii.eqb d c) eqn:E.
  - apply Ascii.eqb_eq in E as ->. by apply (replace_found (String c "") t).
  - rewrite replace_other; [done|done|by rewrite single_prefix].
Qed.

Lemma escape_unit_cons c s : escape (String c s) = escape_unit c +:+ escape s.
Proof.
  unfold escape, escape_unit. rewrite replace_char. destruct (Ascii.eqb c "~") eqn:E.
  - apply Ascii.eqb_eq in E as ->. change ("~0" +:+ ?x) with (String "~" (String "0" x)). by rewrite !replace_char.
  - change (String c "" +:+ ?x) with (String c x). by rewrite replace_char.
Qed.

Lemma escape_nil : escape "" = "".
Proof. done. Qed.

(** What is left of an escaped text after the first pass of [unescape]. *)
Fixpoint half_escaped (s : string) : string :=
  match s with
  | EmptyString => ""
  | String c s => (if Ascii.eqb c "~" then "~0" else String c "") +:+ half_escaped s
  end.

Lemma replace_slash s : replace_substring (escape s) "~1" "/" = half_escaped s.
Proof.
  induction s as [|c s IH]; [done|]. rewrite escape_unit_cons. unfold escape_unit. cbn [half_escaped].
  destruct (Ascii.eqb c "~") eqn:E1; [|destruct (Ascii.eqb c "/") eqn:E2].
  - change ("~0" +:+ escape s) with (String "~" (String "0" (escape s))). rewrite !replace_other by done. by rewrite IH.
  - apply Ascii.eqb_eq in E2 as ->. rewrite (replace_found "~1" "/") by done. by rewrite IH.
  - change (String c "" +:+ escape s) with (String c (escape s)). rewrite replace_other; [by rewrite IH|done|].
    apply Ascii.eqb_neq in E1. cbn [String.prefix]. by destruct (ascii_dec "~" c) as [Heq|]; [destruct E1|].
Qed.

Lemma replace_tilde s : replace_substring (half_escaped s) "~0" "~" = s.
Proof.
  induction s as [|c s IH]; [done|]. cbn [half_escaped]. destruct (Ascii.eqb c "~") eqn:E.
  - apply Ascii.eqb_eq in E as ->. rewrite (replace_found "~0" "~") by done. by rewrite IH.
  - change (String c "" +:+ ?x) with (String c x). rewrite replace_other; [by rewrite IH|done|].
    apply Ascii.eqb_neq in E. cbn [String.prefix]. by destruct (ascii_dec "~" c) as [Heq|]; [destruct E|].
Qed.

Lemma unescape_escape s : unescape (escape s) = s.
Proof. unfold unescape. by rewrite replace_slash, replace_tilde. Qed.

(** The texts of tokens are those without a slash in which every tilde escapes. *)
Fixpoint no_slash (s : string) : bool :=
  match s with
  | EmptyString => true
  | String c s => negb (Ascii.eqb c "/") && no_slash s
  end.

Lemma no_slash_app s t : no_slash (s +:+ t) = no_slash s && no_slash t.
Proof. induction s as [|c s IH]; simpl; [done|]. by rewrite IH, andb_assoc. Qed.

Lemma escaped_text s : properly_escaped (escape s) = true ∧ no_slash (escape s) = true.
Proof.
  induction s as [|c s [IHp IHs]]; [done|]. rewrite escape_unit_cons, no_slash_app, IHs, andb_true_r. unfold escape_unit.
  destruct (Ascii.eqb c "~") eqn:E1; [|destruct (Ascii.eqb c "/") eqn:E2].
  - split; [simpl; by rewrite IHp|done].
  - split; [simpl; by rewrite IHp|done].
  - split; simpl; rewrite ?E1, ?E2, ?IHp; done.
Qed.

Lemma text_escaped u : properly_escaped u = true → no_slash u = true → ∃ s, u = escape s.
Proof.
  assert (H : ∀ n u, (String.length u ≤ n)%nat → properly_escaped u = true → no_slash u = true → ∃ s, u = escape s);
    [|by apply (H (String.length u))].
  clear u. induction n as [|n IH]; intros u Hn Hp Hs; (destruct u as [|c u]; [by exists ""|]); [simpl in Hn; lia|].
  cbn [properly_escaped no_slash String.length] in *. apply andb_true_iff in Hp as [Hc Hp]. apply andb_true_iff in Hs as [Hns Hs].
  destruct (Ascii.eqb c "~") eqn:E.
  - apply Ascii.eqb_eq in E as ->. destruct u as [|d u]; [done|]. cbn [properly_escaped no_slash String.length] in *.
    apply andb_true_iff in Hp as [_ Hp]. apply andb_true_iff in Hs as [_ Hs]. destruct (IH u ltac:(lia) Hp Hs) as [s ->].
    apply orb_true_iff in Hc as [Hd|Hd]; apply Ascii.eqb_eq in Hd as ->;
      [exists (String "~" s)|exists (String "/" s)]; by rewrite escape_unit_cons.
  - destruct (IH u ltac:(lia) Hp Hs) as [s ->]. exists (String c s). rewrite escape_unit_cons. unfold escape_unit.
    apply negb_true_iff in Hns. by rewrite E, Hns.
Qed.

(** *** Splitting *)

Lemma between_text u : no_slash u = true → between_slashes u = [u].
Proof.
  induction u as [|c u IH]; [done|]. cbn [no_slash between_slashes]. intros [Hc Hu]%andb_true_iff.
  apply negb_true_iff in Hc. by rewrite Hc, IH.
Qed.

Lemma between_text_app u r :
  no_slash u = true → between_slashes (u +:+ String "/" r) = u :: between_slashes r.
Proof.
  induction u as [|c u IH]; [done|]. cbn [no_slash]. intros [Hc Hu]%andb_true_iff. rewrite append_cons. cbn [between_slashes].
  apply negb_true_iff in Hc. by rewrite Hc, IH.
Qed.

(** A slash before each text. *)
Definition slashed (us : list string) : string := foldr (λ u s, String "/" (u +:+ s)) "" us.

Lemma slashed_split us : us ≠ [] → Forall (λ u, no_slash u = true) us →
  ∃ s, slashed us = String "/" s ∧ between_slashes s = us.
Proof.
  intros Hne Hus. induction Hus as [|u us Hu Hus IH]; [done|]. simpl. eexists. split; [reflexivity|].
  destruct us as [|v us]; [simpl; rewrite append_nil_r; by apply between_text|].
  destruct IH as (s & -> & Hs); [done|]. by rewrite between_text_app, Hs.
Qed.

Lemma split_slashed s : slashed (between_slashes s) = String "/" s ∧ Forall (λ u, no_slash u = true) (between_slashes s).
Proof.
  induction s as [|c s [IHs IHf]]; [split; [done|by constructor]|]. cbn [between_slashes].
  destruct (Ascii.eqb c "/") eqn:E.
  - apply Ascii.eqb_eq in E as ->. simpl. rewrite IHs. split; [done|by constructor].
  - destruct (between_slashes s) as [|u us]; [done|]. simpl in *. injection IHs as ->. split; [done|].
    apply Forall_cons in IHf as [Hu Hus]. constructor; [simpl; by rewrite E|done].
Qed.

Lemma pointer_text_app a ts :
  foldl (λ a b, (a +:+ "/") +:+ escape b) a ts = a +:+ slashed (escape <$> ts).
Proof.
  revert a. induction ts as [|t ts IH]; intros a; simpl; [by rewrite append_nil_r|].
  rewrite IH, !append_assoc. done.
Qed.

Lemma pointer_text ts : pointer_to_string ts = slashed (escape <$> ts).
Proof. apply pointer_text_app. Qed.

Lemma split_tokens_escaped ts : split_tokens (escape <$> ts) = Ok ts.
Proof.
  induction ts as [|t ts IH]; [done|]. rewrite fmap_cons. cbn [split_tokens].
  rewrite (proj1 (escaped_text t)), IH. simpl. by rewrite unescape_escape.
Qed.

Lemma split_to_string ts : split (pointer_to_string ts) = Ok ts.
Proof.
  rewrite pointer_text. destruct ts as [|t ts]; [done|].
  destruct (slashed_split (escape <$> t :: ts)) as (s & Hs & Hb); [done| |].
  { apply Forall_fmap, Forall_forall. intros u _. apply escaped_text. }
  rewrite Hs. simpl. rewrite Hb. apply split_tokens_escaped.
Qed.

Lemma split_tokens_inv us ts :
  Forall (λ u, no_slash u = true) us → split_tokens us = Ok ts → us = escape <$> ts.
Proof.
  intros Hus. revert ts. induction Hus as [|u us Hu _ IH]; intros ts; simpl; [by intros [= <-]|].
  destruct (properly_escaped u) eqn:Hp; [|done]. destruct (split_tokens us) as [vs| | |]; simpl; try done. intros [= <-].
  destruct (text_escaped u Hp Hu) as [s ->]. simpl. rewrite unescape_escape. f_equal. by apply IH.
Qed.

Definition pointer_exn (e : exn) : Prop :=
  ∃ id msg, e = json_exception parse_error id msg ∧ (id = 107 ∨ id = 108).

Lemma split_tokens_cases us : (∃ ts, split_tokens us = Ok ts) ∨ (∃ e, split_tokens us = Throw e ∧ pointer_exn e).
Proof.
  induction us as [|u us IH]; simpl; [eauto|]. destruct (properly_escaped u).
  - destruct IH as [[ts ->]|(e & -> & He)]; simpl; eauto.
  - right. eexists. split; [done|]. eexists _, _. eauto.
Qed.

(** C19: The text of a pointer and its tokens determine each other: parsing the
    text of any tokens gives them back, as documented, and a text that parses
    is the text of its tokens; other texts throw [parse_error] 107 or 108. *)
Theorem json_pointer_text :
  (∀ ts, split (pointer_to_string ts) = Ok ts) ∧
  (∀ s, (∃ ts, split s = Ok ts ∧ pointer_to_string ts = s) ∨ (∃ e, split s = Throw e ∧ pointer_exn e)).
Proof.
  split; [apply split_to_string|]. intros [|c s]; [left; by exists []|]. cbn [split].
  destruct (Ascii.eqb c "/") eqn:E; cbn [negb]; cbv iota.
  2:{ right. eexists. split; [done|]. eexists _, _. eauto. }
  apply Ascii.eqb_eq in E as ->. destruct (split_tokens_cases (between_slashes s)) as [[ts Hts]|He]; [left|by right].
  exists ts. split; [done|]. destruct (split_slashed s) as [Hs Hf].
  by rewrite pointer_text, <-(split_tokens_inv _ _ Hf Hts).
Qed.

(** An object whose first member is named 0 comes back as an array. *)
Example unflatten_zero :
  unflatten (H := x86_64) (flatten (jobject [("0", jboolean true)])) = Ok (jarray [jboolean true]).
Proof. vm_compute. reflexivity. Qed.
