(* ===== verification/JsonPatch.v ===== *)
(** * JSON Patch, diff and JSON Merge Patch (json.hpp, [patch], [diff],
      [merge_patch])

    A patch is applied to a working copy, the state of the computation; the
    pointers of its operations are those of [JsonPointer]. *)

From stdpp Require Import base gmap strings list.
From Stdlib Require Import ZArith Ascii Lia.
From S2P Require Import Prelude Cxx StdMap JsonValue JsonDump JsonEqual JsonSax JsonBinary JsonPointer.

(** ** Operations *)

Inductive patch_operations : Type :=
| patch_add | patch_remove | patch_replace | patch_move | patch_copy | patch_test | patch_invalid.

Definition get_op (op : string) : patch_operations :=
  if String.eqb op "add" then patch_add
  else if String.eqb op "remove" then patch_remove
  else if String.eqb op "replace" then patch_replace
  else if String.eqb op "move" then patch_move
  else if String.eqb op "copy" then patch_copy
  else if String.eqb op "test" then patch_test
  else patch_invalid.

Definition no_parent {A} : outcome exn A := Throw (exception_create out_of_range 405 "JSON pointer has no parent").

(** The pointer without its last token, and that token. *)
Fixpoint pop_back (reference_tokens : list string) : outcome exn (list string * string) :=
  match reference_tokens with
  | [] => no_parent
  | [last] => Ok ([], last)
  | t :: ts => obind (pop_back ts) (λ '(us, last), Ok (t :: us, last))
  end.

(** The pointer to the first token. *)
Definition top (reference_tokens : list string) : outcome exn (list string) :=
  match reference_tokens with
  | [] => no_parent
  | t :: _ => Ok [t]
  end.

(** [result.at(ptr)], read. *)
Definition at_pointer (ptr : list string) : M exn json json :=
  v <- get_state ;; lift (get_checked_const ptr v).

Section operations.
Context `{Machine}.

(** The value is added to the parent; a primitive parent is an assertion. *)
Definition add_to_parent (last_path : string) (val : json) : M exn json unit := λ parent,
  match parent with
  | jnull | jobject _ => index_member last_path (put_state val) parent
  | jarray l =>
      if String.eqb last_path "-" then (Ok tt, jarray (l ++ [val]))
      else match array_index last_path with
           | Ok idx =>
               if Z.of_nat (length l) <? wrap 64 idx
               then (Throw (exception_create out_of_range 401 ("array index " +:+ to_string idx +:+ " is out of range")), parent)
               else (Ok tt, jarray (take (Z.to_nat idx) l ++ val :: drop (Z.to_nat idx) l))
           | Throw e => (Throw e, parent)
           | OutOfFuel => (OutOfFuel, parent)
           | Undefined => (Undefined, parent)
           end
  | _ => (Undefined, parent)
  end.

Definition operation_add (ptr : list string) (val : json) : M exn json unit :=
  if bool_decide (ptr = []) then put_state val else
  top_pointer <- lift (top ptr) ;;
  (if bool_decide (top_pointer ≠ ptr) then at_pointer top_pointer ;; ret tt else ret tt) ;;
  popped <- lift (pop_back ptr) ;;
  get_unchecked popped.1 (add_to_parent popped.2 val).

(** A child that is no container has no children to remove. *)
Definition remove_from_parent (last_path : string) : M exn json unit := λ parent,
  match parent with
  | jobject kvs =>
      if map_mem last_path kvs then (Ok tt, jobject (map_erase last_path kvs))
      else (Throw (exception_create out_of_range 403 ("key '" +:+ last_path +:+ "' not found")), parent)
  | jarray l =>
      match array_index last_path with
      | Ok idx =>
          if Z.of_nat (length l) <=? wrap 64 idx
          then (Throw (exception_create out_of_range 401
                  ("array index " +:+ to_string (wrap 64 idx) +:+ " is out of range")), parent)
          else (Ok tt, jarray (delete (Z.to_nat (wrap 64 idx)) l))
      | Throw e => (Throw e, parent)
      | OutOfFuel => (OutOfFuel, parent)
      | Undefined => (Undefined, parent)
      end
  | _ => (Ok tt, parent)
  end.

Definition operation_remove (ptr : list string) : M exn json unit :=
  popped <- lift (pop_back ptr) ;;
  get_checked popped.1 (remove_from_parent popped.2).

(** ** Patches *)

(** A member of an operation. *)
Definition get_value (val : std_map json) (op member : string) (string_type : bool) : outcome exn json :=
  let error_msg := if String.eqb op "op" then "operation" else "operation '" +:+ op +:+ "'" in
  match map_find member val with
  | None => Throw (parse_error_create 105 0 (error_msg +:+ " must have member '" +:+ member +:+ "'"))
  | Some v =>
      if string_type && negb (match v with jstring _ => true | _ => false end)
      then Throw (parse_error_create 105 0 (error_msg +:+ " must have string member '" +:+ member +:+ "'"))
      else Ok v
  end.

Definition get_value_string (val : std_map json) (op member : string) : outcome exn string :=
  obind (get_value val op member true) get_string.

Definition array_of_objects {A} : outcome exn A :=
  Throw (parse_error_create 104 0 "JSON patch must be an array of objects").

(** [test]: a location that does not exist is no match.  (When both sides of
    the comparison throw, the compiler chooses which comes first.) *)
Definition operation_test (val : std_map json) (ptr : list string) : M exn json unit := λ v,
  let compared := w <- at_pointer ptr ;; x <- lift (get_value val "test" "value" false) ;; ret (json_eq w x) in
  let unsuccessful := obind (json_dump (jobject val) (-1)) (λ text,
    Throw (exception_create other_error 501 ("unsuccessful: " +:+ text))) in
  match compared v with
  | (Ok true, v) => (Ok tt, v)
  | (Ok false, v) => (unsuccessful, v)
  | (Throw (json_exception out_of_range _ _), v) => (unsuccessful, v)
  | (Throw e, v) => (Throw e, v)
  | (OutOfFuel, v) => (OutOfFuel, v)
  | (Undefined, v) => (Undefined, v)
  end.

Definition apply_operation (val : std_map json) : M exn json unit :=
  op <- lift (get_value_string val "op" "op") ;;
  path <- lift (get_value_string val op "path") ;;
  ptr <- lift (split path) ;;
  match get_op op with
  | patch_add => value <- lift (get_value val "add" "value" false) ;; operation_add ptr value
  | patch_remove => operation_remove ptr
  | patch_replace => value <- lift (get_value val "replace" "value" false) ;; get_checked ptr (put_state value)
  | patch_move =>
      from_path <- lift (get_value_string val "move" "from") ;;
      from_ptr <- lift (split from_path) ;;
      v <- at_pointer from_ptr ;;
      operation_remove from_ptr ;;
      operation_add ptr v
  | patch_copy =>
      from_path <- lift (get_value_string val "copy" "from") ;;
      from_ptr <- lift (split from_path) ;;
      v <- at_pointer from_ptr ;;
      operation_add ptr v
  | patch_test => operation_test val ptr
  | patch_invalid => throw (parse_error_create 105 0 ("operation value '" +:+ op +:+ "' is invalid"))
  end.

Fixpoint apply_operations (json_patch : list json) : M exn json unit :=
  match json_patch with
  | [] => ret tt
  | val :: vals =>
      match val with jobject kvs => apply_operation kvs | _ => lift array_of_objects end ;;
      apply_operations vals
  end.

Definition patch (v json_patch : json) : outcome exn json :=
  match json_patch with
  | jarray vals => (bind (apply_operations vals) (λ _, get_state) v).1
  | _ => array_of_objects
  end.
End operations.

(** ** Diff *)

Definition operation (op path : string) (value : option json) : json :=
  jobject (("op", jstring op) :: ("path", jstring path) ::
           match value with Some v => [("value", v)] | None => [] end).

Definition index_path (path : string) (i : nat) : string := (path +:+ "/") +:+ to_string (Z.of_nat i).
Definition key_path (path key : string) : string := (path +:+ "/") +:+ escape key.

(** Elements past the common ones: removed from the last one down, or added. *)
Fixpoint remove_rest (path : string) (i : nat) (source : list json) : list json :=
  match source with
  | [] => []
  | _ :: source => remove_rest path (S i) source ++ [operation "remove" (index_path path i) None]
  end.

Fixpoint add_rest (path : string) (i : nat) (target : list json) : list json :=
  match target with
  | [] => []
  | v :: target => operation "add" (index_path path i) (Some v) :: add_rest path (S i) target
  end.

(** Members that [source] does not have. *)
Definition add_members (path : string) (source target : std_map json) : list json :=
  flat_map (λ kv, if map_mem kv.1 source then [] else [operation "add" (key_path path kv.1) (Some kv.2)]) target.

(** Common elements, then the rest of the longer array. *)
Definition diff_elements (diff : json → json → string → list json) (path : string) :
    nat → list json → list json → list json :=
  fix elements i s t :=
    match s, t with
    | x :: s, y :: t => diff x y (index_path path i) ++ elements (S i) s t
    | _, _ => remove_rest path i s ++ add_rest path i t
    end.

Definition diff_members (diff : json → json → string → list json) (path : string) (target : std_map json) :
    list (string * json) → list json :=
  fix members s :=
    match s with
    | [] => []
    | (k, x) :: s =>
        match map_find k target with
        | Some y => diff x y (key_path path k)
        | None => [operation "remove" (key_path path k) None]
        end ++ members s
    end.

Fixpoint diff (source target : json) (path : string) : list json :=
  if json_eq source target then [] else
  match source, target with
  | jarray s, jarray t => diff_elements diff path O s t
  | jobject s, jobject t => diff_members diff path t s ++ add_members path s t
  | _, _ => [operation "replace" path (Some target)]
  end.

(** ** Merge patch *)

(** [operator[](key).merge_patch(value)] for each member, and [erase(key)] for
    a null. *)
Definition merge_members (merge : json → json → json) : list (string * json) → std_map json → std_map json :=
  fix members p m :=
    match p with
    | [] => m
    | (k, v) :: p =>
        members p
          match v with
          | jnull => map_erase k m
          | _ => map_put k (merge (default jnull (map_find k m)) v) m
          end
    end.

Fixpoint merge_patch (target patch : json) {struct patch} : json :=
  match patch with
  | jobject p =>
      jobject (merge_members (λ t p, merge_patch t p) p match target with jobject m => m | _ => [] end)
  | _ => patch
  end.

(** ** Examples *)

Definition patch_source : json :=
  jobject [("a/b", jarray [jnumber_unsigned 1; jnull; jstring "x"]); ("k", jobject [("0", jboolean true)]); ("z", jnull)].
Definition patch_target : json :=
  jobject [("a/b", jarray [jnumber_unsigned 2]); ("k", jobject [("0", jarray []); ("~", jnull)]); ("n", jarray [jnull])].

Example diff_sample :
  patch (H := x86_64) patch_source (jarray (diff patch_source patch_target "")) = Ok patch_target.
Proof. vm_compute. reflexivity. Qed.

Example merge_sample :
  merge_patch patch_source (jobject [("k", jobject [("0", jnull); ("1", jstring "y")]); ("z", jobject [("w", jnull)])])
  = jobject [("a/b", jarray [jnumber_unsigned 1; jnull; jstring "x"]); ("k", jobject [("1", jstring "y")]); ("z", jobject [])].
Proof. vm_compute. reflexivity. Qed.

(** Below a primitive value there is no parent to add to, which the code takes
    for impossible; removing there does nothing. *)
Definition add_below : json :=
  jarray [operation "add" "/a/b" (Some jnull)].
Definition remove_below : json :=
  jarray [operation "remove" "/a/b" None].

Example primitive_parent :
  patch (H := x86_64) (jobject [("a", jboolean true)]) add_below = Undefined
  ∧ patch (H := x86_64) (jobject [("a", jboolean true)]) remove_below = Ok (jobject [("a", jboolean true)]).
Proof. vm_compute. done. Qed.

(** A NaN is replaced by itself, and still not equal to itself. *)
Example nan_is_not_patched :
  let nan := jnumber_float (Dnan false 1) in
  patch (H := x86_64) nan (jarray (diff nan nan "")) = Ok nan ∧ json_eq nan nan = false.
Proof. vm_compute. done. Qed.

(** An index that is not a number escapes from [patch] as an exception of the
    standard library; white space and signs are accepted in indices; a negative
    index of an empty array is not checked. *)
Example index_tokens :
  patch (H := x86_64) (jarray []) (jarray [operation "add" "/a" (Some jnull)]) = Throw (std_invalid_argument "stoi")
  ∧ get_checked_const ["+1"] (jarray [jnull; jboolean true]) = Ok (jboolean true)
  ∧ get_checked_const [" 1"] (jarray [jnull; jboolean true]) = Ok (jboolean true)
  ∧ (get_unchecked (H := x86_64) ["-1"] (ret tt) (jarray [])).1 = Undefined.
Proof. vm_compute. done. Qed.
