(* ===== verification/JsonPatchCorrect.v ===== *)
(** * Patching with a diff

    [source.patch(diff(source, target))] is [target], as documented of [diff].
    The operations of a diff are read as edits with the tokens of their
    pointers; an edit below a member is the edit of the member. *)

From stdpp Require Import base gmap strings list.
From Stdlib Require Import ZArith Ascii Lia.
From S2P Require Import Prelude Cxx StdMap JsonValue JsonDump JsonEqual JsonSax JsonBinary JsonPointer JsonPatch.

(** ** Indices as tokens *)

Lemma to_string_head n : 0 ≤ n → leading_zero (to_string n) = false.
Proof.
  intros Hn. unfold to_string. rewrite (proj2 (Z.ltb_ge n 0)) by done.
  destruct (decide (n = 0)) as [->|Hne]; [done|].
  destruct (dec_digits_head (dec_fuel n) n "") as (d & s & -> & Hd).
  { split; [lia|]. by apply dec_fuel_enough. }
  destruct s; [done|]. simpl. apply Ascii.eqb_neq. intros E. apply (f_equal byte_of) in E.
  rewrite digit_byte in E by lia. change (byte_of "0") with 48 in E. lia.
Qed.

Lemma digits_c_str s : all_digits s = true → c_str s = s.
Proof.
  induction s as [|c r IH]; [done|]. cbn [all_digits c_str]. intros [Hc Hr]%andb_true_iff.
  destruct (Ascii.eqb c "000") eqn:E; [|by rewrite IH]. apply Ascii.eqb_eq in E as ->. done.
Qed.

Lemma digit_first c : is_digit (byte_of c) = true → is_c_space c = false ∧ c ≠ "-"%char ∧ c ≠ "+"%char.
Proof.
  unfold is_digit. intros Hc. zify_cmp.
  split_and!; [|intros ->; change (byte_of "-") with 45 in *; lia|intros ->; change (byte_of "+") with 43 in *; lia].
  unfold is_c_space. apply orb_false_iff. split; [apply Z.eqb_neq; lia|apply andb_false_iff; right; apply Z.leb_gt; lia].
Qed.

Lemma digits_leading s : all_digits s = true → leading_digits s = s.
Proof.
  induction s as [|c r IH]; [done|]. cbn [all_digits leading_digits]. intros [-> Hr]%andb_true_iff. by rewrite IH.
Qed.

Lemma digits_sign s : all_digits s = true → split_sign (skip_spaces (c_str s)) = (false, s).
Proof.
  intros Hd. rewrite digits_c_str by done. destruct s as [|c r]; [done|]. cbn [all_digits] in Hd.
  apply andb_true_iff in Hd as [Hc _]. destruct (digit_first c Hc) as (Hsp & Hm & Hp). cbn [skip_spaces]. rewrite Hsp.
  unfold split_sign. destruct c as [[] [] [] [] [] [] [] []]; done.
Qed.

Lemma stoi_digits s : all_digits s = true → s ≠ "" → int_range (dec_value 0 s) = true → stoi s = Stoi (dec_value 0 s).
Proof.
  intros Hd Hne Hr. unfold stoi. rewrite digits_sign, digits_leading by done. destruct s; [done|]. by rewrite Hr.
Qed.

Lemma stoi_processed_digits s : all_digits s = true → stoi_processed s = Z.of_nat (String.length s).
Proof. intros Hd. unfold stoi_processed. rewrite digits_sign by done. cbn [snd]. rewrite digits_leading, digits_c_str by done. lia. Qed.

Lemma array_index_to_string (i : nat) : Z.of_nat i < 2 ^ 31 → array_index (to_string (Z.of_nat i)) = Ok (Z.of_nat i).
Proof.
  intros Hi. destruct (to_string_nonneg (Z.of_nat i)) as (Hv & Hd & Hne); [lia|]. assert (Hr : int_range (dec_value 0 (to_string (Z.of_nat i))) = true).
  { rewrite Hv. unfold int_range. apply andb_true_iff. split; [apply Z.leb_le|apply Z.ltb_lt]; lia. }
  unfold array_index. rewrite stoi_digits, Hv, stoi_processed_digits, Z.eqb_refl by done. done.
Qed.

Lemma index_token (i : nat) :
  Z.of_nat i < 2 ^ 31 → index_of_token (to_string (Z.of_nat i)) = Ok (Z.of_nat i)
  ∧ String.eqb (to_string (Z.of_nat i)) "-" = false ∧ leading_zero (to_string (Z.of_nat i)) = false.
Proof.
  intros Hi. split_and!; [unfold index_of_token; by rewrite array_index_to_string| |apply to_string_head; lia].
  apply String.eqb_neq. intros E. destruct (to_string_nonneg (Z.of_nat i)) as (_ & Hd & _); [lia|]. by rewrite E in Hd.
Qed.

Lemma escape_to_string (i : nat) : escape (to_string (Z.of_nat i)) = to_string (Z.of_nat i).
Proof.
  destruct (to_string_nonneg (Z.of_nat i)) as (_ & Hd & _); [lia|]. revert Hd. generalize (to_string (Z.of_nat i)).
  intros s. induction s as [|c s IH]; [done|]. cbn [all_digits]. intros [Hc Hs]%andb_true_iff.
  rewrite escape_unit_cons, IH by done. unfold escape_unit, is_digit in *. zify_cmp.
  rewrite !(proj2 (Ascii.eqb_neq _ _)); [done|..]; intros ->.
  - change (byte_of "/") with 47 in *. lia.
  - change (byte_of "~") with 126 in *. lia.
Qed.

(** ** Edits *)

Inductive edit : Type :=
| Replace (ts : list string) (v : json)
| Remove (ts : list string) (last : string)
| Add (ts : list string) (last : string) (v : json).

Definition exec (e : edit) : M exn json unit :=
  match e with
  | Replace ts v => get_checked ts (put_state v)
  | Remove ts last => get_checked ts (remove_from_parent last)
  | Add ts last v => get_checked ts (add_to_parent last v)
  end.

Definition exec_all (es : list edit) : M exn json unit := foldr (λ e m, exec e ;; m) (ret tt) es.

(** The edit of the part a pointer leads to. *)
Definition under (us : list string) (e : edit) : edit :=
  match e with
  | Replace ts v => Replace (us ++ ts) v
  | Remove ts last => Remove (us ++ ts) last
  | Add ts last v => Add (us ++ ts) last v
  end.

(** The operation of a patch. *)
Definition render (e : edit) : json :=
  match e with
  | Replace ts v => operation "replace" (pointer_to_string ts) (Some v)
  | Remove ts last => operation "remove" (pointer_to_string (ts ++ [last])) None
  | Add ts last v => operation "add" (pointer_to_string (ts ++ [last])) (Some v)
  end.

Lemma get_checked_app {A} us ts (m : M exn json A) : get_checked (us ++ ts) m = get_checked us (get_checked ts m).
Proof. induction us as [|u us IH]; [done|]. cbn [app get_checked]. by rewrite IH. Qed.

Lemma exec_under us e : exec (under us e) = get_checked us (exec e).
Proof. destruct e; apply get_checked_app. Qed.

Lemma under_app us us' e : under us (under us' e) = under (us ++ us') e.
Proof. destruct e; simpl; by rewrite app_assoc. Qed.

(** *** A step into a value *)

Lemma step_element {A} (i : nat) (m : M exn json A) l x :
  Z.of_nat i < 2 ^ 31 → l !! i = Some x →
  get_checked [to_string (Z.of_nat i)] m (jarray l) = let '(o, w) := m x in (o, jarray (<[i := w]> l)).
Proof.
  intros Hi Hx. destruct (index_token i Hi) as (Hidx & Hdash & Hzero). pose proof (lookup_lt_Some _ _ _ Hx) as Hlt.
  cbn [get_checked]. unfold bind, get_state. cbv beta iota. rewrite Hdash, Hzero. unfold lift. rewrite Hidx. cbv beta iota.
  rewrite wrap_small by lia. unfold at_element. rewrite (proj2 (Z.ltb_lt _ _)) by lia. unfold element_ref, element_at.
  by rewrite (proj2 (Z.ltb_lt _ _)), Nat2Z.id, Hx by lia.
Qed.

Lemma step_member {A} k (m : M exn json A) kvs x :
  map_find k kvs = Some x → get_checked [k] m (jobject kvs) = let '(o, w) := m x in (o, jobject (map_put k w kvs)).
Proof. intros Hx. cbn [get_checked]. unfold bind, get_state, at_member, member_ref. cbv beta iota. by rewrite Hx. Qed.

Lemma exec_all_cons e es v v1 r :
  exec e v = (Ok tt, v1) → exec_all es v1 = (Ok tt, r) → exec_all (e :: es) v = (Ok tt, r).
Proof. intros He Hes. simpl. unfold bind. by rewrite He. Qed.

Lemma exec_all_app es es' v v1 r :
  exec_all es v = (Ok tt, v1) → exec_all es' v1 = (Ok tt, r) → exec_all (es ++ es') v = (Ok tt, r).
Proof.
  revert v. induction es as [|e es IH]; intros v H1 H2; [by injection H1 as ->|].
  simpl in H1. apply bind_ok in H1 as ([] & v' & He & Hes). eapply exec_all_cons; [exact He|by apply IH].
Qed.

Lemma exec_element es (i : nat) l x r :
  Z.of_nat i < 2 ^ 31 → l !! i = Some x → exec_all es x = (Ok tt, r) →
  exec_all (under [to_string (Z.of_nat i)] <$> es) (jarray l) = (Ok tt, jarray (<[i := r]> l)).
Proof.
  intros Hi. revert x l. induction es as [|e es IH]; intros x l Hx Hes.
  { injection Hes as <-. by rewrite list_insert_id. }
  simpl in Hes. apply bind_ok in Hes as ([] & x1 & He & Hes). rewrite fmap_cons.
  eapply exec_all_cons; [rewrite exec_under, (step_element i _ l x), He by done; done|].
  rewrite <-(list_insert_insert_eq l i r x1). apply (IH x1); [|done].
  apply list_lookup_insert_eq. by eapply lookup_lt_Some.
Qed.

Lemma exec_member es k kvs x r :
  map_wf kvs → map_find k kvs = Some x → exec_all es x = (Ok tt, r) →
  exec_all (under [k] <$> es) (jobject kvs) = (Ok tt, jobject (map_put k r kvs)).
Proof.
  intros Hwf. revert x kvs Hwf. induction es as [|e es IH]; intros x kvs Hwf Hx Hes.
  { injection Hes as <-. by rewrite map_put_id. }
  simpl in Hes. apply bind_ok in Hes as ([] & x1 & He & Hes). rewrite fmap_cons.
  eapply exec_all_cons; [rewrite exec_under, (step_member k _ kvs x), He by done; done|].
  rewrite <-(map_put_put k r x1 kvs) by done. apply (IH x1); [by apply map_put_wf| |done].
  rewrite map_find_put by done. by rewrite decide_True.
Qed.

(** ** Operations do their edits *)

(** Where the checked access succeeds, the unchecked one does the same. *)
Lemma unchecked_of_checked `{Machine} {A} ts (m : M exn json A) d a d' :
  get_checked ts m d = (Ok a, d') → get_unchecked ts m d = (Ok a, d').
Proof.
  revert d a d'. induction ts as [|t ts IH]; intros d a d'; [done|]. cbn [get_checked get_unchecked].
  unfold bind, get_state, modify. cbv beta iota. destruct d as [|kvs|l| | | | | |]; try done; cbn [convert_null].
  - unfold at_member, index_member, member_ref. destruct (map_find t kvs) as [w|]; [|done]. simpl.
    destruct (get_checked ts m w) as [o w'] eqn:E. intros [= -> <-]. by rewrite (IH w a w').
  - destruct (String.eqb t "-"); [done|]. destruct (leading_zero t); [done|]. unfold lift.
    destruct (index_of_token t) as [idx| | |]; try done. unfold at_element, index_element, filled_ref.
    destruct (wrap 64 idx <? Z.of_nat (length l)) eqn:Hlt; [|done]. zify_cmp. rewrite (proj2 (Z.leb_gt _ _)) by lia.
    unfold element_ref. destruct (element_at l (wrap 64 idx)) as [w|]; [|done].
    destruct (get_checked ts m w) as [o w'] eqn:E. intros [= -> <-]. by rewrite (IH w a w').
Qed.

Lemma checked_first {A} t ts (m : M exn json A) d a d' :
  get_checked (t :: ts) m d = (Ok a, d') → ∃ w, get_checked_const [t] d = Ok w.
Proof.
  cbn [get_checked get_checked_const]. unfold bind, get_state. cbv beta iota.
  destruct d as [|kvs|l| | | | | |]; try done; unfold at_member, at_key.
  - destruct (map_find t kvs) as [w|]; [|done]. simpl. eauto.
  - destruct (String.eqb t "-"); [done|]. destruct (leading_zero t); [done|]. unfold lift, at_element, element_ref.
    destruct (index_of_token t) as [idx| | |]; try done. cbn [obind].
    destruct (wrap 64 idx <? Z.of_nat (length l)); [|done]. destruct (element_at l _) as [w|]; [eauto|done].
Qed.

Lemma pop_back_snoc ts last : pop_back (ts ++ [last]) = Ok (ts, last).
Proof. induction ts as [|t [|u ts] IH]; [done|done|]. cbn [pop_back app] in *. by rewrite IH. Qed.

Lemma operation_add_exec `{Machine} ts last v d d' :
  get_checked ts (add_to_parent last v) d = (Ok tt, d') → operation_add (ts ++ [last]) v d = (Ok tt, d').
Proof.
  intros Hex. unfold operation_add. rewrite bool_decide_false by (by destruct ts).
  assert (Htop : ∃ t, top (ts ++ [last]) = Ok [t] ∧ (([t] = ts ++ [last]) ∨ ∃ w, get_checked_const [t] d = Ok w)).
  { destruct ts as [|t ts]; [exists last; split; [done|by left]|]. exists t. split; [done|right]. by eapply checked_first. }
  destruct Htop as (t & Ht & Hcase). unfold bind, lift. rewrite Ht. cbv beta iota.
  assert (Hskip : (if bool_decide ([t] ≠ ts ++ [last]) then bind (at_pointer [t]) (λ _, ret tt) else ret tt) d = (Ok tt, d)).
  { case_bool_decide as Hb; [|done]. destruct Hcase as [?|[w Hw]]; [done|]. unfold at_pointer, bind, get_state, lift. by rewrite Hw. }
  unfold bind in Hskip. unfold lift in *. rewrite Hskip, pop_back_snoc. by apply unchecked_of_checked.
Qed.

Lemma apply_render `{Machine} e d d' :
  exec e d = (Ok tt, d') → apply_operations [render e] d = (Ok tt, d').
Proof.
  intros Hex. assert (Hop : ∀ kvs, render e = jobject kvs → apply_operation kvs d = (Ok tt, d') →
    apply_operations [render e] d = (Ok tt, d')).
  { intros kvs Hr Ha. cbn [apply_operations]. rewrite Hr. unfold bind, ret. by rewrite Ha. }
  destruct e as [ts v|ts last|ts last v]; cbn [exec] in Hex; (eapply Hop; [reflexivity|]); clear Hop;
    unfold apply_operation, bind, lift, get_value_string, get_value; simpl; rewrite split_to_string.
  - exact Hex.
  - unfold operation_remove, bind, lift. rewrite pop_back_snoc. exact Hex.
  - by apply operation_add_exec.
Qed.

Lemma apply_renders `{Machine} es d d' :
  exec_all es d = (Ok tt, d') → apply_operations (render <$> es) d = (Ok tt, d').
Proof.
  revert d. induction es as [|e es IH]; intros d Hes; [done|]. simpl in Hes. apply bind_ok in Hes as ([] & d1 & He & Hes).
  rewrite fmap_cons. apply apply_render in He. cbn [apply_operations] in He |- *.
  apply bind_ok in He as ([] & d1' & He & [= ->]). by rewrite (bind_run _ _ _ _ _ He), (IH d1).
Qed.

(** ** The edits of a diff *)

Definition index_key (i : nat) : string := to_string (Z.of_nat i).

Fixpoint remove_edits (i : nat) (source : list json) : list edit :=
  match source with
  | [] => []
  | _ :: source => remove_edits (S i) source ++ [Remove [] (index_key i)]
  end.

Fixpoint add_edits (i : nat) (target : list json) : list edit :=
  match target with
  | [] => []
  | v :: target => Add [] (index_key i) v :: add_edits (S i) target
  end.

Definition member_adds (source target : std_map json) : list edit :=
  flat_map (λ kv, if map_mem kv.1 source then [] else [Add [] kv.1 kv.2]) target.

Definition element_edits (edits : json → json → list edit) : nat → list json → list json → list edit :=
  fix elements i s t :=
    match s, t with
    | x :: s, y :: t => (under [index_key i] <$> edits x y) ++ elements (S i) s t
    | _, _ => remove_edits i s ++ add_edits i t
    end.

Definition member_edits (edits : json → json → list edit) (target : std_map json) :
    list (string * json) → list edit :=
  fix members s :=
    match s with
    | [] => []
    | (k, x) :: s =>
        match map_find k target with
        | Some y => under [k] <$> edits x y
        | None => [Remove [] k]
        end ++ members s
    end.

Fixpoint edits (source target : json) : list edit :=
  if json_eq source target then [] else
  match source, target with
  | jarray s, jarray t => element_edits edits O s t
  | jobject s, jobject t => member_edits edits t s ++ member_adds s t
  | _, _ => [Replace [] target]
  end.

(** *** They are rendered as the operations of the diff *)

Definition renders (ts : list string) (es : list edit) : list json := render <$> (under ts <$> es).

Lemma renders_app ts es es' : renders ts (es ++ es') = renders ts es ++ renders ts es'.
Proof. unfold renders. by rewrite !fmap_app. Qed.

Lemma renders_under ts us es : renders ts (under us <$> es) = renders (ts ++ us) es.
Proof.
  unfold renders. f_equal. rewrite <-list_fmap_compose. apply list_fmap_ext. intros i e _. apply under_app.
Qed.

Lemma key_path_text ts k : key_path (pointer_to_string ts) k = pointer_to_string (ts ++ [k]).
Proof. unfold key_path, pointer_to_string. by rewrite foldl_app. Qed.

Lemma index_path_text ts i : index_path (pointer_to_string ts) i = pointer_to_string (ts ++ [index_key i]).
Proof. rewrite <-key_path_text. unfold index_path, key_path, index_key. by rewrite escape_to_string. Qed.

Lemma remove_rest_edits ts i s : remove_rest (pointer_to_string ts) i s = renders ts (remove_edits i s).
Proof.
  revert i. induction s as [|x s IH]; intros i; [done|]. cbn [remove_rest remove_edits].
  rewrite renders_app, IH, index_path_text. unfold renders. simpl. by rewrite app_nil_r.
Qed.

Lemma add_rest_edits ts i t : add_rest (pointer_to_string ts) i t = renders ts (add_edits i t).
Proof.
  revert i. induction t as [|y t IH]; intros i; [done|]. cbn [add_rest add_edits].
  rewrite IH, index_path_text. unfold renders. rewrite !fmap_cons. cbn [render under]. by rewrite app_nil_r.
Qed.

Lemma add_members_edits ts s t : add_members (pointer_to_string ts) s t = renders ts (member_adds s t).
Proof.
  unfold add_members, member_adds. induction t as [|[k v] t IH]; [done|]. simpl. rewrite renders_app, IH. f_equal.
  destruct (map_mem k s); [done|]. unfold renders. simpl. by rewrite key_path_text, app_nil_r.
Qed.

Lemma diff_edits s t ts : diff s t (pointer_to_string ts) = renders ts (edits s t).
Proof.
  revert t ts. induction s as [|m IH|l IH|s|b|z|z|d|] using json_ind; intros t ts; cbn [diff edits];
    (destruct (json_eq _ t); [done|]); try (unfold renders; simpl; by rewrite app_nil_r).
  - destruct t as [|m'| | | | | | |]; try (unfold renders; simpl; by rewrite app_nil_r).
    rewrite renders_app, add_members_edits. f_equal. induction IH as [|[k x] m Hx _ IH]; [done|]. cbn [diff_members member_edits]. rewrite renders_app, <-IH. f_equal.
    destruct (map_find k m') as [y|]; [by rewrite key_path_text, renders_under, Hx|].
    unfold renders. simpl. by rewrite key_path_text, app_nil_r.
  - destruct t as [| |l'| | | | | |]; try (unfold renders; simpl; by rewrite app_nil_r).
    generalize O. revert l'. induction IH as [|x l Hx _ IH]; intros l' i.
    { apply add_rest_edits. }
    destruct l' as [|y l']; cbn [diff_elements element_edits].
    + by rewrite renders_app, remove_rest_edits, add_rest_edits.
    + by rewrite renders_app, <-IH, index_path_text, renders_under, Hx.
Qed.

(** ** The edits lead to the target *)

(** Arrays whose indices are numbers of an [int]. *)
Fixpoint indexable (v : json) : bool :=
  match v with
  | jarray l => (Z.of_nat (length l) <=? 2 ^ 31) && forallb indexable l
  | jobject m => forallb (λ kv, indexable kv.2) m
  | _ => true
  end.

(** *** Arrays *)

Lemma exec_remove_last (i : nat) l x :
  Z.of_nat (length l) < 2 ^ 31 → i = length l → exec (Remove [] (index_key i)) (jarray (l ++ [x])) = (Ok tt, jarray l).
Proof.
  intros Hl ->. cbn [exec get_checked remove_from_parent]. unfold index_key. rewrite array_index_to_string by done.
  rewrite length_app. cbn [length]. rewrite wrap_small by lia. rewrite (proj2 (Z.leb_gt _ _)) by lia.
  rewrite Nat2Z.id, delete_take_drop, take_app_length, drop_app_ge by lia.
  replace (S (length l) - length l)%nat with 1%nat by lia. simpl. by rewrite app_nil_r.
Qed.

Lemma exec_remove_edits l s i :
  i = length l → Z.of_nat (length (l ++ s)) ≤ 2 ^ 31 → exec_all (remove_edits i s) (jarray (l ++ s)) = (Ok tt, jarray l).
Proof.
  revert l i. induction s as [|x s IH]; intros l i -> Hlen; [by rewrite app_nil_r|]. cbn [remove_edits].
  eapply exec_all_app.
  - rewrite (cons_middle x l s), app_assoc in Hlen |- *. apply IH; [rewrite length_app; simpl; lia|done].
  - eapply exec_all_cons; [apply exec_remove_last; [rewrite length_app in Hlen; simpl in Hlen; lia|done]|done].
Qed.

Lemma exec_add_last (i : nat) l x :
  Z.of_nat (length l) < 2 ^ 31 → i = length l → exec (Add [] (index_key i) x) (jarray l) = (Ok tt, jarray (l ++ [x])).
Proof.
  intros Hl ->. cbn [exec get_checked add_to_parent]. unfold index_key. destruct (index_token (length l) Hl) as (_ & -> & _).
  rewrite array_index_to_string, wrap_small by (done || lia). rewrite (proj2 (Z.ltb_ge _ _)) by lia.
  by rewrite Nat2Z.id, take_ge, drop_ge by lia.
Qed.

Lemma exec_add_edits l t i :
  i = length l → Z.of_nat (length (l ++ t)) ≤ 2 ^ 31 → exec_all (add_edits i t) (jarray l) = (Ok tt, jarray (l ++ t)).
Proof.
  revert l i. induction t as [|x t IH]; intros l i -> Hlen; [by rewrite app_nil_r|]. cbn [add_edits].
  eapply exec_all_cons.
  - apply exec_add_last; [rewrite length_app in Hlen; simpl in Hlen; lia|done].
  - rewrite (cons_middle x l t), app_assoc in Hlen |- *. apply IH; [rewrite length_app; simpl; lia|done].
Qed.

(** [edits] of [x] to [y] work. *)
Definition edits_work (x y : json) : Prop :=
  ∃ r, exec_all (edits x y) x = (Ok tt, r) ∧ json_eq r y = true.

Lemma exec_elements pre s t :
  (∀ x y, x ∈ s → y ∈ t → edits_work x y) → Forall (λ y, json_eq y y = true) t →
  Z.of_nat (length (pre ++ s)) ≤ 2 ^ 31 → Z.of_nat (length (pre ++ t)) ≤ 2 ^ 31 →
  ∃ rs, exec_all (element_edits edits (length pre) s t) (jarray (pre ++ s)) = (Ok tt, jarray (pre ++ rs))
    ∧ Forall2 (λ r y, json_eq r y = true) rs t.
Proof.
  revert pre t. induction s as [|x s IH]; intros pre t Hw Ht Hs Hlt.
  { exists t. split; [|by apply Forall_Forall2_diag]. rewrite app_nil_r. by apply exec_add_edits. }
  destruct t as [|y t]; cbn [element_edits].
  { exists []. split; [|constructor]. simpl add_edits. rewrite !app_nil_r. by apply exec_remove_edits. }
  destruct (Hw x y) as (r & Hr & Hry); [by left|by left|]. apply Forall_cons in Ht as [Hy Ht].
  rewrite !length_app in Hs, Hlt. cbn [length] in Hs, Hlt.
  destruct (IH (pre ++ [r]) t) as (rs & Hrs & Hall); [|done|rewrite !length_app; simpl; lia|rewrite !length_app; simpl; lia|].
  { intros x' y' Hx' Hy'. apply Hw; by right. }
  exists (r :: rs). split; [|by constructor]. rewrite (cons_middle r pre rs), app_assoc. eapply exec_all_app; [|].
  - unfold index_key. apply (exec_element _ _ _ x); [lia| |exact Hr]. by rewrite list_lookup_middle.
  - rewrite insert_app_r_alt, Nat.sub_diag by lia. simpl. rewrite length_app in Hrs. simpl in Hrs.
    rewrite Nat.add_1_r, <-app_assoc in Hrs. exact Hrs.
Qed.

(** *** Objects *)

Lemma exec_members (t : std_map json) s m :
  (∀ k x, (k, x) ∈ s → map_find k m = Some x ∧ ∀ y, map_find k t = Some y → edits_work x y) →
  NoDup s.*1 → map_wf m →
  ∃ m', exec_all (member_edits edits t s) (jobject m) = (Ok tt, jobject m') ∧ map_wf m' ∧
    (∀ k, k ∉ s.*1 → map_find k m' = map_find k m) ∧ (∀ k, k ∈ s.*1 → opt_eq (map_find k m') (map_find k t)).
Proof.
  revert m. induction s as [|[k x] s IH]; intros m Hs Hnd Hwf.
  { exists m. split_and!; [done|done|done|]. intros k Hk. by apply not_elem_of_nil in Hk. }
  rewrite fmap_cons in Hnd. apply NoDup_cons in Hnd as [Hk Hnd]. cbn [fst] in Hk. destruct (Hs k x) as [Hx Hwork]; [by left|].
  assert (Hstep : ∃ m1, exec_all match map_find k t with Some y => under [k] <$> edits x y | None => [Remove [] k] end (jobject m)
    = (Ok tt, jobject m1) ∧ map_wf m1 ∧ opt_eq (map_find k m1) (map_find k t) ∧ ∀ k', k' ≠ k → map_find k' m1 = map_find k' m).
  { destruct (map_find k t) as [y|].
    - destruct (Hwork y) as (r & Hr & Hry); [done|]. exists (map_put k r m).
      split_and!; [by apply (exec_member _ k m x)|by apply map_put_wf|by rewrite map_find_put, decide_True|].
      intros k' Hne. by rewrite map_find_put, decide_False.
    - exists (map_erase k m). split_and!; [|by apply map_erase_wf|by rewrite map_find_erase, decide_True|].
      + eapply exec_all_cons; [|done]. cbn [exec get_checked remove_from_parent].
        by rewrite (proj2 (map_mem_true k m)) by (by exists x).
      + intros k' Hne. by rewrite map_find_erase, decide_False. }
  destruct Hstep as (m1 & Hrun & Hwf1 & Hk1 & Hother).
  destruct (IH m1) as (m' & Hrun' & Hwf' & Hout & Hin); [|done|done|].
  { intros k' x' Hin'. assert (Hne : k' ≠ k).
    { intros ->. apply Hk. by apply (list_elem_of_fmap_2 fst s (k, x')). }
    rewrite Hother by done. apply Hs. by right. }
  exists m'. split_and!; [by eapply exec_all_app|done|..].
  - intros k' Hk'. rewrite fmap_cons, not_elem_of_cons in Hk'. destruct Hk' as [Hne Hk']. by rewrite Hout, Hother.
  - intros k' Hk'. rewrite fmap_cons, elem_of_cons in Hk'. destruct Hk' as [->|Hk']; [|by apply Hin].
    cbn [fst]. by rewrite Hout.
Qed.

Lemma exec_member_adds (s t : std_map json) m :
  NoDup t.*1 → map_wf m →
  ∃ m', exec_all (member_adds s t) (jobject m) = (Ok tt, jobject m') ∧ map_wf m' ∧
    (∀ k v, (k, v) ∈ t → map_mem k s = false → map_find k m' = Some v) ∧
    (∀ k, k ∉ t.*1 ∨ map_mem k s = true → map_find k m' = map_find k m).
Proof.
  unfold member_adds. revert m. induction t as [|[k v] t IH]; intros m Hnd Hwf.
  { exists m. split_and!; [done|done| |done]. intros k v Hk. by apply not_elem_of_nil in Hk. }
  rewrite fmap_cons in Hnd. apply NoDup_cons in Hnd as [Hk Hnd]. simpl in *.
  destruct (IH (if map_mem k s then m else map_put k v m)) as (m' & Hrun & Hwf' & Hin & Hout);
    [done|destruct (map_mem k s); auto using map_put_wf|].
  exists m'. split_and!; [|done|..].
  - destruct (map_mem k s); [exact Hrun|]. eapply exec_all_cons; [|exact Hrun].
    cbn [exec get_checked add_to_parent]. unfold index_member, member_ref, put_state. done.
  - intros k' v' Hk' Hs. apply elem_of_cons in Hk' as [[= -> ->]|Hk']; [|by apply Hin].
    rewrite Hout by (by left). rewrite Hs. by rewrite map_find_put, decide_True.
  - intros k' Hk'. rewrite Hout by (rewrite not_elem_of_cons in Hk'; tauto). destruct (map_mem k s) eqn:E; [done|].
    rewrite map_find_put by done. case_decide; [|done]. subst k'. destruct Hk' as [Hk'|Hk']; [|congruence].
    destruct Hk'. by left.
Qed.

(** *** Every value *)

Lemma object_works (s t : std_map json) :
  map_wf s → map_wf t → (∀ k x y, map_find k s = Some x → map_find k t = Some y → edits_work x y) →
  Forall (λ kv, json_eq kv.2 kv.2 = true) t →
  ∃ m, exec_all (member_edits edits t s ++ member_adds s t) (jobject s) = (Ok tt, jobject m)
    ∧ json_eq (jobject m) (jobject t) = true.
Proof.
  intros Hs Ht Hw Hrefl.
  destruct (exec_members t s s) as (m1 & Hrun1 & Hwf1 & Hout1 & Hin1); [|by apply map_keys_NoDup|done|].
  { intros k x Hkx. apply map_find_elem_of in Hkx; [|done]. split; [done|]. intros y Hy. by eapply Hw. }
  destruct (exec_member_adds s t m1) as (m2 & Hrun2 & Hwf2 & Hin2 & Hout2); [by apply map_keys_NoDup|done|].
  exists m2. split; [by eapply exec_all_app|]. apply object_eq_ext; [done|done|]. intros k.
  destruct (map_mem k s) eqn:Hks.
  - rewrite Hout2 by (by right). apply Hin1. apply map_mem_true in Hks as [x Hx]. apply map_find_elem_of in Hx; [|done].
    by apply (list_elem_of_fmap_2 fst s (k, x)).
  - destruct (map_find k t) as [y|] eqn:Hy.
    + apply map_find_elem_of in Hy; [|done]. rewrite (Hin2 k y) by done. rewrite Forall_forall in Hrefl.
      apply (Hrefl (k, y) Hy).
    + rewrite Hout2, Hout1; [apply map_mem_false in Hks; by rewrite Hks|..].
      * intros ([k' x] & -> & Hin)%list_elem_of_fmap. apply map_find_elem_of in Hin; [|done].
        apply map_mem_false in Hks. simpl in *. congruence.
      * left. intros ([k' y] & -> & Hin)%list_elem_of_fmap. apply map_find_elem_of in Hin; [|done]. simpl in *. congruence.
Qed.

Lemma replace_works x y : edits x y = [Replace [] y] → json_eq y y = true → edits_work x y.
Proof. intros He Hy. exists y. by rewrite He. Qed.

Lemma all_edits_work s t :
  json_wf s → json_wf t → indexable s = true → indexable t = true → json_eq t t = true → edits_work s t.
Proof.
  revert t. induction s as [|m IH|l IH|s|b|z|z|d|] using json_ind; intros t Hs Ht Hsi Hti Hrefl;
    match goal with |- edits_work ?s t =>
      destruct (json_eq s t) eqn:E; [exists s; split; [|done]; destruct t; cbn [edits]; by rewrite E|] end;
    try (apply replace_works; [destruct t; cbn [edits]; by rewrite E|done]).
  - destruct t as [|m'| | | | | | |]; try (apply replace_works; [cbn [edits]; by rewrite E|done]).
    inversion Hs as [|? Hm Hms| | | | | | |]; subst. inversion Ht as [|? Hm' Hms'| | | | | | |]; subst.
    cbn [indexable] in *. rewrite forallb_forall in Hsi, Hti. rewrite Forall_forall in IH, Hms, Hms'.
    pose proof (proj1 (object_eq_refl m') Hrefl) as Hall.
    destruct (object_works m m') as (r & Hr & Hre); [done|done| |done|exists (jobject r); split; [cbn [edits]; by rewrite E|done]].
    intros k x y Hx Hy. apply map_find_elem_of in Hx, Hy; [|done|done]. rewrite Forall_forall in Hall.
    apply (IH (k, x) Hx); [apply (Hms _ Hx)|apply (Hms' _ Hy)|apply (Hsi (k, x))|apply (Hti (k, y))|apply (Hall _ Hy)];
      by apply list_elem_of_In.
  - destruct t as [| |l'| | | | | |]; try (apply replace_works; [cbn [edits]; by rewrite E|done]).
    inversion Hs as [| |? Hls| | | | | |]; subst. inversion Ht as [| |? Hls'| | | | | |]; subst.
    cbn [indexable] in *. zify_cmp. rewrite forallb_forall in *. rewrite Forall_forall in IH, Hls, Hls'.
    pose proof (proj1 (array_eq_refl l') Hrefl) as Hall. destruct (exec_elements [] l l') as (rs & Hrs & Hrel); [|done|done|done|].
    + rewrite Forall_forall in Hall. intros x y Hx Hy. pose proof (proj1 (list_elem_of_In _ _) Hx).
      pose proof (proj1 (list_elem_of_In _ _) Hy). apply IH; auto.
    + exists (jarray rs). split; [cbn [edits]; by rewrite E|]. by apply list_eqb_Forall2.
Qed.

(** C14: The documented invariant of [diff]: patching [source] with the diff to
    [target] succeeds and gives a value equal to [target], for all values whose
    arrays have at most 2^31 elements, if [target] is equal to itself; a NaN is
    not. *)
Theorem patch_diff `{Machine} source target :
  json_wf source → json_wf target → indexable source = true → indexable target = true →
  json_eq target target = true →
  ∃ r, patch source (jarray (diff source target "")) = Ok r ∧ json_eq r target = true.
Proof.
  intros Hs Ht His Hit Hrefl. destruct (all_edits_work source target Hs Ht His Hit Hrefl) as (r & Hr & Hre).
  exists r. split; [|done]. change "" with (pointer_to_string []). rewrite diff_edits. unfold renders.
  assert (Hid : under [] <$> edits source target = edits source target).
  { rewrite <-(list_fmap_id (edits source target)) at 2. apply list_fmap_ext. by intros i [] _. }
  rewrite Hid. unfold patch. by rewrite (bind_run _ _ _ tt r) by by apply apply_renders.
Qed.

Lemma patch_diff_witness :
  ∃ r, patch (H := x86_64) patch_source (jarray (diff patch_source patch_target "")) = Ok r ∧ json_eq r patch_target = true.
Proof.
  apply (patch_diff (H := x86_64)); try reflexivity; repeat first [constructor | apply map_wf_cons].
Defined.
