(* ===== verification/JsonMerge.v ===== *)
(** * JSON Merge Patch (json.hpp, [merge_patch])

    [merge_patch] member by member as in RFC 7396, and applying a patch twice. *)

From stdpp Require Import base gmap strings list.
From Stdlib Require Import ZArith Ascii Lia.
From S2P Require Import Prelude Cxx StdMap JsonValue JsonDump JsonEqual JsonSax JsonBinary JsonPointer JsonPatch.

(** The members a value has as a target. *)
Definition members_of (v : json) : std_map json := match v with jobject m => m | _ => [] end.

(** A member of the result, from the member of the patch and that of the
    target. *)
Definition merged (patch target : option json) : option json :=
  match patch with
  | None => target
  | Some jnull => None
  | Some p => Some (merge_patch (default jnull target) p)
  end.

Lemma wf_members v : json_wf v → map_wf (members_of v).
Proof. destruct 1; simpl; [by constructor|done|by constructor..]. Qed.

Lemma merge_members_wf f p m : map_wf m → map_wf (merge_members f p m).
Proof.
  revert m. induction p as [|[k v] p IH]; intros m Hm; [done|]. simpl. apply IH.
  destruct v; by apply map_put_wf || apply map_erase_wf.
Qed.

Lemma merge_members_find p m k :
  map_wf p → map_wf m →
  map_find k (merge_members (λ t q, merge_patch t q) p m) = merged (map_find k p) (map_find k m).
Proof.
  revert m. induction p as [|[k' v] p IH]; intros m Hp Hm; [done|]. apply map_wf_cons in Hp as [Hgt Hp]. cbn [merge_members].
  set (m1 := match v with jnull => _ | _ => _ end).
  assert (Hm1 : map_wf m1) by (unfold m1; destruct v; by apply map_put_wf || apply map_erase_wf).
  assert (Hfind : map_find k m1 = if decide (k = k') then merged (Some v) (map_find k m) else map_find k m).
  { unfold m1. destruct v; rewrite ?map_find_put, ?map_find_erase by done; case_decide; by subst. }
  rewrite (IH m1) by done. rewrite Hfind. cbn [map_find]. destruct (str_compareP k k') as [->|Hlt|Hlt].
  - rewrite decide_True, map_find_all_gt by done. done.
  - rewrite decide_False by (intros ->; by apply str_lt_irrefl in Hlt). rewrite map_find_all_gt; [done|]. by eapply all_gt_lt.
  - rewrite decide_False by (intros ->; by apply str_lt_irrefl in Hlt). done.
Qed.

(** C30: [merge_patch] is the algorithm of RFC 7396: a patch that is no object
    replaces the target; the result of an object has, for each name, no member
    if the patch has null, the target's member merged with the patch's (null
    standing for a missing one) if it has another value, and the target's
    member otherwise. *)
Theorem merge_patch_rfc target p :
  json_wf target → json_wf p →
  match p with
  | jobject pm => ∃ m, merge_patch target p = jobject m ∧ map_wf m ∧
      ∀ k, map_find k m = merged (map_find k pm) (map_find k (members_of target))
  | _ => merge_patch target p = p
  end.
Proof.
  intros Ht Hp. destruct p as [|pm| | | | | | |]; try done. eexists. split; [reflexivity|].
  inversion Hp; subst. apply wf_members in Ht. split; [by apply merge_members_wf|]. intros k. by apply merge_members_find.
Qed.

Lemma merge_patch_rfc_witness :
  ∃ m, merge_patch patch_source patch_target = jobject m ∧ map_wf m ∧
    ∀ k, map_find k m = merged (map_find k (members_of patch_target)) (map_find k (members_of patch_source)).
Proof.
  apply (merge_patch_rfc patch_source patch_target); repeat first [constructor | apply map_wf_cons].
Defined.

Lemma merge_object t pm :
  merge_patch t (jobject pm) = jobject (merge_members (λ t q, merge_patch t q) pm (members_of t)).
Proof. done. Qed.

(** Applying a merge patch again changes nothing. *)
Theorem merge_patch_idempotent target p :
  json_wf target → json_wf p → merge_patch (merge_patch target p) p = merge_patch target p.
Proof.
  revert target. induction p as [|pm IH|l IH|s|b|z|z|d|] using json_ind; intros target Ht Hp; try done.
  rewrite !merge_object. f_equal. inversion Hp as [|? Hpm Hps| | | | | | |]; subst. apply wf_members in Ht as Htm.
  cbn [members_of]. set (m := merge_members _ pm (members_of target)).
  assert (Hm : map_wf m) by (by apply merge_members_wf). apply map_wf_ext; [by apply merge_members_wf|done|].
  intros k. rewrite merge_members_find by done. unfold m. rewrite merge_members_find by done.
  destruct (map_find k pm) as [v|] eqn:E; [|done]. apply map_find_elem_of in E; [|done].
  rewrite Forall_forall in IH, Hps. pose proof (IH (k, v) E) as Hv. cbn [snd] in Hv.
  assert (Hw : json_wf (default jnull (map_find k (members_of target)))).
  { destruct (map_find k (members_of target)) as [w|] eqn:Ew; [|constructor]. simpl. destruct target as [|tm| | | | | | |]; try done.
    inversion Ht as [|? ? Hts| | | | | | |]; subst. apply map_find_elem_of in Ew; [|done]. rewrite Forall_forall in Hts. apply (Hts _ Ew). }
  destruct v; cbn [merged]; try done; cbn [default]; f_equal; apply Hv; (exact Hw || apply (Hps _ E)).
Qed.
