(* ===== verification/JsonFlatten.v ===== *)
(** * Flattening and back (json.hpp, [flatten], [unflatten])

    [flatten] has one member per primitive part of a value, named by the text of
    its pointer; [unflatten] puts them back, in the order of the texts. *)

From stdpp Require Import base gmap strings list.
From Stdlib Require Import ZArith Ascii Lia.
From S2P Require Import Prelude Cxx StdMap JsonValue JsonDump JsonEqual JsonSax JsonBinary JsonPointer JsonPatch JsonPatchCorrect.

(** ** Values *)

(** Values without empty arrays and objects, which flatten to null, and
    without members named 0, which unflatten to elements. *)
Fixpoint unflattenable (v : json) : bool :=
  match v with
  | jarray l => negb (bool_decide (l = [])) && (Z.of_nat (length l) <=? 2 ^ 31) && forallb unflattenable l
  | jobject m => negb (bool_decide (m = [])) && forallb (λ kv, negb (String.eqb kv.1 "0") && unflattenable kv.2) m
  | jdiscarded => false
  | _ => true
  end.

(** [x] is the primitive part of [v] at the end of the tokens. *)
Inductive leaf_at : json → list string → json → Prop :=
| leaf_here v : is_primitive v = true → leaf_at v [] v
| leaf_element l i x ts w : l !! i = Some x → leaf_at x ts w → leaf_at (jarray l) (index_key i :: ts) w
| leaf_member m k x ts w : map_find k m = Some x → leaf_at x ts w → leaf_at (jobject m) (k :: ts) w.

Lemma index_key_inj i j : index_key i = index_key j → i = j.
Proof. intros E%to_string_inj_nonneg; lia. Qed.

Lemma leaf_at_fun v ts x y : leaf_at v ts x → leaf_at v ts y → x = y.
Proof.
  intros Hx. revert y. induction Hx as [v Hp|l i x ts w Hi _ IH|m k x ts w Hk _ IH]; intros y Hy;
    inversion Hy as [|? j x' ? ? Hj Hy'|? ? x' ? ? Hj Hy']; subst; try done.
  - match goal with E : index_key _ = index_key _ |- _ => apply index_key_inj in E as -> end.
    rewrite Hi in Hj. injection Hj as <-. by apply IH.
  - rewrite Hk in Hj. injection Hj as <-. by apply IH.
Qed.

Lemma leaf_primitive v ts x : leaf_at v ts x → is_primitive x = true.
Proof. by induction 1. Qed.

Lemma unflattenable_array l : unflattenable (jarray l) = true →
  l ≠ [] ∧ Z.of_nat (length l) ≤ 2 ^ 31 ∧ Forall (λ v, unflattenable v = true) l.
Proof.
  cbn [unflattenable]. intros [[Hne Hlen]%andb_true_iff Hl]%andb_true_iff. zify_cmp.
  split_and!; [by apply negb_true_iff, bool_decide_eq_false in Hne|done|].
  rewrite forallb_forall in Hl. apply Forall_forall. intros v Hv%list_elem_of_In. by apply Hl.
Qed.

Lemma unflattenable_object m : unflattenable (jobject m) = true →
  m ≠ [] ∧ Forall (λ kv, kv.1 ≠ "0" ∧ unflattenable kv.2 = true) m.
Proof.
  cbn [unflattenable]. intros [Hne Hm]%andb_true_iff. split; [by apply negb_true_iff, bool_decide_eq_false in Hne|].
  rewrite forallb_forall in Hm. apply Forall_forall. intros kv Hkv%list_elem_of_In.
  specialize (Hm kv Hkv). apply andb_true_iff in Hm as [Hk Hv]. split; [|done]. by apply String.eqb_neq, negb_true_iff.
Qed.

(** There is always a primitive part. *)
Lemma has_leaf v : unflattenable v = true → json_wf v → ∃ ts x, leaf_at v ts x.
Proof.
  induction v as [|m IH|l IH|s|b|z|z|d|] using json_ind; intros Hu Hwf;
    try (eexists [], _; by apply leaf_here).
  - apply unflattenable_object in Hu as [Hne Hall]. inversion Hwf as [|? Hm Hms| | | | | | |]; subst.
    destruct m as [|[k v] m]; [done|]. apply Forall_cons in IH as [IH _], Hall as [[_ Hv] _], Hms as [Hwv _].
    destruct (IH Hv Hwv) as (ts & x & Hx). exists (k :: ts), x. eapply leaf_member; [|exact Hx].
    simpl. by rewrite str_compare_refl.
  - apply unflattenable_array in Hu as (Hne & _ & Hall). inversion Hwf as [| |? Hls| | | | | |]; subst.
    destruct l as [|v l]; [done|]. apply Forall_cons in IH as [IH _], Hall as [Hv _], Hls as [Hwv _].
    destruct (IH Hv Hwv) as (ts & x & Hx). exists (index_key 0 :: ts), x. by eapply leaf_element.
Qed.

(** ** The text of pointers, in order *)

Lemma text_cons t ts : pointer_to_string (t :: ts) = String "/" (escape t +:+ pointer_to_string ts).
Proof. by rewrite !pointer_text. Qed.

Lemma text_inj ts us : pointer_to_string ts = pointer_to_string us → ts = us.
Proof. intros E. pose proof (split_to_string ts) as H1. rewrite E, split_to_string in H1. by injection H1. Qed.

Lemma compare_prefix p s t : String.compare (p +:+ s) (p +:+ t) = String.compare s t.
Proof. induction p as [|c p IH]; [done|]. simpl. unfold Ascii.compare. by rewrite N.compare_refl. Qed.

Lemma text_lt_cons t ts us : str_lt (pointer_to_string (t :: ts)) (pointer_to_string (t :: us)) ↔
  str_lt (pointer_to_string ts) (pointer_to_string us).
Proof.
  rewrite !text_cons. unfold str_lt. change (String "/" (escape t +:+ ?s)) with ((String "/" (escape t)) +:+ s).
  by rewrite compare_prefix.
Qed.

(** The part with index 0 comes before those with other indices. *)
Lemma zero_first i us ts :
  i ≠ O → str_lt (pointer_to_string (index_key 0 :: us)) (pointer_to_string (index_key i :: ts)).
Proof.
  intros Hi. rewrite !text_cons. unfold index_key at 2. rewrite escape_to_string. unfold to_string.
  rewrite (proj2 (Z.ltb_ge _ 0)) by lia.
  destruct (dec_digits_head (dec_fuel (Z.of_nat i)) (Z.of_nat i) "") as (d & ds & -> & Hd).
  { split; [lia|]. apply dec_fuel_enough. lia. }
  change (escape (index_key 0)) with "0". unfold str_lt. simpl. unfold Ascii.compare.
  replace (N.compare (N_of_ascii "0") (N_of_ascii (digit d))) with Lt; [done|]. symmetry. apply N.compare_lt_iff.
  pose proof (digit_byte d ltac:(lia)) as Hb. unfold byte_of in Hb. change (N_of_ascii "0") with 48%N. lia.
Qed.

(** ** Flattening *)

(** [r'] is [r] with the parts of [v] at texts that begin with [ref]. *)
Definition flattens (ref : string) (leaf : list string → json → Prop) (r r' : std_map json) : Prop :=
  map_wf r' ∧
  (∀ ts x, leaf ts x → map_find (ref +:+ pointer_to_string ts) r' = Some x) ∧
  (∀ k, (∃ ts x, leaf ts x ∧ k = ref +:+ pointer_to_string ts) ∨ map_find k r' = map_find k r).

Lemma flattens_seq ref leaf1 leaf2 r1 r2 r3 :
  (∀ ts x y, leaf1 ts x → leaf2 ts y → False) →
  flattens ref leaf1 r1 r2 → flattens ref leaf2 r2 r3 → flattens ref (λ ts x, leaf1 ts x ∨ leaf2 ts x) r1 r3.
Proof.
  intros Hdis (Hwf2 & Hin2 & Hout2) (Hwf3 & Hin3 & Hout3). split_and!; [done|..].
  - intros ts x [H1|H2]; [|by apply Hin3].
    destruct (Hout3 (ref +:+ pointer_to_string ts)) as [(us & y & Hy & E)| ->]; [|by apply Hin2].
    apply append_inj_l in E as [_ E]; [|done]. apply text_inj in E as ->. by destruct (Hdis us x y).
  - intros k. destruct (Hout3 k) as [(us & y & Hy & E)| ->]; [left; eauto|].
    destruct (Hout2 k) as [(us & y & Hy & E)| ->]; [left; eauto|by right].
Qed.

Lemma flattens_under ref t leaf leaf' r r' :
  (∀ ts x, leaf' ts x ↔ ∃ us, ts = t :: us ∧ leaf us x) →
  flattens ((ref +:+ "/") +:+ escape t) leaf r r' → flattens ref leaf' r r'.
Proof.
  intros Hl (Hwf & Hin & Hout).
  assert (Htext : ∀ us, ref +:+ pointer_to_string (t :: us) = ((ref +:+ "/") +:+ escape t) +:+ pointer_to_string us).
  { intros us. by rewrite text_cons, !append_assoc. }
  split_and!; [done|..].
  - intros ts x (us & -> & Hx)%Hl. rewrite Htext. by apply Hin.
  - intros k. destruct (Hout k) as [(us & x & Hx & ->)| ->]; [left|by right]. exists (t :: us), x. rewrite Hl, Htext. eauto.
Qed.

Lemma flattens_ext ref leaf leaf' r r' :
  (∀ ts x, leaf ts x ↔ leaf' ts x) → flattens ref leaf r r' → flattens ref leaf' r r'.
Proof.
  intros Hl (Hwf & Hin & Hout). split_and!; [done|..].
  - intros ts x Hx%Hl. by apply Hin.
  - intros k. destruct (Hout k) as [(ts & x & Hx%Hl & ->)| ->]; [left; eauto|by right].
Qed.

Lemma flattens_here ref v r : is_primitive v = true → map_wf r → flattens ref (leaf_at v) r (map_put ref v r).
Proof.
  intros Hp Hr. assert (Hl : ∀ ts x, leaf_at v ts x → ts = [] ∧ x = v) by (intros ts x Hx; by inversion Hx; subst).
  split_and!; [by apply map_put_wf|..].
  - intros ts x [-> ->]%Hl. change (pointer_to_string []) with "". by rewrite append_nil_r, map_find_put, decide_True.
  - intros k. rewrite map_find_put by done. case_decide as Hk; [left|by right]. exists [], v. split; [by apply leaf_here|].
    change (pointer_to_string []) with "". by rewrite append_nil_r.
Qed.

Lemma elements_flatten ref l i0 r :
  Forall (λ v, ∀ ref r, map_wf r → flattens ref (leaf_at v) r (flatten_value ref v r)) l → map_wf r →
  flattens ref (λ ts x, ∃ i v us, l !! i = Some v ∧ ts = index_key (i0 + i) :: us ∧ leaf_at v us x) r
    (flatten_elements (λ r v, flatten_value r v) ref i0 l r).
Proof.
  intros Hl. revert i0 r. induction Hl as [|v l Hv _ IH]; intros i0 r Hr.
  { split_and!; [done| |by right]. by intros ts x (i & v & us & Hi & _). }
  cbn [flatten_elements]. set (r1 := flatten_value _ v r).
  assert (H1 : flattens ref (λ ts x, ∃ us, ts = index_key i0 :: us ∧ leaf_at v us x) r r1).
  { eapply flattens_under; [intros ts x; reflexivity|]. unfold index_key. rewrite escape_to_string. by apply Hv. }
  eapply flattens_ext; [|eapply flattens_seq; [|exact H1|exact (IH (S i0) r1 (proj1 H1))]].
  - intros ts x. split.
    + intros [(us & -> & Hx)|(i & w & us & Hi & -> & Hx)].
      * exists O, v, us. by rewrite Nat.add_0_r.
      * exists (S i), w, us. by rewrite Nat.add_succ_r.
    + intros ([|i] & w & us & Hi & -> & Hx).
      * left. injection Hi as ->. exists us. by rewrite Nat.add_0_r.
      * right. exists i, w, us. by rewrite Nat.add_succ_r.
  - intros ts x y (us & -> & _) (i & w & us' & _ & E & _). injection E as E _. apply index_key_inj in E. lia.
Qed.

Lemma members_flatten ref (m : std_map json) r :
  Forall (λ kv, ∀ ref r, map_wf r → flattens ref (leaf_at kv.2) r (flatten_value ref kv.2 r)) m → NoDup m.*1 → map_wf r →
  flattens ref (λ ts x, ∃ k v us, (k, v) ∈ m ∧ ts = k :: us ∧ leaf_at v us x) r
    (flatten_members (λ r v, flatten_value r v) ref m r).
Proof.
  intros Hm. revert r. induction Hm as [|[k v] m Hv _ IH]; intros r Hnd Hr.
  { split_and!; [done| |by right]. intros ts x (k & v & us & Hk & _). by apply not_elem_of_nil in Hk. }
  rewrite fmap_cons in Hnd. apply NoDup_cons in Hnd as [Hk Hnd].
  cbn [flatten_members]. set (r1 := flatten_value _ v r).
  assert (H1 : flattens ref (λ ts x, ∃ us, ts = k :: us ∧ leaf_at v us x) r r1).
  { eapply flattens_under; [intros ts x; reflexivity|]. by apply Hv. }
  eapply flattens_ext; [|eapply flattens_seq; [|exact H1|exact (IH r1 Hnd (proj1 H1))]].
  - intros ts x. split.
    + intros [(us & -> & Hx)|(k' & w & us & Hi & -> & Hx)]; [exists k, v, us|exists k', w, us]; (split_and!; [|done|done]); set_solver.
    + intros (k' & w & us & Hi & -> & Hx). apply elem_of_cons in Hi as [[= -> ->]|Hi]; [left; by exists us|right; by exists k', w, us].
  - intros ts x y (us & -> & _) (k' & w & us' & Hin & E & _). injection E as -> _. apply Hk.
    by apply (list_elem_of_fmap_2 fst m (k', w)).
Qed.

Lemma value_flattens v ref r :
  unflattenable v = true → json_wf v → map_wf r → flattens ref (leaf_at v) r (flatten_value ref v r).
Proof.
  revert ref r. induction v as [|m IH|l IH|s|b|z|z|d|] using json_ind; intros ref r Hu Hwf Hr; try (by apply flattens_here).
  - apply unflattenable_object in Hu as [Hne Hall]. inversion Hwf as [|? Hm Hms| | | | | | |]; subst.
    assert (Hf : flattens ref (λ ts x, ∃ k v us, (k, v) ∈ m ∧ ts = k :: us ∧ leaf_at v us x) r
      (flatten_members (λ r v, flatten_value r v) ref m r)).
    { apply members_flatten; [|by apply map_keys_NoDup|done]. rewrite Forall_forall in *. intros kv Hkv ref' r' Hr'.
      apply IH; [done|by apply Hall|by apply Hms|done]. }
    destruct m as [|kv m]; [done|]. eapply flattens_ext; [|exact Hf]. intros ts x. split.
    + intros (k & v & us & Hin & -> & Hx). eapply leaf_member; [by apply map_find_elem_of|exact Hx].
    + intros Hx. inversion Hx; subst; [done|]. eexists _, _, _. split_and!; [by apply map_find_elem_of|done|done].
  - apply unflattenable_array in Hu as (Hne & _ & Hall). inversion Hwf as [| |? Hls| | | | | |]; subst.
    assert (Hf : flattens ref (λ ts x, ∃ i v us, l !! i = Some v ∧ ts = index_key (0 + i) :: us ∧ leaf_at v us x) r
      (flatten_elements (λ r v, flatten_value r v) ref 0 l r)).
    { apply elements_flatten; [|done]. rewrite Forall_forall in *. intros v Hv ref' r' Hr'. apply IH; auto. }
    destruct l as [|v l]; [done|]. eapply flattens_ext; [|exact Hf]. intros ts x. split.
    + intros (i & w & us & Hi & -> & Hx). by eapply leaf_element.
    + intros Hx. inversion Hx; subst; [done|]. by eexists _, _, _.
Qed.

(** ** Unflattening *)

(** [approx d j]: what has been built of [j]. *)
Unset Elimination Schemes.
Inductive approx : json → json → Prop :=
| approx_null j : approx jnull j
| approx_primitive j : is_primitive j = true → approx j j
| approx_array l' l :
    (length l' ≤ length l)%nat →
    (∀ i x', l' !! i = Some x' → ∃ x, l !! i = Some x ∧ approx x' x) → approx (jarray l') (jarray l)
| approx_object m' m :
    map_wf m' → (∀ k x', map_find k m' = Some x' → ∃ x, map_find k m = Some x ∧ approx x' x) →
    approx (jobject m') (jobject m).
Set Elimination Schemes.

(** What has been built keeps the parts of [j] it has. *)
Definition keeps (j d d' : json) : Prop := ∀ us y, leaf_at j us y → leaf_at d us y → leaf_at d' us y.

(** The parts of [j] before [ts] have been built. *)
Definition built_before (j : json) (ts : list string) (d : json) : Prop :=
  ∀ us y, leaf_at j us y → str_lt (pointer_to_string us) (pointer_to_string ts) → leaf_at d us y.

(** [d'] is [d] with the part [x] of [j] at [ts]. *)
Definition built (j : json) (ts : list string) (x d d' : json) : Prop :=
  approx d' j ∧ leaf_at d' ts x ∧ keeps j d d'.

(** *** Elements *)

(** An array filled up to the index [i]. *)
Definition pad (l : list json) (i : nat) : list json := l ++ replicate (S i - length l) jnull.

Lemma pad_lookup l i n x : pad l i !! n = Some x → l !! n = Some x ∨ (l !! n = None ∧ x = jnull ∧ (n ≤ i)%nat).
Proof.
  unfold pad. intros Hx. apply lookup_app_Some in Hx as [Hx|[Hn Hx]]; [by left|right].
  apply lookup_replicate in Hx as [-> Hlt]. split_and!; [by apply lookup_ge_None_2|done|lia].
Qed.

Lemma pad_has l i : ∃ x, pad l i !! i = Some x ∧ (l !! i = Some x ∨ l !! i = None ∧ x = jnull).
Proof.
  assert (Hlen : (i < length (pad l i))%nat) by (unfold pad; rewrite length_app, length_replicate; lia).
  apply lookup_lt_is_Some_2 in Hlen as [x Hx]. exists x. split; [done|]. destruct (pad_lookup _ _ _ _ Hx); tauto.
Qed.

Lemma index_element_run `{Machine} {A} (m : M exn json A) d l i x :
  (d = jarray l ∨ d = jnull ∧ l = []) → Z.of_nat i < 2 ^ 31 → 2 ^ 31 ≤ array_max_size → Z.of_nat (length l) ≤ 2 ^ 31 →
  pad l i !! i = Some x →
  index_element (wrap 64 (Z.of_nat i)) m d = let '(o, w) := m x in (o, jarray (<[i := w]> (pad l i))).
Proof.
  intros Hd Hi Hmax Hlen Hx. rewrite wrap_small by lia.
  assert (Hf : filled_ref (Z.of_nat i) m l = let '(o, w) := m x in (o, jarray (<[i := w]> (pad l i)))).
  2:{ destruct Hd as [->|[-> ->]]; done. }
  assert (Hat : ∀ l', pad l i = l' → element_ref (Z.of_nat i) m l' = let '(o, w) := m x in (o, jarray (<[i := w]> (pad l i)))).
  { intros l' <-. unfold element_ref, element_at. pose proof (lookup_lt_Some _ _ _ Hx).
    rewrite (proj2 (Z.ltb_lt _ _)), Nat2Z.id, Hx by lia. done. }
  unfold filled_ref. cbv zeta. destruct (Z.of_nat (length l) <=? Z.of_nat i) eqn:E; zify_cmp.
  - rewrite wrap_small by lia. rewrite (proj2 (Z.ltb_ge _ _)) by lia. apply Hat. unfold pad. f_equal. f_equal. lia.
  - apply Hat. unfold pad. replace (S i - length l)%nat with O by lia. apply app_nil_r.
Qed.

(** A step below an element, in an array that is there or not yet. *)
Lemma built_element l l' i x0 ts x x' w d :
  (d = jarray l' ∨ d = jnull ∧ l' = []) → approx (jarray l') (jarray l) → l !! i = Some x0 →
  pad l' i !! i = Some x' → built x0 ts x x' w → built (jarray l) (index_key i :: ts) x d (jarray (<[i := w]> (pad l' i))).
Proof.
  intros Hd Happ Hi Hx' (Hw & Hleaf & Hkeep). inversion Happ as [|j Hp| ? ? Hlen Hel|]; subst; [done|].
  pose proof (lookup_lt_Some _ _ _ Hi) as Hlt. pose proof (lookup_lt_Some _ _ _ Hx') as Hlt'.
  assert (Hpad : length (pad l' i) = Nat.max (length l') (S i)) by (unfold pad; rewrite length_app, length_replicate; lia).
  split_and!.
  - constructor; [rewrite length_insert; lia|]. intros n y Hy. apply list_lookup_insert_Some in Hy as [(-> & <- & _)|[Hne Hy]]; [eauto|].
    apply pad_lookup in Hy as [Hy|(_ & -> & Hn)]; [by apply Hel|].
    destruct (lookup_lt_is_Some_2 l n ltac:(lia)) as [z Hz]. exists z. split; [done|constructor].
  - eapply leaf_element; [|exact Hleaf]. by apply list_lookup_insert_eq.
  - intros us y Hj Hd'. destruct Hd as [->|[-> ->]]; [|inversion Hd'; subst; inversion Hj; subst; done].
    inversion Hj as [|? n z us' ? Hz Hzy|]; subst; [done|]. inversion Hd' as [|? n' z' us'' ? Hz' Hzy'|]; subst.
    match goal with E : index_key _ = index_key _ |- _ => apply index_key_inj in E as -> end.
    destruct (decide (n = i)) as [->|Hne].
    + rewrite Hi in Hz. injection Hz as <-. eapply leaf_element; [by apply list_lookup_insert_eq|]. apply Hkeep; [done|].
      destruct (pad_lookup _ _ _ _ Hx') as [Hl'|(Hl' & _)]; congruence.
    + eapply leaf_element; [|exact Hzy']. rewrite list_lookup_insert_ne by done. unfold pad. by apply lookup_app_l_Some.
Qed.

(** *** Members *)

Lemma built_member m m' k x0 ts x w d :
  (d = jobject m' ∨ d = jnull ∧ m' = []) → approx (jobject m') (jobject m) → map_find k m = Some x0 →
  built x0 ts x (default jnull (map_find k m')) w → built (jobject m) (k :: ts) x d (jobject (map_put k w m')).
Proof.
  intros Hd Happ Hk (Hw & Hleaf & Hkeep). inversion Happ as [|j Hp| |? ? Hwf Hel]; subst; [done|]. split_and!.
  - constructor; [by apply map_put_wf|]. intros k' y. rewrite map_find_put by done.
    case_decide as Hkk; [intros [= <-]; subst; eauto|apply Hel].
  - eapply leaf_member; [|exact Hleaf]. by rewrite map_find_put, decide_True.
  - intros us y Hj Hd'. destruct Hd as [->|[-> ->]]; [|inversion Hd'; subst; inversion Hj; subst; done].
    inversion Hj as [| |? k' z us' ? Hz Hzy]; subst; [done|]. inversion Hd' as [| |? k'' z' us'' ? Hz' Hzy']; subst.
    destruct (decide (k' = k)) as [->|Hne].
    + rewrite Hk in Hz. injection Hz as <-. eapply leaf_member; [by rewrite map_find_put, decide_True|].
      apply Hkeep; [done|]. by rewrite Hz'.
    + eapply leaf_member; [|exact Hzy']. by rewrite map_find_put, decide_False.
Qed.

(** *** One step *)

Lemma built_before_element l i x0 ts l' d :
  (d = jarray l' ∨ d = jnull ∧ l' = []) → l !! i = Some x0 → built_before (jarray l) (index_key i :: ts) d →
  ∀ x', pad l' i !! i = Some x' → built_before x0 ts x'.
Proof.
  intros Hd Hi Hb x' Hx' us y Hus Hlt.
  pose proof (Hb (index_key i :: us) y (leaf_element _ _ _ _ _ Hi Hus) (proj2 (text_lt_cons _ _ _) Hlt)) as Hdl.
  destruct Hd as [->|[-> ->]]; [|by inversion Hdl]. inversion Hdl as [|? n z ? ? Hz Hzy|]; subst.
  match goal with E : index_key _ = index_key _ |- _ => apply index_key_inj in E as -> end.
  destruct (pad_lookup _ _ _ _ Hx') as [Hl'|(Hl' & _)]; congruence.
Qed.

Lemma built_before_member m k x0 ts m' d :
  (d = jobject m' ∨ d = jnull ∧ m' = []) → map_find k m = Some x0 → built_before (jobject m) (k :: ts) d →
  built_before x0 ts (default jnull (map_find k m')).
Proof.
  intros Hd Hk Hb us y Hus Hlt.
  pose proof (Hb (k :: us) y (leaf_member _ _ _ _ _ Hk Hus) (proj2 (text_lt_cons _ _ _) Hlt)) as Hdl.
  destruct Hd as [->|[-> ->]]; [|by inversion Hdl]. inversion Hdl as [| |? k' z ? ? Hz Hzy]; subst. by rewrite Hz.
Qed.

(** An array is begun with its element 0. *)
Lemma begins_with_element l i ts :
  unflattenable (jarray l) = true → json_wf (jarray l) → built_before (jarray l) (index_key i :: ts) jnull → i = O.
Proof.
  intros Hu Hwf Hb. destruct (decide (i = O)) as [|Hne]; [done|exfalso]. apply unflattenable_array in Hu as (Hl & _ & Hall).
  inversion Hwf as [| |? Hls| | | | | |]; subst. destruct l as [|v l]; [done|].
  apply Forall_cons in Hall as [Hv _], Hls as [Hwv _]. destruct (has_leaf v Hv Hwv) as (us & y & Hy).
  assert (Hle : leaf_at (jarray (v :: l)) (index_key 0 :: us) y) by (by eapply leaf_element).
  pose proof (Hb _ _ Hle (zero_first i us ts Hne)) as Hn. by inversion Hn.
Qed.

(** What there is of an array, or of an object, and of its parts. *)
Lemma array_shape d l : approx d (jarray l) →
  ∃ l', (d = jarray l' ∨ d = jnull ∧ l' = []) ∧ approx (jarray l') (jarray l) ∧ (length l' ≤ length l)%nat ∧
    ∀ i x0 x', l !! i = Some x0 → pad l' i !! i = Some x' → approx x' x0.
Proof.
  intros Happ. assert (Hd : ∃ l', (d = jarray l' ∨ d = jnull ∧ l' = []) ∧ approx (jarray l') (jarray l)).
  { inversion Happ as [|j Hp|l' ? Hlen' Hel|]; subst; [|done|by exists l'; auto]. exists []. split; [by right|].
    by constructor; [simpl; lia|]. }
  destruct Hd as (l' & Hd & Happ'). exists l'. split_and!; [done|done|by inversion Happ'|]. intros i x0 x' Hi Hx'.
  destruct (pad_lookup _ _ _ _ Hx') as [Hl'|(_ & -> & _)]; [|constructor]. inversion Happ' as [| |? ? _ Hel|]; subst; [done|].
  destruct (Hel i x' Hl') as (z & Hz & Hzx). congruence.
Qed.

Lemma object_shape d m : approx d (jobject m) →
  ∃ m', (d = jobject m' ∨ d = jnull ∧ m' = []) ∧ approx (jobject m') (jobject m) ∧
    ∀ k x0, map_find k m = Some x0 → approx (default jnull (map_find k m')) x0.
Proof.
  intros Happ. assert (Hd : ∃ m', (d = jobject m' ∨ d = jnull ∧ m' = []) ∧ approx (jobject m') (jobject m)).
  { inversion Happ as [|j Hp| |m' ? Hwf' Hel]; subst; [|done|by exists m'; auto]. exists []. split; [by right|].
    by constructor; [constructor|]. }
  destruct Hd as (m' & Hd & Happ'). exists m'. split_and!; [done|done|]. intros k x0 Hk.
  destruct (map_find k m') as [x'|] eqn:E; [|constructor]. inversion Happ' as [| | |? ? _ Hel]; subst; [done|].
  destruct (Hel k x' E) as (z & Hz & Hzx). simpl. congruence.
Qed.

Lemma step_built `{Machine} j ts x d :
  2 ^ 31 ≤ array_max_size → leaf_at j ts x → unflattenable j = true → json_wf j → approx d j → built_before j ts d →
  ∃ d', get_and_create ts (put_state x) d = (Ok tt, d') ∧ built j ts x d d'.
Proof.
  intros Hmax Hleaf. revert d. induction Hleaf as [v Hp|l i x0 ts w Hi Hx IH|m k x0 ts w Hk Hx IH]; intros d Hu Hwf Happ Hb.
  { exists v. split; [done|]. split_and!; [by constructor|by constructor|]. intros us y Hy _. by inversion Hy; subst. }
  - destruct (unflattenable_array l Hu) as (_ & Hlen & Hall). pose proof Hwf as Hwfa. inversion Hwfa as [| |? Hls| | | | | |]; subst.
    pose proof (lookup_lt_Some _ _ _ Hi) as Hlt.
    destruct (array_shape d l Happ) as (l' & Hd & Happ' & Hlen' & Hparts).
    destruct (pad_has l' i) as (x' & Hx' & _).
    rewrite Forall_forall in Hall, Hls. pose proof (list_elem_of_lookup_2 _ _ _ Hi) as Hin.
    destruct (IH x') as (w' & Hrun & Hbuilt); [by apply Hall|by apply Hls|by eapply Hparts|by eapply built_before_element|].
    exists (jarray (<[i := w']> (pad l' i))). split; [|by eapply built_element].
    assert (Hrun' : index_element (wrap 64 (Z.of_nat i)) (get_and_create ts (put_state w)) d = (Ok tt, jarray (<[i:=w']> (pad l' i)))).
    { rewrite (index_element_run _ d l' i x') by (done || lia). by rewrite Hrun. }
    cbn [get_and_create]. unfold bind, get_state. cbv beta iota. destruct (index_token i ltac:(lia)) as (Htok & _).
    destruct Hd as [->|[-> ->]].
    + unfold lift. change (to_string (Z.of_nat i)) with (index_key i) in Htok. rewrite Htok. exact Hrun'.
    + assert (i = O) as -> by (by eapply begins_with_element). exact Hrun'.
  - destruct (unflattenable_object m Hu) as (_ & Hall). inversion Hwf as [|? Hm Hms| | | | | | |]; subst.
    destruct (object_shape d m Happ) as (m' & Hd & Happ' & Hparts). rewrite Forall_forall in Hall, Hms.
    pose proof (proj1 (map_find_elem_of _ _ _ Hm) Hk) as Hin. destruct (Hall _ Hin) as [Hk0 Hux].
    destruct (IH (default jnull (map_find k m'))) as (w' & Hrun & Hbuilt);
      [done|by apply (Hms _ Hin)|by apply Hparts|by eapply built_before_member|].
    exists (jobject (map_put k w' m')). split; [|by eapply built_member].
    cbn [get_and_create]. unfold bind, get_state. cbv beta iota. apply String.eqb_neq in Hk0. cbn [fst] in Hk0.
    destruct Hd as [->|[-> ->]]; rewrite ?Hk0; unfold index_member, member_ref; by rewrite Hrun.
Qed.

(** ** The round trip *)

(** All parts of [j] have been built. *)
Definition complete (j d : json) : Prop := ∀ ts x, leaf_at j ts x → leaf_at d ts x.

(** What is complete is the value: for the parts of a value, then for it. *)
Definition completes (j : json) : Prop :=
  ∀ d, unflattenable j = true → json_wf j → approx d j → complete j d → d = j.

Lemma complete_member m m' k v :
  unflattenable v = true → json_wf v → map_find k m = Some v → complete (jobject m) (jobject m') →
  ∃ v', map_find k m' = Some v' ∧ complete v v'.
Proof.
  intros Hu Hwf Hk Hall.
  assert (Hsub : ∀ us y, leaf_at v us y → ∃ v', map_find k m' = Some v' ∧ leaf_at v' us y).
  { intros us y Hy. pose proof (Hall _ _ (leaf_member _ _ _ _ _ Hk Hy)) as Hd. inversion Hd; subst. eauto. }
  destruct (has_leaf v Hu Hwf) as (us & y & Hy). destruct (Hsub us y Hy) as (v' & Hv' & _). exists v'. split; [done|].
  intros us' y' Hy'. destruct (Hsub us' y' Hy') as (v'' & Hv'' & Hl). congruence.
Qed.

Lemma complete_element l l' i v :
  unflattenable v = true → json_wf v → l !! i = Some v → complete (jarray l) (jarray l') →
  ∃ v', l' !! i = Some v' ∧ complete v v'.
Proof.
  intros Hu Hwf Hi Hall.
  assert (Hsub : ∀ us y, leaf_at v us y → ∃ v', l' !! i = Some v' ∧ leaf_at v' us y).
  { intros us y Hy. pose proof (Hall _ _ (leaf_element _ _ _ _ _ Hi Hy)) as Hd. inversion Hd; subst.
    match goal with E : index_key _ = index_key _ |- _ => apply index_key_inj in E as -> end. eauto. }
  destruct (has_leaf v Hu Hwf) as (us & y & Hy). destruct (Hsub us y Hy) as (v' & Hv' & _). exists v'. split; [done|].
  intros us' y' Hy'. destruct (Hsub us' y' Hy') as (v'' & Hv'' & Hl). congruence.
Qed.

Lemma object_completes m : Forall (λ kv, completes kv.2) m → completes (jobject m).
Proof.
  intros IH d Hu Hwf Happ Hall. destruct (has_leaf _ Hu Hwf) as (ts & x & Hx). pose proof (Hall _ _ Hx) as Hd.
  destruct (unflattenable_object m Hu) as [_ Hus]. inversion Hwf as [|? Hm Hms| | | | | | |]; subst.
  destruct (object_shape d m Happ) as (m' & [->|[-> ->]] & Happ' & Hparts); [|inversion Hd; subst; by inversion Hx].
  inversion Happ' as [| | |? ? Hwf' Hel]; subst; [done|]. f_equal. apply map_wf_ext; [done|done|]. intros k.
  rewrite Forall_forall in IH, Hus, Hms. destruct (map_find k m) as [v|] eqn:Hk.
  - pose proof (proj1 (map_find_elem_of _ _ _ Hm) Hk) as Hin. destruct (Hus _ Hin) as [_ Huv].
    pose proof (Hms _ Hin) as Hwv. destruct (complete_member m m' k v Huv Hwv Hk Hall) as (v' & Hv' & Hc).
    rewrite Hv'. f_equal. apply (IH (k, v) Hin); [done|done| |done].
    pose proof (Hparts k v Hk) as Hp. by rewrite Hv' in Hp.
  - destruct (map_find k m') as [v'|] eqn:Hk'; [|done]. destruct (Hel k v' Hk') as (v & Hv & _). congruence.
Qed.

Lemma array_completes l : Forall completes l → completes (jarray l).
Proof.
  intros IH d Hu Hwf Happ Hall. destruct (has_leaf _ Hu Hwf) as (ts & x & Hx). pose proof (Hall _ _ Hx) as Hd.
  destruct (unflattenable_array l Hu) as (_ & _ & Hus). inversion Hwf as [| |? Hls| | | | | |]; subst.
  destruct (array_shape d l Happ) as (l' & [->|[-> ->]] & Happ' & Hlen & Hparts); [|inversion Hd; subst; by inversion Hx].
  inversion Happ' as [| |? ? _ Hel|]; subst; [done|]. f_equal. apply list_eq. intros i.
  rewrite Forall_forall in IH, Hus, Hls. destruct (l !! i) as [v|] eqn:Hi.
  - pose proof (list_elem_of_lookup_2 _ _ _ Hi) as Hin.
    destruct (complete_element l l' i v (Hus _ Hin) (Hls _ Hin) Hi Hall) as (v' & Hv' & Hc).
    rewrite Hv'. f_equal. apply (IH v Hin); [by apply Hus|by apply Hls| |done].
    destruct (Hel i v' Hv') as (v0 & Hv0 & Hp). congruence.
  - apply lookup_ge_None_2. apply lookup_ge_None_1 in Hi. lia.
Qed.

Lemma all_complete j : completes j.
Proof.
  induction j as [|m IH|l IH|s|b|z|z|e|] using json_ind; [|by apply object_completes|by apply array_completes|..];
    intros d Hu Hwf Happ Hall; try done.
  all: match goal with |- _ = ?j => assert (Hd : leaf_at d [] j) by (apply Hall; by apply leaf_here) end; by inversion Hd.
Qed.

(** The members left are parts of the value, in order, and the other parts have
    been built. *)
Lemma members_built `{Machine} v todo d :
  2 ^ 31 ≤ array_max_size → unflattenable v = true → json_wf v → map_wf todo →
  Forall (λ kx, ∃ ts, leaf_at v ts kx.2 ∧ kx.1 = pointer_to_string ts) todo →
  approx d v → (∀ ts x, leaf_at v ts x → leaf_at d ts x ∨ (pointer_to_string ts, x) ∈ todo) →
  ∃ d', unflatten_members todo d = (Ok tt, d') ∧ approx d' v ∧ complete v d'.
Proof.
  intros Hmax Hu Hwf. revert d. induction todo as [|[k x] todo IH]; intros d Hs Hl Happ Hd.
  { exists d. split_and!; [done|done|]. intros ts x Hx. destruct (Hd ts x Hx) as [|Hin]; [done|by apply not_elem_of_nil in Hin]. }
  apply map_wf_cons in Hs as [Hgt Hs]. apply Forall_cons in Hl as [(ts & Hx & Hk) Hl]. cbn [fst snd] in Hx, Hk. subst k.
  assert (Hb : built_before v ts d).
  { intros us y Hy Hlt. destruct (Hd us y Hy) as [|[[= E ->]|Hin]%elem_of_cons]; [done|..]; exfalso.
    - rewrite E in Hlt. by apply str_lt_irrefl in Hlt.
    - unfold all_gt in Hgt. rewrite Forall_forall in Hgt.
      specialize (Hgt _ (list_elem_of_fmap_2 fst todo _ Hin)). eapply str_lt_irrefl, str_lt_trans; eassumption. }
  destruct (step_built v ts x d Hmax Hx Hu Hwf Happ Hb) as (d1 & Hrun & Happ1 & Hleaf & Hkeep).
  destruct (IH d1 Hs Hl Happ1) as (d' & Hrun' & Hd'); [|exists d'; split; [|done]].
  - intros us y Hy. destruct (Hd us y Hy) as [Hdl|[[= E ->]|Hin]%elem_of_cons]; [left; by apply Hkeep| |by right].
    apply text_inj in E as ->. by left.
  - cbn [unflatten_members]. rewrite (leaf_primitive v ts x Hx), split_to_string. unfold bind, lift, negb.
    by rewrite Hrun, Hrun'.
Qed.

(** C15: [unflatten(v.flatten()) == v], and exactly [v], for every [v] without
    empty arrays and objects below the top or at it, without members named 0,
    and with arrays of at most 2^31 elements (on a machine that can hold them).
    The proof needs the order of the members: an array is recognised by its
    element 0, whose text comes before those of the other elements. *)
Theorem unflatten_flatten `{Machine} v :
  2 ^ 31 ≤ array_max_size → json_wf v → unflattenable v = true → unflatten (flatten v) = Ok v.
Proof.
  intros Hmax Hwf Hu. destruct (value_flattens v "" [] Hu Hwf map_wf_nil) as (Hs & Hin & Hout).
  unfold unflatten, flatten. set (todo := flatten_value "" v []) in *.
  destruct (members_built v todo jnull Hmax Hu Hwf Hs) as (d & Hrun & Happ & Hc).
  - apply Forall_forall. intros [k x] Hkx. apply map_find_elem_of in Hkx; [|done].
    destruct (Hout k) as [(ts & y & Hy & ->)|E]; [|by rewrite E in Hkx].
    exists ts. rewrite (Hin _ _ Hy) in Hkx. injection Hkx as <-. done.
  - constructor.
  - intros ts x Hx. right. apply map_find_elem_of; [done|]. by apply Hin.
  - unfold bind. rewrite Hrun. cbn. f_equal. by apply all_complete.
Qed.

Definition sample_document : json :=
  jobject [("a/b", jarray [jnumber_unsigned 1; jobject [("", jnull); ("~", jarray [jstring "x"])]]); ("b", jboolean true)].

Lemma unflatten_flatten_witness :
  flatten sample_document =
    jobject [("/a~1b/0", jnumber_unsigned 1); ("/a~1b/1/", jnull); ("/a~1b/1/~0/0", jstring "x"); ("/b", jboolean true)]
  ∧ unflatten (H := x86_64) (flatten sample_document) = Ok sample_document.
Proof.
  split; [by vm_compute|]. apply (unflatten_flatten (H := x86_64)); [done|by repeat constructor|by vm_compute].
Defined.
