(* ===== verification/JsonIter.v ===== *)
(** * Iterators (json.hpp, [iter_impl], [json_reverse_iterator], [iteration_proxy])

    An iterator knows the value it belongs to by its address and has a position
    in it: a member of an object by its key, as nodes of a [std::map] stay
    where they are, an element of an array by its index, and a counter for
    all other values.  An operation is given the current value at that
    address; to use a position that is not one of it is undefined. *)

From stdpp Require Import base gmap strings list.
From Stdlib Require Import ZArith Ascii Lia.
From S2P Require Import Prelude Cxx StdMap JsonValue.

(** ** Positions *)

(** [internal_iterator]: the member that is in use; [None] is the end of an
    object. *)
Inductive internal_iterator : Type :=
| object_iterator (key : option string)
| array_iterator (i : Z)
| primitive_iterator (m_it : Z).

Record iterator : Type := Iterator {
  m_object : nat;
  m_it : internal_iterator;
}.

Definition iterator_error {A} (id : Z) (msg : string) : outcome exn A := Throw (exception_create invalid_iterator id msg).

Definition begin_value : Z := 0.
Definition end_value : Z := 1.

(** [std::ptrdiff_t]: a result out of range is undefined. *)
Definition ptrdiff (z : Z) : outcome exn Z := if (- 2 ^ 63 <=? z) && (z <? 2 ^ 63) then Ok z else Undefined.

Definition first_key (m : std_map json) : option string := fst <$> head m.

Definition set_begin (v : json) : internal_iterator :=
  match v with
  | jobject m => object_iterator (first_key m)
  | jarray _ => array_iterator 0
  | jnull => primitive_iterator end_value
  | _ => primitive_iterator begin_value
  end.

Definition set_end (v : json) : internal_iterator :=
  match v with
  | jobject _ => object_iterator None
  | jarray l => array_iterator (Z.of_nat (length l))
  | _ => primitive_iterator end_value
  end.

(** [begin()], [end()] of the value [v] at an address. *)
Definition it_begin (this : nat) (v : json) : iterator := Iterator this (set_begin v).
Definition it_end (this : nat) (v : json) : iterator := Iterator this (set_end v).

(** ** Access *)

Definition array_at (l : list json) (i : Z) : outcome exn json :=
  if (0 <=? i) && (i <? Z.of_nat (length l))
  then match l !! Z.to_nat i with Some x => Ok x | None => Undefined end
  else Undefined.

Definition member_at (m : std_map json) (key : option string) : outcome exn (string * json) :=
  match key with
  | None => Undefined
  | Some k => match map_find k m with Some x => Ok (k, x) | None => Undefined end
  end.

(** [operator*] and [value()]. *)
Definition it_deref (v : json) (it : iterator) : outcome exn json :=
  match v, m_it it with
  | jobject m, object_iterator key => obind (member_at m key) (λ kv, Ok kv.2)
  | jarray l, array_iterator i => array_at l i
  | jnull, _ => iterator_error 214 "cannot get value"
  | (jobject _ | jarray _), _ => Undefined
  | _, primitive_iterator i => if i =? begin_value then Ok v else iterator_error 214 "cannot get value"
  | _, _ => Undefined
  end.

(** [operator->]: null is not treated apart. *)
Definition it_arrow (v : json) (it : iterator) : outcome exn json :=
  match v, m_it it with
  | jobject m, object_iterator key => obind (member_at m key) (λ kv, Ok kv.2)
  | jarray l, array_iterator i => array_at l i
  | (jobject _ | jarray _), _ => Undefined
  | _, primitive_iterator i => if i =? begin_value then Ok v else iterator_error 214 "cannot get value"
  | _, _ => Undefined
  end.

Definition it_key (v : json) (it : iterator) : outcome exn string :=
  match v, m_it it with
  | jobject m, object_iterator key => obind (member_at m key) (λ kv, Ok kv.1)
  | jobject _, _ => Undefined
  | _, _ => iterator_error 207 "cannot use key() for non-object iterators"
  end.

(** ** Movement *)

(** The key after [k], which is one of the map. *)
Fixpoint key_after (k : string) (m : std_map json) : outcome exn (option string) :=
  match m with
  | [] => Undefined
  | (k', _) :: m => if String.eqb k k' then Ok (first_key m) else key_after k m
  end.

(** The key before [k], or the last one before the end. *)
Fixpoint key_before (k : option string) (m : std_map json) : outcome exn (option string) :=
  match m with
  | [] => Undefined
  | (k', _) :: m =>
      if decide (first_key m = k) then Ok (Some k') else key_before k m
  end.

(** [std::advance] of an array's iterator stays within the array. *)
Definition advance (l : list json) (i n : Z) : outcome exn Z :=
  if (0 <=? i + n) && (i + n <=? Z.of_nat (length l)) then Ok (i + n) else Undefined.

Definition at_position (it : iterator) (p : internal_iterator) : outcome exn iterator := Ok (Iterator (m_object it) p).

(** [operator++]. *)
Definition it_incr (v : json) (it : iterator) : outcome exn iterator :=
  match v, m_it it with
  | jobject m, object_iterator (Some k) => obind (key_after k m) (λ k, at_position it (object_iterator k))
  | jarray l, array_iterator i => obind (advance l i 1) (λ i, at_position it (array_iterator i))
  | (jobject _ | jarray _), _ => Undefined
  | _, primitive_iterator i => obind (ptrdiff (i + 1)) (λ i, at_position it (primitive_iterator i))
  | _, _ => Undefined
  end.

(** [operator--]. *)
Definition it_decr (v : json) (it : iterator) : outcome exn iterator :=
  match v, m_it it with
  | jobject m, object_iterator key => obind (key_before key m) (λ k, at_position it (object_iterator k))
  | jarray l, array_iterator i => obind (advance l i (-1)) (λ i, at_position it (array_iterator i))
  | (jobject _ | jarray _), _ => Undefined
  | _, primitive_iterator i => obind (ptrdiff (i - 1)) (λ i, at_position it (primitive_iterator i))
  | _, _ => Undefined
  end.

(** [operator+=], and [operator-=] with the opposite offset. *)
Definition it_advance (v : json) (it : iterator) (n : Z) : outcome exn iterator :=
  match v, m_it it with
  | jobject _, _ => iterator_error 209 "cannot use offsets with object iterators"
  | jarray l, array_iterator i => obind (advance l i n) (λ i, at_position it (array_iterator i))
  | jarray _, _ => Undefined
  | _, primitive_iterator i => obind (ptrdiff (i + n)) (λ i, at_position it (primitive_iterator i))
  | _, _ => Undefined
  end.

Definition it_retreat (v : json) (it : iterator) (n : Z) : outcome exn iterator :=
  obind (ptrdiff (- n)) (λ n, it_advance v it n).

(** The difference [it - other], undefined for elements of two arrays. *)
Definition it_difference (v : json) (it other : iterator) : outcome exn Z :=
  match v, m_it it, m_it other with
  | jobject _, _, _ => iterator_error 209 "cannot use offsets with object iterators"
  | jarray _, array_iterator i, array_iterator j => if (m_object it =? m_object other)%nat then Ok (i - j) else Undefined
  | jarray _, _, _ => Undefined
  | _, primitive_iterator i, primitive_iterator j => ptrdiff (i - j)
  | _, _, _ => Undefined
  end.

(** [operator[]]. *)
Definition it_index (v : json) (it : iterator) (n : Z) : outcome exn json :=
  match v, m_it it with
  | jobject _, _ => iterator_error 208 "cannot use operator[] for object iterators"
  | jarray l, array_iterator i => array_at l (i + n)
  | jarray _, _ => Undefined
  | jnull, _ => iterator_error 214 "cannot get value"
  | _, primitive_iterator i => obind (ptrdiff (- n)) (λ n, if i =? n then Ok v else iterator_error 214 "cannot get value")
  | _, _ => Undefined
  end.

(** ** Comparison *)

Definition different_containers {A} : outcome exn A := iterator_error 212 "cannot compare iterators of different containers".

Definition it_eq (v : json) (it other : iterator) : outcome exn bool :=
  if negb (m_object it =? m_object other)%nat then different_containers else
  match v, m_it it, m_it other with
  | jobject _, object_iterator k, object_iterator k' => Ok (bool_decide (k = k'))
  | jarray _, array_iterator i, array_iterator j => Ok (i =? j)
  | (jobject _ | jarray _), _, _ => Undefined
  | _, primitive_iterator i, primitive_iterator j => Ok (i =? j)
  | _, _, _ => Undefined
  end.

Definition it_lt (v : json) (it other : iterator) : outcome exn bool :=
  if negb (m_object it =? m_object other)%nat then different_containers else
  match v, m_it it, m_it other with
  | jobject _, _, _ => iterator_error 213 "cannot compare order of object iterators"
  | jarray _, array_iterator i, array_iterator j => Ok (i <? j)
  | jarray _, _, _ => Undefined
  | _, primitive_iterator i, primitive_iterator j => Ok (i <? j)
  | _, _, _ => Undefined
  end.

Definition onegb (o : outcome exn bool) : outcome exn bool := obind o (λ b, Ok (negb b)).

Definition it_ne (v : json) (it other : iterator) : outcome exn bool := onegb (it_eq v it other).
Definition it_le (v : json) (it other : iterator) : outcome exn bool := onegb (it_lt v other it).
Definition it_gt (v : json) (it other : iterator) : outcome exn bool := onegb (it_le v it other).
Definition it_ge (v : json) (it other : iterator) : outcome exn bool := onegb (it_lt v it other).

(** ** Reverse iterators: [std::reverse_iterator] refers to what is before its
    base. *)

Definition rit_deref (v : json) (base : iterator) : outcome exn json := obind (it_decr v base) (it_deref v).
Definition rit_incr (v : json) (base : iterator) : outcome exn iterator := it_decr v base.
Definition rit_decr (v : json) (base : iterator) : outcome exn iterator := it_incr v base.
Definition rit_key (v : json) (base : iterator) : outcome exn string := obind (it_decr v base) (it_key v).

(** ** [items()] *)

(** [iteration_proxy_internal]: the text of the index is kept until the index
    changes. *)
Record proxy : Type := Proxy {
  anchor : iterator;
  array_index : Z;
  array_index_last : Z;
  array_index_str : string;
}.

Definition proxy_of (it : iterator) : proxy := Proxy it 0 0 "0".

Definition proxy_incr (v : json) (p : proxy) : outcome exn proxy :=
  obind (it_incr v (anchor p)) (λ it,
    Ok (Proxy it (wrap 64 (array_index p + 1)) (array_index_last p) (array_index_str p))).

(** The function is [noexcept]: an exception of [it_ne], for proxies of two
    values, would end the program. *)
Definition proxy_ne (v : json) (p o : proxy) : outcome exn bool := it_ne v (anchor p) (anchor o).

Definition proxy_key (v : json) (p : proxy) : outcome exn (string * proxy) :=
  match v with
  | jarray _ =>
      let p := if negb (array_index p =? array_index_last p)
               then Proxy (anchor p) (array_index p) (array_index p) (to_string (array_index p)) else p in
      Ok (array_index_str p, p)
  | jobject _ => obind (it_key v (anchor p)) (λ k, Ok (k, p))
  | _ => Ok ("", p)
  end.

Definition proxy_value (v : json) (p : proxy) : outcome exn json := it_deref v (anchor p).

(** ** Loops over a value *)

(** [for (it = begin(); it != end(); ++it)], and what [*it] was. *)
Fixpoint traverse (fuel : nat) (this : nat) (v : json) (it : iterator) : outcome exn (list json) :=
  match fuel with
  | O => OutOfFuel
  | S fuel =>
      obind (it_ne v it (it_end this v)) (λ b,
      if negb b then Ok [] else
      obind (it_deref v it) (λ x,
      obind (it_incr v it) (λ it,
      obind (traverse fuel this v it) (λ xs, Ok (x :: xs)))))
  end.

(** [for (it = rbegin(); it != rend(); ++it)]. *)
Fixpoint traverse_back (fuel : nat) (this : nat) (v : json) (base : iterator) : outcome exn (list json) :=
  match fuel with
  | O => OutOfFuel
  | S fuel =>
      obind (it_ne v base (it_begin this v)) (λ b,
      if negb b then Ok [] else
      obind (rit_deref v base) (λ x,
      obind (rit_incr v base) (λ base,
      obind (traverse_back fuel this v base) (λ xs, Ok (x :: xs)))))
  end.

(** [for (auto& el : j.items())] with the keys and the values; [ask] says for
    which turns [key()] is called. *)
Fixpoint traverse_items (fuel : nat) (this : nat) (v : json) (ask : nat → bool) (n : nat) (p : proxy) :
    outcome exn (list (option string * json)) :=
  match fuel with
  | O => OutOfFuel
  | S fuel =>
      obind (proxy_ne v p (proxy_of (it_end this v))) (λ b,
      if negb b then Ok [] else
      obind (if ask n then obind (proxy_key v p) (λ '(k, p), Ok (Some k, p)) else Ok (None, p)) (λ '(k, p),
      obind (proxy_value v p) (λ x,
      obind (proxy_incr v p) (λ p,
      obind (traverse_items fuel this v ask (S n) p) (λ xs, Ok ((k, x) :: xs))))))
  end.

(** [size()], [empty()]. *)
Definition json_size (v : json) : Z :=
  match v with
  | jnull => 0
  | jarray l => Z.of_nat (length l)
  | jobject m => Z.of_nat (length m)
  | _ => 1
  end.

Definition json_empty (v : json) : bool :=
  match v with
  | jnull => true
  | jarray l => match l with [] => true | _ => false end
  | jobject m => match m with [] => true | _ => false end
  | _ => false
  end.

(** The fuel of a loop over the value. *)
Definition loop_fuel (v : json) : nat := S (Z.to_nat (json_size v)).

Example traverse_samples :
  let v := jobject [("a", jnull); ("b", jboolean true)] in
  traverse (loop_fuel v) 0 v (it_begin 0 v) = Ok [jnull; jboolean true]
  ∧ traverse_back (loop_fuel v) 0 v (it_end 0 v) = Ok [jboolean true; jnull]
  ∧ traverse 2 0 (jstring "x") (it_begin 0 (jstring "x")) = Ok [jstring "x"]
  ∧ traverse_items 3 0 (jarray [jnull; jnull]) (λ n, Nat.eqb n 1) 0 (proxy_of (it_begin 0 (jarray [jnull; jnull])))
    = Ok [(None, jnull); (Some "1", jnull)].
Proof. vm_compute. done. Qed.

(** ** What the loops visit *)

Definition elements (v : json) : list json :=
  match v with
  | jnull => []
  | jarray l => l
  | jobject m => m.*2
  | _ => [v]
  end.

(** The keys that [items()] tells. *)
Definition item_key (v : json) (n : nat) : string :=
  match v with
  | jarray _ => to_string (Z.of_nat n)
  | jobject m => default "" (fst <$> m !! n)
  | _ => ""
  end.

(** The position after [n] steps. *)
Definition position (v : json) (n : nat) : internal_iterator :=
  match v with
  | jobject m => object_iterator (fst <$> m !! n)
  | jarray _ => array_iterator (Z.of_nat n)
  | jnull => primitive_iterator (end_value + Z.of_nat n)
  | _ => primitive_iterator (Z.of_nat n)
  end.

Section positions.
Context (this : nat) (v : json) (Hwf : json_wf v).

Definition pos (n : nat) : iterator := Iterator this (position v n).

Lemma size_elements : json_size v = Z.of_nat (length (elements v)).
Proof. destruct v; cbn; try done. by rewrite length_fmap. Qed.

Lemma begin_pos : it_begin this v = pos 0.
Proof. unfold it_begin, pos, set_begin, position. destruct v as [|m| | | | | | |]; try done. by destruct m. Qed.

Lemma end_pos : it_end this v = pos (length (elements v)).
Proof.
  unfold it_end, pos, set_end, position. destruct v as [|m|l| | | | | |]; try done. cbn [elements].
  rewrite (lookup_ge_None_2 m); [done|]. by rewrite length_fmap.
Qed.

(** The keys of an object are different. *)
Lemma keys_distinct m n k x : v = jobject m → m !! n = Some (k, x) →
  map_find k m = Some x ∧ ∀ n', fst <$> m !! n' = Some k → n' = n.
Proof.
  intros -> Hn. inversion Hwf as [|? Hm _| | | | | | |]; subst. split.
  - apply map_find_elem_of; [done|]. by eapply list_elem_of_lookup_2.
  - intros n' Hn'. rewrite <-list_lookup_fmap in Hn'. pose proof (map_keys_NoDup m Hm) as Hnd.
    eapply NoDup_lookup; [exact Hnd|exact Hn'|]. unfold map_keys. by rewrite list_lookup_fmap, Hn.
Qed.

Lemma first_key_lookup (m : list (string * json)) : first_key m = fst <$> m !! O.
Proof. by destruct m. Qed.

Lemma key_after_pos (m : list (string * json)) n k x :
  NoDup m.*1 → m !! n = Some (k, x) → key_after k m = Ok (fst <$> m !! S n).
Proof.
  revert n. induction m as [|[k' x'] m IH]; intros n Hnd Hn; [done|]. rewrite fmap_cons in Hnd. apply NoDup_cons in Hnd as [Hk Hnd].
  cbn [key_after]. destruct n as [|n]; cbn in Hn.
  - injection Hn as -> ->. rewrite String.eqb_refl. by rewrite first_key_lookup.
  - destruct (String.eqb_spec k k') as [->|]; [|by apply IH]. destruct Hk. apply list_elem_of_lookup_2 in Hn.
    by apply (list_elem_of_fmap_2 fst m (k', x)).
Qed.

Lemma key_before_pos (m : list (string * json)) n k x :
  NoDup m.*1 → m !! n = Some (k, x) → key_before (fst <$> m !! S n) m = Ok (Some k).
Proof.
  revert n. induction m as [|[k' x'] m IH]; intros n Hnd Hn; [done|]. rewrite fmap_cons in Hnd. apply NoDup_cons in Hnd as [Hk Hnd].
  cbn [key_before]. rewrite first_key_lookup. change (((k', x') :: m) !! S n) with (m !! n). destruct n as [|n]; cbn in Hn.
  - injection Hn as -> ->. by rewrite decide_True.
  - rewrite decide_False; [by apply IH|]. intros E. rewrite <-!list_lookup_fmap in E.
    destruct m as [|kv0 m]; [done|]. cbn [fmap list_fmap lookup list_lookup] in E.
    assert (O = S n) by (by eapply (NoDup_lookup (kv0 :: m).*1 O (S n))). done.
Qed.

(** Each step of a loop. *)
Lemma pos_element n x : elements v !! n = Some x →
  it_deref v (pos n) = Ok x ∧ it_incr v (pos n) = Ok (pos (S n)) ∧ it_decr v (pos (S n)) = Ok (pos n)
  ∧ it_ne v (pos n) (it_end this v) = Ok true ∧ it_ne v (pos (S n)) (it_begin this v) = Ok true.
Proof.
  intros Hx. pose proof (lookup_lt_Some _ _ _ Hx) as Hlt. rewrite end_pos, begin_pos.
  unfold it_ne, it_eq, pos, it_deref, it_incr, it_decr. cbn [m_object m_it]. rewrite Nat.eqb_refl. cbn [negb].
  pose proof keys_distinct as Hkeys. revert Hx Hlt Hkeys Hwf. destruct v as [|m|l|s|b|z|z|d|]; cbn [elements position length]; intros Hx Hlt Hkeys Hwf'.
  1: done.
  3-8: (destruct n as [|n]; [|done]; injection Hx as <-; done).
  - rewrite length_fmap in *. rewrite list_lookup_fmap in Hx. destruct (m !! n) as [[k x']|] eqn:E; [|done]. injection Hx as ->.
    destruct (Hkeys m n k x eq_refl E) as [Hf Hu]. change (fst <$> Some (k, x)) with (Some k). unfold member_at. rewrite Hf.
    inversion Hwf' as [|? Hm _| | | | | | |]; subst. pose proof (map_keys_NoDup m Hm) as Hnd.
    rewrite (key_after_pos m n k x Hnd E), (key_before_pos m n k x Hnd E). split_and!; try done.
    + rewrite (lookup_ge_None_2 m (length m)) by done. done.
    + unfold onegb. cbn [obind]. rewrite bool_decide_eq_false_2; [done|]. intros E0.
      destruct (m !! O) as [[k0 x0]|] eqn:Em0; [|apply lookup_ge_None_1 in Em0; lia]. cbn in E0.
      destruct (Hkeys m O k0 x0 eq_refl Em0) as [_ Hu0]. by specialize (Hu0 _ E0).
  - unfold array_at, advance, onegb. rewrite Nat2Z.id, Hx.
    replace ((0 <=? Z.of_nat n) && (Z.of_nat n <? Z.of_nat (length l))) with true by (symmetry; apply andb_true_iff; lia).
    replace ((0 <=? Z.of_nat n + 1) && (Z.of_nat n + 1 <=? Z.of_nat (length l))) with true by (symmetry; apply andb_true_iff; lia).
    replace (Z.of_nat (S n) + -1) with (Z.of_nat n) by lia.
    replace ((0 <=? Z.of_nat n) && (Z.of_nat n <=? Z.of_nat (length l))) with true by (symmetry; apply andb_true_iff; split; apply Z.leb_le; lia).
    cbn [obind]. split_and!; [done|unfold at_position; do 3 f_equal; lia|unfold at_position; do 3 f_equal; lia|..]; do 2 f_equal; apply negb_true_iff; lia.
Qed.

Lemma pos_end : it_ne v (pos (length (elements v))) (it_end this v) = Ok false ∧ it_ne v (pos 0) (it_begin this v) = Ok false.
Proof.
  rewrite end_pos, begin_pos. unfold it_ne, it_eq, pos. cbn [m_object m_it]. rewrite Nat.eqb_refl. cbn [negb].
  destruct v; cbn [position]; unfold onegb; cbn [obind]; rewrite ?Z.eqb_refl, ?bool_decide_eq_true_2 by done; done.
Qed.

Lemma traverse_from k n :
  (n + k = length (elements v))%nat → traverse (S k) this v (pos n) = Ok (drop n (elements v)).
Proof.
  revert n. induction k as [|k IH]; intros n Hn; cbn [traverse].
  { rewrite Nat.add_0_r in Hn. subst n. rewrite (proj1 pos_end). cbn. by rewrite drop_all. }
  destruct (lookup_lt_is_Some_2 (elements v) n ltac:(lia)) as [x Hx].
  destruct (pos_element n x Hx) as (Hd & Hi & _ & Hne & _). rewrite Hne. cbn [obind negb]. rewrite Hd. cbn [obind]. rewrite Hi. cbn [obind].
  change (obind (traverse (S k) this v (pos (S n))) (λ xs, Ok (x :: xs)) = Ok (drop n (elements v))).
  rewrite IH by lia. cbn [obind]. by rewrite (drop_S _ x n).
Qed.

Lemma traverse_back_from n :
  (n ≤ length (elements v))%nat → traverse_back (S n) this v (pos n) = Ok (reverse (take n (elements v))).
Proof.
  induction n as [|n IH]; intros Hn; cbn [traverse_back]; [by rewrite (proj2 pos_end)|].
  destruct (lookup_lt_is_Some_2 (elements v) n ltac:(lia)) as [x Hx].
  destruct (pos_element n x Hx) as (Hd & _ & Hde & _ & Hne). rewrite Hne. cbn [obind negb]. unfold rit_deref, rit_incr.
  rewrite Hde. cbn [obind]. rewrite Hd. cbn [obind].
  change (obind (traverse_back (S n) this v (pos n)) (λ xs, Ok (x :: xs)) = Ok (reverse (take (S n) (elements v)))).
  rewrite IH by lia. cbn [obind]. by rewrite (take_S_r _ n x Hx), reverse_app.
Qed.

(** The text kept by the proxy is that of the index it was made for. *)
Definition proxy_ok (n : nat) (p : proxy) : Prop :=
  anchor p = pos n ∧ array_index p = Z.of_nat n ∧ array_index_str p = to_string (array_index_last p).

Lemma proxy_key_ok n p x :
  proxy_ok n p → elements v !! n = Some x → ∃ p', proxy_key v p = Ok (item_key v n, p') ∧ proxy_ok n p'.
Proof.
  intros (Ha & Hi & Hs) Hx. unfold proxy_key. pose proof keys_distinct as Hkeys. revert Ha Hx Hkeys. unfold proxy_ok, pos.
  destruct v as [|m|l| | | | | |]; cbn [elements item_key position]; intros Ha Hx Hkeys; try (by exists p).
  - unfold it_key. rewrite Ha. cbn [m_it]. rewrite list_lookup_fmap in Hx. destruct (m !! n) as [[k x']|] eqn:E; [|done].
    destruct (Hkeys m n k x' eq_refl E) as [Hf _]. cbn. rewrite Hf. cbn. by exists p.
  - destruct (Z.eqb_spec (array_index p) (array_index_last p)) as [E|E]; cbn [negb array_index_str]; eexists.
    + split; [by rewrite Hs, <-E, Hi|done].
    + split; [by rewrite Hi|done].
Qed.

Lemma traverse_items_step fuel ask n p :
  traverse_items (S fuel) this v ask n p =
    obind (proxy_ne v p (proxy_of (it_end this v))) (λ b,
    if negb b then Ok [] else
    obind (if ask n then obind (proxy_key v p) (λ '(k, p), Ok (Some k, p)) else Ok (None, p)) (λ '(k, p),
    obind (proxy_value v p) (λ x,
    obind (proxy_incr v p) (λ p,
    obind (traverse_items fuel this v ask (S n) p) (λ xs, Ok ((k, x) :: xs)))))).
Proof. done. Qed.

Lemma traverse_items_from ask k n p :
  json_size v < 2 ^ 64 → (n + k = length (elements v))%nat → proxy_ok n p →
  traverse_items (S k) this v ask n p
  = Ok (imap (λ i x, (if ask (n + i)%nat then Some (item_key v (n + i)) else None, x)) (drop n (elements v))).
Proof.
  intros Hsz. revert n p. induction k as [|k IH]; intros n p Hn Hp; rewrite traverse_items_step.
  { rewrite Nat.add_0_r in Hn. subst n. unfold proxy_ne. rewrite (proj1 Hp). change (anchor (proxy_of ?it)) with it.
    rewrite (proj1 pos_end). cbn. by rewrite drop_all. }
  destruct (lookup_lt_is_Some_2 (elements v) n ltac:(lia)) as [x Hx].
  destruct (pos_element n x Hx) as (Hd & Hi & _ & Hne & _). unfold proxy_ne. change (anchor (proxy_of ?it)) with it.
  rewrite (proj1 Hp), Hne. cbn [obind negb].
  set (ko := if ask n then Some (item_key v n) else None).
  assert (Hkey : ∃ p', (if ask n then obind (proxy_key v p) (λ '(k, p), Ok (Some k, p)) else Ok (None, p)) = Ok (ko, p') ∧ proxy_ok n p').
  { unfold ko. destruct (ask n); [|by exists p]. destruct (proxy_key_ok n p x Hp Hx) as (p' & -> & Hp'). by exists p'. }
  destruct Hkey as (p' & -> & Ha' & Hi' & Hs'). cbn [obind]. unfold proxy_value. rewrite Ha', Hd. cbn [obind].
  unfold proxy_incr. rewrite Ha', Hi. cbn [obind]. rewrite (drop_S _ x n Hx), imap_cons, Nat.add_0_r. fold ko.
  rewrite IH; [|lia|].
  - cbn [obind]. do 2 f_equal. apply imap_ext. intros i y _. cbn. by rewrite Nat.add_succ_r.
  - split_and!; [done| |done]. cbn [array_index]. rewrite Hi', wrap_small; [lia|]. rewrite size_elements in Hsz. lia.
Qed.
End positions.

(** C17: A loop over the iterators of any value ends and visits exactly its
    parts: the elements of an array, the values of an object's members in the
    order of the keys, a scalar itself, and nothing of null; as many as
    [size()] says.  A loop from [rbegin()] to [rend()] visits them backwards,
    and one over [items()] tells their keys or indices, whichever turns ask for
    them. *)
Theorem loops_visit_all this v ask :
  json_wf v → json_size v < 2 ^ 64 →
  traverse (loop_fuel v) this v (it_begin this v) = Ok (elements v)
  ∧ traverse_back (loop_fuel v) this v (it_end this v) = Ok (reverse (elements v))
  ∧ traverse_items (loop_fuel v) this v ask 0 (proxy_of (it_begin this v))
    = Ok (imap (λ n x, (if ask n then Some (item_key v n) else None, x)) (elements v))
  ∧ json_size v = Z.of_nat (length (elements v)).
Proof.
  intros Hwf Hsz. unfold loop_fuel. rewrite (size_elements v Hwf), Nat2Z.id, (begin_pos this v Hwf), (end_pos this v Hwf). split_and!; [..|done].
  - by rewrite (traverse_from this v Hwf).
  - rewrite (traverse_back_from this v Hwf) by done. by rewrite take_ge.
  - by rewrite (traverse_items_from this v Hwf).
Qed.

Lemma loops_visit_all_witness :
  traverse (loop_fuel (jarray [jnull; jstring "x"])) 7 (jarray [jnull; jstring "x"]) (it_begin 7 (jarray [jnull; jstring "x"]))
  = Ok [jnull; jstring "x"].
Proof. apply (loops_visit_all 7 (jarray [jnull; jstring "x"]) (λ _, true)); [by repeat constructor|done]. Defined.
