(* ===== verification/JsonModify.v ===== *)
(** * Construction, lookup and modification of values (json.hpp, [class basic_json])

    The operations that change a value are computations on it.  Iterators of
    the value itself are recognised by its address [this]; a range of another
    value comes with that value. *)

From stdpp Require Import base gmap strings list.
From Stdlib Require Import ZArith Ascii Lia.
From S2P Require Import Prelude Cxx StdMap JsonValue JsonBinary JsonPointer JsonIter.

(** ** Types *)

(** [enum class value_t]. *)
Inductive value_t : Type :=
| vt_null | vt_object | vt_array | vt_string | vt_boolean | vt_number_integer | vt_number_unsigned | vt_number_float | vt_discarded.

#[global] Instance value_t_eq_dec : EqDecision value_t.
Proof. solve_decision. Defined.

(** [type()]. *)
Definition json_type (v : json) : value_t :=
  match v with
  | jnull => vt_null
  | jobject _ => vt_object
  | jarray _ => vt_array
  | jstring _ => vt_string
  | jboolean _ => vt_boolean
  | jnumber_integer _ => vt_number_integer
  | jnumber_unsigned _ => vt_number_unsigned
  | jnumber_float _ => vt_number_float
  | jdiscarded => vt_discarded
  end.

Definition has_type (v : json) (t : value_t) : bool := bool_decide (json_type v = t).

Definition is_null (v : json) : bool := has_type v vt_null.
Definition is_boolean (v : json) : bool := has_type v vt_boolean.
Definition is_number_integer (v : json) : bool := has_type v vt_number_integer || has_type v vt_number_unsigned.
Definition is_number_unsigned (v : json) : bool := has_type v vt_number_unsigned.
Definition is_number_float (v : json) : bool := has_type v vt_number_float.
Definition is_number (v : json) : bool := is_number_integer v || is_number_float v.
Definition is_object (v : json) : bool := has_type v vt_object.
Definition is_array (v : json) : bool := has_type v vt_array.
Definition is_string (v : json) : bool := has_type v vt_string.
Definition is_discarded (v : json) : bool := has_type v vt_discarded.
Definition is_structured (v : json) : bool := is_array v || is_object v.

(** ** Construction *)

(** [basic_json(value_t)]. *)
Definition json_of_type (t : value_t) : json :=
  match t with
  | vt_null => jnull
  | vt_object => jobject []
  | vt_array => jarray []
  | vt_string => jstring ""
  | vt_boolean => jboolean false
  | vt_number_integer => jnumber_integer 0
  | vt_number_unsigned => jnumber_unsigned 0
  | vt_number_float => jnumber_float (Dfin false 0 0)
  | vt_discarded => jdiscarded
  end.

(** [insert] and [emplace] of a map keep a member that is there. *)
Definition map_insert (m : std_map json) (kv : string * json) : std_map json :=
  if map_mem kv.1 m then m else map_put kv.1 kv.2 m.

Definition key_value (v : json) : option (string * json) :=
  match v with jarray [jstring k; x] => Some (k, x) | _ => None end.

(** [basic_json(init, type_deduction, manual_type)]: pairs that begin with a
    string make an object. *)
Definition json_of_list (init : list json) (type_deduction : bool) (manual_type : value_t) : outcome exn json :=
  let is_an_object := forallb (λ v, match key_value v with Some _ => true | None => false end) init in
  let is_an_object := if negb type_deduction && bool_decide (manual_type = vt_array) then false else is_an_object in
  if negb type_deduction && bool_decide (manual_type = vt_object) && negb is_an_object
  then Throw (exception_create type_error 301 "cannot create object from initializer list")
  else if is_an_object then Ok (jobject (foldl map_insert [] (omap key_value init)))
  else Ok (jarray init).

Definition json_array (init : list json) : outcome exn json := json_of_list init false vt_array.
Definition json_object (init : list json) : outcome exn json := json_of_list init false vt_object.

(** [basic_json(cnt, val)]. *)
Definition json_of_count `{Machine} (cnt : Z) (val : json) : outcome exn json :=
  if array_max_size <? cnt then Throw (std_logic_error "cannot create std::vector larger than max_size()")
  else Ok (jarray (replicate (Z.to_nat cnt) val)).

(** The elements from [i] to [j], and the members from [first] to [last]. *)
Definition array_range (l : list json) (i j : Z) : outcome exn (list json) :=
  if (0 <=? i) && (i <=? j) && (j <=? Z.of_nat (length l))
  then Ok (take (Z.to_nat (j - i)) (drop (Z.to_nat i) l)) else Undefined.

Fixpoint members_from (first : option string) (m : std_map json) : outcome exn (std_map json) :=
  if decide (first_key m = first) then Ok m else
  match m with [] => Undefined | _ :: m => members_from first m end.

Fixpoint members_until (last : option string) (m : std_map json) : outcome exn (std_map json) :=
  if decide (first_key m = last) then Ok [] else
  match m with [] => Undefined | kv :: m => obind (members_until last m) (λ m, Ok (kv :: m)) end.

Definition member_range (m : std_map json) (first last : option string) : outcome exn (std_map json) :=
  obind (members_from first m) (members_until last).

(** [basic_json(first, last)]: [v] is the value of the iterators. *)
Definition json_of_range (v : json) (first last : iterator) : outcome exn json :=
  if negb (m_object first =? m_object last)%nat then iterator_error 201 "iterators are not compatible" else
  match v, m_it first, m_it last with
  | jobject m, object_iterator i, object_iterator j => obind (member_range m i j) (λ m, Ok (jobject m))
  | jarray l, array_iterator i, array_iterator j => obind (array_range l i j) (λ l, Ok (jarray l))
  | (jobject _ | jarray _), _, _ => Undefined
  | (jnull | jdiscarded), _, _ => iterator_error 206 ("cannot construct with iterators from " +:+ type_name v)
  | _, primitive_iterator i, primitive_iterator j =>
      if negb (i =? begin_value) || negb (j =? end_value) then iterator_error 204 "iterators out of range" else Ok v
  | _, _, _ => Undefined
  end.

(** ** Lookup *)

Definition json_front (v : json) : outcome exn json := it_deref v (it_begin 0 v).
Definition json_back (v : json) : outcome exn json := obind (it_decr v (it_end 0 v)) (it_deref v).

Definition json_find (this : nat) (v : json) (key : string) : iterator :=
  match v with
  | jobject m => Iterator this (object_iterator (if map_mem key m then Some key else None))
  | _ => it_end this v
  end.

Definition json_count (v : json) (key : string) : Z :=
  match v with jobject m => if map_mem key m then 1 else 0 | _ => 0 end.

(** [max_size()]. *)
Definition json_max_size `{Machine} (v : json) : Z :=
  match v with
  | jarray _ => array_max_size
  | jobject _ => object_max_size
  | _ => json_size v
  end.

Definition cannot_use {A} (id : Z) (operation : string) (v : json) : outcome exn A :=
  Throw (exception_create type_error id ("cannot use " +:+ operation +:+ "() with " +:+ type_name v)).

(** [value(key, default_value)] with a value as the default. *)
Definition json_value (v : json) (key : string) (default_value : json) : outcome exn json :=
  match v with
  | jobject _ =>
      let it := json_find 0 v key in
      obind (it_ne v it (it_end 0 v)) (λ b, if b : bool then it_deref v it else Ok default_value)
  | _ => cannot_use 306 "value" v
  end.

(** [value(ptr, default_value)]: any [out_of_range] gives the default. *)
Definition json_value_at (v : json) (ptr : list string) (default_value : json) : outcome exn json :=
  match v with
  | jobject _ =>
      match get_checked_const ptr v with
      | Throw (json_exception out_of_range _ _) => Ok default_value
      | o => o
      end
  | _ => cannot_use 306 "value" v
  end.

(** ** Modification *)

(** [clear()]. *)
Definition json_clear (v : json) : json :=
  match v with
  | jnumber_integer _ => jnumber_integer 0
  | jnumber_unsigned _ => jnumber_unsigned 0
  | jnumber_float _ => jnumber_float (Dfin false 0 0)
  | jboolean _ => jboolean false
  | jstring _ => jstring ""
  | jarray _ => jarray []
  | jobject _ => jobject []
  | v => v
  end.

Definition push_back (val : json) : M exn json unit := λ v,
  match v with
  | jnull => (Ok tt, jarray [val])
  | jarray l => (Ok tt, jarray (l ++ [val]))
  | _ => (cannot_use 308 "push_back" v, v)
  end.

(** [push_back] of a member. *)
Definition push_back_member (kv : string * json) : M exn json unit := λ v,
  match v with
  | jnull => (Ok tt, jobject (map_insert [] kv))
  | jobject m => (Ok tt, jobject (map_insert m kv))
  | _ => (cannot_use 308 "push_back" v, v)
  end.

(** [push_back] of an initializer list. *)
Definition push_back_list (init : list json) : M exn json unit :=
  v <- get_state ;;
  match v, init with
  | jobject _, [jstring k; x] => push_back_member (k, x)
  | _, _ => x <- lift (json_of_list init true vt_array) ;; push_back x
  end.

Definition emplace_back (val : json) : M exn json unit := λ v,
  match v with
  | jnull => (Ok tt, jarray [val])
  | jarray l => (Ok tt, jarray (l ++ [val]))
  | _ => (cannot_use 311 "emplace_back" v, v)
  end.

(** [emplace]: where the member is, and whether it was put there. *)
Definition emplace (this : nat) (kv : string * json) : M exn json (iterator * bool) := λ v,
  let put m := (Ok (Iterator this (object_iterator (Some kv.1)), negb (map_mem kv.1 m)), jobject (map_insert m kv)) in
  match v with
  | jnull => put []
  | jobject m => put m
  | _ => (cannot_use 311 "emplace" v, v)
  end.

(** *** Erasure *)

Definition erase_members (m : std_map json) (ms : std_map json) : std_map json := foldl (λ m kv, map_erase kv.1 m) m ms.

(** [erase(pos)]. *)
Definition erase_at (this : nat) (pos : iterator) : M exn json iterator := λ v,
  if negb (this =? m_object pos)%nat then (iterator_error 202 "iterator does not fit current value", v) else
  match v, m_it pos with
  | jobject m, object_iterator (Some k) =>
      match key_after k m with
      | Ok next => (Ok (Iterator this (object_iterator next)), jobject (map_erase k m))
      | _ => (Undefined, v)
      end
  | jarray l, array_iterator i =>
      if (0 <=? i) && (i <? Z.of_nat (length l))
      then (Ok (Iterator this (array_iterator i)), jarray (delete (Z.to_nat i) l)) else (Undefined, v)
  | (jobject _ | jarray _), _ => (Undefined, v)
  | (jnull | jdiscarded), _ => (cannot_use 307 "erase" v, v)
  | _, primitive_iterator i =>
      if i =? begin_value then (Ok (it_end this v), jnull) else (iterator_error 205 "iterator out of range", v)
  | _, _ => (Undefined, v)
  end.

(** [erase(first, last)]. *)
Definition erase_range (this : nat) (first last : iterator) : M exn json iterator := λ v,
  if negb (this =? m_object first)%nat || negb (this =? m_object last)%nat
  then (iterator_error 203 "iterators do not fit current value", v) else
  match v, m_it first, m_it last with
  | jobject m, object_iterator i, object_iterator j =>
      match member_range m i j with
      | Ok ms => (Ok (Iterator this (object_iterator j)), jobject (erase_members m ms))
      | _ => (Undefined, v)
      end
  | jarray l, array_iterator i, array_iterator j =>
      if (0 <=? i) && (i <=? j) && (j <=? Z.of_nat (length l))
      then (Ok (Iterator this (array_iterator i)), jarray (take (Z.to_nat i) l ++ drop (Z.to_nat j) l)) else (Undefined, v)
  | (jobject _ | jarray _), _, _ => (Undefined, v)
  | (jnull | jdiscarded), _, _ => (cannot_use 307 "erase" v, v)
  | _, primitive_iterator i, primitive_iterator j =>
      if negb (i =? begin_value) || negb (j =? end_value) then (iterator_error 204 "iterators out of range", v)
      else (Ok (it_end this v), jnull)
  | _, _, _ => (Undefined, v)
  end.

(** [erase(key)]: the number of members erased. *)
Definition erase_key (key : string) : M exn json Z := λ v,
  match v with
  | jobject m => (Ok (if map_mem key m then 1 else 0), jobject (map_erase key m))
  | _ => (cannot_use 307 "erase" v, v)
  end.

(** [erase(idx)]. *)
Definition erase_index (idx : Z) : M exn json unit := λ v,
  match v with
  | jarray l =>
      if Z.of_nat (length l) <=? idx
      then (Throw (exception_create out_of_range 401 ("array index " +:+ to_string idx +:+ " is out of range")), v)
      else (Ok tt, jarray (delete (Z.to_nat idx) l))
  | _ => (cannot_use 307 "erase" v, v)
  end.

(** *** Insertion *)

(** [xs] before the position [pos] of an array. *)
Definition insert_elements (this : nat) (pos : iterator) (xs : list json) : M exn json iterator := λ v,
  match v with
  | jarray l =>
      if negb (m_object pos =? this)%nat then (iterator_error 202 "iterator does not fit current value", v) else
      match m_it pos with
      | array_iterator i =>
          if (0 <=? i) && (i <=? Z.of_nat (length l))
          then (Ok (Iterator this (array_iterator i)), jarray (take (Z.to_nat i) l ++ xs ++ drop (Z.to_nat i) l))
          else (Undefined, v)
      | _ => (Undefined, v)
      end
  | _ => (cannot_use 309 "insert" v, v)
  end.

(** [insert(pos, val)] and [insert(pos, ilist)]. *)
Definition insert_value (this : nat) (pos : iterator) (val : json) : M exn json iterator := insert_elements this pos [val].
Definition insert_list (this : nat) (pos : iterator) (ilist : list json) : M exn json iterator := insert_elements this pos ilist.

(** [insert(pos, cnt, val)]. *)
Definition insert_count `{Machine} (this : nat) (pos : iterator) (cnt : Z) (val : json) : M exn json iterator :=
  v <- get_state ;;
  match v with
  | jarray l =>
      if (m_object pos =? this)%nat && (array_max_size - Z.of_nat (length l) <? cnt)
      then throw (std_logic_error "vector::_M_fill_insert")
      else insert_elements this pos (replicate (Z.to_nat cnt) val)
  | _ => insert_elements this pos []
  end.

(** [insert(pos, first, last)]: the range is one of [other]. *)
Definition insert_range (this : nat) (pos : iterator) (other : json) (first last : iterator) : M exn json iterator :=
  v <- get_state ;;
  match v with
  | jarray l =>
      if negb (m_object pos =? this)%nat then lift (iterator_error 202 "iterator does not fit current value")
      else if negb (m_object first =? m_object last)%nat then lift (iterator_error 210 "iterators do not fit")
      else if (m_object first =? this)%nat then lift (iterator_error 211 "passed iterators may not belong to container")
      else match other, m_it first, m_it last with
           | jarray l', array_iterator i, array_iterator j =>
               xs <- lift (array_range l' i j) ;; insert_elements this pos xs
           | _, _, _ => lift Undefined
           end
  | _ => lift (cannot_use 309 "insert" v)
  end.

(** [insert(first, last)] of members: those that are there stay. *)
Definition insert_members (other : json) (first last : iterator) : M exn json unit :=
  v <- get_state ;;
  match v with
  | jobject m =>
      if negb (m_object first =? m_object last)%nat then lift (iterator_error 210 "iterators do not fit") else
      match other, m_it first, m_it last with
      | jobject m', object_iterator i, object_iterator j =>
          ms <- lift (member_range m' i j) ;; put_state (jobject (foldl map_insert m ms))
      | jobject _, _, _ => lift Undefined
      | _, _, _ => lift (iterator_error 202 "iterators first and last must point to objects")
      end
  | _ => lift (cannot_use 309 "insert" v)
  end.

(** *** Update *)

(** Null becomes an object, also when an exception follows. *)
Definition to_object (v : json) : json := match v with jnull => jobject [] | v => v end.

(** [update(j)]. *)
Definition update (j : json) : M exn json unit :=
  modify to_object ;;
  v <- get_state ;;
  match v with
  | jobject m =>
      match j with
      | jobject m' => put_state (jobject (put_members m m'))
      | _ => lift (cannot_use 312 "update" j)
      end
  | _ => lift (cannot_use 312 "update" v)
  end.

(** [update(first, last)]: a loop over the range, member by member. *)
Definition update_range (other : json) (first last : iterator) : M exn json unit :=
  modify to_object ;;
  v <- get_state ;;
  match v with
  | jobject m =>
      if negb (m_object first =? m_object last)%nat then lift (iterator_error 210 "iterators do not fit") else
      match other, m_it first, m_it last with
      | jobject m', object_iterator i, object_iterator j =>
          ms <- lift (member_range m' i j) ;; put_state (jobject (put_members m ms))
      | jobject _, _, _ => lift Undefined
      | _, _, _ => lift (iterator_error 202 "iterators first and last must point to objects")
      end
  | _ => lift (cannot_use 312 "update" v)
  end.

(** *** Swaps: the second value is the other argument afterwards. *)

Definition swap_value (other : json) : M exn json json := λ v, (Ok v, other).
Definition swap_array (other : list json) : M exn json (list json) := λ v,
  match v with jarray l => (Ok l, jarray other) | _ => (cannot_use 310 "swap" v, v) end.
Definition swap_object (other : std_map json) : M exn json (std_map json) := λ v,
  match v with jobject m => (Ok m, jobject other) | _ => (cannot_use 310 "swap" v, v) end.
Definition swap_string (other : string) : M exn json string := λ v,
  match v with jstring s => (Ok s, jstring other) | _ => (cannot_use 310 "swap" v, v) end.

Example list_samples :
  json_of_list [jarray [jstring "a"; jnull]; jarray [jstring "a"; jboolean true]] true vt_array = Ok (jobject [("a", jnull)])
  ∧ json_of_list [jstring "a"; jnull] true vt_array = Ok (jarray [jstring "a"; jnull])
  ∧ json_of_list [] true vt_array = Ok (jobject [])
  ∧ (push_back_list [jstring "a"; jnull] (jobject [])).2 = jobject [("a", jnull)]
  ∧ (push_back_list [jstring "a"; jnull] jnull).2 = jarray [jarray [jstring "a"; jnull]].
Proof. vm_compute. done. Qed.

(** ** Every modification keeps values well-formed *)

(** A modification with its arguments. *)
Inductive edit : Type :=
| e_clear
| e_push_back (val : json)
| e_push_back_member (kv : string * json)
| e_push_back_list (init : list json)
| e_emplace_back (val : json)
| e_emplace (this : nat) (kv : string * json)
| e_erase_at (this : nat) (pos : iterator)
| e_erase_range (this : nat) (first last : iterator)
| e_erase_key (key : string)
| e_erase_index (idx : Z)
| e_insert_value (this : nat) (pos : iterator) (val : json)
| e_insert_list (this : nat) (pos : iterator) (ilist : list json)
| e_insert_count (this : nat) (pos : iterator) (cnt : Z) (val : json)
| e_insert_range (this : nat) (pos : iterator) (other : json) (first last : iterator)
| e_insert_members (other : json) (first last : iterator)
| e_update (j : json)
| e_update_range (other : json) (first last : iterator)
| e_swap_value (other : json)
| e_swap_array (other : list json)
| e_swap_object (other : std_map json)
| e_swap_string (other : string).

(** The value afterwards, also when the call threw. *)
Definition apply_edit `{Machine} (v : json) (e : edit) : json :=
  match e with
  | e_clear => json_clear v
  | e_push_back val => (push_back val v).2
  | e_push_back_member kv => (push_back_member kv v).2
  | e_push_back_list init => (push_back_list init v).2
  | e_emplace_back val => (emplace_back val v).2
  | e_emplace this kv => (emplace this kv v).2
  | e_erase_at this pos => (erase_at this pos v).2
  | e_erase_range this first last => (erase_range this first last v).2
  | e_erase_key key => (erase_key key v).2
  | e_erase_index idx => (erase_index idx v).2
  | e_insert_value this pos val => (insert_value this pos val v).2
  | e_insert_list this pos ilist => (insert_list this pos ilist v).2
  | e_insert_count this pos cnt val => (insert_count this pos cnt val v).2
  | e_insert_range this pos other first last => (insert_range this pos other first last v).2
  | e_insert_members other first last => (insert_members other first last v).2
  | e_update j => (update j v).2
  | e_update_range other first last => (update_range other first last v).2
  | e_swap_value other => (swap_value other v).2
  | e_swap_array other => (swap_array other v).2
  | e_swap_object other => (swap_object other v).2
  | e_swap_string other => (swap_string other v).2
  end.

(** The values among the arguments are well-formed. *)
Definition edit_ok (e : edit) : Prop :=
  match e with
  | e_push_back v | e_emplace_back v | e_insert_value _ _ v | e_insert_count _ _ _ v | e_update v | e_swap_value v
  | e_insert_range _ _ v _ _ | e_insert_members v _ _ | e_update_range v _ _ => json_wf v
  | e_push_back_member kv | e_emplace _ kv => json_wf kv.2
  | e_push_back_list l | e_insert_list _ _ l | e_swap_array l => Forall json_wf l
  | e_swap_object m => json_wf (jobject m)
  | _ => True
  end.

Definition members_wf (m : std_map json) : Prop := map_wf m ∧ Forall (λ kv, json_wf kv.2) m.

Lemma wf_object_iff m : json_wf (jobject m) ↔ members_wf m.
Proof. split; [intros Hw; by inversion Hw|intros []; by constructor]. Qed.

Lemma wf_array_iff l : json_wf (jarray l) ↔ Forall json_wf l.
Proof. split; [intros Hw; by inversion Hw|by constructor]. Qed.

Lemma members_wf_put k v m : json_wf v → members_wf m → members_wf (map_put k v m).
Proof.
  intros Hv [Hm Hall]. split; [by apply map_put_wf|]. clear Hm.
  induction Hall as [|[k' v'] m Hv' Hall IH]; cbn [map_put]; [by repeat constructor|].
  destruct (String.compare k k'); by repeat constructor.
Qed.

Lemma members_wf_erase k m : members_wf m → members_wf (map_erase k m).
Proof.
  intros [Hm Hall]. split; [by apply map_erase_wf|]. clear Hm.
  induction Hall as [|[k' v'] m Hv' Hall IH]; cbn [map_erase]; [done|].
  destruct (String.compare k k'); [done|by constructor|by constructor].
Qed.

Lemma members_wf_insert m kv : json_wf kv.2 → members_wf m → members_wf (map_insert m kv).
Proof. intros Hv Hm. unfold map_insert. case_match; [done|by apply members_wf_put]. Qed.

Lemma members_wf_fold (f : std_map json → string * json → std_map json) m ms :
  (∀ m kv, json_wf kv.2 → members_wf m → members_wf (f m kv)) →
  Forall (λ kv, json_wf kv.2) ms → members_wf m → members_wf (foldl f m ms).
Proof. intros Hf Hms. revert m. induction Hms as [|kv ms Hkv _ IH]; intros m Hm; cbn; [done|]. apply IH. by apply Hf. Qed.

Lemma members_from_suffix first m ms : members_from first m = Ok ms → ∃ pre, m = pre ++ ms.
Proof.
  induction m as [|kv m IH]; cbn [members_from]; case_decide; try done; [by intros [= <-]; exists []..|].
  intros Hms. destruct (IH Hms) as [pre ->]. by exists (kv :: pre).
Qed.

Lemma members_until_prefix last m ms : members_until last m = Ok ms → ∃ post, m = ms ++ post.
Proof.
  revert ms. induction m as [|kv m IH]; intros ms; cbn [members_until]; case_decide; try done; [by intros [= <-]; exists []|by intros [= <-]; exists (kv :: m)|].
  destruct (members_until last m) as [ms'| | |]; try done. intros [= <-]. destruct (IH ms' eq_refl) as [post ->]. by exists post.
Qed.

Lemma member_range_sub m first last ms : member_range m first last = Ok ms → ∃ pre post, m = pre ++ ms ++ post.
Proof.
  unfold member_range. destruct (members_from first m) as [m1| | |] eqn:E1; try done. cbn. intros E2.
  destruct (members_from_suffix _ _ _ E1) as [pre ->]. destruct (members_until_prefix _ _ _ E2) as [post ->]. by exists pre, post.
Qed.

Lemma member_range_wf m first last ms :
  member_range m first last = Ok ms → members_wf m → Forall (λ kv, json_wf kv.2) ms.
Proof.
  intros Hr [_ Hall]. destruct (member_range_sub _ _ _ _ Hr) as (pre & post & ->).
  by apply Forall_app in Hall as [_ [Hms _]%Forall_app].
Qed.

Lemma array_range_wf l i j xs : array_range l i j = Ok xs → Forall json_wf l → Forall json_wf xs.
Proof. unfold array_range. case_match; [|done]. intros [= <-] Hl. by apply Forall_take, Forall_drop. Qed.

Lemma json_of_list_wf init b t v : json_of_list init b t = Ok v → Forall json_wf init → json_wf v.
Proof.
  intros Hv Hinit. unfold json_of_list in Hv. repeat (case_match; try done); injection Hv as <-; try (by constructor).
  all: apply wf_object_iff, members_wf_fold; [apply members_wf_insert| |split; constructor].
  all: apply Forall_forall; intros kv Hkv; apply list_elem_of_omap in Hkv as (x & Hx & Hkv).
  all: rewrite Forall_forall in Hinit; specialize (Hinit x Hx); unfold key_value in Hkv; repeat (case_match; try done); simplify_eq; cbn.
  all: apply wf_array_iff in Hinit; by repeat (apply Forall_cons in Hinit as [? Hinit]).
Qed.

Lemma insert_elements_wf this pos xs v : Forall json_wf xs → json_wf v → json_wf (insert_elements this pos xs v).2.
Proof.
  intros Hxs Hv. unfold insert_elements. repeat (case_match; try done). cbn. apply wf_array_iff in Hv. apply wf_array_iff.
  apply Forall_app. split; [by apply Forall_take|]. apply Forall_app. split; [done|by apply Forall_drop].
Qed.

Create HintDb edits.
#[export] Hint Resolve members_wf_put members_wf_erase members_wf_insert insert_elements_wf Forall_app_2 Forall_take Forall_drop Forall_delete
  Forall_replicate wf_null wf_boolean wf_integer wf_unsigned wf_float wf_string : edits.
#[export] Hint Extern 1 (members_wf []) => (split; constructor) : edits.
#[export] Hint Extern 1 (Forall _ [_]) => constructor : edits.
#[export] Hint Extern 1 (Forall _ []) => constructor : edits.

Lemma push_back_wf val v : json_wf val → json_wf v → json_wf (push_back val v).2.
Proof.
  intros Hval Hv. unfold push_back. destruct v; cbn; try done; apply wf_array_iff; rewrite ?wf_array_iff in Hv; auto with edits.
Qed.

Lemma push_back_member_wf kv v : json_wf kv.2 → json_wf v → json_wf (push_back_member kv v).2.
Proof.
  intros Hval Hv. unfold push_back_member. destruct v; cbn [snd]; try done; apply wf_object_iff; rewrite ?wf_object_iff in Hv; auto with edits.
Qed.

Lemma push_back_list_wf init v : Forall json_wf init → json_wf v → json_wf (push_back_list init v).2.
Proof.
  intros Hinit Hv. unfold push_back_list, bind, get_state.
  assert (Hgen : json_wf ((x <- lift (json_of_list init true vt_array) ;; push_back x) v).2).
  { unfold lift, bind. destruct (json_of_list init true vt_array) as [x| | |] eqn:E; try done.
    apply push_back_wf; [by eapply json_of_list_wf|done]. }
  destruct v as [|m| | | | | | |]; try exact Hgen. repeat (case_match; try exact Hgen).
  apply push_back_member_wf; [|done]. apply Forall_cons in Hinit as [_ Hinit]. by apply Forall_cons in Hinit as [? _].
Qed.

Lemma emplace_wf this kv v : json_wf kv.2 → json_wf v → json_wf (emplace this kv v).2.
Proof.
  intros Hval Hv. unfold emplace. destruct v; cbn [snd]; try done; apply wf_object_iff; rewrite ?wf_object_iff in Hv; auto with edits.
Qed.

Lemma erase_wf this first last v :
  json_wf v → json_wf (erase_at this first v).2 ∧ json_wf (erase_range this first last v).2.
Proof.
  intros Hv. unfold erase_at, erase_range. split; repeat (case_match; try done); subst; cbn [snd];
    rewrite ?wf_object_iff, ?wf_array_iff in *; auto with edits.
  apply (members_wf_fold (λ m kv, map_erase kv.1 m)); [|by eapply member_range_wf|done]. intros; by apply members_wf_erase.
Qed.

Lemma erase_key_wf key idx v : json_wf v → json_wf (erase_key key v).2 ∧ json_wf (erase_index idx v).2.
Proof.
  intros Hv. unfold erase_key, erase_index. split; repeat (case_match; try done); subst; cbn [snd];
    rewrite ?wf_object_iff, ?wf_array_iff in *; auto with edits.
Qed.

Lemma insert_range_wf this pos other first last v :
  json_wf other → json_wf v → json_wf (insert_range this pos other first last v).2.
Proof.
  intros Ho Hv. unfold insert_range, bind, get_state, lift. repeat (case_match; try done); simplify_eq; try done.
  apply insert_elements_wf; [|done]. by eapply array_range_wf; [|apply wf_array_iff].
Qed.

Lemma insert_members_wf other first last v :
  json_wf other → json_wf v → json_wf (insert_members other first last v).2.
Proof.
  intros Ho Hv. unfold insert_members, bind, get_state, lift, put_state. repeat (case_match; try done); simplify_eq; try done.
  cbn [snd]. rewrite wf_object_iff in *. apply members_wf_fold; [apply members_wf_insert|by eapply member_range_wf|done].
Qed.

Lemma put_members_members_wf m ms : Forall (λ kv, json_wf kv.2) ms → members_wf m → members_wf (put_members m ms).
Proof. apply members_wf_fold. intros; by apply members_wf_put. Qed.

Lemma to_object_wf v : json_wf v → json_wf (to_object v).
Proof. destruct v; try done. intros _. by repeat constructor. Qed.

Lemma update_wf j first last v :
  json_wf j → json_wf v → json_wf (update j v).2 ∧ json_wf (update_range j first last v).2.
Proof.
  intros Hj Hv. apply to_object_wf in Hv. unfold update, update_range, bind, get_state, lift, put_state, modify.
  split; repeat (case_match; try done); simplify_eq; try done; cbn [snd]; rewrite ?wf_object_iff in *;
    (apply put_members_members_wf; [|done]); [apply Hj|by eapply member_range_wf].
Qed.

Lemma insert_count_wf `{Machine} this pos cnt val v :
  json_wf val → json_wf v → json_wf (insert_count this pos cnt val v).2.
Proof.
  intros Hval Hv. unfold insert_count, bind, get_state. repeat (case_match; try done); apply insert_elements_wf; auto with edits.
Qed.



(** ** What the modifications do *)

(** Erasing what was inserted gives the array back: the iterator that [insert]
    returns is at the first new element. *)
Theorem erase_undoes_insert this l i xs :
  (i ≤ length l)%nat →
  ∃ first last v', insert_list this (Iterator this (array_iterator (Z.of_nat i))) xs (jarray l) = (Ok first, v')
    ∧ it_advance v' first (Z.of_nat (length xs)) = Ok last
    ∧ erase_range this first last v' = (Ok first, jarray l)
    ∧ ∀ n x, xs !! n = Some x → it_index v' first (Z.of_nat n) = Ok x.
Proof.
  intros Hi. set (l' := take i l ++ xs ++ drop i l).
  assert (Hlen : length (take i l) = i) by (rewrite length_take; lia).
  assert (Hlen' : length l' = (length l + length xs)%nat) by (unfold l'; rewrite !length_app, length_drop; lia).
  exists (Iterator this (array_iterator (Z.of_nat i))), (Iterator this (array_iterator (Z.of_nat i + Z.of_nat (length xs)))), (jarray l').
  unfold insert_list, insert_elements, erase_range, it_advance, it_index, advance, array_at. cbn [m_object m_it]. rewrite Nat.eqb_refl. cbn [negb orb].
  rewrite !Nat2Z.id. split_and!.
  - replace ((0 <=? Z.of_nat i) && (Z.of_nat i <=? Z.of_nat (length l))) with true; [done|].
    symmetry. apply andb_true_iff. split; apply Z.leb_le; lia.
  - replace ((0 <=? _) && _) with true; [done|]. symmetry. apply andb_true_iff. split; apply Z.leb_le; lia.
  - replace ((0 <=? _) && _ && _) with true; [|symmetry; rewrite !andb_true_iff; split_and!; apply Z.leb_le; lia].
    do 2 f_equal. replace (Z.to_nat (Z.of_nat i + Z.of_nat (length xs))) with (i + length xs)%nat by lia.
    unfold l'. rewrite take_app_length' by done. rewrite app_assoc, drop_app_length'; [apply take_drop|]. rewrite length_app. lia.
  - intros n x Hn. pose proof (lookup_lt_Some _ _ _ Hn).
    replace ((0 <=? _) && _) with true; [|symmetry; apply andb_true_iff; split; [apply Z.leb_le|apply Z.ltb_lt]; lia].
    replace (Z.to_nat (Z.of_nat i + Z.of_nat n)) with (length (take i l) + n)%nat by lia.
    unfold l'. rewrite lookup_app_r by lia. rewrite Nat.add_comm, Nat.add_sub, lookup_app_l by done. by rewrite Hn.
Qed.

(** [find] gives an iterator that [erase] takes, with the effect of erasing by
    key; [count] tells whether there is one. *)
Theorem erase_found this m k :
  map_wf m →
  (json_count (jobject m) k = 1 → (erase_at this (json_find this (jobject m) k) (jobject m)).2 = (erase_key k (jobject m)).2)
  ∧ (json_count (jobject m) k ≠ 1 → json_find this (jobject m) k = it_end this (jobject m) ∧ (erase_key k (jobject m)).2 = jobject m).
Proof.
  intros Hwf. unfold json_count, json_find, erase_key, erase_at, map_mem. cbn [m_object m_it snd].
  destruct (map_find k m) as [x|] eqn:E; (split; [intros Hc|intros Hc]); try done.
  - rewrite Nat.eqb_refl. cbn [negb]. apply map_find_elem_of in E as (n & Hn)%list_elem_of_lookup; [|done].
    by rewrite (key_after_pos m n k x (map_keys_NoDup m Hwf) Hn).
  - split; [done|]. by rewrite map_erase_id.
Qed.

(** After [update] a member is that of the argument if it has one. *)
Theorem update_lookup m j k :
  map_wf m → map_wf j →
  ∃ m', update (jobject j) (jobject m) = (Ok tt, jobject m') ∧ map_wf m'
    ∧ map_find k m' = match map_find k j with Some x => Some x | None => map_find k m end.
Proof.
  intros Hm Hj. eexists. split; [done|]. split; [by apply put_members_wf|].
  revert m Hm. induction j as [|[k' x] j IH]; intros m Hm; [done|]. pose proof Hj as [Hg Hj']%map_wf_cons.
  unfold put_members in *. cbn [foldl fst snd]. rewrite IH by (done || by apply map_put_wf). cbn [map_find].
  rewrite map_find_put by done. destruct (str_compareP k k') as [->|Hlt|Hgt].
  - rewrite map_find_all_gt by done. by rewrite decide_True.
  - rewrite (map_find_all_gt k j) by (by eapply all_gt_lt). rewrite decide_False; [done|]. intros ->. by apply str_lt_irrefl in Hlt.
  - destruct (map_find k j); [done|]. rewrite decide_False; [done|]. intros ->. by apply str_lt_irrefl in Hgt.
Qed.

(** A value can be built from the whole range of its iterators. *)
Theorem range_whole this v :
  json_wf v → is_null v = false → is_discarded v = false → json_of_range v (it_begin this v) (it_end this v) = Ok v.
Proof.
  intros Hwf Hn Hd. unfold json_of_range, it_begin, it_end. cbn [m_object m_it]. rewrite Nat.eqb_refl. cbn [negb].
  destruct v as [|m|l| | | | | |]; try done; cbn [set_begin set_end].
  - assert (Hf : members_from (first_key m) m = Ok m) by (destruct m; cbn [members_from]; by rewrite decide_True).
    unfold member_range. rewrite Hf. cbn [obind]. clear Hf Hwf.
    assert (Hu : members_until None m = Ok m); [|by rewrite Hu].
    induction m as [|kv m IH]; cbn [members_until]; [by rewrite decide_True|]. rewrite decide_False by done. by rewrite IH.
  - unfold array_range. replace (0 <=? Z.of_nat (length l)) with true by (symmetry; apply Z.leb_le; lia).
    rewrite Z.sub_0_r, Nat2Z.id, !Z.leb_refl. change (drop (Z.to_nat 0) l) with l. cbn [andb Z.leb Z.compare obind]. by rewrite firstn_all.
Qed.
