(* ===== verification/JsonOrder.v ===== *)
(** * The order of values (json.hpp, [operator<])

    Numbers of different types are converted before they are compared.  On
    values whose integers are doubles and without NaN, [operator<] and
    [operator==] are those of one total order; on all values they are not. *)

From stdpp Require Import base gmap strings list.
From Stdlib Require Import ZArith QArith Lqa Ascii Lia.
From S2P Require Import Prelude Cxx StdMap JsonValue JsonLexer Rational Grisu GrisuDigits GrisuScale Strtod JsonEqual JsonIter JsonModify.

Local Open Scope Z_scope.

(** ** Types *)

(** The table [order] of [operator<] on types; discarded is not in it. *)
Definition type_order (t : value_t) : option Z :=
  match t with
  | vt_null => Some 0
  | vt_object => Some 3
  | vt_array => Some 4
  | vt_string => Some 5
  | vt_boolean => Some 1
  | vt_number_integer | vt_number_unsigned | vt_number_float => Some 2
  | vt_discarded => None
  end.

Definition value_t_lt (lhs rhs : value_t) : bool :=
  match type_order lhs, type_order rhs with Some l, Some r => l <? r | _, _ => false end.

(** ** Values *)

(** [<] on doubles. *)
Definition double_lt (a b : double) : bool :=
  match a, b with
  | Dfin s m e, Dfin s' m' e' =>
      let least := Z.min e e' in
      let value (s : bool) m e := (if s then - m else m) * 2 ^ (e - least) in
      value s m e <? value s' m' e'
  | Dinf s, Dinf s' => s && negb s'
  | Dinf s, Dfin _ _ _ => s
  | Dfin _ _ _, Dinf s' => negb s'
  | _, _ => false
  end.

Definition string_lt (a b : string) : bool := match String.compare a b with Lt => true | _ => false end.

(** [operator<] but for two arrays or two objects. *)
Definition scalar_lt (lhs rhs : json) : bool :=
  match lhs, rhs with
  | jstring l, jstring r => string_lt l r
  | jboolean l, jboolean r => negb l && r
  | jnumber_integer l, jnumber_integer r => l <? r
  | jnumber_unsigned l, jnumber_unsigned r => l <? r
  | jnumber_float l, jnumber_float r => double_lt l r
  | jnumber_integer l, jnumber_float r => double_lt (integer_to_double l) r
  | jnumber_float l, jnumber_integer r => double_lt l (integer_to_double r)
  | jnumber_unsigned l, jnumber_float r => double_lt (integer_to_double l) r
  | jnumber_float l, jnumber_unsigned r => double_lt l (integer_to_double r)
  | jnumber_integer l, jnumber_unsigned r => l <? wrap_signed 64 r
  | jnumber_unsigned l, jnumber_integer r => wrap_signed 64 l <? r
  | _, _ => value_t_lt (json_type lhs) (json_type rhs)
  end.

(** [std::lexicographical_compare] both ways at once: [(l < r, r < l)]. *)
Definition lex_lt {A} (lt : A → A → bool * bool) : list A → list A → bool * bool :=
  fix go l r :=
    match l, r with
    | [], [] => (false, false)
    | [], _ :: _ => (true, false)
    | _ :: _, [] => (false, true)
    | a :: l, b :: r =>
        let '(ab, ba) := lt a b in
        (if (ab : bool) then true else if (ba : bool) then false else (go l r).1,
         if (ba : bool) then true else if (ab : bool) then false else (go l r).2)
    end.

(** [operator<] of [std::pair], both ways. *)
Definition pair_lt (lt : json → json → bool * bool) (a b : string * json) : bool * bool :=
  let '(ab, ba) := lt a.2 b.2 in
  (string_lt a.1 b.1 || (negb (string_lt b.1 a.1) && ab), string_lt b.1 a.1 || (negb (string_lt a.1 b.1) && ba)).

Fixpoint json_lt_both (lhs rhs : json) : bool * bool :=
  match lhs, rhs with
  | jarray l, jarray r => lex_lt json_lt_both l r
  | jobject l, jobject r => lex_lt (pair_lt (λ a b, json_lt_both a b)) l r
  | _, _ => (scalar_lt lhs rhs, scalar_lt rhs lhs)
  end.

Definition json_lt (lhs rhs : json) : bool := (json_lt_both lhs rhs).1.
Definition json_le (lhs rhs : json) : bool := negb (json_lt rhs lhs).
Definition json_gt (lhs rhs : json) : bool := negb (json_le lhs rhs).
Definition json_ge (lhs rhs : json) : bool := negb (json_lt lhs rhs).

(** 2^53 < 2^53 + 1 as integers, but both are equal to the double 2^53; the
    largest unsigned number is below 0; NaN is below nothing. *)
Example json_lt_samples :
  json_lt (jnumber_integer (2 ^ 53)) (jnumber_integer (2 ^ 53 + 1)) = true
  ∧ json_lt (jnumber_integer (2 ^ 53 + 1)) (jnumber_float (Dfin false (2 ^ 52) 1)) = false
  ∧ json_lt (jnumber_float (Dfin false (2 ^ 52) 1)) (jnumber_integer (2 ^ 53 + 1)) = false
  ∧ json_lt (jnumber_unsigned (2 ^ 64 - 1)) (jnumber_integer 0) = true
  ∧ json_lt (jarray [jnull]) (jarray [jnull; jnull]) = true
  ∧ json_lt (jobject [("a", jnumber_integer 2)]) (jobject [("b", jnumber_integer 1)]) = true
  ∧ json_le (jnumber_float (Dnan false 1)) (jnumber_integer 0) = true.
Proof. vm_compute. done. Qed.

(** *** The recursion of the source *)

Definition lexicographical_compare {A} (lt : A → A → bool) : list A → list A → bool :=
  fix go l r :=
    match l, r with
    | _, [] => false
    | [], _ :: _ => true
    | a :: l, b :: r => if lt a b then true else if lt b a then false else go l r
    end.

Lemma lex_lt_swap {A} (lt : A → A → bool * bool) l r :
  Forall (λ a, ∀ b, lt b a = ((lt a b).2, (lt a b).1)) l → lex_lt lt r l = ((lex_lt lt l r).2, (lex_lt lt l r).1).
Proof.
  intros Hl. revert r. induction Hl as [|a l Ha _ IH]; intros [|b r]; try done. cbn [lex_lt].
  rewrite Ha, IH. destruct (lt a b) as [ab ba]. by destruct ab, ba, (lex_lt lt l r).
Qed.

Lemma pair_lt_swap lt a b : lt b.2 a.2 = ((lt a.2 b.2).2, (lt a.2 b.2).1) → pair_lt lt b a = ((pair_lt lt a b).2, (pair_lt lt a b).1).
Proof. intros H. unfold pair_lt. rewrite H. by destruct (lt a.2 b.2). Qed.

Lemma json_lt_both_swap l r : json_lt_both r l = ((json_lt_both l r).2, (json_lt_both l r).1).
Proof.
  revert r. induction l as [|m IH|l IH|s|b|z|z|d|] using json_ind; intros r;
    try (destruct r; cbn [json_lt_both fst snd]; done).
  - destruct r as [|m'| | | | | | |]; try done. cbn [json_lt_both]. apply lex_lt_swap. eapply Forall_impl; [exact IH|].
    intros a Ha b. cbv beta in Ha. apply pair_lt_swap, Ha.
  - destruct r as [| |l'| | | | | |]; try done. cbn [json_lt_both]. by apply lex_lt_swap.
Qed.

Lemma lex_lt_compare {A} (lt : A → A → bool * bool) l r :
  (∀ a b, lt b a = ((lt a b).2, (lt a b).1)) → (lex_lt lt l r).1 = lexicographical_compare (λ a b, (lt a b).1) l r.
Proof.
  intros Hs. revert r. induction l as [|a l IH]; intros [|b r]; try done. cbn [lex_lt lexicographical_compare].
  rewrite (Hs a b), <-IH. by destruct (lt a b) as [[] []].
Qed.

(** [json_lt] is the function of the source. *)
Lemma json_lt_equation lhs rhs :
  json_lt lhs rhs =
  match lhs, rhs with
  | jarray l, jarray r => lexicographical_compare json_lt l r
  | jobject l, jobject r =>
      lexicographical_compare (λ a b, string_lt a.1 b.1 || (negb (string_lt b.1 a.1) && json_lt a.2 b.2)) l r
  | _, _ => scalar_lt lhs rhs
  end.
Proof.
  unfold json_lt. destruct lhs as [|m|l| | | | | |], rhs as [|m'|l'| | | | | |]; try done; cbn [json_lt_both].
  - rewrite lex_lt_compare; [|intros a b; apply pair_lt_swap, json_lt_both_swap].
    generalize dependent m'. induction m as [|a m IH]; intros [|b m']; try done. cbn [lexicographical_compare].
    rewrite IH. unfold pair_lt. rewrite (json_lt_both_swap a.2 b.2). by destruct (json_lt_both a.2 b.2).
  - by rewrite lex_lt_compare by apply json_lt_both_swap.
Qed.

(** ** A total order *)

(** Values whose integers are doubles, without NaN and discarded values. *)
Fixpoint exact (v : json) : bool :=
  match v with
  | jobject m => forallb (λ kv, exact kv.2) m
  | jarray l => forallb exact l
  | jnumber_integer z => Z.abs z <=? 2 ^ 53
  | jnumber_unsigned z => (0 <=? z) && (z <=? 2 ^ 53)
  | jnumber_float d => valid_double d && match d with Dnan _ _ => false | _ => true end
  | jdiscarded => false
  | _ => true
  end.

(** The value of a number in units of 2^-1074; infinities are beyond all. *)
Definition double_key (d : double) : Z :=
  match d with
  | Dfin s m e => (if s then - m else m) * 2 ^ (e + 1074)
  | Dinf s => if s then - 2 ^ 3000 else 2 ^ 3000
  | Dnan _ _ => 0
  end.

Definition rank (v : json) : Z := default 0 (type_order (json_type v)).

Definition number_key (v : json) : Z :=
  match v with
  | jnumber_integer z | jnumber_unsigned z => z * 2 ^ 1074
  | jnumber_float d => double_key d
  | _ => 0
  end.

Definition lex_compare {A} (cmp : A → A → comparison) : list A → list A → comparison :=
  fix go l r :=
    match l, r with
    | [], [] => Eq
    | [], _ :: _ => Lt
    | _ :: _, [] => Gt
    | a :: l, b :: r => match cmp a b with Eq => go l r | c => c end
    end.

Definition pair_compare (cmp : json → json → comparison) (a b : string * json) : comparison :=
  match String.compare a.1 b.1 with Eq => cmp a.2 b.2 | c => c end.

Fixpoint json_compare (l r : json) : comparison :=
  match l, r with
  | jarray l, jarray r => lex_compare json_compare l r
  | jobject l, jobject r => lex_compare (pair_compare (λ a b, json_compare a b)) l r
  | jstring l, jstring r => String.compare l r
  | jboolean l, jboolean r => Z.compare (Z.b2z l) (Z.b2z r)
  | _, _ => match Z.compare (rank l) (rank r) with Eq => Z.compare (number_key l) (number_key r) | c => c end
  end.

(** *** It is a total order *)

Section laws.
Context {A : Type} (cmp : A → A → comparison).

(** [a] is compared as in a total order. *)
Definition lawful (a : A) : Prop :=
  (∀ b, cmp b a = CompOpp (cmp a b)) ∧
  ∀ b c, (cmp a b = Eq → cmp a c = cmp b c) ∧ (cmp a b = Lt → cmp b c ≠ Gt → cmp a c = Lt).

Lemma lex_compare_lawful l :
  Forall lawful l →
  (∀ r, lex_compare cmp r l = CompOpp (lex_compare cmp l r)) ∧
  ∀ r s, (lex_compare cmp l r = Eq → lex_compare cmp l s = lex_compare cmp r s) ∧
    (lex_compare cmp l r = Lt → lex_compare cmp r s ≠ Gt → lex_compare cmp l s = Lt).
Proof.
  induction 1 as [|a l [Hsym Htr] _ [IHs IHt]]; split.
  - by intros [].
  - intros [|b r] [|c s]; split; cbn; done.
  - intros [|b r]; [done|]. cbn [lex_compare]. rewrite Hsym, IHs. by destruct (cmp a b).
  - intros [|b r] [|c s]; try done. cbn [lex_compare]. destruct (Htr b c) as [Heq Hlt]. destruct (IHt r s) as [IHeq IHlt].
    split.
    + intros Hab. destruct (cmp a b) eqn:E; try done. rewrite Heq by done. by rewrite IHeq.
    + intros Hab Hbc. destruct (cmp a b) eqn:E; try done.
      * rewrite Heq by done. destruct (cmp b c); try done. by apply IHlt.
      * rewrite Hlt; [done|done|]. by destruct (cmp b c).
Qed.
End laws.

(** Among values of the same rank. *)
Definition same_rank_compare (l r : json) : comparison :=
  match l, r with
  | jarray l, jarray r => lex_compare json_compare l r
  | jobject l, jobject r => lex_compare (pair_compare json_compare) l r
  | jstring l, jstring r => String.compare l r
  | jboolean l, jboolean r => Z.compare (Z.b2z l) (Z.b2z r)
  | _, _ => Z.compare (number_key l) (number_key r)
  end.

Lemma json_compare_rank l r :
  json_compare l r = match Z.compare (rank l) (rank r) with Eq => same_rank_compare l r | c => c end.
Proof. by destruct l, r. Qed.

Lemma lawful_by_rank a :
  (∀ b, rank b = rank a → same_rank_compare b a = CompOpp (same_rank_compare a b)) →
  (∀ b c, rank b = rank a → rank c = rank a →
     (same_rank_compare a b = Eq → same_rank_compare a c = same_rank_compare b c)
     ∧ (same_rank_compare a b = Lt → same_rank_compare b c ≠ Gt → same_rank_compare a c = Lt)) →
  lawful json_compare a.
Proof.
  intros Hsym Htr. split.
  - intros b. rewrite !json_compare_rank, (Z.compare_antisym (rank a) (rank b)).
    destruct (Z.compare_spec (rank a) (rank b)) as [E| |]; cbn; [by apply Hsym|done..].
  - intros b c. rewrite !json_compare_rank.
    destruct (Z.compare_spec (rank a) (rank b)) as [E| |]; [| |done].
    + rewrite E. destruct (Z.compare_spec (rank b) (rank c)) as [E2| |]; [|done|done]. apply Htr; congruence.
    + split; [done|]. intros _ Hbc. assert (rank b ≤ rank c).
      { destruct (Z.compare_spec (rank b) (rank c)); [lia|lia|by destruct Hbc]. }
      by rewrite (proj2 (Z.compare_lt_iff (rank a) (rank c))) by lia.
Qed.

Lemma lawful_Z (z : Z) : lawful Z.compare z.
Proof.
  split; [intros b; apply Z.compare_antisym|]. intros b c. split.
  - by intros ->%Z.compare_eq.
  - intros Hb Hc. change (z < b) in Hb. change (b ≤ c) in Hc. change (z < c). lia.
Qed.

Lemma lawful_string (s : string) : lawful String.compare s.
Proof.
  split; [intros b; apply String.compare_antisym|]. intros b c. split.
  - by intros ->%String.compare_eq_iff.
  - intros Hb Hc. destruct (String.compare b c) eqn:E; [apply String.compare_eq_iff in E as <-; done| |done].
    change (str_lt s c). by transitivity b.
Qed.

Lemma lawful_pair (kv : string * json) : lawful json_compare kv.2 → lawful (pair_compare json_compare) kv.
Proof.
  intros [Hs Ht]. destruct (lawful_string kv.1) as [Ks Kt]. split.
  - intros b. unfold pair_compare. rewrite Ks, Hs. by destruct (String.compare kv.1 b.1).
  - intros b c. unfold pair_compare. destruct (Kt b.1 c.1) as [Keq Klt]. destruct (Ht b.2 c.2) as [Heq Hlt].
    destruct (String.compare kv.1 b.1) eqn:E; [|split; [done|]|done].
    + rewrite Keq by done. destruct (String.compare b.1 c.1); [|done|done]. split; [exact Heq|exact Hlt].
    + intros _ Hbc. rewrite Klt; [done|done|]. by destruct (String.compare b.1 c.1).
Qed.

Lemma json_compare_lawful a : lawful json_compare a.
Proof.
  induction a as [|m IH|l IH|s|x|z|z|d|] using json_ind; apply lawful_by_rank.
  all: try (intros b Hb; destruct b; try discriminate Hb; apply (lawful_Z _)).
  all: try (intros b c Hb Hc; destruct b; try discriminate Hb; destruct c; try discriminate Hc; apply (lawful_Z _)).
  1,3,5: intros b Hb; destruct b; try discriminate Hb.
  4,5,6: intros b c Hb Hc; destruct b; try discriminate Hb; destruct c; try discriminate Hc.
  all: cbn [same_rank_compare].
  1,4: assert (Hm : Forall (lawful (pair_compare json_compare)) m)
         by (eapply Forall_impl; [exact IH|]; intros kv Hkv; by apply lawful_pair).
  - by apply (lex_compare_lawful _ m Hm).
  - by apply (lex_compare_lawful _ m Hm).
  - by apply (lex_compare_lawful _ l IH).
  - by apply (lawful_string s).
  - by apply (lex_compare_lawful _ l IH).
  - by apply (lawful_string s).
Qed.

(** *** Doubles and integers by their keys *)

Definition not_nan (d : double) : Prop := valid_double d = true ∧ match d with Dnan _ _ => False | _ => True end.

Lemma fin_key_range s m e : valid_double (Dfin s m e) = true → -1074 ≤ e ∧ Z.abs (double_key (Dfin s m e)) < 2 ^ 3000.
Proof.
  intros Hv. assert (Hr : 0 ≤ m < 2 ^ 53 ∧ -1074 ≤ e ≤ 971).
  { cbn [valid_double] in Hv. repeat match goal with
      | H : _ || _ = true |- _ => apply orb_true_iff in H as [H|H]
      | H : _ && _ = true |- _ => apply andb_true_iff in H as [? H] end; zify_cmp; lia. }
  split; [lia|]. cbn [double_key]. rewrite Z.abs_mul, (Z.abs_eq (2 ^ _)) by (apply Z.pow_nonneg; lia).
  apply Z.le_lt_trans with (2 ^ 53 * 2 ^ (e + 1074)).
  - apply Z.mul_le_mono_nonneg_r; [apply Z.pow_nonneg; lia|]. destruct s; lia.
  - rewrite <-Z.pow_add_r by lia. apply Z.pow_lt_mono_r; lia.
Qed.

Lemma scaled_key (n e e' : Z) :
  -1074 ≤ e → -1074 ≤ e' → (n * 2 ^ (e + 1074)) = (n * 2 ^ (e - Z.min e e')) * 2 ^ (Z.min e e' + 1074).
Proof. intros He He'. rewrite <-Z.mul_assoc, <-Z.pow_add_r by lia. do 2 f_equal. lia. Qed.

Lemma double_compare_key a b :
  not_nan a → not_nan b →
  double_lt a b = (double_key a <? double_key b) ∧ double_eq a b = (double_key a =? double_key b).
Proof.
  intros [Ha Na] [Hb Nb]. destruct a as [s m e|s|], b as [s' m' e'|s'|]; try done.
  - destruct (fin_key_range _ _ _ Ha) as [He _]. destruct (fin_key_range _ _ _ Hb) as [He' _].
    cbn [double_lt double_eq double_key]. cbv zeta.
    rewrite (scaled_key _ e e' He He'), (scaled_key (if s' then - m' else m') e' e He' He), (Z.min_comm e' e).
    pose proof (Z.pow_pos_nonneg 2 (Z.min e e' + 1074) ltac:(lia) ltac:(lia)) as Hp.
    set (P := 2 ^ (Z.min e e' + 1074)) in *. set (x := _ * 2 ^ (e - Z.min e e')). set (y := _ * 2 ^ (e' - Z.min e e')).
    clearbody P x y. split.
    + apply eq_true_iff_eq. rewrite !Z.ltb_lt. by apply Z.mul_lt_mono_pos_r.
    + apply eq_true_iff_eq. rewrite !Z.eqb_eq. split; [by intros ->|]. apply Z.mul_cancel_r. lia.
  - destruct (fin_key_range _ _ _ Ha) as [_ Hk]. cbn [double_lt double_eq]. unfold double_key at 2 4.
    set (k := double_key _) in *. clearbody k. destruct s'; cbn [negb];
      (split; symmetry; [|apply Z.eqb_neq; lia]); [apply Z.ltb_ge; lia|apply Z.ltb_lt; lia].
  - destruct (fin_key_range _ _ _ Hb) as [_ Hk]. cbn [double_lt double_eq]. unfold double_key at 1 3.
    set (k := double_key _) in *. clearbody k. destruct s; (split; symmetry; [|apply Z.eqb_neq; lia]); [apply Z.ltb_lt; lia|apply Z.ltb_ge; lia].
  - by destruct s, s'.
Qed.

(** Integers up to 2^53 are converted without loss. *)
Lemma exact_rounds neg n m e :
  0 < n → positive_double m e → (inject_Z m * pw 2 e == inject_Z n)%Q → round_ratio neg n 1 = Dfin neg m e.
Proof.
  intros Hn Hm Hx. apply (round_ratio_correct neg n 1 (inject_Z n)); [done|lia| |done|].
  - change (inject_Z 1) with 1%Q. ring.
  - pose proof (pw_pos 2 e ltac:(lia)) as HP. unfold rounds_to. destruct (lower_closer m e); split; nra.
Qed.

Lemma integer_double z :
  Z.abs z ≤ 2 ^ 53 → not_nan (integer_to_double z) ∧ double_key (integer_to_double z) = z * 2 ^ 1074.
Proof.
  intros Hz. pose proof (round_ratio_valid (z <? 0) (Z.abs z) 1 ltac:(lia) ltac:(lia)) as Hv. unfold integer_to_double, not_nan in *.
  destruct (decide (z = 0)) as [->|Hnz]; [done|].
  assert (Hd : ∃ m e, round_ratio (z <? 0) (Z.abs z) 1 = Dfin (z <? 0) m e ∧ m * 2 ^ (e + 1074) = Z.abs z * 2 ^ 1074).
  { destruct (decide (Z.abs z = 2 ^ 53)) as [->|Hne]; [exists (2 ^ 52), 1; split; [by vm_compute|by vm_compute]|].
    pose proof (Z.log2_spec (Z.abs z) ltac:(lia)) as [Hlo Hhi].
    assert (Hl : 0 ≤ Z.log2 (Z.abs z) < 53) by (split; [apply Z.log2_nonneg|]; apply Z.log2_lt_pow2; lia).
    set (n := Z.abs z) in *. set (k := 52 - Z.log2 n). exists (n * 2 ^ k), (- k).
    assert (Hk : 2 ^ Z.log2 n * 2 ^ k = 2 ^ 52) by (rewrite <-Z.pow_add_r by lia; f_equal; lia).
    assert (Hk' : 2 ^ Z.succ (Z.log2 n) * 2 ^ k = 2 ^ 53) by (rewrite <-Z.pow_add_r by lia; f_equal; lia).
    pose proof (Z.pow_pos_nonneg 2 k ltac:(lia) ltac:(lia)) as HP. split.
    - apply exact_rounds; [lia| |].
      + right. split; [|lia]. split; [rewrite <-Hk; apply Z.mul_le_mono_nonneg_r; lia|]. rewrite <-Hk'. by apply Z.mul_lt_mono_pos_r.
      + rewrite inject_Z_mult, <-(pw_Z 2 k) by lia. rewrite <-Qmult_assoc, (Qmult_comm (pw 2 k)), pw_opp by lia. ring.
    - rewrite <-Z.mul_assoc, <-Z.pow_add_r by lia. do 2 f_equal. lia. }
  destruct Hd as (m & e & E & Hk). rewrite E in *. split; [done|]. cbn [double_key].
  destruct (z <? 0) eqn:Es; zify_cmp.
  - rewrite Z.mul_opp_l, Hk, Z.abs_neq by lia. lia.
  - rewrite Hk, Z.abs_eq by lia. done.
Qed.

(** *** The operators are those of the order *)

Definition is_lt (c : comparison) : bool := match c with Lt => true | _ => false end.
Definition is_gt (c : comparison) : bool := match c with Gt => true | _ => false end.
Definition is_eq (c : comparison) : bool := match c with Eq => true | _ => false end.

(** [lt] both ways and [eq] say what [cmp] says. *)
Definition decided (lt : bool * bool) (eq : bool) (c : comparison) : Prop := lt = (is_lt c, is_gt c) ∧ eq = is_eq c.

Lemma lex_decided {A} (lt : A → A → bool * bool) (eq : A → A → bool) (cmp : A → A → comparison) (dom : A → bool) l r :
  Forall (λ a, dom a = true → ∀ b, dom b = true → decided (lt a b) (eq a b) (cmp a b)) l →
  forallb dom l = true → forallb dom r = true →
  decided (lex_lt lt l r) (list_eqb eq l r) (lex_compare cmp l r).
Proof.
  intros Hl. revert r. induction Hl as [|a l Ha _ IH]; intros [|b r] Hdl Hdr; try done. cbn in Hdl, Hdr.
  apply andb_true_iff in Hdl as [Hda Hdl], Hdr as [Hdb Hdr]. destruct (Ha Hda b Hdb) as [H1 H2]. destruct (IH r Hdl Hdr) as [H3 H4].
  unfold decided. cbn [lex_lt list_eqb lex_compare]. rewrite H1, H2, H3, H4. by destruct (cmp a b).
Qed.

Lemma Z_decided x y : decided (x <? y, y <? x) (x =? y) (Z.compare x y).
Proof.
  unfold decided. destruct (Z.compare_spec x y) as [->|Hlt|Hgt]; cbn.
  - rewrite Z.ltb_irrefl. by rewrite Z.eqb_refl.
  - rewrite (proj2 (Z.ltb_lt x y)), (proj2 (Z.ltb_ge y x)), (proj2 (Z.eqb_neq x y)) by lia. done.
  - rewrite (proj2 (Z.ltb_lt y x)), (proj2 (Z.ltb_ge x y)), (proj2 (Z.eqb_neq x y)) by lia. done.
Qed.

Lemma double_decided a b :
  not_nan a → not_nan b → decided (double_lt a b, double_lt b a) (double_eq a b) (Z.compare (double_key a) (double_key b)).
Proof.
  intros Ha Hb. destruct (double_compare_key a b Ha Hb) as [-> ->]. destruct (double_compare_key b a Hb Ha) as [-> _]. apply Z_decided.
Qed.

(** Integers in units of 2^-1074. *)
Lemma scaled_compare x y : Z.compare (x * 2 ^ 1074) (y * 2 ^ 1074) = Z.compare x y.
Proof.
  pose proof (Z.pow_pos_nonneg 2 1074 ltac:(lia) ltac:(lia)) as HP. set (P := 2 ^ 1074) in *. clearbody P.
  destruct (Z.compare_spec x y) as [->|Hlt|Hgt]; [apply Z.compare_refl|apply Z.compare_lt_iff|apply Z.compare_gt_iff];
    by apply Z.mul_lt_mono_pos_r.
Qed.

Lemma exact_float d : exact (jnumber_float d) = true → not_nan d.
Proof. cbn [exact]. intros [Hv Hn]%andb_true_iff. split; [done|by destruct d]. Qed.

Lemma number_decided a b :
  exact a = true → exact b = true → is_number a = true → is_number b = true →
  decided (scalar_lt a b, scalar_lt b a) (json_eq a b) (Z.compare (number_key a) (number_key b)).
Proof.
  intros Ha Hb Na Nb.
  assert (Hint : ∀ z, exact (jnumber_integer z) = true → Z.abs z ≤ 2 ^ 53) by (intros z Hz; by apply Z.leb_le in Hz).
  assert (Huns : ∀ z, exact (jnumber_unsigned z) = true → Z.abs z ≤ 2 ^ 53 ∧ wrap_signed 64 z = z).
  { intros z Hz. cbn [exact] in Hz. apply andb_true_iff in Hz as [H1%Z.leb_le H2%Z.leb_le]. split; [lia|]. apply wrap_signed_small; lia. }
  destruct a as [| | | | |x|x|x|], b as [| | | | |y|y|y|]; try discriminate Na; try discriminate Nb; cbn [scalar_lt json_eq number_key];
    repeat match goal with
      | H : exact (jnumber_unsigned ?z) = true |- _ => apply Huns in H as [H ?]
      | H : exact (jnumber_integer ?z) = true |- _ => apply Hint in H
      | H : exact (jnumber_float ?z) = true |- _ => apply exact_float in H
      | H : wrap_signed 64 ?z = ?z |- _ => rewrite !H; clear H
      end;
    rewrite ?scaled_compare; try apply Z_decided; try (by apply double_decided).
  - destruct (integer_double x Ha) as [Hx <-]. by apply double_decided.
  - destruct (integer_double x Ha) as [Hx <-]. by apply double_decided.
  - destruct (integer_double y Hb) as [Hy <-]. by apply double_decided.
  - destruct (integer_double y Hb) as [Hy <-]. by apply double_decided.
Qed.

Lemma string_decided s t : decided (string_lt s t, string_lt t s) (String.eqb s t) (String.compare s t).
Proof.
  unfold decided, string_lt. rewrite (String.compare_antisym t s).
  destruct (str_compareP s t) as [->|Hlt|Hlt]; cbn.
  - by rewrite String.eqb_refl.
  - split; [done|]. apply String.eqb_neq. intros ->. by apply str_lt_irrefl in Hlt.
  - split; [done|]. apply String.eqb_neq. intros ->. by apply str_lt_irrefl in Hlt.
Qed.

Lemma pair_decided lt eq cmp (a b : string * json) :
  decided (lt a.2 b.2) (eq a.2 b.2) (cmp a.2 b.2) →
  decided (pair_lt lt a b) (String.eqb a.1 b.1 && eq a.2 b.2) (pair_compare cmp a b).
Proof.
  intros [H1 H2]. destruct (string_decided a.1 b.1) as [H3 H4]. apply pair_equal_spec in H3 as [H3 H5]. unfold decided, pair_lt, pair_compare.
  rewrite H1, H2, H3, H4, H5. by destruct (String.compare a.1 b.1), (cmp a.2 b.2).
Qed.

(** Values of other types, by the types alone. *)
Lemma rank_decided a b :
  exact a = true → exact b = true → rank a ≠ rank b → decided (json_lt_both a b) (json_eq a b) (json_compare a b).
Proof.
  intros Ha Hb Hne. pose proof (Z_decided (rank a) (rank b)) as [H1 H2]. rewrite json_compare_rank.
  assert (Hc : Z.compare (rank a) (rank b) ≠ Eq) by (by intros ?%Z.compare_eq).
  destruct (Z.compare (rank a) (rank b)) eqn:E; [done|..]; rewrite <-H1 || idtac.
  all: destruct a, b; try done; try (by cbn in E).
Qed.

Lemma json_decided a b :
  exact a = true → exact b = true → decided (json_lt_both a b) (json_eq a b) (json_compare a b).
Proof.
  revert b. induction a as [|m IH|l IH|s|x|z|z|d|] using json_ind; intros b Ha Hb;
    (lazymatch goal with |- decided (json_lt_both ?a _) _ _ => destruct (decide (rank a = rank b)) as [Hr|Hr] end; [|by apply rank_decided]);
    destruct b; try discriminate Hr; try discriminate Ha; try discriminate Hb.
  - done.
  - cbn [json_lt_both json_eq json_compare exact] in *. apply (lex_decided _ _ _ (λ kv, exact kv.2)); [|done|done].
    eapply Forall_impl; [exact IH|]. intros kv Hkv Hk b Hb'. by apply (pair_decided (λ a b, json_lt_both a b) json_eq), Hkv.
  - cbn [json_lt_both json_eq json_compare exact] in *. apply (lex_decided _ _ _ exact); [|done|done].
    eapply Forall_impl; [exact IH|]. intros v Hv Hv' b Hb'. by apply Hv.
  - apply string_decided.
  - by destruct x, b.
  - by apply (number_decided (jnumber_integer z) (jnumber_integer z0)).
  - by apply (number_decided (jnumber_integer z) (jnumber_unsigned z0)).
  - by apply (number_decided (jnumber_integer z) (jnumber_float d)).
  - by apply (number_decided (jnumber_unsigned z) (jnumber_integer z0)).
  - by apply (number_decided (jnumber_unsigned z) (jnumber_unsigned z0)).
  - by apply (number_decided (jnumber_unsigned z) (jnumber_float d)).
  - by apply (number_decided (jnumber_float d) (jnumber_integer z)).
  - by apply (number_decided (jnumber_float d) (jnumber_unsigned z)).
  - by apply (number_decided (jnumber_float d) (jnumber_float d0)).
Qed.

(** C18: On values whose integers are at most 2^53 in size and without NaN and
    discarded values, [<] and [==] are those of a total order: of [a < b],
    [a == b] and [b < a] exactly one holds, [<] is transitive, and equal values
    compare alike with every other value; [<=], [>] and [>=] follow.  (The
    samples above show that none of this holds for all values.) *)
Theorem json_order_total a b c :
  exact a = true → exact b = true → exact c = true →
  (json_lt a b = true ∧ json_eq a b = false ∧ json_lt b a = false
   ∨ json_lt a b = false ∧ json_eq a b = true ∧ json_lt b a = false
   ∨ json_lt a b = false ∧ json_eq a b = false ∧ json_lt b a = true)
  ∧ (json_lt a b = true → json_le b c = true → json_lt a c = true)
  ∧ (json_eq a b = true → json_lt a c = json_lt b c ∧ json_gt a c = json_gt b c ∧ json_eq a c = json_eq b c)
  ∧ json_le a b = json_lt a b || json_eq a b ∧ json_ge a b = json_gt a b || json_eq a b.
Proof.
  intros Ha Hb Hc.
  assert (Hlt : ∀ x y, exact x = true → exact y = true →
    json_lt x y = is_lt (json_compare x y) ∧ json_lt y x = is_gt (json_compare x y) ∧ json_eq x y = is_eq (json_compare x y)).
  { intros x y Hx Hy. destruct (json_decided x y Hx Hy) as [H1 H2]. unfold json_lt.
    rewrite (json_lt_both_swap x y), H1. cbn [fst snd]. split_and!; [reflexivity|reflexivity|exact H2]. }
  destruct (json_compare_lawful a) as [_ Htr]. destruct (Htr b c) as [Heq Htrans].
  unfold json_le, json_gt, json_ge, json_le. destruct (Hlt a b Ha Hb) as (-> & -> & ->).
  destruct (Hlt b c Hb Hc) as (-> & -> & ->). destruct (Hlt a c Ha Hc) as (-> & -> & ->).
  split_and!.
  - destruct (json_compare a b); auto.
  - intros H1 H2. rewrite Htrans; [done|by destruct (json_compare a b)|]. by destruct (json_compare b c).
  - intros H1. rewrite Heq; [done|]. by destruct (json_compare a b).
  - by destruct (json_compare a b).
  - by destruct (json_compare a b).
Qed.

Lemma json_order_total_witness :
  json_lt (jarray [jnumber_integer 1; jnumber_float (Dfin false (2 ^ 52) (-51))]) (jarray [jnumber_unsigned 1; jnumber_integer 3]) = true
  ∧ json_lt (jarray [jnumber_integer 1; jnumber_float (Dfin false (2 ^ 52) (-51))]) (jstring "") = true.
Proof.
  split; [vm_compute; reflexivity|].
  edestruct (json_order_total (jarray [jnumber_integer 1; jnumber_float (Dfin false (2 ^ 52) (-51))])
    (jarray [jnumber_unsigned 1; jnumber_integer 3]) (jstring "")) as (_ & Htrans & _); [vm_compute; reflexivity..|].
  apply Htrans; vm_compute; reflexivity.
Defined.
