(* ===== verification/AnonymBE.v ===== *)
(** * The key manager service (anonymbe_service.h, anonymbe_service.hpp)

    [class AnonymBE<Database>]: request dispatch, key generation, key
    envelopes, error handling and responses, for any database that implements
    the interface of [Database]. *)

From stdpp Require Import base gmap strings list.
From Stdlib Require Import ZArith Ascii Lia.
From S2P Require Import Prelude Cxx StdMap Database JsonValue Utf8 JsonDump JsonSax JsonParser.

(** ** What the service uses of other libraries *)

(** The accessors of [Request] the service reads. *)
Record Request : Type := Req {
  method : string;
  encodedPath : string;
  stringBody : string;
}.

(** What [ResponseBuilder] was given; [EmptyResponse] is a default-constructed
    [Response]. *)
Inductive Response : Type :=
| EmptyResponse
| Built (protocol : string) (code : Z) (message : string)
        (headers : list (string * string)) (body : string).

Definition KVString : Type := std_map string.

(** The constants of [HttpStrings]. *)
Class HttpStrings : Type := {
  http11 : string; connection : string; keepalive : string; contenttype : string;
}.

(** Random sources and [Crypto] (submodules and the SGX SDK); [R] is the state
    of the random sources. *)
Class Crypto (R : Type) : Type := {
  b64_encode : string → string;
  b64_decode : string → string;
  sha224 : string → string;
  encrypt_aesgcm : string → string → R → string * R;
  get_rand : nat → R → string * R;
  sgx_read_rand : nat → R → string * R;
  rand : R → Z * R;
}.

(** Build flags, and the order in which the compiler evaluates the two
    arguments of a call (unspecified in C++11). *)
Class Build : Type := {
  NATIVE : bool;
  MEMDATABASE : bool;
  ABEMONGO : bool;
  arguments_right_to_left : bool;
}.

Section service.
Context {R : Type} `{Crypto R} `{HttpStrings} `{Build}.
Context {DB : Type} `{Database DB}.

Inductive ASKYError : Type :=
| ASKY_NOERROR | ASKY_ERROR_SERVICE | ASKY_INITIALIZATION_FAIL | ASKY_ALREADYINITIALIZED
| ASKY_BAD_REQUEST | ASKY_CREATE_EXISTENT | ASKY_NON_EXISTENT | ASKY_ROLLBACK_ATTACK
| ASKY_WRAPUP | ASKY_UNKNOWN.

Definition enum_value (e : ASKYError) : Z :=
  match e with
  | ASKY_NOERROR => 0 | ASKY_ERROR_SERVICE => 1 | ASKY_INITIALIZATION_FAIL => 2
  | ASKY_ALREADYINITIALIZED => 3 | ASKY_BAD_REQUEST => 4 | ASKY_CREATE_EXISTENT => 5
  | ASKY_NON_EXISTENT => 6 | ASKY_ROLLBACK_ATTACK => 7 | ASKY_WRAPUP => 8 | ASKY_UNKNOWN => 9
  end.

(** The members of the class and the random sources; [indexed_] has no value
    before [init]. *)
Record AnonymBE : Type := Svc {
  init_ : bool;
  indexed_ : option bool;
  die_ : bool;
  error_ : ASKYError;
  database_ : DB;
  rng : R;
}.

(** The constructor. *)
Definition AnonymBE_new (d : DB) (r : R) : AnonymBE :=
  Svc false None false ASKY_NOERROR d r.

Definition set_database (d : DB) (s : AnonymBE) : AnonymBE :=
  Svc (init_ s) (indexed_ s) (die_ s) (error_ s) d (rng s).
Definition set_rng (r : R) (s : AnonymBE) : AnonymBE :=
  Svc (init_ s) (indexed_ s) (die_ s) (error_ s) (database_ s) r.
Definition set_init (b : bool) (s : AnonymBE) : AnonymBE :=
  Svc b (indexed_ s) (die_ s) (error_ s) (database_ s) (rng s).
Definition set_indexed (b : bool) (s : AnonymBE) : AnonymBE :=
  Svc (init_ s) (Some b) (die_ s) (error_ s) (database_ s) (rng s).

(** A handler works on the service and on the [response] passed by reference. *)
Record context : Type := Ctx {
  svc : AnonymBE;
  response : KVString;
}.

Definition handler (A : Type) : Type := M exn context A.

Definition on_database {A} (m : M exn DB A) : handler A :=
  zoom (λ c, database_ (svc c)) (λ d c, Ctx (set_database d (svc c)) (response c)) m.

(** Draw from a random source. *)
Definition draw {A} (f : R → A * R) : handler A := λ c,
  let '(a, r) := f (rng (svc c)) in (Ok a, Ctx (set_rng r (svc c)) (response c)).

(** [response[k] = v]. *)
Definition respond (k v : string) : handler unit :=
  modify (λ c, Ctx (svc c) (map_put k v (response c))).

(** Two arguments of one call. *)
Definition arguments {A B} (a : outcome exn A) (b : outcome exn B) : handler (A * B) :=
  if arguments_right_to_left
  then y <- lift b ;; x <- lift a ;; ret (x, y)
  else x <- lift a ;; y <- lift b ;; ret (x, y).

(** ** Requests *)

Definition process_get (request : Request) : handler ASKYError :=
  let command := encodedPath request in
  if (command =? "/access/rights")%string then ret ASKY_BAD_REQUEST
  else if (command =? "/verifier/certify")%string then ret ASKY_BAD_REQUEST
  else if (command =? "/ping")%string then ret ASKY_NOERROR
  else ret ASKY_BAD_REQUEST.

(** The indexed envelope: hashes of <nonce,key> in an ordered container. *)
Fixpoint index_keys (nonce bucket_key : string) (ka : KeyArray) (orderedhashes : KVString)
    : handler KVString :=
  match ka with
  | [] => ret orderedhashes
  | key :: ka =>
      ct <- draw (encrypt_aesgcm key bucket_key) ;;
      index_keys nonce bucket_key ka (map_put (sha224 (nonce +:+ key)) ct orderedhashes)
  end.

Definition concat_pairs (m : KVString) : string :=
  foldr (λ kv acc, kv.1 +:+ kv.2 +:+ acc) "" m.

(** The linear envelope: one ciphertext per key. *)
Fixpoint encrypt_keys (bucket_key : string) (ka : KeyArray) (ctext : string) : handler string :=
  match ka with
  | [] => ret ctext
  | key :: ka =>
      ct <- draw (encrypt_aesgcm key bucket_key) ;;
      encrypt_keys bucket_key ka (ctext +:+ ct)
  end.

Definition generate_envelope (j : json) : handler ASKYError :=
  bk <- lift (json_str j "bucket_key") ;;
  let bucket_key := resize (b64_decode bk) 32 "000" in
  group_id <- lift (json_str j "group_id") ;;
  ka <- on_database (get_keys_of_group group_id) ;;
  match ka with
  | [] => respond "detail" "empty envelope" ;; ret ASKY_BAD_REQUEST
  | _ =>
      c <- get_state ;;
      match indexed_ (svc c) with
      | None => lift Undefined
      | Some true =>
          nonce <- draw (get_rand 12) ;;
          hashes <- index_keys nonce bucket_key ka [] ;;
          respond "ciphertext" (b64_encode (nonce +:+ concat_pairs hashes)) ;;
          ret ASKY_NOERROR
      | Some false =>
          ctext <- encrypt_keys bucket_key ka "" ;;
          respond "ciphertext" (b64_encode ctext) ;;
          ret ASKY_NOERROR
      end
  end.

(** Four bytes of an [int], least significant first. *)
Definition int_bytes (z : Z) : string :=
  string_of [z mod 256; (z / 256) mod 256; (z / 65536) mod 256; (z / 16777216) mod 256].

Fixpoint native_random (words : nat) : handler string :=
  match words with
  | O => ret ""
  | S n => w <- draw rand ;; rest <- native_random n ;; ret (int_bytes w +:+ rest)
  end.

Definition random_key : handler string :=
  if NATIVE then native_random 8 else draw (sgx_read_rand KEY_SIZE).

Definition service_create_user (j : json) : handler ASKYError :=
  key <- random_key ;;
  user_id <- lift (json_str j "user_id") ;;
  on_database (create_user user_id key) ;;
  respond "user_key" (b64_encode key) ;;
  ret ASKY_NOERROR.

Definition process_put (request : Request) : handler ASKYError :=
  let command := encodedPath request in
  if (command =? "/access/usergroup")%string then
    j <- lift (json_parse (stringBody request)) ;;
    args <- arguments (json_str j "group_name") (json_str j "user_id") ;;
    on_database (add_user_to_group args.1 args.2) ;;
    ret ASKY_NOERROR
  else if (command =? "/access/aclmember")%string then ret ASKY_BAD_REQUEST
  else if (command =? "/access/bucketowner")%string then ret ASKY_BAD_REQUEST
  else ret ASKY_BAD_REQUEST.

Definition process_post (request : Request) : handler ASKYError :=
  j <- lift (json_parse (stringBody request)) ;;
  let command := encodedPath request in
  if (command =? "/access/user")%string then service_create_user j
  else if (command =? "/access/group")%string then
    args <- arguments (json_str j "group_name") (json_str j "user_id") ;;
    on_database (create_group args.1 args.2) ;;
    ret ASKY_NOERROR
  else if (command =? "/verifier/envelope")%string then generate_envelope j
  else if (command =? "/verifier/usergroup")%string then
    args <- arguments (json_str j "user_id") (json_str j "group_name") ;;
    answer <- on_database (is_user_part_of_group args.1 args.2) ;;
    respond "belongs" (if (answer : bool) then "true" else "false") ;;
    ret ASKY_NOERROR
  else ret ASKY_BAD_REQUEST.

Definition process_delete (request : Request) : handler ASKYError :=
  let command := encodedPath request in
  if (command =? "/access/usergroup")%string then
    j <- lift (json_parse (stringBody request)) ;;
    args <- arguments (json_str j "group_name") (json_str j "user_id") ;;
    on_database (remove_user_from_group args.1 args.2) ;;
    ret ASKY_NOERROR
  else if (command =? "/access/user")%string then
    j <- lift (json_parse (stringBody request)) ;;
    user_id <- lift (json_str j "user_id") ;;
    on_database (delete_user (c_str user_id)) ;;
    ret ASKY_NOERROR
  else if (command =? "/access/aclmember")%string then ret ASKY_BAD_REQUEST
  else if (command =? "/access/all")%string then
    on_database delete_all_data ;;
    ret ASKY_NOERROR
  else ret ASKY_BAD_REQUEST.

(** ** Errors and responses *)

Definition mongo_error (code : Z) (message : string) : string :=
  if code =? 11000 then "Attempt to add an existing user"
  else "Code: " +:+ to_string code +:+ "; message: " +:+ message.

Definition err_amcs (e : ASKYError) : string :=
  match e with
  | ASKY_NOERROR => "No error"
  | ASKY_INITIALIZATION_FAIL => "Fail to initialize AnonymBE"
  | ASKY_ERROR_SERVICE => "Could not access Platform Services"
  | ASKY_BAD_REQUEST => "Malformed request. " +:+ "Please, refer to the documentation."
  | ASKY_CREATE_EXISTENT => "Tried to create an existing user"
  | ASKY_NON_EXISTENT => "Tried to get or update a " +:+ "non-existing counter"
  | ASKY_WRAPUP => "Service is being terminated"
  | ASKY_UNKNOWN | ASKY_ALREADYINITIALIZED | ASKY_ROLLBACK_ATTACK =>
      "Unknown error: " +:+ to_string (enum_value e)
  end.

(** [posrep] and [negrep] with a body. *)
Definition std_headers : list (string * string) :=
  [(connection, keepalive); (contenttype, "application/json")].
Definition posrep (body : string) : Response := Built http11 200 "OK" std_headers body.
Definition negrep (body : string) : Response := Built http11 400 "Bad Request" std_headers body.

(** [j[kv.first] = kv.second] for the pairs of the response. *)
Fixpoint set_members (kvs : KVString) (j : json) : outcome exn json :=
  match kvs with
  | [] => Ok j
  | (k, v) :: kvs => obind (json_set j k (jstring v)) (set_members kvs)
  end.

Definition positive_response (resp : KVString) : outcome exn Response :=
  obind (json_set jnull "result" (jstring "ok")) (λ j,
  obind (set_members resp j) (λ j,
  obind (json_dump j 2) (λ body, Ok (posrep body)))).

Definition negative_response (msg extra : string) : outcome exn Response :=
  obind (json_set jnull "result" (jstring "error")) (λ j,
  obind (json_set j "detail" (jstring (if (extra =? "")%string then msg else extra))) (λ j,
  obind (json_dump j 2) (λ body, Ok (negrep body)))).

(** The [catch] clauses, in their order: the error, the extra text and the
    response after an exception.  No error had been assigned yet. *)
Definition catch_exn (e : exn) (resp : KVString) : ASKYError * string * KVString :=
  match e with
  | json_exception out_of_range _ _ => (ASKY_BAD_REQUEST, what e, resp)
  | json_exception parse_error _ _ => (ASKY_BAD_REQUEST, what e, resp)
  | std_invalid_argument _ => (ASKY_BAD_REQUEST, what e, resp)
  | std_logic_error _ => (ASKY_NOERROR, "", map_put "info" (what e) resp)
  | bson_error_t code message =>
      (ASKY_UNKNOWN, if ABEMONGO then mongo_error code message else "", resp)
  | json_exception _ _ _ | std_runtime_error _ => (ASKY_NOERROR, "", resp)
  | thrown_uint32 _ => (ASKY_UNKNOWN, "", resp)
  end.

(** The dispatch on the verb inside the [try] block. *)
Definition process_verb (request : Request) : handler ASKYError :=
  let verb := method request in
  if (verb =? "GET")%string then process_get request
  else if (verb =? "PUT")%string then process_put request
  else if (verb =? "POST")%string then process_post request
  else if (verb =? "DELETE")%string then process_delete request
  else ret ASKY_NOERROR.

(** The text that goes with a bad request. *)
Definition bad_request_text (request : Request) (error : ASKYError) (resp : KVString) : string :=
  match error with
  | ASKY_BAD_REQUEST =>
      match map_find "detail" resp with
      | Some d => d
      | None => "Unknown command '" +:+ encodedPath request +:+ "'"
      end
  | _ => ""
  end.

(** The second [try] block: a response that cannot be serialized is empty. *)
Definition finish_response (error : ASKYError) (extra : string) (resp : KVString)
    : outcome exn Response :=
  let r := match error with
           | ASKY_NOERROR => positive_response resp
           | _ => negative_response (err_amcs error) extra
           end in
  match r with
  | Throw (json_exception _ _ _) => Ok EmptyResponse
  | _ => r
  end.

Definition process_input (request : Request) : M exn AnonymBE Response := λ s,
  if negb (init_ s) && negb MEMDATABASE then (Ok EmptyResponse, s) else
  let s := set_init true s in
  match process_verb request (Ctx s []) with
  | (Ok error, c) =>
      (finish_response error (bad_request_text request error (response c)) (response c), svc c)
  | (Throw e, c) =>
      let '(error, extra, resp) := catch_exn e (response c) in
      (finish_response error extra resp, svc c)
  | (OutOfFuel, c) => (OutOfFuel, svc c)
  | (Undefined, c) => (Undefined, svc c)
  end.

(** [printmsg_onerror] and [sgx_errmsg], with the codes of the SGX SDK; the
    first also prints the message. *)
Definition sgx_errmsg (SGX_ERROR_AE_SESSION_INVALID SGX_ERROR_BUSY v : Z) : string :=
  if NATIVE then ""
  else if v =? SGX_ERROR_AE_SESSION_INVALID then
    "Session is not created or has been closed " +:+ "by architectural enclave service"
  else if v =? SGX_ERROR_BUSY then "Service is busy: try later"
  else "Unknown error code (" +:+ to_string v +:+ ")".

Definition printmsg_onerror (SGX_SUCCESS v : Z) : bool :=
  if NATIVE then v =? 0 else v =? SGX_SUCCESS.

(** [input_file] ends without a value; [finish] does nothing. *)
Definition input_file (data : string) : M exn AnonymBE Z := lift Undefined.
Definition service_finish : M exn AnonymBE unit := ret tt.

(** [init]: the connection string and the [indexed] flag of the arguments;
    the result is the return value. *)
Definition service_init (mongo : string) (indexed : Z) : M exn AnonymBE Z := λ s,
  match Database.init mongo (database_ s) with
  | (Ok _, d) => (Ok 0, set_init true (set_indexed (negb (indexed =? 0)) (set_database d s)))
  | (Throw (bson_error_t code message), d) =>
      if ABEMONGO then (Ok (-1), set_database d s)
      else (Throw (bson_error_t code message), set_database d s)
  | (Throw (thrown_uint32 _), d) => (Ok (-1), set_database d s)
  | (Throw e, d) => (Throw e, set_database d s)
  | (OutOfFuel, d) => (OutOfFuel, set_database d s)
  | (Undefined, d) => (Undefined, set_database d s)
  end.

End service.

Arguments AnonymBE R DB : clear implicits.
Arguments context R DB : clear implicits.
