(* ===== verification/AnonymBESpec.v ===== *)
(** * What the key manager promises

    The abstract service: [route] reads a request as a command, [serve]
    executes it on the abstract store of [Database].  Against any database
    that meets its contract, [process_input] answers every request, with the
    status of [serve] and in a state that represents the new store. *)

From stdpp Require Import base gmap strings list.
From Stdlib Require Import ZArith Ascii Lia.
From S2P Require Import Prelude Cxx StdMap Database JsonValue Utf8 JsonDump JsonRender JsonSax JsonParser JsonParserSpec JsonReads JsonRoundtrip AnonymBE.

(** ** The abstract service *)

Inductive command : Type :=
| Ping
| CreateUser (u : string)
| DeleteUser (u : string)
| CreateGroup (g u : string)
| AddMember (g u : string)
| RemoveMember (g u : string)
| QueryMember (u g : string)
| MakeEnvelope (bucket_key g : string)
| DeleteAll
| BadCommand
| UnknownVerb.

(** How a request ends: carried out, redundant (a warning), refused, or
    silently dropped. *)
Inductive status : Type := Served | Warned | Rejected | Dropped.

#[global] Instance status_eq_dec : EqDecision status.
Proof. solve_decision. Defined.

Definition verdict_status {A} (v : verdict A) : status :=
  match v with Done _ => Served | Refused => Rejected | Already => Warned end.

(** A database operation as a step of the service. *)
Definition st_run {A} (op : store → verdict A * store) (st : store) : status * store :=
  (verdict_status (op st).1, (op st).2).

Definition st_exec (key : string) (cmd : command) (st : store) : status * store :=
  match cmd with
  | Ping => (Served, st)
  | CreateUser u => st_run (st_create_user u key) st
  | DeleteUser u => st_run (st_delete_user u) st
  | CreateGroup g u => st_run (st_create_group g u) st
  | AddMember g u => st_run (st_add g u) st
  | RemoveMember g u => st_run (st_remove g u) st
  | QueryMember u g => st_run (st_member u g) st
  | MakeEnvelope _ g =>
      match st_groups st !! g with
      | Some X => if decide (X = ∅) then (Rejected, st) else (Served, st)
      | None => (Rejected, st)
      end
  | DeleteAll => st_run st_delete_all st
  | BadCommand => (Rejected, st)
  | UnknownVerb => (Served, st)
  end.

(** What an exception raised while a request is read does to its status. *)
Definition exn_status (e : exn) : status :=
  match e with
  | json_exception out_of_range _ _ | json_exception parse_error _ _
  | std_invalid_argument _ => Rejected
  | std_logic_error _ => Warned
  | json_exception _ _ _ | std_runtime_error _ => Dropped
  | bson_error_t _ _ | thrown_uint32 _ => Rejected
  end.

Section route.
Context `{Build}.

(** Two fields of the body, in the order of the call. *)
Definition fields (j : json) (a b : string) : outcome exn (string * string) :=
  if arguments_right_to_left
  then obind (json_str j b) (λ y, obind (json_str j a) (λ x, Ok (x, y)))
  else obind (json_str j a) (λ x, obind (json_str j b) (λ y, Ok (x, y))).

Definition route_get (path : string) : command :=
  if (path =? "/ping")%string then Ping else BadCommand.

Definition route_put (path : string) (body : string) : outcome exn command :=
  if (path =? "/access/usergroup")%string then
    obind (json_parse body) (λ j,
    obind (fields j "group_name" "user_id") (λ f, Ok (AddMember f.1 f.2)))
  else Ok BadCommand.

Definition route_post (path : string) (body : string) : outcome exn command :=
  obind (json_parse body) (λ j,
  if (path =? "/access/user")%string then
    obind (json_str j "user_id") (λ u, Ok (CreateUser u))
  else if (path =? "/access/group")%string then
    obind (fields j "group_name" "user_id") (λ f, Ok (CreateGroup f.1 f.2))
  else if (path =? "/verifier/envelope")%string then
    obind (json_str j "bucket_key") (λ k,
    obind (json_str j "group_id") (λ g, Ok (MakeEnvelope k g)))
  else if (path =? "/verifier/usergroup")%string then
    obind (fields j "user_id" "group_name") (λ f, Ok (QueryMember f.1 f.2))
  else Ok BadCommand).

Definition route_delete (path : string) (body : string) : outcome exn command :=
  if (path =? "/access/usergroup")%string then
    obind (json_parse body) (λ j,
    obind (fields j "group_name" "user_id") (λ f, Ok (RemoveMember f.1 f.2)))
  else if (path =? "/access/user")%string then
    obind (json_parse body) (λ j,
    obind (json_str j "user_id") (λ u, Ok (DeleteUser (c_str u))))
  else if (path =? "/access/all")%string then Ok DeleteAll
  else Ok BadCommand.

Definition route (req : Request) : outcome exn command :=
  if (method req =? "GET")%string then Ok (route_get (encodedPath req))
  else if (method req =? "PUT")%string then route_put (encodedPath req) (stringBody req)
  else if (method req =? "POST")%string then route_post (encodedPath req) (stringBody req)
  else if (method req =? "DELETE")%string then route_delete (encodedPath req) (stringBody req)
  else Ok UnknownVerb.

Definition serve_as (routed : outcome exn command) (key : string) (st : store)
    : status * store :=
  match routed with
  | Ok cmd => st_exec key cmd st
  | Throw e => (exn_status e, st)
  | _ => (Dropped, st)
  end.

Definition serve (req : Request) : string → store → status * store := serve_as (route req).
End route.

(** *** Facts about the abstract service *)

(** Every command keeps members registered. *)
Lemma st_exec_inv key cmd st : store_inv st → store_inv (st_exec key cmd st).2.
Proof.
  intros Hinv. destruct cmd; simpl; unfold st_member; eauto with cxx.
  { by apply (st_delete_user_inv u). }
  all: by repeat (case_match || case_decide).
Qed.

(** Only a command that is carried out changes the store. *)
Lemma st_exec_unchanged key cmd st :
  (st_exec key cmd st).1 ≠ Served → (st_exec key cmd st).2 = st.
Proof.
  destruct cmd; simpl; try done.
  - unfold st_create_user. by case_match.
  - intros Hs. apply st_create_group_unchanged. intros E. by rewrite E in Hs.
  - intros Hs. apply st_add_unchanged. intros E. by rewrite E in Hs.
  - intros Hs. apply st_remove_unchanged. intros E. by rewrite E in Hs.
  - unfold st_member. by case_match.
  - by repeat (case_match || case_decide).
Qed.

Lemma serve_inv `{Build} req key st : store_inv st → store_inv (serve req key st).2.
Proof. intros. unfold serve, serve_as. case_match; simpl; auto using st_exec_inv. Qed.

Lemma serve_unchanged `{Build} req key st :
  (serve req key st).1 ≠ Served → (serve req key st).2 = st.
Proof. unfold serve, serve_as. case_match; simpl; auto using st_exec_unchanged. Qed.

(** ** Envelopes as pure functions of the keys and the random source *)

Section envelopes.
Context {R : Type} `{Crypto R}.

(** The ciphertext of the bucket key under each user key. *)
Fixpoint seal (bucket_key : string) (keys : KeyArray) (r : R) : list string * R :=
  match keys with
  | [] => ([], r)
  | key :: keys =>
      let '(ct, r) := encrypt_aesgcm key bucket_key r in
      let '(cts, r) := seal bucket_key keys r in (ct :: cts, r)
  end.

Definition linear_envelope (bucket_key : string) (keys : KeyArray) (r : R) : string * R :=
  let '(cts, r) := seal bucket_key keys r in (foldr String.append "" cts, r).

(** The index: hash of nonce and key, with the ciphertext under that key. *)
Definition key_index (nonce : string) (keys : KeyArray) (cts : list string) : KVString :=
  foldl (λ m kc, map_put (sha224 (nonce +:+ kc.1)) kc.2 m) [] (zip keys cts).

Definition indexed_envelope (bucket_key : string) (keys : KeyArray) (r : R) : string * R :=
  let '(nonce, r) := get_rand 12 r in
  let '(cts, r) := seal bucket_key keys r in
  (nonce +:+ concat_pairs (key_index nonce keys cts), r).

Definition envelope (indexed : bool) (bucket_key : string) (keys : KeyArray) (r : R) : string * R :=
  if indexed then indexed_envelope bucket_key keys r else linear_envelope bucket_key keys r.

Lemma length_seal bk keys r : length (seal bk keys r).1 = length keys.
Proof.
  revert r. induction keys as [|k keys IH]; intros r; simpl; [done|].
  destruct (encrypt_aesgcm k bk r) as [ct r1]. specialize (IH r1).
  destruct (seal bk keys r1) as [cts r2]. simpl in *. by rewrite IH.
Qed.
End envelopes.

(** ** The simulation *)

Section service.
Context {R : Type} `{Crypto R} `{HttpStrings} `{Build}.
Context {DB : Type} `{DatabaseSpec DB}.
Implicit Types (c : context R DB) (s : AnonymBE R DB) (st : store).

Definition with_db (d : DB) c : context R DB := Ctx (set_database d (svc c)) (response c).
Definition with_rng (r : R) c : context R DB := Ctx (set_rng r (svc c)) (response c).

(** The key [create_user] draws. *)
Definition fresh_key s : string :=
  match random_key (Ctx s []) with
  | (Ok k, _) => k
  | _ => ""
  end.

(** The bucket key as the service pads or truncates it. *)
Definition bucket (bk : string) : string := resize (b64_decode bk) 32 "000".

(** The members of a positive response. *)
Definition reply_spec s st (cmd : command) (resp : KVString) : Prop :=
  match cmd with
  | CreateUser _ => resp = [("user_key", b64_encode (fresh_key s))]
  | QueryMember u g => ∃ X, st_groups st !! g = Some X ∧
      resp = [("belongs", if bool_decide (u ∈ X) then "true" else "false")]
  | MakeEnvelope bk g => ∃ X keys b, st_groups st !! g = Some X ∧ keys_of st X keys ∧
      indexed_ s = Some b ∧
      resp = [("ciphertext", b64_encode (envelope b (bucket bk) keys (rng s)).1)]
  | _ => resp = []
  end.

(** Members of the service that requests leave alone. *)
Definition same_config s s' : Prop :=
  init_ s' = init_ s ∧ indexed_ s' = indexed_ s ∧ die_ s' = die_ s ∧ error_ s' = error_ s.

(** An operation of the database under [wp]. *)
Lemma wp_on_database {A} (op : M exn DB A) spec c st Q X :
  simulates represents op spec → represents (database_ (svc c)) st →
  (∀ a d, (spec st).1 = Done a → represents d (spec st).2 → Q a (with_db d c)) →
  (∀ e d, verdict_status (spec st).1 ≠ Served → verdict_status (spec st).1 = exn_status e →
     represents d (spec st).2 → X e (with_db d c)) →
  wp (on_database op) c Q X.
Proof.
  intros Hsim Hrep HQ HX. unfold on_database. wp_step. destruct (Hsim _ _ Hrep) as [Hm Hr].
  unfold wp. destruct (op (database_ (svc c))) as [o' d]. simpl in *.
  destruct (spec st).1 as [a| |] eqn:E; simpl in Hm.
  - subst. by apply HQ.
  - destruct Hm as [msg ->]. by apply HX.
  - destruct Hm as [msg ->]. by apply HX.
Qed.

Lemma wp_lift {S A} (o : outcome exn A) (x : S) Q X :
  (∀ a, o = Ok a → Q a x) → (∀ e, o = Throw e → X e x) →
  o ≠ OutOfFuel → o ≠ Undefined → wp (lift o) x Q X.
Proof. unfold wp, lift. destruct o; naive_solver. Qed.

Lemma json_parse_defined b : json_parse b ≠ OutOfFuel ∧ json_parse b ≠ Undefined.
Proof. destruct (json_parse_cases b) as [(v & -> & _)|(e & -> & _)]; done. Qed.

Lemma json_str_defined v f : json_str v f ≠ OutOfFuel ∧ json_str v f ≠ Undefined.
Proof. destruct (json_str_cases v f) as [(? & ? & _ & _ & ->)|(? & -> & _)]; done. Qed.

Lemma wp_arguments j a b c (Q : string * string → context R DB → Prop) X :
  (∀ x, fields j a b = Ok x → Q x c) → (∀ e, fields j a b = Throw e → X e c) →
  wp (arguments (json_str j a) (json_str j b)) c Q X.
Proof.
  unfold fields, arguments. intros HQ HX.
  pose proof (json_str_defined j a) as [Ha1 Ha2]. pose proof (json_str_defined j b) as [Hb1 Hb2].
  unfold wp, bind, lift, ret.
  destruct arguments_right_to_left, (json_str j a), (json_str j b); simpl in *; auto.
Qed.

(** What a handler has done when it returns, for the command it was given. *)
Definition done_post routed s st (err : ASKYError) c : Prop :=
  represents (database_ (svc c)) (serve_as routed (fresh_key s) st).2
  ∧ same_config s (svc c)
  ∧ match (serve_as routed (fresh_key s) st).1 with
    | Served => err = ASKY_NOERROR ∧ ∃ cmd, routed = Ok cmd ∧ reply_spec s st cmd (response c)
    | Rejected => err = ASKY_BAD_REQUEST ∧ response c = [] ∧ routed = Ok BadCommand
    | _ => False
    end.

(** The exception comes from reading the request or from the database. *)
Definition raised (routed : outcome exn command) (e : exn) : Prop :=
  match routed with
  | Throw e' => e' = e
  | Ok cmd => cmd ≠ BadCommand
  | _ => True
  end.

(** What it has done when it throws. *)
Definition exn_post routed s st (e : exn) c : Prop :=
  represents (database_ (svc c)) (serve_as routed (fresh_key s) st).2
  ∧ same_config s (svc c) ∧ response c = []
  ∧ (serve_as routed (fresh_key s) st).1 = exn_status e ∧ exn_status e ≠ Served
  ∧ raised routed e.

Abbreviation run_post routed s st m :=
  (wp m (Ctx s []) (done_post routed s st) (exn_post routed s st)).

Section handlers.
Context (s : AnonymBE R DB) (st : store) (Hrep : represents (database_ s) st).

Lemma same_config_refl : same_config s s.
Proof. by split_and!. Qed.

Lemma bad_command : run_post (Ok BadCommand) s st (ret ASKY_BAD_REQUEST).
Proof. wp_step. split_and!; [done|done..]. Qed.

Lemma exn_read e : exn_status e ≠ Served → exn_post (Throw e) s st e (Ctx s []).
Proof. intros. by split_and!. Qed.

(** Reading the body and its fields raises exceptions of the library only. *)
Lemma parse_exn_status b e : json_parse b = Throw e → exn_status e ≠ Served.
Proof.
  destruct (json_parse_cases b) as [(v & -> & _)|(e' & -> & He)]; [done|].
  intros [= <-]. destruct He as (k & id & msg & -> & [-> | ->]); done.
Qed.

Lemma str_exn_status v f e : json_str v f = Throw e → exn_status e ≠ Served.
Proof.
  destruct (json_str_cases v f) as [(? & ? & _ & _ & ->)|(e' & -> & k & id & msg & -> & Hk)];
    [done|]. intros [= <-]. by destruct Hk as [-> | ->].
Qed.

Lemma fields_exn_status v f g e : fields v f g = Throw e → exn_status e ≠ Served.
Proof.
  unfold fields. pose proof (str_exn_status v f). pose proof (str_exn_status v g).
  destruct arguments_right_to_left, (json_str v f), (json_str v g); simpl; naive_solver.
Qed.

(** A handler that parses the body first. *)
Lemma wp_body b (k : json → handler ASKYError) (f : json → outcome exn command) :
  (∀ j, parsed j → run_post (f j) s st (k j)) →
  run_post (obind (json_parse b) f) s st (bind (lift (json_parse b)) k).
Proof.
  intros Hk. wp_step. pose proof (parse_exn_status b) as Hx.
  destruct (json_parse_cases b) as [(j & Hj & Hok)|(e & He & _)].
  - rewrite Hj. simpl. by apply Hk.
  - rewrite He in *. simpl. apply exn_read. by apply Hx.
Qed.

Lemma wp_fields j a b (k : string * string → handler ASKYError) (f : string * string → command) :
  (∀ x, run_post (Ok (f x)) s st (k x)) →
  run_post (obind (fields j a b) (λ x, Ok (f x))) s st
    (bind (arguments (json_str j a) (json_str j b)) k).
Proof.
  intros Hk. wp_step. apply wp_arguments.
  - intros x ->. simpl. apply Hk.
  - intros e He. pose proof (fields_exn_status _ _ _ _ He) as Hx. rewrite He. simpl.
    by apply exn_read.
Qed.

(** A handler that performs one operation of the database and returns. *)
Lemma wp_operation {A} (op : M exn DB A) spec cmd (k : A → handler ASKYError) :
  cmd ≠ BadCommand →
  simulates represents op spec →
  (∀ key, st_exec key cmd st = st_run spec st) →
  (∀ a d, (spec st).1 = Done a → represents d (spec st).2 →
     wp (k a) (with_db d (Ctx s [])) (done_post (Ok cmd) s st) (exn_post (Ok cmd) s st)) →
  run_post (Ok cmd) s st (bind (on_database op) k).
Proof.
  intros Hbad Hsim Hcmd Hk. wp_step. eapply wp_on_database; [done|done|done|].
  intros e d Hne Hst Hd. unfold exn_post, serve_as. rewrite Hcmd. simpl.
  split_and!; try done. by rewrite <-Hst.
Qed.

Lemma wp_simple_operation {A} (op : M exn DB A) spec cmd :
  cmd ≠ BadCommand →
  simulates represents op spec →
  (∀ key, st_exec key cmd st = st_run spec st) →
  (∀ resp, reply_spec s st cmd resp ↔ resp = []) →
  run_post (Ok cmd) s st (bind (on_database op) (λ _, ret ASKY_NOERROR)).
Proof.
  intros Hbad Hsim Hcmd Hresp. eapply wp_operation; [done|done|done|].
  intros a d Ha Hd. wp_step. unfold done_post, serve_as. rewrite Hcmd. simpl. rewrite Ha. simpl.
  split_and!; try done. exists cmd. split; [done|]. by apply Hresp.
Qed.

(** *** The handlers *)

Lemma wp_process_get req : run_post (Ok (route_get (encodedPath req))) s st (process_get req).
Proof.
  unfold process_get, route_get.
  destruct (encodedPath req =? "/access/rights")%string eqn:E1.
  { apply String.eqb_eq in E1. rewrite E1. apply bad_command. }
  destruct (encodedPath req =? "/verifier/certify")%string eqn:E2.
  { apply String.eqb_eq in E2. rewrite E2. apply bad_command. }
  case_match; [|apply bad_command]. wp_step.
  split_and!; try done. split; [done|]. by exists Ping.
Qed.

Lemma wp_process_put req :
  run_post (route_put (encodedPath req) (stringBody req)) s st (process_put req).
Proof.
  unfold process_put, route_put. case_match.
  - apply wp_body. intros j _. apply (wp_fields _ _ _ _ (λ x, AddMember x.1 x.2)).
    intros [g u]. by eapply wp_simple_operation; [done|apply sim_add|done|].
  - repeat case_match; apply bad_command.
Qed.

Lemma wp_process_delete req :
  run_post (route_delete (encodedPath req) (stringBody req)) s st (process_delete req).
Proof.
  unfold process_delete, route_delete. case_match; [|case_match].
  - apply wp_body. intros j _. apply (wp_fields _ _ _ _ (λ x, RemoveMember x.1 x.2)).
    intros [g u]. by eapply wp_simple_operation; [done|apply sim_remove|done|].
  - apply wp_body. intros j _. wp_step. apply wp_lift; [| |apply json_str_defined..].
    + intros u ->. by eapply wp_simple_operation; [done|apply sim_delete_user|done|].
    + intros e He. rewrite He. apply exn_read. by eapply str_exn_status.
  - destruct (encodedPath req =? "/access/aclmember")%string eqn:E.
    { apply String.eqb_eq in E. rewrite E. apply bad_command. }
    case_match; [|apply bad_command].
    by eapply wp_simple_operation; [done|apply sim_delete_all|done|].
Qed.

(** Drawing a key uses only the random source. *)
Lemma native_random_run n (c : context R DB) :
  ∃ k r, native_random n c = (Ok k, with_rng r c)
         ∧ ∀ c', rng (svc c') = rng (svc c) → native_random n c' = (Ok k, with_rng r c').
Proof.
  revert c. induction n as [|n IH]; intros c; simpl.
  - exists "", (rng (svc c)). destruct c as [[] resp].
    split; [done|]. intros [[] resp'] E. simpl in E. by subst.
  - unfold bind at 1, draw at 1. destruct (rand (rng (svc c))) as [w r] eqn:E.
    destruct (IH (Ctx (set_rng r (svc c)) (response c))) as (k & r' & Hk & Hf).
    exists (int_bytes w +:+ k), r'. split.
    + unfold bind. rewrite Hk. by destruct c as [[] resp].
    + intros c' Hc. unfold bind, draw. rewrite Hc, E, Hf by done. by destruct c' as [[] resp'].
Qed.

Lemma random_key_run :
  ∃ r, random_key (Ctx s []) = (Ok (fresh_key s), with_rng r (Ctx s [])).
Proof.
  unfold fresh_key, random_key. destruct NATIVE.
  - destruct (native_random_run 8 (Ctx s [])) as (k & r & Hk & _). exists r. by rewrite Hk.
  - unfold draw. simpl. destruct (sgx_read_rand KEY_SIZE (rng s)) as [k r]. by exists r.
Qed.

Lemma wp_create_user j :
  run_post (obind (json_str j "user_id") (λ u, Ok (CreateUser u))) s st (service_create_user j).
Proof.
  unfold service_create_user. wp_step. destruct random_key_run as [r Hr].
  eapply wp_run; [exact Hr|]. wp_step.
  apply wp_lift; [| |apply json_str_defined..].
  - intros u ->. cbn [obind]. wp_step. eapply wp_on_database; [apply sim_create_user|done| |].
    + intros [] d Hd Hrep'. wp_step. unfold respond. do 2 wp_step. unfold done_post. simpl.
      rewrite Hd. simpl. split_and!; try done. by exists (CreateUser u).
    + intros e d Hne Hst Hd. unfold exn_post. simpl. rewrite Hst in *.
      by split_and!.
  - intros e He. rewrite He. simpl. apply str_exn_status in He. by split_and!.
Qed.

(** *** Envelopes *)

Lemma encrypt_keys_run bk keys acc (c : context R DB) :
  encrypt_keys bk keys acc c
  = (Ok (acc +:+ foldr String.append "" (seal bk keys (rng (svc c))).1),
     with_rng (seal bk keys (rng (svc c))).2 c).
Proof.
  revert acc c. induction keys as [|k keys IH]; intros acc [[i0 x0 d0 e0 db0 rng0] resp]; simpl.
  - by rewrite append_nil_r.
  - unfold bind, draw. simpl. destruct (encrypt_aesgcm k bk rng0) as [ct r1] eqn:E.
    rewrite IH. simpl. destruct (seal bk keys r1) as [cts r2]. simpl.
    by rewrite append_assoc.
Qed.

Lemma index_keys_run nonce bk keys m (c : context R DB) :
  index_keys nonce bk keys m c
  = (Ok (foldl (λ m kc, map_put (sha224 (nonce +:+ kc.1)) kc.2 m) m
           (zip keys (seal bk keys (rng (svc c))).1)),
     with_rng (seal bk keys (rng (svc c))).2 c).
Proof.
  revert m c. induction keys as [|k keys IH]; intros m [[i0 x0 d0 e0 db0 rng0] resp]; simpl; [done|].
  unfold bind, draw. simpl. destruct (encrypt_aesgcm k bk rng0) as [ct r1] eqn:E.
  rewrite IH. simpl. by destruct (seal bk keys r1) as [cts r2].
Qed.

(** The two branches of [generate_envelope] once the keys are known. *)
Definition seal_branch (b : bool) (bk : string) (keys : KeyArray)
    : M exn (context R DB) ASKYError :=
  if b then
    nonce <- draw (get_rand 12) ;;
    hashes <- index_keys nonce bk keys [] ;;
    respond "ciphertext" (b64_encode (nonce +:+ concat_pairs hashes)) ;;
    ret ASKY_NOERROR
  else
    ctext <- encrypt_keys bk keys "" ;;
    respond "ciphertext" (b64_encode ctext) ;;
    ret ASKY_NOERROR.

Lemma seal_branch_run b bk keys (c : context R DB) :
  response c = [] →
  ∃ r, seal_branch b bk keys c
       = (Ok ASKY_NOERROR, Ctx (set_rng r (svc c))
            [("ciphertext", b64_encode (envelope b bk keys (rng (svc c))).1)]).
Proof.
  destruct c as [[i0 x0 d0 e0 db0 rng0] resp]. simpl. intros ->. destruct b; simpl.
  - unfold bind at 1, draw, indexed_envelope. simpl.
    destruct (get_rand 12 rng0) as [nonce r1]. unfold bind at 1.
    rewrite index_keys_run. simpl. unfold key_index.
    destruct (seal bk keys r1) as [cts r2]. simpl. eauto.
  - unfold bind at 1, linear_envelope. rewrite encrypt_keys_run. simpl.
    destruct (seal bk keys rng0) as [cts r2]. simpl. eauto.
Qed.

Lemma wp_generate_envelope j :
  indexed_ s ≠ None →
  run_post (obind (json_str j "bucket_key") (λ k,
            obind (json_str j "group_id") (λ g, Ok (MakeEnvelope k g)))) s st
    (generate_envelope j).
Proof.
  intros Hidx. unfold generate_envelope. wp_step.
  apply wp_lift; [| |apply json_str_defined..].
  2: { intros e He. rewrite He. simpl. apply exn_read. by eapply str_exn_status. }
  intros bk ->. cbn [obind]. wp_step. apply wp_lift; [| |apply json_str_defined..].
  2: { intros e He. rewrite He. simpl. apply exn_read. by eapply str_exn_status. }
  intros g ->. cbn [obind]. fold (bucket bk). wp_step. unfold on_database. wp_step.
  destruct (get_keys_ok g _ _ Hrep) as [Hd Hk]. unfold wp. simpl.
  destruct (get_keys_of_group g (database_ s)) as [o d]. simpl in Hd, Hk. subst d.
  assert (Hs : Ctx (set_database (database_ s) s) ([] : KVString) = Ctx s []) by (by destruct s).
  rewrite Hs. clear Hs.
  destruct (st_groups st !! g) as [X|] eqn:Eg; [case_decide as EX|].
  1,3: destruct Hk as [msg ->]; unfold exn_post; simpl; rewrite Eg, ?decide_True by done;
       by split_and!.
  destruct Hk as (keys & -> & Hkeys). pose proof (keys_of_nonempty _ _ _ EX Hkeys) as Hne.
  destruct keys as [|k0 keys]; [done|]. unfold bind at 1. simpl.
  destruct (indexed_ s) as [b|] eqn:Eb; [|done].
  destruct (seal_branch_run b (bucket bk) (k0 :: keys) (Ctx s []) ltac:(done)) as [r Hr].
  unfold seal_branch in Hr. simpl in Hr.
  assert (Hp : done_post (Ok (MakeEnvelope bk g)) s st ASKY_NOERROR
    (Ctx (set_rng r s) [("ciphertext", b64_encode (envelope b (bucket bk) (k0 :: keys) (rng s)).1)])).
  { unfold done_post. simpl. rewrite Eg, decide_False by done. split_and!; try done.
    split; [done|]. exists (MakeEnvelope bk g). split; [done|]. exists X, (k0 :: keys), b. by rewrite Eb. }
  destruct b; by rewrite Hr.
Qed.

Lemma wp_query_member u g :
  run_post (Ok (QueryMember u g)) s st
    (answer <- on_database (is_user_part_of_group u g) ;;
     respond "belongs" (if (answer : bool) then "true" else "false") ;;
     ret ASKY_NOERROR).
Proof.
  eapply wp_operation; [done|apply sim_member|done|]. intros b d Hb Hd. wp_step.
  unfold respond. do 2 wp_step. unfold done_post. simpl. rewrite Hb. simpl.
  split_and!; try done. exists (QueryMember u g). split; [done|].
  unfold st_member in Hb. simpl. destruct (st_groups st !! g) as [X|]; [|done].
  simpl in Hb. simplify_eq. eauto.
Qed.

Lemma wp_process_post req :
  indexed_ s ≠ None →
  run_post (route_post (encodedPath req) (stringBody req)) s st (process_post req).
Proof.
  intros Hidx. unfold process_post, route_post. apply wp_body. intros j _.
  case_match; [apply wp_create_user|].
  case_match.
  { apply (wp_fields _ _ _ _ (λ x, CreateGroup x.1 x.2)). intros [g u].
    by eapply wp_simple_operation; [done|apply sim_create_group|done|]. }
  case_match; [by apply wp_generate_envelope|].
  case_match; [|apply bad_command].
  apply (wp_fields _ _ _ _ (λ x, QueryMember x.1 x.2)). intros [u g]. apply wp_query_member.
Qed.

Lemma wp_process_verb req :
  indexed_ s ≠ None → run_post (route req) s st (process_verb req).
Proof.
  intros Hidx. unfold process_verb, route. case_match; [apply wp_process_get|].
  case_match; [apply wp_process_put|]. case_match; [by apply wp_process_post|].
  case_match; [apply wp_process_delete|].
  wp_step. split_and!; try done. split; [done|]. by exists UnknownVerb.
Qed.

End handlers.

(** ** Responses *)

(** The object a positive response serializes. *)
Definition ok_json (resp : KVString) : json :=
  jobject (foldl (λ m kv, map_put kv.1 (jstring kv.2) m) [("result", jstring "ok")] resp).
Definition error_json (text : string) : json :=
  jobject [("detail", jstring text); ("result", jstring "error")].

Lemma set_members_run (resp : KVString) m :
  set_members resp (jobject m)
  = Ok (jobject (foldl (λ m kv, map_put kv.1 (jstring kv.2) m) m resp)).
Proof. revert m. induction resp as [|[k v] resp IH]; intros m; simpl; [done|]. apply IH. Qed.

(** Serializing an answer: the text, or an exception when a string is not
    well-formed. *)
Lemma dump_answer v :
  numbers_ok v = true →
  if strings_ok v then json_dump v 2 = Ok (render v true 2 0)
  else ∃ msg, json_dump v 2 = Throw (json_exception type_error 316 msg).
Proof. intros Hn. apply json_dump_render; [lia|done]. Qed.

Lemma numbers_ok_ok_json resp : numbers_ok (ok_json resp) = true.
Proof.
  unfold ok_json. cbn [numbers_ok]. assert (Hall : ∀ m : list (string * json),
    forallb (λ kv, numbers_ok kv.2) m = true → ∀ k v,
    forallb (λ kv, numbers_ok kv.2) (map_put k (jstring v) m) = true).
  { induction m as [|[k' v'] m IH]; intros Hm k v; simpl in *; [done|].
    apply andb_true_iff in Hm as [H1' H2'].
    destruct (String.compare k k'); simpl; rewrite ?H1', ?H2'; simpl; auto. }
  assert (Hgen : ∀ m, forallb (λ kv, numbers_ok kv.2) m = true →
    forallb (λ kv, numbers_ok kv.2)
      (foldl (λ m kv, map_put kv.1 (jstring kv.2) m) m resp) = true); [|by apply Hgen].
  induction resp as [|[k v] resp IH]; intros m Hm; simpl; auto.
Qed.

Lemma strings_ok_error_json t : strings_ok (error_json t) = utf8_string t.
Proof.
  unfold error_json. cbn [strings_ok forallb fst snd].
  change (utf8_string "detail") with true. change (utf8_string "result") with true.
  change (utf8_string "error") with true. by destruct (utf8_string t).
Qed.

(** *** Reading an answer *)

(** The members of an answer are strings, in order. *)
Definition all_strings (m : std_map json) : Prop :=
  map_wf m ∧ Forall (λ kv, ∃ t, kv.2 = jstring t) m.

Lemma one_string k t : all_strings [(k, jstring t)].
Proof. split; [apply map_wf_cons; split; [constructor|apply map_wf_nil]|]. repeat constructor. by eexists. Qed.

Lemma all_strings_put k t m : all_strings m → all_strings (map_put k (jstring t) m).
Proof.
  intros [Hwf Hm]. split; [by apply map_put_wf|]. clear Hwf.
  induction Hm as [|[k' v'] m Hv Hm IH]; simpl; [by repeat constructor; eauto|].
  destruct (String.compare k k'); constructor; eauto.
Qed.

Lemma all_strings_canonical m :
  all_strings m → strings_ok (jobject m) = true → canonical (jobject m) = true ∧ json_wf (jobject m).
Proof.
  intros [Hwf Hm] Hs. cbn [strings_ok canonical] in *. split.
  - rewrite forallb_forall in *. intros kv Hin. specialize (Hs kv Hin).
    rewrite Forall_forall in Hm. destruct (Hm kv) as [t Ht]; [by apply list_elem_of_In|].
    by rewrite Ht in *.
  - constructor; [done|]. eapply Forall_impl; [exact Hm|]. intros kv [t ->]. constructor.
Qed.

Lemma ok_json_strings resp m : all_strings m →
  all_strings (foldl (λ m kv, map_put kv.1 (jstring kv.2) m) m resp).
Proof.
  revert m. induction resp as [|[k t] resp IH]; intros m Hm; [done|]. by apply IH, all_strings_put.
Qed.

Lemma ok_json_parses resp :
  strings_ok (ok_json resp) = true → json_parse (render (ok_json resp) true 2 0) = Ok (ok_json resp).
Proof.
  intros Hs. destruct (all_strings_canonical _ (ok_json_strings resp [("result", jstring "ok")]
    (one_string _ _)) Hs) as [Hc Hwf]. by apply json_parse_render.
Qed.

Lemma error_json_parses text :
  utf8_string text = true → json_parse (render (error_json text) true 2 0) = Ok (error_json text).
Proof.
  intros Ht. destruct (all_strings_canonical [("detail", jstring text); ("result", jstring "error")])
    as [Hc Hwf]; [apply (all_strings_put "detail" text [("result", jstring "error")]), one_string
                 |change (strings_ok (error_json text) = true); by rewrite strings_ok_error_json|].
  by apply json_parse_render.
Qed.

(** The answer to a request that raised no error, and to one that did. *)
Definition ok_response (resp : KVString) : Response :=
  if strings_ok (ok_json resp) then posrep (render (ok_json resp) true 2 0)
  else EmptyResponse.
Definition error_response (text : string) : Response :=
  if utf8_string text then negrep (render (error_json text) true 2 0)
  else EmptyResponse.

(** What a client reads: nothing, or an object whose result goes with the
    status. *)
Definition readable (r : Response) : Prop :=
  r = EmptyResponse
  ∨ (∃ resp body, r = posrep body ∧ json_parse body = Ok (ok_json resp))
  ∨ (∃ text body, r = negrep body ∧ json_parse body = Ok (error_json text)).

Lemma ok_response_readable resp : readable (ok_response resp).
Proof.
  unfold ok_response. destruct (strings_ok (ok_json resp)) eqn:E; [right; left|by left].
  eexists _, _. split; [reflexivity|by apply ok_json_parses].
Qed.

Lemma error_response_readable text : readable (error_response text).
Proof.
  unfold error_response. destruct (utf8_string text) eqn:E; [right; right|by left].
  eexists _, _. split; [reflexivity|by apply error_json_parses].
Qed.

Definition error_text (err : ASKYError) (extra : string) : string :=
  if (extra =? "")%string then err_amcs err else extra.

Lemma finish_ok extra resp :
  finish_response ASKY_NOERROR extra resp = Ok (ok_response resp).
Proof.
  unfold finish_response, positive_response, ok_response. cbn [obind json_set map_put].
  rewrite set_members_run. cbn [obind]. fold (ok_json resp).
  pose proof (dump_answer _ (numbers_ok_ok_json resp)) as Hd.
  destruct (strings_ok (ok_json resp)); [by rewrite Hd|]. by destruct Hd as [msg ->].
Qed.

Lemma finish_error err extra resp :
  err ≠ ASKY_NOERROR →
  finish_response err extra resp
  = Ok (error_response (error_text err extra)).
Proof.
  intros Herr. unfold finish_response.
  assert (Hn : negative_response (err_amcs err) extra =
    obind (json_dump (error_json (error_text err extra)) 2)
      (λ body, Ok (negrep body))) by done.
  rewrite Hn. unfold error_response. set (t := error_text err extra).
  pose proof (dump_answer (error_json t) ltac:(done)) as Hd.
  rewrite strings_ok_error_json in Hd.
  clearbody t. clear Hn.
  destruct (utf8_string t); [rewrite Hd|destruct Hd as [msg ->]];
    destruct err; (reflexivity || by destruct Herr).
Qed.

(** ** The whole request *)

(** The text that explains why a request was rejected before the database
    was asked. *)
Definition explains (routed : outcome exn command) (path text : string) : Prop :=
  match routed with
  | Ok BadCommand => text = "Unknown command '" +:+ path +:+ "'"
  | Throw e => text = error_text (catch_exn e []).1.1 (catch_exn e []).1.2
  | _ => True
  end.

(** The answer that goes with the status of a request. *)
Definition answer_spec (req : Request) s st (r : Response) : Prop :=
  match (serve req (fresh_key s) st).1 with
  | Served => ∃ cmd resp, route req = Ok cmd ∧ reply_spec s st cmd resp ∧ r = ok_response resp
  | Warned => ∃ msg, r = ok_response [("info", msg)]
  | Dropped => r = ok_response []
  | Rejected => ∃ text, explains (route req) (encodedPath req) text ∧ r = error_response text
  end.

Lemma answer_readable req s st r : answer_spec req s st r → readable r.
Proof.
  unfold answer_spec. destruct (serve req (fresh_key s) st).1.
  - intros (cmd & resp & _ & _ & ->). apply ok_response_readable.
  - intros (msg & ->). apply ok_response_readable.
  - intros (text & _ & ->). apply error_response_readable.
  - intros ->. apply ok_response_readable.
Qed.

Lemma process_input_answers req s st :
  represents (database_ s) st → indexed_ s ≠ None → init_ s = true →
  ∃ r s', process_input req s = (Ok r, s')
    ∧ represents (database_ s') (serve req (fresh_key s) st).2
    ∧ same_config s s' ∧ answer_spec req s st r.
Proof.
  intros Hrep Hidx Hinit. unfold process_input. rewrite Hinit. cbn [negb andb].
  assert (set_init true s = s) as -> by (destruct s; simpl in *; by subst).
  unfold answer_spec, serve.
  destruct (wp_inv _ _ _ _ (wp_process_verb s st Hrep req Hidx))
    as [(err & c & -> & Hr & Hc & Hs)|(e & c & -> & Hr & Hc & Hresp & Hs & Hne & Hraised)].
  - destruct (serve_as (route req) (fresh_key s) st).1; try done.
    + destruct Hs as (-> & cmd & Hcmd & Hreply). rewrite finish_ok.
      eexists _, _. split; [done|]. eauto 10.
    + destruct Hs as (-> & Hresp & Hbad). rewrite finish_error by done.
      eexists _, _. split; [done|]. split_and!; [done|done|]. eexists.
      split; [|done]. by rewrite Hbad, Hresp.
  - rewrite Hresp. destruct (catch_exn e []) as [[err extra] resp] eqn:Ecatch.
    rewrite Hs.
    assert (Hexp : explains (route req) (encodedPath req) (error_text err extra)).
    { unfold explains, raised in *. destruct (route req) as [[]| | |]; try done.
      subst. by rewrite Ecatch. }
    unfold catch_exn in Ecatch. destruct e; repeat case_match; simplify_eq; simpl;
      rewrite ?finish_ok, ?finish_error by done; eexists _, _; (split; [done|]); eauto.
Qed.
End service.
