(* ===== verification/Demo.v ===== *)
(** * Concrete parameters

    Small executable stand-ins for the libraries the service is parametric in,
    used to evaluate the service on concrete requests: a counter as the random
    source, hexadecimal as the text encoding, a tagged copy as the cipher. *)

From stdpp Require Import base gmap strings list.
From Stdlib Require Import ZArith Ascii Lia.
From S2P Require Import Prelude Cxx StdMap Database MemDatabase JsonValue JsonDump AnonymBE.

Definition hex_encode_char (c : ascii) : string :=
  String (hex_digit false (byte_of c / 16)) (String (hex_digit false (byte_of c mod 16)) "").

Fixpoint hex_encode (s : string) : string :=
  match s with
  | EmptyString => ""
  | String c s => hex_encode_char c +:+ hex_encode s
  end.

Definition unhex (c : ascii) : Z :=
  let b := byte_of c in if b <? 58 then b - 48 else b - 87.

Fixpoint hex_decode (s : string) : string :=
  match s with
  | String a (String b s) => String (char_of (16 * unhex a + unhex b)) (hex_decode s)
  | _ => ""
  end.

Definition demo_bytes (n : nat) (r : Z) : string * Z := (str_repeat n (char_of r), r + 1).

(** The tag of a ciphertext is the start of the key. *)
Definition demo_encrypt (key text : string) (r : Z) : string * Z :=
  (resize key 28 "000" +:+ text, r + 1).
Definition demo_decrypt (key text : string) : option string :=
  if decide (str_take 28 text = resize key 28 "000") then Some (str_drop 28 text) else None.

#[global] Instance demo_crypto : Crypto Z := {
  b64_encode := hex_encode;
  b64_decode := hex_decode;
  sha224 s := resize (str_drop 12 s) 28 "000";
  encrypt_aesgcm := demo_encrypt;
  get_rand := demo_bytes;
  sgx_read_rand := demo_bytes;
  rand r := (r, r + 1);
}.

#[global] Instance demo_strings : HttpStrings := {
  http11 := "HTTP/1.1";
  connection := "connection";
  keepalive := "keep-alive";
  contenttype := "content-type";
}.

#[global] Instance demo_build : Build := {
  NATIVE := false;
  MEMDATABASE := true;
  ABEMONGO := false;
  arguments_right_to_left := true;
}.

Definition demo_service : AnonymBE Z MemDatabase :=
  (service_init "" 1 (AnonymBE_new mem_empty 7)).2.

Definition post (path body : string) : Request := Req "POST" path (quoted body).
Definition put_request (path body : string) : Request := Req "PUT" path (quoted body).
Definition delete_request (path body : string) : Request := Req "DELETE" path (quoted body).

(** The service after a sequence of requests. *)
Fixpoint after (reqs : list Request) (s : AnonymBE Z MemDatabase) : AnonymBE Z MemDatabase :=
  match reqs with
  | [] => s
  | r :: reqs => after reqs (process_input r s).2
  end.

Definition code_of (r : outcome exn Response) : option Z :=
  match r with
  | Ok (Built _ code _ _ _) => Some code
  | _ => None
  end.

Example demo_session :
  let s := after [post "/access/user" "{|user_id|: |alice|}";
                  post "/access/user" "{|user_id|: |bob|}";
                  post "/access/group" "{|user_id|: |alice|, |group_name|: |g|}";
                  put_request "/access/usergroup" "{|user_id|: |bob|, |group_name|: |g|}"]
             demo_service in
  map_keys (users_ (database_ s)) = ["alice"; "bob"]
  ∧ (map_keys <$> map_find "g" (groups_ (database_ s))) = Some ["alice"; "bob"].
Proof. vm_compute. done. Qed.

Example demo_errors :
  code_of (process_input (post "/access/user" "{|user_id|: ") demo_service).1 = Some 400
  ∧ code_of (process_input (post "/access/group" "{|user_id|: |x|, |group_name|: |g|}") demo_service).1
    = Some 400
  ∧ code_of (process_input (post "/access/user" "{|user_id|: 5}") demo_service).1 = Some 200.
Proof. vm_compute. done. Qed.
