(* ===== verification/AnonymBECorrect.v ===== *)
(** * Correctness of the key manager

    The properties of [AnonymBE::process_input] as a client of the service
    sees them, for every database that meets the contract, each evaluated on
    the in-memory database. *)

From stdpp Require Import base gmap strings list.
From Stdlib Require Import ZArith Ascii Lia.
From S2P Require Import Prelude Cxx StdMap Database MemDatabase JsonValue Utf8 JsonDump JsonRender JsonSax JsonParser JsonParserSpec JsonReads JsonRoundtrip AnonymBE AnonymBESpec Demo.

Section correct.
Context {R : Type} `{Crypto R} `{HttpStrings} `{Build}.
Context {DB : Type} `{DatabaseSpec DB}.
Implicit Types (s : AnonymBE R DB) (st : store).

(** An initialized service and the store it stands for. *)
Definition serving s st : Prop :=
  represents (database_ s) st ∧ indexed_ s ≠ None ∧ init_ s = true.

Lemma serving_step req s st r s' :
  serving s st → process_input req s = (Ok r, s') →
  serving s' (serve req (fresh_key s) st).2 ∧ answer_spec req s st r ∧ same_config s s'.
Proof.
  intros (Hrep & Hidx & Hinit) Hrun.
  destruct (process_input_answers req s st Hrep Hidx Hinit) as (r' & s1 & Hrun' & Hr & Hc & Ha).
  rewrite Hrun in Hrun'. simplify_eq. split; [|done].
  destruct Hc as (Hi & Hx & _). unfold serving. by rewrite Hx, Hi.
Qed.

Lemma serving_run req s st :
  serving s st → ∃ r s', process_input req s = (Ok r, s').
Proof.
  intros (Hrep & Hidx & Hinit).
  destruct (process_input_answers req s st Hrep Hidx Hinit) as (r' & s1 & Hrun & _). eauto.
Qed.

(** Positive and negative answers differ in their codes. *)
Lemma answer_rejected req s st body :
  answer_spec req s st (negrep body) → (serve req (fresh_key s) st).1 = Rejected.
Proof.
  unfold answer_spec, ok_response. destruct (serve req (fresh_key s) st).1; [..|done|];
    intros Ha; exfalso.
  - destruct Ha as (cmd & resp & _ & _ & Hr). by case_match.
  - destruct Ha as (msg & Hr). by case_match.
  - by case_match.
Qed.

(** C1: Every request to an initialized service is answered: no exception
    escapes, no fuel runs out and nothing is undefined.  The answer is the one
    the abstract service gives, and the database ends up representing the
    abstract store after the request.  A body parses as JSON, to an object
    whose result is "ok" or "error" like the status. *)
Theorem process_input_refines req s st :
  serving s st →
  ∃ r s', process_input req s = (Ok r, s')
    ∧ serving s' (serve req (fresh_key s) st).2
    ∧ answer_spec req s st r ∧ readable r.
Proof.
  intros Hs. destruct (serving_run req s st Hs) as (r & s' & Hrun).
  destruct (serving_step _ _ _ _ _ Hs Hrun) as (? & ? & _). eauto 10 using answer_readable.
Qed.

(** A sequence of requests, one after the other. *)
Fixpoint process_all (reqs : list Request) : M exn (AnonymBE R DB) (list Response) :=
  match reqs with
  | [] => ret []
  | req :: reqs => r <- process_input req ;; rs <- process_all reqs ;; ret (r :: rs)
  end.

(** The stores a sequence of requests goes through, with the keys it draws. *)
Inductive served_trace : list Request → store → store → Prop :=
| served_nil st : served_trace [] st st
| served_cons req reqs key st st' :
    served_trace reqs (serve req key st).2 st' → served_trace (req :: reqs) st st'.

Lemma served_trace_inv reqs st st' : served_trace reqs st st' → store_inv st → store_inv st'.
Proof. induction 1; auto using serve_inv. Qed.

Lemma process_all_run reqs s st :
  serving s st →
  ∃ rs s' st', process_all reqs s = (Ok rs, s') ∧ length rs = length reqs
    ∧ serving s' st' ∧ served_trace reqs st st'.
Proof.
  revert s st. induction reqs as [|req reqs IH]; intros s st Hs; simpl.
  { exists [], s, st. split_and!; try done. constructor. }
  destruct (serving_run req s st Hs) as (r & s1 & Hrun).
  destruct (serving_step _ _ _ _ _ Hs Hrun) as (Hs1 & _ & _).
  destruct (IH _ _ Hs1) as (rs & s' & st' & Hall & Hlen & Hs' & Htr).
  exists (r :: rs), s', st'. split_and!; [|simpl; lia|done|by econstructor].
  rewrite (bind_run _ _ _ _ _ Hrun). unfold bind. by rewrite Hall.
Qed.

(** C2: After [init], any sequence of requests is answered one by one; the
    store it ends in is reached by the abstract service through the same
    requests, and the members of every group are registered users. *)
Theorem any_session_is_served mongo indexed d r reqs :
  (∃ b d', Database.init mongo d = (Ok b, d') ∧ represents d' empty_store) →
  ∃ s0 rs s' st', service_init mongo indexed (AnonymBE_new d r) = (Ok 0, s0)
    ∧ process_all reqs s0 = (Ok rs, s') ∧ length rs = length reqs
    ∧ represents (database_ s') st' ∧ served_trace reqs empty_store st' ∧ store_inv st'.
Proof.
  intros (b & d' & Hi & Hd').
  set (s0 := set_init true (set_indexed (negb (indexed =? 0)) (set_database d' (AnonymBE_new d r)))).
  destruct (process_all_run reqs s0 empty_store) as (rs & s' & st' & Hall & Hlen & Hs' & Htr).
  { by split_and!. }
  exists s0, rs, s', st'. split_and!; try done; [|apply Hs'|].
  - unfold service_init. simpl. by rewrite Hi.
  - eapply served_trace_inv; [done|apply store_inv_empty].
Qed.

(** C27: A request answered with status 400 has changed nothing. *)
Theorem error_changes_nothing req s st s' body :
  serving s st → process_input req s = (Ok (negrep body), s') → serving s' st.
Proof.
  intros Hs Hrun. destruct (serving_step _ _ _ _ _ Hs Hrun) as (Hs' & Ha & _).
  apply answer_rejected in Ha. rewrite serve_unchanged in Hs' by (by rewrite Ha). done.
Qed.

(** ** Endpoints *)

(** A request with a verb, a path and a body that parses to [j]. *)
Definition asks req (verb path : string) (j : json) : Prop :=
  method req = verb ∧ encodedPath req = path ∧ json_parse (stringBody req) = Ok j.

Lemma route_create_user req j u :
  asks req "POST" "/access/user" j → json_str j "user_id" = Ok u →
  route req = Ok (CreateUser u).
Proof.
  intros (Hm & Hp & Hj) Hu. unfold route, route_post. rewrite Hm, Hp, Hj. simpl. by rewrite Hu.
Qed.

Lemma route_envelope req j bk g :
  asks req "POST" "/verifier/envelope" j →
  json_str j "bucket_key" = Ok bk → json_str j "group_id" = Ok g →
  route req = Ok (MakeEnvelope bk g).
Proof.
  intros (Hm & Hp & Hj) Hb Hg. unfold route, route_post. rewrite Hm, Hp, Hj. simpl.
  by rewrite Hb, Hg.
Qed.

(** The answer once the command of a request is known. *)
Lemma serving_command req cmd s st :
  serving s st → route req = Ok cmd →
  ∃ r s', process_input req s = (Ok r, s')
    ∧ serving s' (st_exec (fresh_key s) cmd st).2
    ∧ match (st_exec (fresh_key s) cmd st).1 with
      | Served => ∃ resp, reply_spec s st cmd resp ∧ r = ok_response resp
      | Warned => ∃ msg, r = ok_response [("info", msg)]
      | Dropped => r = ok_response []
      | Rejected => ∃ text, r = error_response text
      end.
Proof.
  intros Hs Hcmd. destruct (serving_run req s st Hs) as (r & s' & Hrun).
  destruct (serving_step _ _ _ _ _ Hs Hrun) as (Hs' & Ha & _).
  exists r, s'. unfold answer_spec, serve, serve_as in *. rewrite Hcmd in *.
  split_and!; [done|apply Hs'..|]. destruct (st_exec (fresh_key s) cmd st).1; try done.
  - destruct Ha as (cmd' & resp & [= <-] & Hr & ->). eauto.
  - destruct Ha as (text & _ & ->). eauto.
Qed.

(** POST /access/user registers a new user with the key just drawn and
    returns that key; an existing user is refused and keeps its key. *)
Theorem create_user_endpoint req j u s st :
  serving s st → asks req "POST" "/access/user" j → json_str j "user_id" = Ok u →
  ∃ r s', process_input req s = (Ok r, s') ∧
    match st_users st !! u with
    | None => serving s' (Store (<[u := fresh_key s]> (st_users st)) (st_groups st))
              ∧ r = ok_response [("user_key", b64_encode (fresh_key s))]
    | Some _ => serving s' st ∧ ∃ text, r = error_response text
    end.
Proof.
  intros Hs Hreq Hu. pose proof (route_create_user _ _ _ Hreq Hu) as Hcmd.
  destruct (serving_command _ _ _ _ Hs Hcmd) as (r & s' & Hrun & Hs' & Ha).
  exists r, s'. split; [done|]. cbn [st_exec] in *. unfold st_run, st_create_user in *.
  destruct (st_users st !! u); simpl in *; [done|].
  destruct Ha as (resp & -> & ->). done.
Qed.


(** *** Membership *)

(** After [cmd], [u] belongs to [g] or not. *)
Inductive decides : command → string → string → bool → Prop :=
| decides_create g u : decides (CreateGroup g u) u g true
| decides_add g u : decides (AddMember g u) u g true
| decides_remove g u : decides (RemoveMember g u) u g false
| decides_delete u g : decides (DeleteUser u) u g false.

Lemma decides_exec key cmd u g b st :
  decides cmd u g b → (st_exec key cmd st).1 ≠ Rejected → is_Some (st_groups st !! g) ∨ b = true →
  ∃ X, st_groups (st_exec key cmd st).2 !! g = Some X ∧ bool_decide (u ∈ X) = b.
Proof.
  intros [g' u'|g' u'|g' u'|u' g'] Hok Hg; cbn [st_exec] in *; unfold st_run in *.
  - unfold st_create_group in *. destruct (st_groups st !! g'), (st_users st !! u'); try done.
    exists {[u']}. simpl. rewrite lookup_insert_eq. split; [done|].
    apply bool_decide_eq_true. set_solver.
  - unfold st_add in *. destruct (st_groups st !! g') as [X|] eqn:EX, (st_users st !! u'); try done.
    case_decide; simpl.
    + exists X. split; [done|]. by apply bool_decide_eq_true.
    + exists ({[u']} ∪ X). rewrite lookup_insert_eq. split; [done|].
      apply bool_decide_eq_true. set_solver.
  - unfold st_remove in *. destruct (st_groups st !! g') as [X|], (st_users st !! u'); try done.
    case_decide; [|done]. simpl. exists (X ∖ {[u']}). rewrite lookup_insert_eq.
    split; [done|]. apply bool_decide_eq_false. set_solver.
  - destruct Hg as [[X HX]|]; [|done]. simpl. rewrite lookup_fmap, HX. simpl.
    exists (X ∖ {[u']}). split; [done|]. apply bool_decide_eq_false. set_solver.
Qed.

(** Once an update of a membership is answered with status 200, asking
    POST /verifier/usergroup tells its outcome. *)
Theorem membership_follows_updates req q cmd u g b body s st s1 :
  serving s st → route req = Ok cmd → decides cmd u g b →
  is_Some (st_groups st !! g) ∨ b = true →
  process_input req s = (Ok (posrep body), s1) → route q = Ok (QueryMember u g) →
  ∃ s2, process_input q s1 = (Ok (ok_response [("belongs", if b then "true" else "false")]), s2).
Proof.
  intros Hs Hcmd Hdec Hg Hrun Hq.
  destruct (serving_command _ _ _ _ Hs Hcmd) as (r & s' & Hrun' & Hs1 & Ha).
  rewrite Hrun in Hrun'. simplify_eq.
  assert (Hok : (st_exec (fresh_key s) cmd st).1 ≠ Rejected).
  { intros E. rewrite E in Ha. destruct Ha as [text Ha]. unfold error_response in Ha.
    by case_match. }
  destruct (decides_exec (fresh_key s) _ _ _ _ _ Hdec Hok Hg) as (X & HX & Hb).
  destruct (serving_command _ _ _ _ Hs1 Hq) as (r2 & s2 & Hrun2 & _ & Ha2).
  cbn [st_exec] in Ha2. unfold st_run, st_member in Ha2. rewrite HX in Ha2. simpl in Ha2.
  destruct Ha2 as (resp & (X' & HX' & ->) & ->). exists s2. rewrite Hrun2.
  rewrite HX in HX'. simplify_eq. done.
Qed.


(** ** Answers that do not tell what happened *)

(** A verb the service does not know is answered with status 200 and
    "ok", and nothing happens. *)
Theorem unknown_verb_is_ok req s st :
  serving s st → method req ∉ ["GET"; "PUT"; "POST"; "DELETE"] →
  ∃ s', process_input req s = (Ok (posrep (render (ok_json []) true 2 0)), s')
    ∧ serving s' st.
Proof.
  intros Hs Hm. assert (Hr : route req = Ok UnknownVerb).
  { unfold route. rewrite !not_elem_of_cons in Hm. destruct Hm as (H1' & H2' & H3' & H4' & _).
    by rewrite !(proj2 (String.eqb_neq _ _)). }
  destruct (serving_command _ _ _ _ Hs Hr) as (r & s' & Hrun & Hs' & resp & Hresp & ->).
  simpl in Hresp. subst. by exists s'.
Qed.

(** A field of the wrong type is not reported: POST /access/user with a
    [user_id] that is not a string is answered with status 200 and "ok", and
    no user is created. *)
Theorem wrong_type_is_ok req j v s st :
  serving s st → asks req "POST" "/access/user" j →
  at_key j "user_id" = Ok v → (∀ u, v ≠ jstring u) →
  ∃ s', process_input req s = (Ok (posrep (render (ok_json []) true 2 0)), s')
    ∧ serving s' st.
Proof.
  intros Hs (Hm & Hp & Hj) Hv Hns.
  assert (Hr : ∃ msg, route req = Throw (json_exception type_error 302 msg)).
  { unfold route, route_post, json_str. rewrite Hm, Hp, Hj. simpl. rewrite Hv. simpl.
    destruct v; try (by eexists). by destruct (Hns s0). }
  destruct Hr as [msg Hr]. destruct (serving_run req s st Hs) as (r & s' & Hrun).
  destruct (serving_step _ _ _ _ _ Hs Hrun) as (Hs' & Ha & _).
  unfold answer_spec, serve, serve_as in *. rewrite Hr in *. simpl in *. subst. by exists s'.
Qed.

(** DELETE /access/user removes the user named by the bytes of [user_id]
    before its first NUL from the service and from all groups, whether or not
    that user exists. *)
Theorem delete_user_endpoint req j u s st :
  serving s st → asks req "DELETE" "/access/user" j → json_str j "user_id" = Ok u →
  ∃ s', process_input req s = (Ok (posrep (render (ok_json []) true 2 0)), s')
    ∧ serving s' (Store (delete (c_str u) (st_users st))
                        ((λ X, X ∖ {[c_str u]}) <$> st_groups st)).
Proof.
  intros Hs (Hm & Hp & Hj) Hu. assert (Hr : route req = Ok (DeleteUser (c_str u))).
  { unfold route, route_delete. rewrite Hm, Hp, Hj. simpl. by rewrite Hu. }
  destruct (serving_command _ _ _ _ Hs Hr) as (r & s' & Hrun & Hs' & resp & Hresp & ->).
  simpl in Hresp. subst. by exists s'.
Qed.

(** A command the service does not know is rejected with its path when
    the path is well-formed UTF-8, and answered with an empty response when
    it is not. *)
Theorem unknown_command_answer req s st :
  serving s st → route req = Ok BadCommand →
  ∃ s', serving s' st ∧ process_input req s =
    (Ok (if utf8_string (encodedPath req)
         then negrep (render
                (error_json ("Unknown command '" +:+ encodedPath req +:+ "'")) true 2 0)
         else EmptyResponse), s').
Proof.
  intros Hs Hr. destruct (serving_run req s st Hs) as (r & s' & Hrun).
  destruct (serving_step _ _ _ _ _ Hs Hrun) as (Hs' & Ha & _).
  unfold answer_spec, serve, serve_as in *. rewrite Hr in *. unfold explains in Ha.
  cbn [st_exec fst snd] in *.
  destruct Ha as (text & -> & ->). exists s'. split; [done|]. rewrite Hrun.
  unfold error_response. do 2 f_equal.
  assert (Hu : utf8_string ("Unknown command '" +:+ encodedPath req +:+ "'")
               = utf8_string (encodedPath req)).
  { rewrite utf8_string_app_r by done. by apply utf8_string_snoc_ascii. }
  by rewrite Hu.
Qed.

(** ** Keys *)

Lemma native_random_length n (c : context R DB) :
  ∃ k c', native_random n c = (Ok k, c') ∧ String.length k = (4 * n)%nat.
Proof.
  revert c. induction n as [|n IH]; intros c; simpl; [by eexists _, _|].
  unfold bind, draw. destruct (rand (rng (svc c))) as [w r].
  destruct (IH (Ctx (set_rng r (svc c)) (response c))) as (k & c' & -> & Hk).
  eexists _, _. split; [done|]. simpl. rewrite Hk. lia.
Qed.

(** The key of a new user has the 32 bytes of a key array, so that the
    database stores and lists it as it is; both builds. *)
Theorem fresh_key_is_a_key s :
  (∀ n r, String.length (sgx_read_rand n r).1 = n) →
  String.length (fresh_key s) = KEY_SIZE ∧ key_array (fresh_key s) = fresh_key s.
Proof.
  intros Hsgx. assert (Hlen : String.length (fresh_key s) = KEY_SIZE).
  { unfold fresh_key, random_key. destruct NATIVE.
    - destruct (native_random_length 8 (Ctx s [])) as (k & c' & -> & ->). done.
    - unfold draw. simpl. pose proof (Hsgx KEY_SIZE (rng s)) as Hk.
      by destruct (sgx_read_rand KEY_SIZE (rng s)). }
  split; [done|]. by apply resize_id.
Qed.
End correct.

(** ** The properties at work

    Each property on the in-memory database, at a concrete request. *)

(** The abstract store beside a run of the service. *)
Fixpoint after_store (reqs : list Request) (s : AnonymBE Z MemDatabase) (st : store) : store :=
  match reqs with
  | [] => st
  | r :: reqs => after_store reqs (process_input r s).2 (serve r (fresh_key s) st).2
  end.

Lemma demo_serving : serving demo_service empty_store.
Proof. split_and!; [apply mem_empty_represents|done|done]. Qed.

Lemma after_serving reqs s st : serving s st → serving (after reqs s) (after_store reqs s st).
Proof.
  revert s st. induction reqs as [|req reqs IH]; intros s st Hs; simpl; [done|].
  destruct (serving_run req s st Hs) as (r & s' & Hrun).
  destruct (serving_step _ _ _ _ _ Hs Hrun) as (Hs' & _ & _).
  rewrite Hrun. by apply IH.
Qed.

Definition alice : Request := post "/access/user" "{|user_id|: |alice|}".
Definition bob : Request := post "/access/user" "{|user_id|: |bob|}".
Definition new_group : Request := post "/access/group" "{|user_id|: |alice|, |group_name|: |g|}".
Definition add_bob : Request := put_request "/access/usergroup" "{|user_id|: |bob|, |group_name|: |g|}".
Definition remove_bob : Request :=
  delete_request "/access/usergroup" "{|user_id|: |bob|, |group_name|: |g|}".
Definition ask_bob : Request :=
  post "/verifier/usergroup" "{|user_id|: |bob|, |group_name|: |g|}".
Definition seal_g : Request := post "/verifier/envelope" "{|bucket_key|: |6b6579|, |group_id|: |g|}".

(** A service with two users in one group. *)
Definition two_users : list Request := [alice; bob; new_group; add_bob].
Definition demo_two : AnonymBE Z MemDatabase := after two_users demo_service.
Definition store_two : store := after_store two_users demo_service empty_store.

Lemma demo_two_serving : serving demo_two store_two.
Proof. apply after_serving, demo_serving. Qed.

(** The body of the answer to a request. *)
Definition body_of (r : outcome exn Response) : string :=
  match r with
  | Ok (Built _ _ _ _ body) => body
  | _ => ""
  end.
Definition answer_body (req : Request) (s : AnonymBE Z MemDatabase) : string :=
  body_of (process_input req s).1.

Lemma process_input_refines_witness :
  ∃ r s', process_input alice demo_service = (Ok r, s')
    ∧ serving s' (serve alice (fresh_key demo_service) empty_store).2
    ∧ answer_spec alice demo_service empty_store r ∧ readable r.
Proof. apply (process_input_refines alice demo_service empty_store). apply demo_serving. Defined.

Lemma any_session_is_served_witness :
  ∃ s0 rs s' st', service_init "" 1 (AnonymBE_new mem_empty 7) = (Ok 0, s0)
    ∧ process_all two_users s0 = (Ok rs, s') ∧ length rs = length two_users
    ∧ represents (database_ s') st' ∧ served_trace two_users empty_store st' ∧ store_inv st'.
Proof.
  apply (any_session_is_served "" 1 mem_empty 7 two_users).
  exists true, mem_empty. split; [reflexivity|apply mem_empty_represents].
Defined.

Lemma error_changes_nothing_witness :
  process_input new_group demo_service
    = (Ok (negrep (answer_body new_group demo_service)), (process_input new_group demo_service).2)
  ∧ serving (process_input new_group demo_service).2 empty_store.
Proof.
  assert (E : process_input new_group demo_service
    = (Ok (negrep (answer_body new_group demo_service)), (process_input new_group demo_service).2))
    by (vm_compute; reflexivity).
  split; [exact E|].
  exact (error_changes_nothing new_group demo_service empty_store _ _ demo_serving E).
Defined.

Lemma create_user_endpoint_witness :
  ∃ r s', process_input alice demo_service = (Ok r, s')
    ∧ serving s' (Store (<["alice" := fresh_key demo_service]> ∅) ∅)
    ∧ r = ok_response [("user_key", b64_encode (fresh_key demo_service))].
Proof.
  apply (create_user_endpoint alice (jobject [("user_id", jstring "alice")]) "alice"
           demo_service empty_store); [apply demo_serving| |reflexivity].
  split_and!; vm_compute; reflexivity.
Defined.


Lemma membership_follows_updates_witness :
  ∃ s2, process_input ask_bob (process_input remove_bob demo_two).2
        = (Ok (ok_response [("belongs", "false")]), s2).
Proof.
  apply (membership_follows_updates remove_bob ask_bob (RemoveMember "g" "bob") "bob" "g" false
    (answer_body remove_bob demo_two) demo_two store_two (process_input remove_bob demo_two).2).
  - apply demo_two_serving.
  - vm_compute; reflexivity.
  - constructor.
  - left. vm_compute. eauto.
  - vm_compute; reflexivity.
  - vm_compute; reflexivity.
Defined.

Definition after_removal : AnonymBE Z MemDatabase := (process_input remove_bob demo_two).2.


Definition patch : Request := Req "PATCH" "/access/all" "".

Lemma unknown_verb_is_ok_witness :
  ∃ s', process_input patch demo_two
        = (Ok (posrep (render (ok_json []) true 2 0)), s') ∧ serving s' store_two.
Proof.
  apply (unknown_verb_is_ok patch demo_two store_two demo_two_serving).
  apply (bool_decide_unpack _). vm_compute. exact I.
Defined.

Definition numeric_user : Request := post "/access/user" "{|user_id|: 5}".

Lemma wrong_type_is_ok_witness :
  ∃ s', process_input numeric_user demo_service
        = (Ok (posrep (render (ok_json []) true 2 0)), s') ∧ serving s' empty_store.
Proof.
  apply (wrong_type_is_ok numeric_user (jobject [("user_id", jnumber_unsigned 5)])
    (jnumber_unsigned 5) demo_service empty_store demo_serving); [|reflexivity|done].
  split_and!; vm_compute; reflexivity.
Defined.

(** A [user_id] that continues after a NUL: the user "bob" is deleted. *)
Definition delete_nul : Request := delete_request "/access/user" "{|user_id|: |bob\u0000x|}".

Lemma delete_user_endpoint_witness :
  ∃ s', process_input delete_nul demo_two
        = (Ok (posrep (render (ok_json []) true 2 0)), s')
    ∧ serving s' (Store (delete "bob" (st_users store_two))
                        ((λ X, X ∖ {["bob"]}) <$> st_groups store_two)).
Proof.
  apply (delete_user_endpoint delete_nul
    (jobject [("user_id", jstring ("bob" +:+ String "000" "x"))])
    ("bob" +:+ String "000" "x") demo_two store_two demo_two_serving); [|reflexivity].
  split_and!; vm_compute; reflexivity.
Defined.

Definition bad_path : Request := Req "GET" (String "255" "") "".

Lemma unknown_command_answer_witness :
  ∃ s', serving s' empty_store ∧ process_input bad_path demo_service = (Ok EmptyResponse, s').
Proof.
  exact (unknown_command_answer bad_path demo_service empty_store demo_serving eq_refl).
Defined.

Lemma fresh_key_is_a_key_witness :
  String.length (fresh_key demo_service) = KEY_SIZE
  ∧ key_array (fresh_key demo_service) = fresh_key demo_service.
Proof. apply fresh_key_is_a_key. intros n r. apply length_str_repeat. Defined.

(** A body that is well-formed UTF-8 but not JSON: the text of the parse error
    ends inside a character, so that it cannot be serialized and the client
    gets an empty response. *)
Definition accented : Request := Req "POST" "/access/user" (string_of [0xC3; 0xA9]).

Example accented_body :
  utf8_string (stringBody accented) = true
  ∧ (process_input accented demo_service).1 = Ok EmptyResponse.
Proof. vm_compute. done. Qed.
