(* ===== verification/Envelope.v ===== *)
(** * Opening an envelope (Envelope.kt)

    The client side of [generate_envelope]: [Envelope.open] tries every
    ciphertext of a linear envelope, [IndexedEnvelope.open] looks the hash of
    nonce and key up in the ordered index.  Members of the group recover the
    bucket key from what the service sends; both searches end. *)

From stdpp Require Import base gmap strings list.
From Stdlib Require Import ZArith Ascii Lia.
From S2P Require Import Prelude Cxx StdMap Database MemDatabase Utf8 JsonValue JsonDump JsonRender JsonSax JsonParser JsonReads JsonRoundtrip AnonymBE AnonymBESpec Demo AnonymBECorrect.

Definition NONCE_BYTES : nat := 12.
Definition HASHED_INDEX_BYTES : nat := 28.
Definition CIPHER_IV_BYTES : nat := 12.
Definition CIPHER_TAG_BYTES : nat := 16.
Definition ENCRYPTED_KEY_BYTES : nat := CIPHER_IV_BYTES + KEY_SIZE + CIPHER_TAG_BYTES.
Definition INDEXED_ENCRYPTED_KEY_BYTES : nat := HASHED_INDEX_BYTES + ENCRYPTED_KEY_BYTES.

Inductive open_exn : Type :=
| BufferUnderflow
| AEADBadTag
| NotInEnvelope.

Definition substr (s : string) (pos len : nat) : string := str_take len (str_drop pos s).

Section open.
(** [Encryption.decryptAes]; [None] is an [AEADBadTagException]. *)
Context (decryptAes : string → string → option string) (digest : string → string).

(** [Envelope.open]: the loop over the ciphertexts that remain. *)
Fixpoint open_loop (fuel : nat) (remaining userKey : string) : outcome open_exn string :=
  match fuel with
  | O => OutOfFuel
  | S f =>
      if decide (remaining = "") then Throw NotInEnvelope
      else if decide (String.length remaining < ENCRYPTED_KEY_BYTES)%nat then Throw BufferUnderflow
      else match decryptAes (str_take ENCRYPTED_KEY_BYTES remaining) userKey with
           | Some key => Ok key
           | None => open_loop f (str_drop ENCRYPTED_KEY_BYTES remaining) userKey
           end
  end.

Definition open_linear (envelope userKey : string) : outcome open_exn string :=
  open_loop (S (String.length envelope)) envelope userKey.

(** [IndexedEnvelope.open]: the search loop between [left] and [right]. *)
Fixpoint search (fuel : nat) (buffer hashToFind userKey : string) (left right : Z)
    : outcome open_exn string :=
  match fuel with
  | O => OutOfFuel
  | S f =>
      if right <? left then Throw NotInEnvelope else
      let currentIndex := left + (right - left) / 2 in
      let position := (Z.to_nat currentIndex * INDEXED_ENCRYPTED_KEY_BYTES)%nat in
      let hashedIndex := substr buffer position HASHED_INDEX_BYTES in
      match String.compare hashedIndex hashToFind with
      | Eq =>
          match decryptAes (substr buffer (position + HASHED_INDEX_BYTES) ENCRYPTED_KEY_BYTES) userKey with
          | Some key => Ok key
          | None => Throw AEADBadTag
          end
      | Lt => search f buffer hashToFind userKey (left + 1) right
      | Gt => search f buffer hashToFind userKey left (right - 1)
      end
  end.

Definition open_indexed (envelope userKey : string) : outcome open_exn string :=
  let hashToFind := digest (str_take NONCE_BYTES envelope +:+ userKey) in
  let buffer := str_drop NONCE_BYTES envelope in
  let entries := (String.length buffer / INDEXED_ENCRYPTED_KEY_BYTES)%nat in
  search (S entries) buffer hashToFind userKey 0 (Z.of_nat entries - 1).

Definition open_envelope (indexed : bool) (envelope userKey : string) : outcome open_exn string :=
  if indexed then open_indexed envelope userKey else open_linear envelope userKey.

(** ** Linear envelopes *)

Lemma open_loop_cts fuel cts key text :
  (String.length (foldr String.append "" cts) < fuel)%nat →
  Forall (λ ct, String.length ct = ENCRYPTED_KEY_BYTES
                ∧ (decryptAes ct key = None ∨ decryptAes ct key = Some text)) cts →
  open_loop fuel (foldr String.append "" cts) key
  = if decide (Exists (λ ct, decryptAes ct key = Some text) cts) then Ok text
    else Throw NotInEnvelope.
Proof.
  intros Hf Hall. revert fuel Hf. induction Hall as [|ct cts [Hlen Hd] Hall IH]; intros fuel Hf.
  { destruct fuel; [simpl in Hf; lia|]. cbn [foldr open_loop]. rewrite decide_True by done.
    rewrite decide_False; [done|by inversion 1]. }
  destruct fuel as [|fuel]; [simpl in Hf; lia|]. cbn [foldr] in *. cbn [open_loop].
  rewrite length_append, Hlen in Hf.
  rewrite decide_False. 2:{ intros E. apply (f_equal String.length) in E.
    rewrite length_append, Hlen in E. done. }
  rewrite decide_False by (rewrite length_append, Hlen; lia).
  rewrite str_take_app, str_drop_app by done. destruct Hd as [Hd|Hd]; rewrite Hd.
  - rewrite IH by (unfold ENCRYPTED_KEY_BYTES in Hf; simpl in Hf; lia).
    apply decide_ext. rewrite Exists_cons. naive_solver.
  - rewrite decide_True; [done|]. by left.
Qed.

(** ** Indexed envelopes *)

Definition entry_sizes (m : KVString) : Prop :=
  Forall (λ kv, String.length kv.1 = HASHED_INDEX_BYTES
                ∧ String.length kv.2 = ENCRYPTED_KEY_BYTES) m.

Lemma length_concat_pairs m :
  entry_sizes m →
  String.length (concat_pairs m) = (length m * INDEXED_ENCRYPTED_KEY_BYTES)%nat.
Proof.
  unfold concat_pairs. induction 1 as [|[k v] m [Hk Hv] _ IH]; [done|].
  cbn [foldr fst snd length] in *.
  by rewrite !length_append, Hk, Hv, IH, Nat.mul_succ_l, Nat.add_assoc, Nat.add_comm.
Qed.

Lemma entry_at m i k v :
  entry_sizes m → m !! i = Some (k, v) →
  substr (concat_pairs m) (i * INDEXED_ENCRYPTED_KEY_BYTES) HASHED_INDEX_BYTES = k
  ∧ substr (concat_pairs m) (i * INDEXED_ENCRYPTED_KEY_BYTES + HASHED_INDEX_BYTES)
      ENCRYPTED_KEY_BYTES = v.
Proof.
  intros Hm. revert i. induction Hm as [|[k' v'] m [Hk Hv] _ IH]; intros i Hi; [done|].
  cbn [fst snd] in Hk, Hv. unfold substr in *. change (concat_pairs ((k', v') :: m))
    with (k' +:+ v' +:+ concat_pairs m). destruct i as [|i]; cbn [lookup list_lookup] in Hi.
  - injection Hi as [= -> ->]. rewrite Nat.mul_0_l, Nat.add_0_l.
    change (str_drop 0 ?x) with x. rewrite (str_drop_app _ k) by done.
    by rewrite (str_take_app _ k), (str_take_app _ v) by done.
  - destruct (IH i Hi) as [IH1 IH2]. rewrite Nat.mul_succ_l, (Nat.add_comm _ INDEXED_ENCRYPTED_KEY_BYTES).
    rewrite <-Nat.add_assoc. rewrite !(str_drop_add INDEXED_ENCRYPTED_KEY_BYTES).
    rewrite <-append_assoc, (str_drop_app INDEXED_ENCRYPTED_KEY_BYTES (k' +:+ v'));
      [done|]. by rewrite length_append, Hk, Hv.
Qed.

Lemma wf_lookup_lt (m : KVString) i j k v k' v' :
  map_wf m → m !! i = Some (k, v) → m !! j = Some (k', v') → (i < j)%nat → str_lt k k'.
Proof.
  revert i j. induction m as [|[k0 v0] m IH]; intros i j Hwf Hi Hj Hij; [done|].
  apply map_wf_cons in Hwf as [Hgt Hwf]. destruct j as [|j]; [lia|]. simpl in Hj.
  destruct i as [|i]; simpl in Hi; [|eapply IH; eauto; lia].
  simplify_eq. unfold all_gt in Hgt. rewrite Forall_forall in Hgt. apply Hgt.
  apply list_elem_of_fmap. exists (k', v'). split; [done|].
  by eapply list_elem_of_lookup_2.
Qed.

(** What a search for [hash] yields: the entry of the index, decrypted. *)
Definition found (m : KVString) (hash key : string) : outcome open_exn string :=
  match map_find hash m with
  | Some ct => match decryptAes ct key with Some text => Ok text | None => Throw AEADBadTag end
  | None => Throw NotInEnvelope
  end.

(** The search keeps the entry between its bounds and shrinks them. *)
Lemma search_spec m hash key fuel left right :
  map_wf m → entry_sizes m →
  0 ≤ left → right < Z.of_nat (length m) → Z.max 0 (right - left + 1) < Z.of_nat fuel →
  (∀ i v, m !! i = Some (hash, v) → left ≤ Z.of_nat i ≤ right) →
  search fuel (concat_pairs m) hash key left right = found m hash key.
Proof.
  intros Hwf Hsz. revert left right. induction fuel as [|fuel IH];
    intros left right Hl Hr Hf Hin.
  { lia. }
  cbn [search]. destruct (right <? left) eqn:E; zify_cmp.
  { unfold found. destruct (map_find hash m) as [v|] eqn:Em; [|done].
    apply map_find_elem_of, list_elem_of_lookup in Em as [i Hi]; [|done].
    apply Hin in Hi. lia. }
  set (cur := left + (right - left) / 2).
  assert (Hcur : left ≤ cur ≤ right).
  { pose proof (Z.div_pos (right - left) 2). pose proof (Z.div_le_upper_bound (right - left) 2 (right - left)).
    lia. }
  destruct (lookup_lt_is_Some_2 m (Z.to_nat cur)) as [[k v] Hk]; [lia|].
  destruct (entry_at m _ _ _ Hsz Hk) as [-> ->].
  destruct (str_compareP k hash) as [->|Hlt|Hgt].
  - unfold found. by rewrite (proj2 (map_find_elem_of hash v m Hwf)) by (by eapply list_elem_of_lookup_2).
  - apply IH; [lia|lia|lia|]. intros i w Hi. pose proof (Hin i w Hi).
    destruct (decide (Z.of_nat i = left)) as [Ei|]; [|lia]. exfalso.
    destruct (decide (i = Z.to_nat cur)) as [->|]; [rewrite Hk in Hi; simplify_eq; str_order|].
    assert (str_lt hash k) by (eapply (wf_lookup_lt m); [done|exact Hi|exact Hk|lia]). str_order.
  - apply IH; [lia|lia|lia|]. intros i w Hi. pose proof (Hin i w Hi).
    destruct (decide (Z.of_nat i = right)) as [Ei|]; [|lia]. exfalso.
    destruct (decide (i = Z.to_nat cur)) as [->|]; [rewrite Hk in Hi; simplify_eq; str_order|].
    assert (str_lt k hash) by (eapply (wf_lookup_lt m); [done|exact Hk|exact Hi|lia]). str_order.
Qed.
End open.

(** ** Sealing, then opening *)

(** What the two sides rely on: AES-GCM decrypts what it encrypted under the
    same key, ciphertexts carry a 12-byte nonce and a 16-byte tag, SHA-224 has
    28 bytes, base64 is invertible and pure ASCII. *)
Class CryptoSpec (R : Type) `{Crypto R} (decryptAes : string → string → option string) : Prop := {
  decrypt_encrypt key text r : decryptAes (encrypt_aesgcm key text r).1 key = Some text;
  encrypt_length key text r :
    String.length (encrypt_aesgcm key text r).1
    = (CIPHER_IV_BYTES + String.length text + CIPHER_TAG_BYTES)%nat;
  sha224_length s : String.length (sha224 s) = HASHED_INDEX_BYTES;
  get_rand_length n r : String.length (get_rand n r).1 = n;
  b64_round_trip s : b64_decode (b64_encode s) = s;
  b64_ascii s : Forall (λ b, 0 ≤ b ≤ 127) (bytes_of (b64_encode s));
}.

Section round_trip.
Context {R : Type} `{Crypto R} (decryptAes : string → string → option string).
Context `{!CryptoSpec R decryptAes}.
Context (bk : string) (Hbk : String.length bk = KEY_SIZE).
Implicit Types (keys : KeyArray) (key : string) (r : R).

(** The two keys do not interfere: different keys have different hashes, or
    one does not decrypt the ciphertext of the other. *)
Definition apart (indexed : bool) k key r : Prop :=
  k ≠ key →
  if indexed then sha224 ((get_rand 12 r).1 +:+ k) ≠ sha224 ((get_rand 12 r).1 +:+ key)
  else ∀ r', decryptAes (encrypt_aesgcm k bk r').1 key = None.

(** [ct] is the bucket key under [key]. *)
Definition sealed key ct : Prop := ∃ r, ct = (encrypt_aesgcm key bk r).1.

Lemma sealed_length key ct : sealed key ct → String.length ct = ENCRYPTED_KEY_BYTES.
Proof. intros [r ->]. rewrite encrypt_length, Hbk. done. Qed.

Lemma sealed_open key ct : sealed key ct → decryptAes ct key = Some bk.
Proof. intros [r ->]. apply decrypt_encrypt. Qed.

Lemma seal_sealed keys r : Forall2 sealed keys (seal bk keys r).1.
Proof.
  revert r. induction keys as [|k keys IH]; intros r; simpl; [constructor|].
  destruct (encrypt_aesgcm k bk r) as [ct r1] eqn:E. specialize (IH r1).
  destruct (seal bk keys r1) as [cts r2]. simpl in *. constructor; [|done].
  exists r. by rewrite E.
Qed.

Lemma open_linear_envelope keys key r :
  (∀ k, k ∈ keys → apart false k key r) →
  open_linear decryptAes (linear_envelope bk keys r).1 key
  = if decide (key ∈ keys) then Ok bk else Throw NotInEnvelope.
Proof.
  intros Hown. unfold open_linear, linear_envelope. pose proof (seal_sealed keys r) as Hs.
  destruct (seal bk keys r) as [cts r']. cbn [fst] in *.
  rewrite (open_loop_cts decryptAes sha224 _ cts key bk); [|lia|].
  - apply decide_ext. split.
    + intros [ct [Hin Hd]]%Exists_exists. apply list_elem_of_lookup in Hin as [i Hi].
      destruct (Forall2_lookup_r _ _ _ _ _ Hs Hi) as (k & Hk & r0 & ->).
      apply list_elem_of_lookup_2 in Hk. destruct (decide (k = key)) as [->|Hne]; [done|].
      by rewrite (Hown k Hk Hne) in Hd.
    + intros Hin. apply list_elem_of_lookup in Hin as [i Hi].
      destruct (Forall2_lookup_l _ _ _ _ _ Hs Hi) as (ct & Hct & Hsealed).
      apply Exists_exists. exists ct. split; [by eapply list_elem_of_lookup_2|].
      by apply sealed_open.
  - apply Forall_forall. intros ct Hin. apply list_elem_of_lookup in Hin as [i Hi].
    destruct (Forall2_lookup_r _ _ _ _ _ Hs Hi) as (k & Hk & Hsealed).
    split; [by eapply sealed_length|]. apply list_elem_of_lookup_2 in Hk.
    destruct (decide (k = key)) as [->|Hne]; [right; by apply sealed_open|left].
    destruct Hsealed as [r0 ->]. by apply (Hown k Hk Hne).
Qed.

(** *** The index *)

Section index.
Context (nonce : string).
#[local] Abbreviation hash key := (sha224 (nonce +:+ key)).

Lemma index_spec keys cts m0 :
  Forall2 sealed keys cts → map_wf m0 →
  let m := foldl (λ m kc, map_put (hash kc.1) kc.2 m) m0 (zip keys cts) in
  map_wf m
  ∧ (∀ h ct, map_find h m = Some ct →
       (∃ k, k ∈ keys ∧ h = hash k ∧ sealed k ct) ∨ map_find h m0 = Some ct)
  ∧ (∀ h, is_Some (map_find h m0) ∨ (∃ k, k ∈ keys ∧ h = hash k) → is_Some (map_find h m)).
Proof.
  intros Hs. revert m0. induction Hs as [|k ct keys cts Hk Hs IH]; intros m0 Hwf; simpl.
  { split_and!; [done|by right|]. by intros h [?|(k & []%not_elem_of_nil & _)]. }
  destruct (IH (map_put (hash k) ct m0)) as (Hwf' & Hsound & Hcomp); [by apply map_put_wf|].
  split_and!; [done| |].
  - intros h ct' Hf. destruct (Hsound h ct' Hf) as [(k' & Hin & -> & Hs')|Hf0].
    { left. exists k'. split; [by right|done]. }
    rewrite map_find_put in Hf0 by done. case_decide; [|by right].
    simplify_eq. left. exists k. split; [by left|done].
  - intros h Hh. apply Hcomp. rewrite map_find_put by done. case_decide; [eauto|].
    destruct Hh as [?|(k' & Hin & ->)]; [eauto|]. right. exists k'. split; [|done].
    apply elem_of_cons in Hin as [->|?]; [done|done].
Qed.

Lemma key_index_sizes keys cts :
  Forall2 sealed keys cts → entry_sizes (key_index nonce keys cts).
Proof.
  intros Hs. destruct (index_spec keys cts [] Hs map_wf_nil) as (Hwf & Hsound & _).
  apply Forall_forall. intros [h ct] Hin. apply map_find_elem_of in Hin; [|done].
  destruct (Hsound h ct Hin) as [(k & _ & -> & Hk)|]; [|done].
  split; [apply sha224_length|by eapply sealed_length].
Qed.

Lemma found_index keys cts key :
  Forall2 sealed keys cts → (∀ k, k ∈ keys → hash k = hash key → k = key) →
  found decryptAes (key_index nonce keys cts) (hash key) key
  = if decide (key ∈ keys) then Ok bk else Throw NotInEnvelope.
Proof.
  intros Hs Hinj. destruct (index_spec keys cts [] Hs map_wf_nil) as (_ & Hsound & Hcomp).
  fold (key_index nonce keys cts) in Hsound, Hcomp. unfold found.
  destruct (map_find (hash key) (key_index nonce keys cts)) as [ct|] eqn:E.
  - destruct (Hsound _ _ E) as [(k & Hin & Hh & Hk)|]; [|done].
    apply eq_sym, Hinj in Hh; [|done]. subst. rewrite decide_True by done.
    by rewrite (sealed_open _ _ Hk).
  - rewrite decide_False; [done|]. intros Hin.
    destruct (Hcomp (hash key)) as [ct Hct]; [eauto|]. by rewrite E in Hct.
Qed.
End index.

Lemma open_indexed_envelope keys key r :
  (∀ k, k ∈ keys → apart true k key r) →
  open_indexed decryptAes sha224 (indexed_envelope bk keys r).1 key
  = if decide (key ∈ keys) then Ok bk else Throw NotInEnvelope.
Proof.
  unfold open_indexed, indexed_envelope, apart. intros Hinj.
  pose proof (get_rand_length (decryptAes := decryptAes) 12 r) as Hn.
  destruct (get_rand 12 r) as [nonce r1]. cbn [fst] in *.
  pose proof (seal_sealed keys r1) as Hs. destruct (seal bk keys r1) as [cts r2]. cbn [fst] in *.
  rewrite str_take_app, str_drop_app by done.
  pose proof (key_index_sizes nonce keys cts Hs) as Hsz.
  destruct (index_spec nonce keys cts [] Hs map_wf_nil) as (Hwf & _ & _).
  rewrite length_concat_pairs, Nat.div_mul by done.
  rewrite (search_spec decryptAes (key_index nonce keys cts)); [|done..|lia|lia|lia|].
  { apply found_index; [done|]. intros k Hk Hh. destruct (decide (k = key)); [done|].
    by destruct (Hinj k Hk). }
  intros i v Hi. apply lookup_lt_Some in Hi. lia.
Qed.

(** *** Both kinds of envelope *)

Lemma open_envelope_spec indexed keys key r :
  (∀ k, k ∈ keys → apart indexed k key r) →
  open_envelope decryptAes sha224 indexed (envelope indexed bk keys r).1 key
  = if decide (key ∈ keys) then Ok bk else Throw NotInEnvelope.
Proof. destruct indexed; [apply open_indexed_envelope|apply open_linear_envelope]. Qed.
End round_trip.

(** ** From the service to its clients *)

Section end_to_end.
Context {R : Type} `{Crypto R} `{HttpStrings} `{Build}.
Context {DB : Type} `{DatabaseSpec DB}.
Context (decryptAes : string → string → option string) `{!CryptoSpec R decryptAes}.
Implicit Types (s : AnonymBE R DB) (st : store).

Lemma length_bucket bk : String.length (bucket bk) = KEY_SIZE.
Proof. apply length_resize. Qed.

(** The envelope in the answer, and what a key gets from it. *)
Lemma envelope_answer req j bk g s st X :
  serving s st → asks req "POST" "/verifier/envelope" j →
  json_str j "bucket_key" = Ok bk → json_str j "group_id" = Ok g →
  st_groups st !! g = Some X → X ≠ ∅ →
  ∃ body v c s' keys b, process_input req s = (Ok (posrep body), s')
    ∧ json_parse body = Ok v ∧ json_str v "ciphertext" = Ok c
    ∧ indexed_ s = Some b ∧ keys_of st X keys
    ∧ ∀ key, (∀ k, k ∈ keys → apart decryptAes (bucket bk) b k key (rng s)) →
        open_envelope decryptAes sha224 b (b64_decode c) key
        = if decide (key ∈ keys) then Ok (bucket bk) else Throw NotInEnvelope.
Proof.
  intros Hs Hreq Hb Hg HX Hne. pose proof (route_envelope _ _ _ _ Hreq Hb Hg) as Hcmd.
  destruct (serving_command _ _ _ _ Hs Hcmd) as (r & s' & Hrun & _ & Ha).
  cbn [st_exec] in Ha. rewrite HX, decide_False in Ha by done.
  destruct Ha as (resp & (X' & keys & b & HX' & Hk & Hi & ->) & ->).
  rewrite HX in HX'. injection HX' as <-.
  set (c := b64_encode _) in Hrun.
  assert (Hc : utf8_string c = true) by apply utf8_ascii, (b64_ascii (decryptAes := decryptAes)).
  assert (Hok : strings_ok (ok_json [("ciphertext", c)]) = true).
  { change (ok_json [("ciphertext", c)]) with (jobject [("ciphertext", jstring c); ("result", jstring "ok")]).
    clearbody c. cbn [strings_ok forallb fst snd]. by rewrite Hc. }
  unfold ok_response in Hrun. rewrite Hok in Hrun.
  eexists _, _, c, s', keys, b. split_and!; [exact Hrun|by apply ok_json_parses|done|done|done|].
  intros key Hsep. unfold c. rewrite (b64_round_trip (decryptAes := decryptAes)).
  by apply (open_envelope_spec decryptAes (bucket bk) (length_bucket bk)).
Qed.

(** C4: Every member of a group recovers the bucket key from the answer to
    POST /verifier/envelope with its own key, for both kinds of envelope, if
    its key opens no ciphertext made for another key and no hashes collide:
    the body of the answer is parsed, its member "ciphertext" decoded and
    opened. *)
Theorem members_open_envelopes req j bk g u v s st X :
  serving s st → asks req "POST" "/verifier/envelope" j →
  json_str j "bucket_key" = Ok bk → json_str j "group_id" = Ok g →
  st_groups st !! g = Some X → u ∈ X → st_users st !! u = Some v →
  (∀ b w v', indexed_ s = Some b → w ∈ X → st_users st !! w = Some v' →
     apart decryptAes (bucket bk) b (key_array v') (key_array v) (rng s)) →
  ∃ body v' c s' b, process_input req s = (Ok (posrep body), s')
    ∧ json_parse body = Ok v' ∧ json_str v' "ciphertext" = Ok c ∧ indexed_ s = Some b
    ∧ open_envelope decryptAes sha224 b (b64_decode c) (key_array v) = Ok (bucket bk).
Proof.
  intros Hs Hreq Hb Hg HX Hu Hv Hsep.
  destruct (envelope_answer req j bk g s st X Hs Hreq Hb Hg HX ltac:(set_solver))
    as (body & jv & c & s' & keys & b & Hrun & Hparse & Hc & Hi & Hk & Hopen).
  exists body, jv, c, s', b. split_and!; try done. rewrite Hopen.
  2:{ intros k Hin. destruct (keys_of_only _ _ _ _ Hk Hin) as (w & v' & Hw & Hv' & ->). eauto. }
  by rewrite decide_True by (by eapply keys_of_member).
Qed.

End end_to_end.

(** ** Termination on any input *)

Lemma open_loop_ends decryptAes fuel env key :
  (String.length env < fuel)%nat → open_loop decryptAes fuel env key ≠ OutOfFuel.
Proof.
  revert env. induction fuel as [|fuel IH]; intros env Hf; [lia|]. cbn [open_loop].
  case_decide; [done|]. case_decide; [done|]. case_match; [done|].
  apply IH. rewrite length_str_drop. unfold ENCRYPTED_KEY_BYTES in *. simpl in *. lia.
Qed.

Lemma search_ends decryptAes fuel buffer hash key left right :
  Z.max 0 (right - left + 1) < Z.of_nat fuel →
  search decryptAes fuel buffer hash key left right ≠ OutOfFuel.
Proof.
  revert left right. induction fuel as [|fuel IH]; intros left right Hf; [lia|].
  cbn [search]. destruct (right <? left) eqn:E; [done|]. zify_cmp.
  case_match; [by case_match|apply IH; lia..].
Qed.

(** C31: Opening an envelope ends on any bytes, also on an envelope the
    service did not make: the linear loop consumes its input and the search
    in the index shrinks its interval at each turn. *)
Theorem open_envelope_ends decryptAes digest indexed env key :
  open_envelope decryptAes digest indexed env key ≠ OutOfFuel.
Proof.
  destruct indexed; [apply search_ends|apply open_loop_ends]; lia.
Qed.

(** ** The properties at work *)

Lemma hex_round_trip s : hex_decode (hex_encode s) = s.
Proof.
  induction s as [|c s IH]; [done|]. cbn [hex_encode].
  change (hex_encode_char c +:+ hex_encode s) with
    (String (hex_digit false (byte_of c / 16))
      (String (hex_digit false (byte_of c mod 16)) (hex_encode s))).
  cbn [hex_decode]. rewrite IH. f_equal. rewrite <-(char_of_byte_of c) at 3. f_equal.
  pose proof (byte_of_range c). clear IH.
  pose proof (forall_byte (λ b, 16 * unhex (hex_digit false (b / 16))
    + unhex (hex_digit false (b mod 16)) =? b) ltac:(vm_compute; reflexivity) (byte_of c)) as Hb.
  by apply Z.eqb_eq, Hb.
Qed.

Lemma hex_ascii s : Forall (λ b, 0 ≤ b ≤ 127) (bytes_of (hex_encode s)).
Proof.
  induction s as [|c s IH]; [constructor|]. cbn [hex_encode].
  change (hex_encode_char c +:+ hex_encode s) with
    (String (hex_digit false (byte_of c / 16))
      (String (hex_digit false (byte_of c mod 16)) (hex_encode s))).
  pose proof (byte_of_range c).
  pose proof (forall_byte (λ b, (byte_of (hex_digit false (b / 16)) <=? 127)
    && (byte_of (hex_digit false (b mod 16)) <=? 127)) ltac:(vm_compute; reflexivity) (byte_of c)) as Hb.
  apply andb_true_iff in Hb as [H1 H2]; [|done]. zify_cmp.
  cbn [bytes_of]. repeat constructor; [apply byte_of_range|done|apply byte_of_range|done|done].
Qed.

#[global] Instance demo_crypto_spec : CryptoSpec Z (λ text key, demo_decrypt key text).
Proof.
  split.
  - intros key text r. cbn [encrypt_aesgcm demo_crypto]. unfold demo_encrypt, demo_decrypt.
    cbn [fst]. pose proof (length_resize key 28 "000") as Hl.
    rewrite decide_True by (by apply str_take_app). by rewrite str_drop_app.
  - intros key text r. cbn [encrypt_aesgcm demo_crypto]. unfold demo_encrypt. cbn [fst].
    rewrite length_append, length_resize. unfold CIPHER_IV_BYTES, CIPHER_TAG_BYTES. lia.
  - intros s. apply length_resize.
  - intros n r. apply length_str_repeat.
  - apply hex_round_trip.
  - apply hex_ascii.
Qed.

(** The members of the group and their keys, evaluated. *)
Lemma group_two X :
  st_groups store_two !! "g" = Some X →
  ∀ w v, w ∈ X → st_users store_two !! w = Some v →
  (w = "alice" ∧ v = str_repeat 32 "007") ∨ (w = "bob" ∧ v = str_repeat 32 "008").
Proof.
  intros HX w v Hw Hv.
  assert (Hg : elements <$> st_groups store_two !! "g" = Some ["alice"; "bob"])
    by (vm_compute; reflexivity).
  rewrite HX in Hg. injection Hg as Hg. apply elem_of_elements in Hw. rewrite Hg in Hw.
  assert (Ha : st_users store_two !! "alice" = Some (str_repeat 32 "007")) by (vm_compute; reflexivity).
  assert (Hb : st_users store_two !! "bob" = Some (str_repeat 32 "008")) by (vm_compute; reflexivity).
  apply elem_of_cons in Hw as [->|Hw]; [left|]. { rewrite Ha in Hv. clear -Hv. split; congruence. }
  apply list_elem_of_singleton in Hw as ->. right. rewrite Hb in Hv. clear -Hv. split; congruence.
Qed.

Lemma members_open_envelopes_witness :
  ∃ body v c s' b, process_input seal_g demo_two = (Ok (posrep body), s')
    ∧ json_parse body = Ok v ∧ json_str v "ciphertext" = Ok c ∧ indexed_ demo_two = Some b
    ∧ open_envelope (λ text key, demo_decrypt key text) sha224 b (b64_decode c)
        (key_array (str_repeat 32 "008")) = Ok (bucket "6b6579").
Proof.
  destruct (st_groups store_two !! "g") as [X|] eqn:HX; [|vm_compute in HX; discriminate].
  apply (members_open_envelopes (λ text key, demo_decrypt key text) seal_g
    (jobject [("bucket_key", jstring "6b6579"); ("group_id", jstring "g")]) "6b6579" "g"
    "bob" (str_repeat 32 "008") demo_two store_two X); try reflexivity.
  - apply demo_two_serving.
  - split_and!; vm_compute; reflexivity.
  - exact HX.
  - assert (Hb : (λ Y : gset string, bool_decide ("bob" ∈ Y)) <$> st_groups store_two !! "g" = Some true)
      by (vm_compute; reflexivity).
    rewrite HX in Hb. injection Hb as Hb. exact (bool_decide_eq_true_1 _ Hb).
  - intros b w v' Hi Hw Hv.
    assert (b = true) as -> by (revert Hi; vm_compute; congruence). clear Hi.
    destruct (group_two X HX w v' Hw Hv) as [[-> ->]|[-> ->]]; intros Hne;
      [vm_compute; discriminate|exfalso; apply Hne; reflexivity].
Defined.

