(* ===== verification/Args.v ===== *)
(** * Command line and argument structures

    [parse_opt] and [init_args] of the two servers (anonymbe.cpp,
    writeproxy.cpp) on the fixed-size buffers of [struct Arguments]
    (anonymbe_args.h, writeproxy_args.h), and the conversions of the port. *)

From stdpp Require Import base gmap strings list.
From Stdlib Require Import ZArith Ascii Lia.
From S2P Require Import Prelude Cxx.

(** ** C buffers

    A [char] array is a string of fixed length; the NUL padding is explicit. *)

Definition NUL : ascii := "000"%char.

(** [memset(buf, 0, n)] on a whole array. *)
Definition zeros (n : nat) : string := str_repeat n NUL.

(** [strncpy(dst, src, n)]: up to [n] bytes of the C string [src], padded with
    NULs to [n]; the rest of [dst] stays. *)
Definition strncpy (dst src : string) (n : nat) : string :=
  resize (c_str src) n NUL +:+ str_drop n dst.

(** Reading a [char] array as a C string is defined only if it holds a NUL. *)
Fixpoint has_nul (s : string) : bool :=
  match s with
  | EmptyString => false
  | String c s => Ascii.eqb c NUL || has_nul s
  end.

Definition read_cstr (buf : string) : outcome exn string :=
  if has_nul buf then Ok (c_str buf) else Undefined.

Lemma has_nul_app s t : has_nul (s +:+ t) = has_nul s || has_nul t.
Proof. induction s as [|c s IH]; simpl; [done|]. rewrite IH. by rewrite orb_assoc. Qed.

Lemma has_nul_c_str s : has_nul (c_str s) = false.
Proof.
  induction s as [|c s IH]; simpl; [done|].
  destruct (Ascii.eqb c "000") eqn:E; simpl; [done|]. unfold NUL. by rewrite E.
Qed.

Lemma has_nul_take n s : has_nul s = false → has_nul (str_take n s) = false.
Proof.
  revert s. induction n as [|n IH]; intros [|c s]; simpl; try done.
  intros [-> H]%orb_false_iff. by rewrite IH.
Qed.

Lemma has_nul_zeros n : has_nul (zeros n) = negb (Nat.eqb n 0).
Proof. by destruct n. Qed.

Lemma c_str_no_nul s t : has_nul s = false → c_str (s +:+ t) = s +:+ c_str t.
Proof.
  induction s as [|c s IH]; simpl; [done|].
  intros [H1 H2]%orb_false_iff. unfold NUL in H1. by rewrite H1, IH.
Qed.

Lemma c_str_zeros n : c_str (zeros n) = "".
Proof. by destruct n. Qed.

Lemma length_strncpy dst src n :
  (n ≤ String.length dst)%nat → String.length (strncpy dst src n) = String.length dst.
Proof.
  intros. unfold strncpy. rewrite length_append, length_resize, length_str_drop. lia.
Qed.

(** What a buffer holds after [strncpy]. *)
Lemma has_nul_strncpy dst src n :
  has_nul (strncpy dst src n)
  = negb (n <=? String.length (c_str src))%nat || has_nul (str_drop n dst).
Proof.
  unfold strncpy, resize. rewrite !has_nul_app, has_nul_take by apply has_nul_c_str. simpl.
  f_equal. fold (zeros (n - String.length (c_str src))). rewrite has_nul_zeros. f_equal.
  destruct (Nat.leb_spec n (String.length (c_str src))), (Nat.eqb_spec (n - String.length (c_str src)) 0);
    (done || lia).
Qed.

(** ** Numbers *)

(** An [int] stored in a [size_t], then in an [unsigned short]. *)
Definition to_size_t (z : Z) : Z := wrap 64 z.
Definition to_port (z : Z) : Z := wrap 16 z.

(** What [parse_opt] does: [error_t], or an exception of [std::stoi] that
    leaves the program. *)
Inductive opt_result (A : Type) : Type :=
| OptOk (a : A)
| ARGP_ERR_UNKNOWN
| OptThrow (out_of_range : bool).
Arguments OptOk {A} a.
Arguments ARGP_ERR_UNKNOWN {A}.
Arguments OptThrow {A} out_of_range.

Definition with_stoi {A} (arg : string) (k : Z → A) : opt_result A :=
  match stoi arg with
  | Stoi z => OptOk (k (to_size_t z))
  | StoiInvalid => OptThrow false
  | StoiOutOfRange => OptThrow true
  end.

(** ** The key manager *)

Module KeyManager.

Record Arguments : Type := Args {
  port : Z;
  indexed : Z;
  mongo : string;
}.

Definition mongo_size : nat := 1024.

Definition default_mongo : string :=
  "mongodb://sgx-3.maas:27017/" +:+
  "?ssl=true&sslAllowInvalidCertificates=true&" +:+
  "sslAllowInvalidHostnames=true".

(** [uninit] is what the array held before. *)
Definition init_args (uninit : string) : Arguments :=
  Args 4444 1 (strncpy uninit default_mongo mongo_size).

Definition parse_opt (key : ascii) (arg : string) (args : Arguments) : opt_result Arguments :=
  if Ascii.eqb key "p" then with_stoi arg (λ p, Args p (indexed args) (mongo args))
  else if Ascii.eqb key "m" then
    OptOk (Args (port args) (indexed args) (strncpy (mongo args) arg mongo_size))
  else if Ascii.eqb key "i" then
    OptOk (if (c_str arg =? "false")%string then Args (port args) 0 (mongo args) else args)
  else ARGP_ERR_UNKNOWN.

(** [argp_parse] hands over the options one by one. *)
Fixpoint parse_all (opts : list (ascii * string)) (args : Arguments) : opt_result Arguments :=
  match opts with
  | [] => OptOk args
  | (key, arg) :: opts =>
      match parse_opt key arg args with
      | OptOk args => parse_all opts args
      | ARGP_ERR_UNKNOWN => ARGP_ERR_UNKNOWN
      | OptThrow b => OptThrow b
      end
  end.

(** The buffer keeps its size whatever the options. *)
Lemma parse_opt_size key arg args args' :
  String.length (mongo args) = mongo_size → parse_opt key arg args = OptOk args' →
  String.length (mongo args') = mongo_size.
Proof.
  intros Hlen. unfold parse_opt, with_stoi. intros H. repeat case_match; simplify_eq; try done.
  simpl. rewrite length_strncpy; [done|]. by rewrite Hlen.
Qed.

Lemma parse_all_size opts args args' :
  String.length (mongo args) = mongo_size → parse_all opts args = OptOk args' →
  String.length (mongo args') = mongo_size.
Proof.
  revert args. induction opts as [|[key arg] opts IH]; intros args Hlen; simpl; [congruence|].
  destruct (parse_opt key arg args) as [a| |] eqn:E; [|done|done].
  apply IH. by eapply parse_opt_size.
Qed.

Lemma parse_all_app o1 o2 args :
  parse_all (o1 ++ o2) args =
  match parse_all o1 args with
  | OptOk a => parse_all o2 a
  | r => r
  end.
Proof.
  revert args. induction o1 as [|[k a] o1 IH]; intros args; simpl; [done|].
  destruct (parse_opt k a args); simpl; auto.
Qed.

(** The array after the option [-m arg], read as a C string. *)
Lemma read_mongo args arg :
  String.length (mongo args) = mongo_size →
  read_cstr (strncpy (mongo args) arg mongo_size)
  = if (String.length (c_str arg) <? mongo_size)%nat then Ok (c_str arg) else Undefined.
Proof.
  intros Hlen. unfold read_cstr. rewrite has_nul_strncpy, str_drop_ge by (rewrite Hlen; done).
  rewrite orb_false_r, <-Nat.ltb_antisym. destruct (Nat.ltb_spec (String.length (c_str arg)) mongo_size) as [Hlt|];
    [|done]. f_equal. unfold strncpy, resize. rewrite str_drop_ge by (rewrite Hlen; done).
  rewrite append_nil_r, str_take_all by lia. fold (zeros (mongo_size - String.length (c_str arg))).
  rewrite c_str_no_nul, c_str_zeros by apply has_nul_c_str. apply append_nil_r.
Qed.

(** The connection string the service gets is the argument of the last
    [-m] option, if it is shorter than the array; an argument of 1024 bytes or
    more fills the array without a terminator, and reading it is undefined. *)
Theorem mongo_option uninit opts arg args :
  String.length uninit = mongo_size →
  parse_all (opts ++ [("m"%char, arg)]) (init_args uninit) = OptOk args →
  read_cstr (mongo args)
  = if (String.length (c_str arg) <? mongo_size)%nat then Ok (c_str arg) else Undefined.
Proof.
  intros Hlen. rewrite parse_all_app.
  destruct (parse_all opts (init_args uninit)) as [a| |] eqn:E; [|done|done].
  intros [= <-]. apply read_mongo. eapply parse_all_size; [|exact E].
  unfold init_args. cbn [mongo]. rewrite length_strncpy; [done|]. by rewrite Hlen.
Qed.

Lemma mongo_option_witness :
  read_cstr (strncpy (mongo (init_args (zeros 1024))) (str_repeat 1024 "x") mongo_size) = Undefined.
Proof.
  apply (mongo_option (zeros 1024) [] (str_repeat 1024 "x")
    (Args 4444 1 (strncpy (mongo (init_args (zeros 1024))) (str_repeat 1024 "x") mongo_size)));
    reflexivity.
Defined.
End KeyManager.

(** ** The writer proxy *)

Module Proxy.

(** The seven arrays of 100 characters. *)
Record Arguments : Type := Args {
  port : Z;
  minioendpoint : string;
  miniosecret : string;
  minioaccesskey : string;
  tokenuser : string;
  tokenpass : string;
  tokenendpoint : string;
  amendpoint : string;
}.

Definition array_size : nat := 100.

Definition init_args : Arguments :=
  let z := zeros array_size in Args 4445 z z z z z z z.

(** [strncpy(args->field, arg, sizeof(args->field) - 1)]. *)
Definition fill (field arg : string) : string := strncpy field arg (array_size - 1).

Definition parse_opt (key : ascii) (arg : string) (a : Arguments) : opt_result Arguments :=
  let 'Args p me ms ma tu tp te am := a in
  if Ascii.eqb key "p" then with_stoi arg (λ p, Args p me ms ma tu tp te am)
  else if Ascii.eqb key "m" then OptOk (Args p (fill me arg) ms ma tu tp te am)
  else if Ascii.eqb key "a" then OptOk (Args p me ms (fill ma arg) tu tp te am)
  else if Ascii.eqb key "k" then OptOk (Args p me (fill ms arg) ma tu tp te am)
  else if Ascii.eqb key "u" then OptOk (Args p me ms ma (fill tu arg) tp te am)
  else if Ascii.eqb key "w" then OptOk (Args p me ms ma tu (fill tp arg) te am)
  else if Ascii.eqb key "t" then OptOk (Args p me ms ma tu tp (fill te arg) am)
  else if Ascii.eqb key "e" then OptOk (Args p me ms ma tu tp te (fill am arg))
  else ARGP_ERR_UNKNOWN.

Fixpoint parse_all (opts : list (ascii * string)) (args : Arguments) : opt_result Arguments :=
  match opts with
  | [] => OptOk args
  | (key, arg) :: opts =>
      match parse_opt key arg args with
      | OptOk args => parse_all opts args
      | ARGP_ERR_UNKNOWN => ARGP_ERR_UNKNOWN
      | OptThrow b => OptThrow b
      end
  end.

(** [args.field[sizeof(args.field) - 1] = 0] in [ecall_init]. *)
Definition terminate (field : string) : string :=
  str_take (array_size - 1) field +:+ String NUL "".

Definition ecall_terminate (a : Arguments) : Arguments :=
  Args (port a) (terminate (minioendpoint a)) (terminate (miniosecret a))
    (terminate (minioaccesskey a)) (terminate (tokenuser a)) (terminate (tokenpass a))
    (terminate (tokenendpoint a)) (terminate (amendpoint a)).

(** A terminated array: its last byte is a NUL. *)
Definition terminated (s : string) : Prop :=
  String.length s = array_size ∧ str_drop (array_size - 1) s = String NUL "".

Definition args_ok (a : Arguments) : Prop :=
  terminated (minioendpoint a) ∧ terminated (miniosecret a) ∧ terminated (minioaccesskey a)
  ∧ terminated (tokenuser a) ∧ terminated (tokenpass a) ∧ terminated (tokenendpoint a)
  ∧ terminated (amendpoint a).

Lemma fill_terminated field arg : terminated field → terminated (fill field arg).
Proof.
  intros [Hl Hd]. unfold fill. split.
  - rewrite length_strncpy; [done|]. rewrite Hl. unfold array_size. lia.
  - unfold strncpy. rewrite str_drop_app by (by rewrite length_resize). done.
Qed.

Lemma parse_opt_ok key arg a a' : args_ok a → parse_opt key arg a = OptOk a' → args_ok a'.
Proof.
  destruct a as [p me ms ma tu tp te am]. intros (H1 & H2 & H3 & H4 & H5 & H6 & H7) Hp.
  simpl in *. unfold parse_opt, with_stoi in Hp. repeat case_match; simplify_eq; try done;
    split_and!; simpl; auto using fill_terminated.
Qed.

(** C40: Whatever the options of the writer proxy, every array of its
    arguments ends with a NUL, so that each is a C string and the terminators
    [ecall_init] writes change nothing. *)
Theorem proxy_arrays_terminated opts args :
  parse_all opts init_args = OptOk args →
  args_ok args ∧ ecall_terminate args = args.
Proof.
  intros Hp. assert (Hok : args_ok args).
  { assert (H0 : args_ok init_args) by (split_and!; (split; vm_compute; reflexivity)).
    revert H0 Hp. generalize init_args. induction opts as [|[k arg] opts IH]; intros a Ha; simpl.
    { by intros [= <-]. }
    destruct (parse_opt k arg a) as [a'| |] eqn:E; [|done|done].
    intros Hp. eapply IH; [by eapply parse_opt_ok|done]. }
  split; [done|]. assert (Ht : ∀ s, terminated s → terminate s = s).
  { intros s [_ Hd]. unfold terminate. rewrite <-Hd. clear. generalize (array_size - 1)%nat.
    intros n. revert s. induction n as [|n IH]; intros [|c s]; simpl; try done. by rewrite IH. }
  destruct args as [p me ms ma tu tp te am]. unfold args_ok in Hok. simpl in Hok.
  unfold ecall_terminate. simpl. destruct Hok as (? & ? & ? & ? & ? & ? & ?).
  by rewrite !Ht.
Qed.

Lemma proxy_arrays_terminated_witness :
  args_ok (Args 4445 (fill (zeros 100) (str_repeat 200 "x")) (zeros 100) (zeros 100) (zeros 100)
             (zeros 100) (zeros 100) (zeros 100)).
Proof.
  apply (proxy_arrays_terminated [("m"%char, str_repeat 200 "x")]). vm_compute. reflexivity.
Defined.
End Proxy.
