(* ===== verification/Concurrent.v ===== *)
(** * The in-memory database under threads (memory_database.cpp)

    The member functions of [MemDatabase] as the sequences of steps a thread
    makes: taking and releasing the two mutexes, and one step per call on a
    container, which reads it and may change it.  Nothing in a step asks for
    the mutex: that the code takes it is what [Linearizable] proves.  Any
    number of threads call the functions of one shared database in any
    interleaving. *)

From stdpp Require Import base gmap strings list.
From Stdlib Require Import ZArith Ascii Lia.
From S2P Require Import Prelude Cxx StdMap Database MemDatabase.

(** ** Mutexes

    A mutex has at most one owner, a thread given by its number. *)

Inductive mutex : Type := gmutex_ | umutex_.

#[global] Instance mutex_eq_dec : EqDecision mutex.
Proof. solve_decision. Defined.

Definition free : mutex → option nat := λ _, None.

Definition set_owner (m : mutex) (t : option nat) (o : mutex → option nat) : mutex → option nat :=
  λ m', if decide (m' = m) then t else o m'.

Definition holds (o : mutex → option nat) (m : mutex) (i : nat) : bool :=
  bool_decide (o m = Some i).

Lemma holds_set o m t m' i :
  holds (set_owner m t o) m' i = if decide (m' = m) then bool_decide (t = Some i) else holds o m' i.
Proof. unfold holds, set_owner. by case_decide. Qed.

Lemma holds_none o m i : o m = None → holds o m i = false.
Proof. unfold holds. intros ->. by apply bool_decide_eq_false. Qed.

Lemma holds_true o m i : o m = Some i → holds o m i = true.
Proof. intros Ho. by apply bool_decide_eq_true. Qed.

(** Who takes or gives back a mutex changes nothing for the others. *)
Lemma holds_other o m t m' i j :
  i ≠ j → (t = Some i ∨ t = None ∧ o m = Some i) → (o m = Some i ∨ o m = None) →
  holds (set_owner m t o) m' j = holds o m' j.
Proof.
  intros Hij Ht Ho. rewrite holds_set. case_decide; [subst|done]. unfold holds.
  apply bool_decide_ext. destruct Ht as [Ht|[Ht _]], Ho as [Ho|Ho]; rewrite Ho, Ht; split; congruence.
Qed.

(** ** Calls and answers *)

Inductive call : Type :=
| Op (o : db_op)
| Keys (gname : string).

Inductive value : Type :=
| Plain (b : option bool)
| KeyList (keys : KeyArray).

Abbreviation result := (outcome exn value).

(** A call run alone, from its first step to its last: the functions of
    [MemDatabase]. *)
Definition atomic (c : call) : M exn MemDatabase value :=
  match c with
  | Op o => b <- mem_exec o ;; ret (Plain b)
  | Keys g => ks <- mem_get_keys_of_group g ;; ret (KeyList ks)
  end.

(** ** Programs *)

Abbreviation group_map := (std_map std_set).
Abbreviation user_map := (std_map string).

(** What a thread still has to do.  [OnGroups f k] replaces [groups_] by
    [f groups_] and goes on with what it found there. *)
Inductive prog : Type :=
| Return (r : result)
| Acquire (m : mutex) (k : prog)
| Release (m : mutex) (k : prog)
| OnGroups (f : group_map → group_map) (k : group_map → prog)
| OnUsers (f : user_map → user_map) (k : user_map → prog).

Definition done_ : result := Ok (Plain None).
Definition refuse (msg : string) : result := Throw (std_invalid_argument msg).

Lemma set_groups_id (d : MemDatabase) : set_groups (groups_ d) d = d.
Proof. by destruct d. Qed.
Lemma set_users_id (d : MemDatabase) : set_users (users_ d) d = d.
Proof. by destruct d. Qed.

(** [groups_[g]] as a value and as the container it leaves behind. *)
Definition members_at (g : string) (gs : group_map) : std_set := default [] (map_find g gs).
Definition touch (g : string) (gs : group_map) : group_map := map_put g (members_at g gs) gs.

(** [groups_[g].insert(u)] and [groups_[g].erase(u)]. *)
Definition insert_member (g u : string) (gs : group_map) : group_map :=
  map_put g (set_insert u (members_at g gs)) gs.
Definition erase_member (g u : string) (gs : group_map) : group_map :=
  map_put g (set_erase u (members_at g gs)) gs.

(** [users_.find(u) == users_.end()] in a critical section of its own, inside
    that of the groups; the exception leaves both. *)
Definition checking_user (u : string) (unknown : string) (k : prog) : prog :=
  Acquire umutex_ (OnUsers id (λ us,
    if map_mem u us then Release umutex_ k
    else Release umutex_ (Release gmutex_ (Return (refuse unknown))))).

Definition prog_add_user_to_group (gname new_uid : string) : prog :=
  Acquire gmutex_ (OnGroups id (λ gs,
  if map_mem gname gs then
    checking_user new_uid ("attempt to add unknown user '" +:+ new_uid +:+ "' to group '" +:+ gname +:+ "'")
      (OnGroups (insert_member gname new_uid) (λ gs,
       Release gmutex_ (Return
         (if set_mem new_uid (members_at gname gs) then
            Throw (std_logic_error ("'" +:+ new_uid +:+ "' was already a member of " +:+
                                    "group '" +:+ gname +:+ "'"))
          else done_))))
  else
    Release gmutex_ (Return (refuse
      ("attempt to add user '" +:+ new_uid +:+ "' to" +:+ "non existing group: '" +:+ gname +:+ "'"))))).

Definition prog_create_user (uid key : string) : prog :=
  Acquire umutex_ (OnUsers id (λ us,
  if map_mem uid us then
    Release umutex_ (Return (refuse ("attempt to create an existing user: '" +:+ uid +:+ "'")))
  else
    OnUsers (map_put uid key) (λ _, Release umutex_ (Return done_)))).

Definition prog_create_group (gname uid : string) : prog :=
  Acquire gmutex_ (OnGroups id (λ gs,
  if map_mem gname gs then
    Release gmutex_ (Return (refuse ("attempt to create an existing group: '" +:+ gname +:+ "'")))
  else
    checking_user uid ("tried to create group '" +:+ gname +:+ "' with an unknown user:'" +:+ uid +:+ "'")
      (OnGroups (insert_member gname uid) (λ _, Release gmutex_ (Return done_))))).

(** The destructors of the two guards run in reverse order. *)
Definition prog_delete_user (uid : string) : prog :=
  Acquire umutex_ (Acquire gmutex_
    (OnGroups (map_values (set_erase uid)) (λ _,
     OnUsers (map_erase uid) (λ _,
     Release gmutex_ (Release umutex_ (Return done_)))))).

Definition prog_delete_all_data : prog :=
  Acquire umutex_ (Acquire gmutex_
    (OnUsers (λ _, []) (λ _,
     OnGroups (λ _, []) (λ _,
     Release gmutex_ (Release umutex_ (Return done_)))))).

(** No mutex is taken.  [groups_[gname]] is evaluated twice. *)
Definition prog_is_user_part_of_group (uname gname : string) : prog :=
  OnGroups id (λ gs,
  if map_mem gname gs then
    OnGroups (touch gname) (λ gs,
    let found := set_mem uname (members_at gname gs) in
    OnGroups (touch gname) (λ _, Return (Ok (Plain (Some found)))))
  else Return (refuse ("unknown group '" +:+ gname +:+ "'"))).

Definition prog_remove_user_from_group (gname uid : string) : prog :=
  Acquire gmutex_ (OnGroups id (λ gs,
  if map_mem gname gs then
    checking_user uid ("tried to remove an unknown user '" +:+ uid +:+ "' from group '" +:+ gname +:+ "'")
      (OnGroups (touch gname) (λ gs,
       if set_mem uid (members_at gname gs) then
         OnGroups (erase_member gname uid) (λ gs,
         Release gmutex_ (Return
           (if set_mem uid (members_at gname gs) then done_
            else refuse ("run to the hills: " +:+ "this should not ever happen"))))
       else
         Release gmutex_ (Return (refuse
           ("attempt to remove user '" +:+ uid +:+ "' from group '" +:+ gname +:+
            "' to which he or she does not belong")))))
  else
    Release gmutex_ (Return (refuse
      ("attempt to remove user '" +:+ uid +:+ "' from" +:+ " inexistent group: '" +:+ gname +:+ "'"))))).

(** The loop over the members, one critical section on the users each. *)
Fixpoint keys_loop (uids : list string) (acc : KeyArray) : prog :=
  match uids with
  | [] => Release gmutex_ (Return (Ok (KeyList acc)))
  | uid :: uids =>
      Acquire umutex_ (OnUsers id (λ us,
      if map_mem uid us then
        OnUsers id (λ us,
        Release umutex_ (keys_loop uids (acc ++ [key_array (default "" (map_find uid us))])))
      else Release umutex_ (keys_loop uids acc)))
  end.

Definition prog_get_keys_of_group (gname : string) : prog :=
  Acquire gmutex_ (OnGroups id (λ gs,
  if map_mem gname gs then
    OnGroups (touch gname) (λ gs,
    match members_at gname gs with
    | [] => Release gmutex_ (Return (refuse ("group '" +:+ gname +:+ "' is empty")))
    | _ => OnGroups (touch gname) (λ gs, keys_loop (map_keys (members_at gname gs)) [])
    end)
  else Release gmutex_ (Return (refuse ("unknown group '" +:+ gname +:+ "'"))))).

Definition prog_of (c : call) : prog :=
  match c with
  | Op (OpCreateUser u k) => prog_create_user u k
  | Op (OpDeleteUser u) => prog_delete_user u
  | Op (OpCreateGroup g u) => prog_create_group g u
  | Op (OpAdd g u) => prog_add_user_to_group g u
  | Op (OpRemove g u) => prog_remove_user_from_group g u
  | Op (OpMember u g) => prog_is_user_part_of_group u g
  | Op OpDeleteAll => prog_delete_all_data
  | Keys g => prog_get_keys_of_group g
  end.

(** ** Threads

    A thread is idle or in a call.  Calls and returns are what a client
    observes; the other steps are silent. *)

Inductive event : Type :=
| Call (i : nat) (c : call)
| Ret (i : nat) (r : result).

Record conf : Type := Conf {
  c_db : MemDatabase;
  c_owner : mutex → option nat;
  c_threads : list (option prog);
}.

Definition start (d : MemDatabase) (n : nat) : conf := Conf d free (replicate n None).

Inductive cstep : conf → option event → conf → Prop :=
| cstep_call d o ts i c :
    ts !! i = Some None →
    cstep (Conf d o ts) (Some (Call i c)) (Conf d o (<[i := Some (prog_of c)]> ts))
| cstep_return d o ts i r :
    ts !! i = Some (Some (Return r)) →
    cstep (Conf d o ts) (Some (Ret i r)) (Conf d o (<[i := None]> ts))
| cstep_acquire d o ts i m k :
    ts !! i = Some (Some (Acquire m k)) → o m = None →
    cstep (Conf d o ts) None (Conf d (set_owner m (Some i) o) (<[i := Some k]> ts))
| cstep_release d o ts i m k :
    ts !! i = Some (Some (Release m k)) → o m = Some i →
    cstep (Conf d o ts) None (Conf d (set_owner m None o) (<[i := Some k]> ts))
| cstep_groups d o ts i f k :
    ts !! i = Some (Some (OnGroups f k)) →
    cstep (Conf d o ts) None
      (Conf (set_groups (f (groups_ d)) d) o (<[i := Some (k (groups_ d))]> ts))
| cstep_users d o ts i f k :
    ts !! i = Some (Some (OnUsers f k)) →
    cstep (Conf d o ts) None
      (Conf (set_users (f (users_ d)) d) o (<[i := Some (k (users_ d))]> ts)).

(** The observable trace of a run. *)
Inductive run {S L} (step : S → option L → S → Prop) : S → list L → S → Prop :=
| run_nil s : run step s [] s
| run_silent s s' s'' tr : step s None s' → run step s' tr s'' → run step s tr s''
| run_event s e s' s'' tr : step s (Some e) s' → run step s' tr s'' → run step s (e :: tr) s''.

Lemma run_app {S L} (step : S → option L → S → Prop) s tr s' tr' s'' :
  run step s tr s' → run step s' tr' s'' → run step s (tr ++ tr') s''.
Proof. induction 1; intros Hr; simpl; eauto using run_silent, run_event. Qed.

(** ** The atomic database

    What clients would like to have: a call takes effect in one step, at some
    moment between its start and its return. *)

Inductive phase : Type :=
| Idle
| Called (c : call)
| Answered (r : result).

Record astate : Type := Atomic {
  a_db : MemDatabase;
  a_status : list phase;
}.

Definition astart (d : MemDatabase) (n : nat) : astate := Atomic d (replicate n Idle).

Inductive astep : astate → option event → astate → Prop :=
| astep_call d ss i c :
    ss !! i = Some Idle → astep (Atomic d ss) (Some (Call i c)) (Atomic d (<[i := Called c]> ss))
| astep_effect d ss i c r d' :
    ss !! i = Some (Called c) → atomic c d = (r, d') →
    astep (Atomic d ss) None (Atomic d' (<[i := Answered r]> ss))
| astep_return d ss i r :
    ss !! i = Some (Answered r) → astep (Atomic d ss) (Some (Ret i r)) (Atomic d (<[i := Idle]> ss)).

(** The calls that take the mutexes: all but the membership query. *)
Definition locked (c : call) : bool :=
  match c with Op (OpMember _ _) => false | _ => true end.

(** ** Running a schedule

    Who steps next; an idle thread makes the call named with it. *)
Definition cnext (i : nat) (k : call) (c : conf) : option (option event * conf) :=
  let '(Conf d o ts) := c in
  match ts !! i with
  | Some None => Some (Some (Call i k), Conf d o (<[i := Some (prog_of k)]> ts))
  | Some (Some (Return r)) => Some (Some (Ret i r), Conf d o (<[i := None]> ts))
  | Some (Some (Acquire m p)) =>
      match o m with
      | None => Some (None, Conf d (set_owner m (Some i) o) (<[i := Some p]> ts))
      | Some _ => None
      end
  | Some (Some (Release m p)) =>
      if decide (o m = Some i) then Some (None, Conf d (set_owner m None o) (<[i := Some p]> ts)) else None
  | Some (Some (OnGroups f p)) =>
      Some (None, Conf (set_groups (f (groups_ d)) d) o (<[i := Some (p (groups_ d))]> ts))
  | Some (Some (OnUsers f p)) =>
      Some (None, Conf (set_users (f (users_ d)) d) o (<[i := Some (p (users_ d))]> ts))
  | None => None
  end.

Lemma cnext_step i k c l c' : cnext i k c = Some (l, c') → cstep c l c'.
Proof.
  destruct c as [d o ts]. simpl. destruct (ts !! i) as [[[]|]|] eqn:E; intros H; try case_match; simplify_eq;
    by econstructor.
Qed.

Fixpoint schedule (s : list (nat * call)) (c : conf) : option (list event * conf) :=
  match s with
  | [] => Some ([], c)
  | (i, k) :: s =>
      match cnext i k c with
      | None => None
      | Some (l, c) =>
          match schedule s c with
          | None => None
          | Some (tr, c) => Some (option_list l ++ tr, c)
          end
      end
  end.

Lemma schedule_run s c tr c' : schedule s c = Some (tr, c') → run cstep c tr c'.
Proof.
  revert c tr. induction s as [|[i k] s IH]; intros c tr; simpl; [intros [= <- <-]; constructor|].
  destruct (cnext i k c) as [[l c1]|] eqn:E; [|done]. destruct (schedule s c1) as [[tr1 c2]|] eqn:Es; [|done].
  intros [= <- <-]. apply cnext_step in E. apply IH in Es. destruct l; simpl; eauto using run_silent, run_event.
Qed.
