(* ===== verification/Linearizable.v ===== *)
(** * The shared database is linearizable

    A call on the shared database takes effect at one moment between its start
    and its return: every trace of calls and returns of the threads of
    [Concurrent] is a trace of the atomic database.  The proof follows each
    thread under interference from the others: what a thread holding a mutex
    may rely on, what it guarantees, and where its call takes effect.  The
    membership query, which takes no mutex, is the exception. *)

From stdpp Require Import base gmap strings list.
From Stdlib Require Import ZArith Ascii Lia.
From S2P Require Import Prelude Cxx StdMap Database MemDatabase Concurrent.

(** ** Interference *)

(** Users are only added, and keep their keys. *)
Definition grows (us us' : user_map) : Prop :=
  ∀ u k, map_find u us = Some k → map_find u us' = Some k.

(** The pair of the atomic and the shared database. *)
Definition pair_db : Type := MemDatabase * MemDatabase.

(** [keeps g u s s']: a change of the databases from [s] to [s'] made by
    threads of which none holds the group mutex if [g] and none holds the user
    mutex if [u]. *)
Record keeps (g u : bool) (s s' : pair_db) : Prop := {
  keeps_groups : g = true → groups_ s'.1 = groups_ s.1 ∧ groups_ s'.2 = groups_ s.2
    ∧ grows (users_ s.1) (users_ s'.1);
  keeps_users : u = true → users_ s'.1 = users_ s.1 ∧ users_ s'.2 = users_ s.2;
}.

#[global] Instance keeps_preorder g u : PreOrder (keeps g u).
Proof.
  split.
  - intros s. split; intros _; split_and!; try done. by intros w k Hw.
  - intros s1 s2 s3 [Hg1 Hu1] [Hg2 Hu2]. split.
    + intros H. destruct (Hg1 H) as (E1 & F1 & G1), (Hg2 H) as (E2 & F2 & G2).
      split_and!; [congruence|congruence|]. intros w k Hw. auto.
    + intros H. destruct (Hu1 H), (Hu2 H). split; congruence.
Qed.

Lemma keeps_mono g u g' u' s s' :
  keeps g u s s' → (g' = true → g = true) → (u' = true → u = true) → keeps g' u' s s'.
Proof. intros [Hg Hu] Ig Iu. split; auto. Qed.

(** A container agrees in the two databases. *)
Definition agree (m : mutex) (s : pair_db) : Prop :=
  match m with
  | gmutex_ => groups_ s.1 = groups_ s.2
  | umutex_ => users_ s.1 = users_ s.2
  end.

(** ** Threads that linearize *)

(** A step of a thread may let its call [c] take effect on the atomic
    database: [a] is the answer once it has. *)
Inductive effect (c : call) : option result → MemDatabase → option result → MemDatabase → Prop :=
| effect_later a d : effect c a d a d
| effect_now d r d' : atomic c d = (r, d') → effect c None d (Some r) d'.

Section safe.
Context (c : call).

(** The thread holds the mutexes [hg] and [hu], its call has the answer [a] if
    it took effect.  Whatever the others do in between, the thread accesses a
    container only under its mutex, releases a mutex only when the container
    agrees, changes nothing the others rely on, and returns the answer of the
    atomic call without holding a mutex. *)
Fixpoint safe (hg hu : bool) (a : option result) (p : prog) (s : pair_db) : Prop :=
  ∀ s', mem_inv s'.1 → keeps hg hu s s' →
  match p with
  | Return r => hg = false ∧ hu = false ∧ a = Some r
  | Acquire gmutex_ k => hg = false ∧ (agree gmutex_ s' → safe true hu a k s')
  | Acquire umutex_ k => hu = false ∧ (agree umutex_ s' → safe hg true a k s')
  | Release gmutex_ k => hg = true ∧ agree gmutex_ s' ∧ safe false hu a k s'
  | Release umutex_ k => hu = true ∧ agree umutex_ s' ∧ safe hg false a k s'
  | OnGroups f k => hg = true ∧ ∃ a' d',
      let s'' := (d', set_groups (f (groups_ s'.2)) s'.2) in
      effect c a s'.1 a' d' ∧ keeps (negb hg) (negb hu) s' s'' ∧ safe hg hu a' (k (groups_ s'.2)) s''
  | OnUsers f k => hu = true ∧ ∃ a' d',
      let s'' := (d', set_users (f (users_ s'.2)) s'.2) in
      effect c a s'.1 a' d' ∧ keeps (negb hg) (negb hu) s' s'' ∧ safe hg hu a' (k (users_ s'.2)) s''
  end.

Lemma safe_stable hg hu a p s s' : safe hg hu a p s → keeps hg hu s s' → safe hg hu a p s'.
Proof.
  intros Hs Hk. destruct p; cbn [safe] in Hs |- *; intros s'' Hinv Hk'; refine (Hs s'' Hinv _); by transitivity s'.
Qed.
End safe.

(** *** Rules for the programs *)

Section rules.
Context (c : call).
Implicit Types (d : MemDatabase) (s : pair_db).

Lemma safe_return r s : safe c false false (Some r) (Return r) s.
Proof. by intros s' _ _. Qed.

(** Under the group mutex the atomic groups are the shared ones. *)
Lemma agree_groups_stable hu s s' : agree gmutex_ s → keeps true hu s s' → agree gmutex_ s'.
Proof. intros Ha [Hg _]. destruct (Hg eq_refl) as (E1 & E2 & _). simpl in *. congruence. Qed.

Lemma agree_users_stable hg s s' : agree umutex_ s → keeps hg true s s' → agree umutex_ s'.
Proof. intros Ha [_ Hu]. destruct (Hu eq_refl) as (E1 & E2). simpl in *. congruence. Qed.

Lemma safe_release_g hu a k s :
  agree gmutex_ s → (∀ s', keeps true hu s s' → safe c false hu a k s') → safe c true hu a (Release gmutex_ k) s.
Proof. intros Ha Hk s' Hinv Hs. split_and!; [done|by eapply agree_groups_stable|auto]. Qed.

Lemma safe_release_u hg a k s :
  agree umutex_ s → (∀ s', keeps hg true s s' → safe c hg false a k s') → safe c hg true a (Release umutex_ k) s.
Proof. intros Ha Hk s' Hinv Hs. split_and!; [done|by eapply agree_users_stable|auto]. Qed.

Lemma safe_acquire_g hu a k s :
  (∀ s', mem_inv s'.1 → keeps false hu s s' → agree gmutex_ s' → safe c true hu a k s') →
  safe c false hu a (Acquire gmutex_ k) s.
Proof. intros Hk s' Hinv Hs. auto. Qed.

Lemma safe_acquire_u hg a k s :
  (∀ s', mem_inv s'.1 → keeps hg false s s' → agree umutex_ s' → safe c hg true a k s') →
  safe c hg false a (Acquire umutex_ k) s.
Proof. intros Hk s' Hinv Hs. auto. Qed.

(** A call that has its answer only releases and returns it. *)
Lemma safe_leave r s : agree gmutex_ s → safe c true false (Some r) (Release gmutex_ (Return r)) s.
Proof. intros Ha. apply safe_release_g; [done|]. intros s' _. apply safe_return. Qed.

(** Reading a container: the call may take effect without a change. *)
Lemma safe_read_g hu a k s :
  (∀ s', mem_inv s'.1 → keeps true hu s s' →
     ∃ a', effect c a s'.1 a' s'.1 ∧ safe c true hu a' (k (groups_ s'.2)) s') →
  safe c true hu a (OnGroups id k) s.
Proof.
  intros Hk s' Hinv Hs. destruct (Hk s' Hinv Hs) as (a' & He & Hsafe). split; [done|].
  exists a', s'.1. unfold id. rewrite set_groups_id. destruct s'. by split_and!.
Qed.

Lemma safe_read_u hg a k s :
  (∀ s', mem_inv s'.1 → keeps hg true s s' →
     ∃ a', effect c a s'.1 a' s'.1 ∧ safe c hg true a' (k (users_ s'.2)) s') →
  safe c hg true a (OnUsers id k) s.
Proof.
  intros Hk s' Hinv Hs. destruct (Hk s' Hinv Hs) as (a' & He & Hsafe). split; [done|].
  exists a', s'.1. unfold id. rewrite set_users_id. destruct s'. by split_and!.
Qed.

(** [groups_[g]] of a group that exists reads only. *)
Lemma touch_present g gs m : map_wf gs → map_find g gs = Some m → touch g gs = gs.
Proof. intros Hwf Hf. unfold touch, members_at. rewrite Hf. simpl. by apply map_put_id. Qed.

Lemma safe_touch g hu a k s :
  (∀ s', mem_inv s'.1 → keeps true hu s s' → map_wf (groups_ s'.2) ∧ ∃ m, map_find g (groups_ s'.2) = Some m ∧
     ∃ a', effect c a s'.1 a' s'.1 ∧ safe c true hu a' (k (groups_ s'.2)) s') →
  safe c true hu a (OnGroups (touch g) k) s.
Proof.
  intros Hk s' Hinv Hs. destruct (Hk s' Hinv Hs) as (Hwf & m & Hm & a' & He & Hsafe). split; [done|].
  exists a', s'.1. rewrite (touch_present _ _ m), set_groups_id by done. destruct s'. by split_and!.
Qed.
End rules.

(** *** The member functions *)

(** Run an atomic call on a state whose lookups are known. *)
Ltac atomic_run :=
  cbn [atomic mem_exec];
  unfold mem_create_user, mem_create_group, mem_add_user_to_group, mem_remove_user_from_group,
    mem_delete_user, mem_delete_all_data, mem_get_keys_of_group;
  mem_run;
  repeat (progress (repeat match goal with
    | H : map_find _ _ = _ |- _ => rewrite H
    | H : set_mem _ _ = _ |- _ => rewrite H
    end; simpl)).

Lemma grows_put u k us : map_find u us = None → map_wf us → grows us (map_put u k us).
Proof.
  intros Hu Hwf w v Hw. rewrite map_find_put by done. case_decide; [subst; congruence|done].
Qed.

Lemma keeps_weaken_u g u s s' : keeps g u s s' → keeps g false s s'.
Proof. intros H. by eapply keeps_mono; [exact H|done|]. Qed.

Lemma keeps_weaken_g g u s s' : keeps g u s s' → keeps false u s s'.
Proof. intros H. by eapply keeps_mono; [exact H| |done]. Qed.

(** Lookups survive interference. *)
Lemma kept_group hu s s' g m :
  keeps true hu s s' → map_find g (groups_ s.1) = m → map_find g (groups_ s'.1) = m.
Proof. intros [Hg _] <-. by destruct (Hg eq_refl) as [-> _]. Qed.

Lemma kept_user hu s s' u v :
  keeps true hu s s' → map_find u (users_ s.1) = Some v → map_find u (users_ s'.1) = Some v.
Proof. intros [Hg _]. destruct (Hg eq_refl) as (_ & _ & Hgr). apply Hgr. Qed.

Lemma safe_create_user u k s : safe (Op (OpCreateUser u k)) false false None (prog_create_user u k) s.
Proof.
  apply safe_acquire_u. intros s1 _ _ A1. apply safe_read_u. intros s2 I2 K2.
  pose proof (agree_users_stable _ _ _ A1 K2) as A2. pose proof A2 as E2. cbn in E2.
  unfold map_mem. rewrite <-E2. destruct (map_find u (users_ s2.1)) as [v|] eqn:Ef.
  { exists (Some (refuse ("attempt to create an existing user: '" +:+ u +:+ "'"))).
    split; [apply effect_now; by atomic_run|]. apply safe_release_u; [done|]. intros s3 _. apply safe_return. }
  exists None. split; [constructor|]. intros s3 I3 K3. pose proof (agree_users_stable _ _ _ A2 K3) as A3. cbn in A3.
  split; [done|]. destruct (keeps_users _ _ _ _ K3 eq_refl) as [E3 _].
  assert (Ef3 : map_find u (users_ s3.1) = None) by (by rewrite E3).
  exists (Some done_), (set_users (map_put u k (users_ s3.1)) s3.1). split_and!.
  - apply effect_now. by atomic_run.
  - split; [intros _; split_and!; try done|done]. simpl. apply grows_put; [done|apply I3].
  - apply safe_release_u; [cbn; congruence|]. intros s4 _. apply safe_return.
Qed.

(** The critical section that looks for a user inside that of the groups. *)
Lemma safe_checking_user c u msg k s :
  agree gmutex_ s →
  (∀ s', mem_inv s'.1 → keeps true false s s' → map_find u (users_ s'.1) = None →
     atomic c s'.1 = (refuse msg, s'.1)) →
  (∀ s' v, keeps true false s s' → map_find u (users_ s'.1) = Some v → safe c true false None k s') →
  safe c true false None (checking_user u msg k) s.
Proof.
  intros Ag Hno Hyes. apply safe_acquire_u. intros s1 _ K1 A1. apply safe_read_u. intros s2 I2 K2.
  pose proof (agree_users_stable _ _ _ A1 K2) as A2. pose proof A2 as E2. cbn in E2.
  assert (K02 : keeps true false s s2) by (transitivity s1; [done|by eapply keeps_weaken_u]).
  unfold map_mem. rewrite <-E2. destruct (map_find u (users_ s2.1)) as [v|] eqn:Ef.
  - exists None. split; [constructor|]. apply safe_release_u; [done|]. intros s3 K3. eapply Hyes.
    + transitivity s2; [done|by eapply keeps_weaken_u].
    + by eapply kept_user.
  - exists (Some (refuse msg)). split; [apply effect_now; by apply Hno|].
    apply safe_release_u; [done|]. intros s3 K3. apply safe_leave.
    eapply agree_groups_stable, K3. by eapply agree_groups_stable.
Qed.

(** What a thread that holds the group mutex finds. *)
Lemma safe_find_group c g (k : bool → prog) s :
  agree gmutex_ s →
  (∀ s' m, mem_inv s'.1 → keeps true false s s' → agree gmutex_ s' → map_find g (groups_ s'.1) = m →
     ∃ a', effect c None s'.1 a' s'.1 ∧ safe c true false a' (k (bool_decide (is_Some m))) s') →
  safe c true false None (OnGroups id (λ gs, k (map_mem g gs))) s.
Proof.
  intros Ag Hk. apply safe_read_g. intros s' Hinv Hs. pose proof (agree_groups_stable _ _ _ Ag Hs) as A'.
  destruct (Hk s' _ Hinv Hs A' eq_refl) as (a' & He & Hsafe). exists a'. split; [done|].
  cbn in A'. rewrite A' in Hsafe. unfold map_mem. by destruct (map_find g (groups_ s'.2)).
Qed.

(** The call takes effect with a change of the groups, and the thread leaves. *)
Lemma safe_write_group c f k s :
  agree gmutex_ s →
  (∀ s', mem_inv s'.1 → keeps true false s s' →
     ∃ r, atomic c s'.1 = (r, set_groups (f (groups_ s'.1)) s'.1)
          ∧ k (groups_ s'.1) = Release gmutex_ (Return r)) →
  safe c true false None (OnGroups f k) s.
Proof.
  intros Ag Hk s' Hinv Hs. destruct (Hk s' Hinv Hs) as (r & Hat & Hkr). split; [done|].
  pose proof (agree_groups_stable _ _ _ Ag Hs) as A'. cbn in A'.
  exists (Some r), (set_groups (f (groups_ s'.1)) s'.1). split_and!.
  - by apply effect_now.
  - by split.
  - rewrite <-A', Hkr. apply safe_leave. cbn. congruence.
Qed.

(** The call is refused before anything was changed. *)
Lemma safe_refused c r s :
  agree gmutex_ s → atomic c s.1 = (r, s.1) →
  ∃ a', effect c None s.1 a' s.1 ∧ safe c true false a' (Release gmutex_ (Return r)) s.
Proof. intros Ag Hat. exists (Some r). split; [by apply effect_now|by apply safe_leave]. Qed.

Lemma safe_create_group g u s :
  safe (Op (OpCreateGroup g u)) false false None (prog_create_group g u) s.
Proof.
  apply safe_acquire_g. intros s1 _ _ A1.
  apply (safe_find_group _ g (λ b, if b then Release gmutex_ (Return _) else _)); [done|].
  intros s2 m I2 K2 A2 Hm. destruct m as [m|]; cbn [bool_decide].
  { apply safe_refused; [done|]. by atomic_run. }
  exists None. split; [constructor|]. apply safe_checking_user; [done| |].
  - intros s3 _ K3 Hu. pose proof (kept_group _ _ _ _ _ K3 Hm). by atomic_run.
  - intros s3 v K3 Hu. apply safe_write_group; [by eapply agree_groups_stable|]. intros s4 I4 K4.
    pose proof (kept_group _ _ _ _ _ K4 (kept_group _ _ _ _ _ K3 Hm)) as Hm4.
    pose proof (kept_user _ _ _ _ _ K4 Hu). exists done_. split; [|done]. atomic_run.
    unfold insert_member, members_at. rewrite Hm4. simpl. by rewrite map_put_put by apply I4.
Qed.

Lemma safe_add g u s : safe (Op (OpAdd g u)) false false None (prog_add_user_to_group g u) s.
Proof.
  apply safe_acquire_g. intros s1 _ _ A1.
  apply (safe_find_group _ g (λ b, if b then checking_user _ _ _ else _)); [done|].
  intros s2 m I2 K2 A2 Hm. destruct m as [m|]; cbn [bool_decide].
  2:{ apply safe_refused; [done|]. by atomic_run. }
  exists None. split; [constructor|]. apply safe_checking_user; [done| |].
  - intros s3 _ K3 Hu. pose proof (kept_group _ _ _ _ _ K3 Hm). by atomic_run.
  - intros s3 v K3 Hu. apply safe_write_group; [by eapply agree_groups_stable|]. intros s4 I4 K4.
    pose proof (kept_group _ _ _ _ _ K4 (kept_group _ _ _ _ _ K3 Hm)) as Hm4.
    pose proof (kept_user _ _ _ _ _ K4 Hu). unfold insert_member, members_at. rewrite Hm4. simpl.
    eexists. split; [|done]. atomic_run. by destruct (set_mem u m).
Qed.

Lemma safe_remove g u s :
  safe (Op (OpRemove g u)) false false None (prog_remove_user_from_group g u) s.
Proof.
  apply safe_acquire_g. intros s1 _ _ A1.
  apply (safe_find_group _ g (λ b, if b then checking_user _ _ _ else _)); [done|].
  intros s2 m I2 K2 A2 Hm. destruct m as [m|]; cbn [bool_decide].
  2:{ apply safe_refused; [done|]. by atomic_run. }
  exists None. split; [constructor|]. apply safe_checking_user; [done| |].
  { intros s3 _ K3 Hu. pose proof (kept_group _ _ _ _ _ K3 Hm). by atomic_run. }
  intros s3 v K3 Hu. pose proof (agree_groups_stable _ _ _ A2 K3) as A3.
  pose proof (kept_group _ _ _ _ _ K3 Hm) as Hm3. apply safe_touch. intros s4 I4 K4.
  pose proof (agree_groups_stable _ _ _ A3 K4) as A4. pose proof (kept_group _ _ _ _ _ K4 Hm3) as Hm4.
  pose proof (kept_user _ _ _ _ _ K4 Hu) as Hu4. cbn in A4. rewrite <-A4. split; [apply I4|].
  exists m. split; [done|]. unfold members_at at 1. rewrite Hm4. simpl.
  destruct (set_mem u m) eqn:Em; [|apply safe_refused; [done|]; by atomic_run].
  exists None. split; [constructor|]. apply safe_write_group; [done|]. intros s5 I5 K5.
  pose proof (kept_group _ _ _ _ _ K5 Hm4) as Hm5. pose proof (kept_user _ _ _ _ _ K5 Hu4) as Hu5.
  unfold erase_member, members_at. rewrite Hm5. simpl. rewrite Em.
  eexists. split; [|done]. by atomic_run.
Qed.

(** The deletions hold both mutexes: nobody sees the state in between. *)
Lemma keeps_nothing s s' : keeps false false s s'.
Proof. by split. Qed.

Lemma safe_delete_user u s : safe (Op (OpDeleteUser u)) false false None (prog_delete_user u) s.
Proof.
  apply safe_acquire_u. intros s1 _ _ A1. apply safe_acquire_g. intros s2 _ K2 A2.
  pose proof (agree_users_stable _ _ _ A1 K2) as U2. intros s3 I3 K3.
  pose proof (agree_users_stable _ _ _ U2 K3) as U3. pose proof (agree_groups_stable _ _ _ A2 K3) as G3.
  cbn in U3, G3. split; [done|]. exists None, s3.1. split_and!; [constructor|apply keeps_nothing|].
  intros s4 I4 K4. split; [done|]. destruct (keeps_groups _ _ _ _ K4 eq_refl) as (E1 & E2 & _).
  destruct (keeps_users _ _ _ _ K4 eq_refl) as (F1 & F2). cbn in E1, E2, F1, F2.
  exists (Some done_), (set_users (map_erase u (users_ s4.1)) (set_groups (map_values (set_erase u) (groups_ s4.1)) s4.1)).
  split_and!; [by apply effect_now|apply keeps_nothing|].
  apply safe_release_g; [cbn; congruence|]. intros s5 K5. apply safe_release_u; [|intros; apply safe_return].
  eapply agree_users_stable, K5. cbn. congruence.
Qed.

Lemma safe_delete_all s : safe (Op OpDeleteAll) false false None prog_delete_all_data s.
Proof.
  apply safe_acquire_u. intros s1 _ _ _. apply safe_acquire_g. intros s2 _ _ _. intros s3 I3 K3.
  split; [done|]. exists None, s3.1. split_and!; [constructor|apply keeps_nothing|].
  intros s4 I4 K4. split; [done|]. destruct (keeps_users _ _ _ _ K4 eq_refl) as (_ & F2). cbn in F2.
  exists (Some done_), mem_empty. split_and!; [by apply effect_now|apply keeps_nothing|].
  apply safe_release_g; [done|]. intros s5 K5. apply safe_release_u; [|intros; apply safe_return].
  eapply agree_users_stable, K5. cbn. by rewrite F2.
Qed.

Lemma collect_keys_cons us u v uids :
  map_find u us = Some v → collect_keys us (u :: uids) = key_array v :: collect_keys us uids.
Proof. intros Hv. unfold collect_keys. simpl. by rewrite Hv. Qed.

(** The keys of users that exist do not change while others are created. *)
Lemma collect_keys_grows us us' uids :
  grows us us' → Forall (λ u, is_Some (map_find u us)) uids → collect_keys us' uids = collect_keys us uids.
Proof.
  intros Hg Hall. induction Hall as [|u uids [v Hv] _ IH]; [done|].
  by rewrite (collect_keys_cons us u v), (collect_keys_cons us' u v), IH by auto.
Qed.

(** The call took effect when the group was read; the loop finds the keys the
    users had then. *)
Lemma safe_keys_loop c uids acc s :
  agree gmutex_ s → Forall (λ u, is_Some (map_find u (users_ s.1))) uids →
  safe c true false (Some (Ok (KeyList (acc ++ collect_keys (users_ s.1) uids)))) (keys_loop uids acc) s.
Proof.
  revert acc s. induction uids as [|u uids IH]; intros acc s Ag Hall; cbn [keys_loop].
  { rewrite app_nil_r. by apply safe_leave. }
  apply Forall_cons in Hall as [[v Hv] Hall].
  apply safe_acquire_u. intros s1 _ K1 A1. apply safe_read_u. intros s2 _ K2.
  pose proof (agree_users_stable _ _ _ A1 K2) as U2. pose proof U2 as E2. cbn in E2.
  assert (K02 : keeps true false s s2) by (transitivity s1; [done|by eapply keeps_weaken_u]).
  pose proof (kept_user _ _ _ _ _ K02 Hv) as Hv2. unfold map_mem. rewrite <-E2, Hv2.
  eexists. split; [constructor|]. apply safe_read_u. intros s3 _ K3.
  pose proof (agree_users_stable _ _ _ U2 K3) as U3. pose proof U3 as E3. cbn in E3.
  assert (K03 : keeps true false s s3) by (transitivity s2; [done|by eapply keeps_weaken_u]).
  rewrite <-E3, (kept_user _ _ _ _ _ K03 Hv). eexists. split; [constructor|].
  apply safe_release_u; [done|]. intros s4 K4.
  assert (K04 : keeps true false s s4) by (transitivity s3; [done|by eapply keeps_weaken_u]).
  assert (Hall4 : Forall (λ u, is_Some (map_find u (users_ s4.1))) uids).
  { eapply Forall_impl; [exact Hall|]. intros w [x Hx]. exists x. by eapply kept_user. }
  cbn [default]. specialize (IH (acc ++ [key_array v]) s4 (agree_groups_stable _ _ _ Ag K04) Hall4).
  rewrite (collect_keys_grows (users_ s.1)) in IH by (done || apply (keeps_groups _ _ _ _ K04 eq_refl)).
  rewrite (collect_keys_cons _ u v) by done. by rewrite <-app_assoc in IH.
Qed.

Lemma members_known d g m :
  mem_inv d → map_find g (groups_ d) = Some m → Forall (λ u, is_Some (map_find u (users_ d))) (map_keys m).
Proof.
  intros Hinv Hm. apply Forall_forall. intros u Hu. apply map_mem_true. eapply inv_members; [done|done|].
  apply set_mem_spec; [by eapply inv_sets_wf|]. apply to_gset_keys; [by eapply inv_sets_wf|done].
Qed.

Lemma safe_get_keys g s : safe (Keys g) false false None (prog_get_keys_of_group g) s.
Proof.
  apply safe_acquire_g. intros s1 _ _ A1.
  apply (safe_find_group _ g (λ b, if b then OnGroups (touch g) _ else _)); [done|].
  intros s2 m I2 K2 A2 Hm. destruct m as [m|]; cbn [bool_decide].
  2:{ apply safe_refused; [done|]. by atomic_run. }
  exists None. split; [constructor|]. apply safe_touch. intros s3 I3 K3.
  pose proof (agree_groups_stable _ _ _ A2 K3) as A3. pose proof (kept_group _ _ _ _ _ K3 Hm) as Hm3.
  pose proof A3 as E3. cbn in E3. rewrite <-E3. split; [apply I3|]. exists m. split; [done|].
  unfold members_at at 1. rewrite Hm3. simpl. destruct m as [|x m].
  { apply safe_refused; [done|]. by atomic_run. }
  exists None. split; [constructor|]. apply safe_touch. intros s4 I4 K4.
  pose proof (agree_groups_stable _ _ _ A3 K4) as A4. pose proof (kept_group _ _ _ _ _ K4 Hm3) as Hm4.
  pose proof A4 as E4. cbn in E4. rewrite <-E4. split; [apply I4|]. exists (x :: m). split; [done|].
  unfold members_at. rewrite Hm4. cbn [default].
  exists (Some (Ok (KeyList (collect_keys (users_ s4.1) (map_keys (x :: m)))))).
  split; [apply effect_now; by atomic_run|].
  apply (safe_keys_loop (Keys g) (map_keys (x :: m)) []); [done|]. by eapply members_known.
Qed.

Lemma safe_start c s : locked c = true → safe c false false None (prog_of c) s.
Proof.
  destruct c as [[]|]; try done; intros _; cbn [prog_of].
  - apply safe_create_user.
  - apply safe_delete_user.
  - apply safe_create_group.
  - apply safe_add.
  - apply safe_remove.
  - apply safe_delete_all.
  - apply safe_get_keys.
Qed.

(** ** The machine simulates the atomic database *)

(** What a thread in a call [c] looks like to its client. *)
Definition status_of (c : call) (a : option result) : phase :=
  match a with None => Called c | Some r => Answered r end.

Lemma atomic_inv c d : mem_inv d → mem_inv (atomic c d).2.
Proof.
  intros Hinv. assert (Hr : mem_represents d (abstraction d)) by done. destruct c as [o|g]; simpl.
  - destruct (mem_exec_sim o d _ Hr) as [_ [H _]]. unfold bind, ret. by destruct (mem_exec o d) as [[] ?].
  - destruct (mem_get_keys_ok g d _ Hr) as [H _]. unfold bind, ret.
    destruct (mem_get_keys_of_group g d) as [[] ?]; simpl in *; by subst.
Qed.

Lemma effect_inv c a d a' d' : effect c a d a' d' → mem_inv d → mem_inv d'.
Proof. intros [|d0 r d1 H] Hinv; [done|]. apply (atomic_inv c) in Hinv. by rewrite H in Hinv. Qed.

(** An effect is at most one silent step of the atomic database. *)
Lemma effect_run c a d a' d' ss i :
  effect c a d a' d' → ss !! i = Some (status_of c a) →
  run astep (Atomic d ss) [] (Atomic d' (<[i := status_of c a']> ss)).
Proof.
  intros [a0 d0|d0 r d1 Hat] Hi.
  - rewrite list_insert_id by done. constructor.
  - eapply run_silent; [|constructor]. by eapply astep_effect.
Qed.

Section machine.
Implicit Types (o : mutex → option nat) (s : pair_db) (i j : nat).

Definition thread_ok o s i (t : option (option prog)) (st : option phase) : Prop :=
  match t, st with
  | None, None | Some None, Some Idle => holds o gmutex_ i = false ∧ holds o umutex_ i = false
  | Some (Some p), Some st =>
      ∃ c a, st = status_of c a ∧ safe c (holds o gmutex_ i) (holds o umutex_ i) a p s
  | _, _ => False
  end.

Record sim (c : conf) (a : astate) : Prop := {
  sim_inv : mem_inv (a_db a);
  sim_free m : c_owner c m = None → agree m (a_db a, c_db c);
  sim_threads i : thread_ok (c_owner c) (a_db a, c_db c) i (c_threads c !! i) (a_status a !! i);
}.

Lemma thread_ok_stable o o' s s' i t st :
  thread_ok o s i t st → (∀ m, holds o' m i = holds o m i) →
  keeps (holds o gmutex_ i) (holds o umutex_ i) s s' → thread_ok o' s' i t st.
Proof.
  intros Ht Ho Hk. unfold thread_ok in *. rewrite !Ho. destruct t as [[p|]|]; [|done|done].
  destruct st as [st|]; [|done]. destruct Ht as (c & a & -> & Hs). exists c, a. split; [done|].
  by eapply safe_stable.
Qed.

(** Two threads do not hold the same mutex: what one guarantees is what the
    other relies on. *)
Lemma guarantee_rely o i j s s' :
  i ≠ j → keeps (negb (holds o gmutex_ i)) (negb (holds o umutex_ i)) s s' →
  keeps (holds o gmutex_ j) (holds o umutex_ j) s s'.
Proof.
  intros Hij Hk. eapply keeps_mono; [exact Hk|..]; unfold holds;
    rewrite negb_true_iff, bool_decide_eq_true, bool_decide_eq_false; congruence.
Qed.

(** A step of thread [i] that changes nothing for the others. *)
Lemma sim_step d o ts a i p st' o' d' a' ss' :
  sim (Conf d o ts) a →
  keeps (negb (holds o gmutex_ i)) (negb (holds o umutex_ i)) (a_db a, d) (a', d') →
  (∀ m j, i ≠ j → holds o' m j = holds o m j) →
  mem_inv a' → (∀ m, o' m = None → agree m (a', d')) →
  (i < length ts)%nat → ss' = <[i := st']> (a_status a) →
  thread_ok o' (a', d') i (Some p) (Some st') →
  sim (Conf d' o' (<[i := p]> ts)) (Atomic a' ss').
Proof.
  intros [Hinv Hfree Hth] Hk Ho Hinv' Hfree' Hi -> Hnew. split; simpl; [done|done|].
  intros j. destruct (decide (i = j)) as [<-|Hij].
  - assert (Hi' : (i < length (a_status a))%nat).
    { destruct (lookup_lt_is_Some_2 _ _ Hi) as [t Ht]. specialize (Hth i). simpl in Hth. rewrite Ht in Hth.
      destruct (a_status a !! i) eqn:E; [by eapply lookup_lt_Some|]. by destruct t. }
    by rewrite !list_lookup_insert_eq.
  - rewrite !list_lookup_insert_ne by done. eapply thread_ok_stable; [apply Hth|auto|].
    by eapply guarantee_rely.
Qed.

(** The thread of a simulated step, with what it may do next. *)
Lemma sim_active d o ts a i p :
  sim (Conf d o ts) a → ts !! i = Some (Some p) →
  ∃ c b, a_status a !! i = Some (status_of c b) ∧ (i < length ts)%nat
    ∧ safe c (holds o gmutex_ i) (holds o umutex_ i) b p (a_db a, d).
Proof.
  intros [_ _ Hth] Hi. specialize (Hth i). simpl in Hth. rewrite Hi in Hth.
  destruct (a_status a !! i) as [st|]; [|done]. destruct Hth as (c & b & -> & Hs).
  exists c, b. split_and!; [done|by eapply lookup_lt_Some|done].
Qed.

Lemma sim_call d o ts a i c :
  sim (Conf d o ts) a → ts !! i = Some None → locked c = true →
  let a' := Atomic (a_db a) (<[i := Called c]> (a_status a)) in
  sim (Conf d o (<[i := Some (prog_of c)]> ts)) a' ∧ a_status a !! i = Some Idle ∧ run astep a [Call i c] a'.
Proof.
  intros Hsim Hi Hc. pose proof (sim_threads _ _ Hsim i) as Ht. simpl in Ht. rewrite Hi in Ht.
  destruct (a_status a !! i) as [[| |]|] eqn:Es; try done. destruct Ht as [Hg Hu].
  split_and!; [|done|].
  - eapply sim_step; [done|reflexivity|done|apply Hsim|apply Hsim|by eapply lookup_lt_Some|done|].
    exists c, None. split; [done|]. rewrite Hg, Hu. by apply safe_start.
  - eapply run_event; [|constructor]. destruct a. by apply astep_call.
Qed.

Lemma sim_return d o ts a i r :
  sim (Conf d o ts) a → ts !! i = Some (Some (Return r)) →
  let a' := Atomic (a_db a) (<[i := Idle]> (a_status a)) in
  sim (Conf d o (<[i := None]> ts)) a' ∧ a_status a !! i = Some (Answered r) ∧ run astep a [Ret i r] a'.
Proof.
  intros Hsim Hi. destruct (sim_active _ _ _ _ _ _ Hsim Hi) as (c & b & Es & Hlt & Hs).
  destruct (Hs (a_db a, d) (sim_inv _ _ Hsim) ltac:(reflexivity)) as (Hg & Hu & ->).
  split_and!; [|done|].
  - eapply sim_step; [done|reflexivity|done|apply Hsim|apply Hsim|done|done|]. by split.
  - eapply run_event; [|constructor]. destruct a. by apply astep_return.
Qed.

(** A silent step of thread [i] that needs no step of the atomic database. *)
Lemma sim_lock d o ts a i m (t : option nat) p k :
  sim (Conf d o ts) a → ts !! i = Some (Some p) →
  (t = Some i ∧ o m = None ∨ t = None ∧ o m = Some i) →
  (t = None → agree m (a_db a, d)) →
  (∀ c b, a_status a !! i = Some (status_of c b) → safe c (holds o gmutex_ i) (holds o umutex_ i) b p (a_db a, d) →
     safe c (holds (set_owner m t o) gmutex_ i) (holds (set_owner m t o) umutex_ i) b k (a_db a, d)) →
  sim (Conf d (set_owner m t o) (<[i := Some k]> ts)) a.
Proof.
  intros Hsim Hi Ht Hag Hk. destruct (sim_active _ _ _ _ _ _ Hsim Hi) as (c & b & Es & Hlt & Hs).
  destruct a as [ad ss]. simpl in *. eapply (sim_step _ _ _ _ i (Some k) (status_of c b)); [done|reflexivity| | | |done| |].
  - intros m' j Hij. apply (holds_other _ _ _ _ i); [done|..]; naive_solver.
  - apply Hsim.
  - intros m' Hm'. unfold set_owner in Hm'. case_decide; [subst; auto|]. by apply Hsim.
  - by rewrite list_insert_id.
  - exists c, b. split; [done|]. by apply Hk.
Qed.

Lemma sim_acquire d o ts a i m k :
  sim (Conf d o ts) a → ts !! i = Some (Some (Acquire m k)) → o m = None →
  sim (Conf d (set_owner m (Some i) o) (<[i := Some k]> ts)) a.
Proof.
  intros Hsim Hi Ho. eapply sim_lock; [done|done|by left|done|]. intros c b _ Hs.
  specialize (Hs (a_db a, d) (sim_inv _ _ Hsim) ltac:(reflexivity)). pose proof (sim_free _ _ Hsim m Ho) as Hag.
  rewrite !holds_set, !(bool_decide_true (Some i = Some i)) by done.
  destruct m; destruct Hs as [_ Hs]; cbn [decide]; by apply Hs.
Qed.

Lemma sim_release d o ts a i m k :
  sim (Conf d o ts) a → ts !! i = Some (Some (Release m k)) → o m = Some i →
  sim (Conf d (set_owner m None o) (<[i := Some k]> ts)) a.
Proof.
  intros Hsim Hi Ho. eapply sim_lock; [done|done|by right| |].
  - intros _. destruct (sim_active _ _ _ _ _ _ Hsim Hi) as (c & b & _ & _ & Hs).
    specialize (Hs (a_db a, d) (sim_inv _ _ Hsim) ltac:(reflexivity)). by destruct m; destruct Hs as (_ & Hag & _).
  - intros c b _ Hs. specialize (Hs (a_db a, d) (sim_inv _ _ Hsim) ltac:(reflexivity)).
    rewrite !holds_set, !(bool_decide_false (None = Some i)) by done. by destruct m; destruct Hs as (_ & _ & Hs).
Qed.

(** A step on a container, under its mutex, with the effect of the call. *)
Lemma sim_access d o ts a i m p d' q :
  sim (Conf d o ts) a → ts !! i = Some (Some p) → holds o m i = true →
  (∀ m', m' ≠ m → ∀ x, agree m' (x, d') = agree m' (x, d)) →
  (∀ c b, safe c (holds o gmutex_ i) (holds o umutex_ i) b p (a_db a, d) → ∃ b' e,
     effect c b (a_db a) b' e
     ∧ keeps (negb (holds o gmutex_ i)) (negb (holds o umutex_ i)) (a_db a, d) (e, d')
     ∧ safe c (holds o gmutex_ i) (holds o umutex_ i) b' q (e, d')) →
  ∃ a', sim (Conf d' o (<[i := Some q]> ts)) a' ∧ run astep a [] a'.
Proof.
  intros Hsim Hi Hm Hd Hstep. destruct (sim_active _ _ _ _ _ _ Hsim Hi) as (c & b & Es & Hlt & Hs).
  destruct (Hstep c b Hs) as (b' & e & He & Hk & Hs'). exists (Atomic e (<[i := status_of c b']> (a_status a))).
  split; [|destruct a; by eapply effect_run]. eapply sim_step; [done|exact Hk|done| | |done|done|].
  - eapply effect_inv; [exact He|apply Hsim].
  - intros m' Hm'. assert (Hg : holds o m' i = false) by (by apply holds_none).
    pose proof (sim_free _ _ Hsim m' Hm') as Hag. rewrite Hd in * by congruence. simpl in Hag.
    destruct Hk as [Hkg Hku]. destruct m'; simpl in *; rewrite Hg in *.
    + destruct (Hkg eq_refl) as (-> & _ & _). done.
    + destruct (Hku eq_refl) as [-> _]. done.
  - by exists c, b'.
Qed.

Lemma sim_cstep c a l c' :
  sim c a → cstep c l c' → (∀ i k, l = Some (Call i k) → locked k = true) →
  ∃ a', sim c' a' ∧ run astep a (option_list l) a'.
Proof.
  intros Hsim Hstep Hl. destruct Hstep as [d o ts i k Hi|d o ts i r Hi|d o ts i m k Hi Ho|d o ts i m k Hi Ho|d o ts i f k Hi|d o ts i f k Hi].
  - destruct (sim_call _ _ _ _ _ _ Hsim Hi (Hl _ _ eq_refl)) as (? & _ & ?). eauto.
  - destruct (sim_return _ _ _ _ _ _ Hsim Hi) as (? & _ & ?). eauto.
  - exists a. split; [by apply sim_acquire|constructor].
  - exists a. split; [by apply sim_release|constructor].
  - destruct (sim_active _ _ _ _ _ _ Hsim Hi) as (c & b & _ & _ & Hs).
    destruct (Hs (a_db a, d) (sim_inv _ _ Hsim) ltac:(reflexivity)) as [Hg _].
    eapply (sim_access _ _ _ _ _ gmutex_); [done|done|done|by intros []|].
    intros c' b' Hs'. by destruct (Hs' (a_db a, d) (sim_inv _ _ Hsim) ltac:(reflexivity)) as [_ ?].
  - destruct (sim_active _ _ _ _ _ _ Hsim Hi) as (c & b & _ & _ & Hs).
    destruct (Hs (a_db a, d) (sim_inv _ _ Hsim) ltac:(reflexivity)) as [Hg _].
    eapply (sim_access _ _ _ _ _ umutex_); [done|done|done|by intros []|].
    intros c' b' Hs'. by destruct (Hs' (a_db a, d) (sim_inv _ _ Hsim) ltac:(reflexivity)) as [_ ?].
Qed.

Lemma sim_start d n : mem_inv d → sim (start d n) (astart d n).
Proof.
  intros Hinv. split; simpl; [done|by intros []|]. intros i.
  destruct (decide (i < n)%nat) as [Hi|Hi].
  - by rewrite !lookup_replicate_2 by done.
  - by rewrite !lookup_ge_None_2 by (rewrite length_replicate; lia).
Qed.

Lemma sim_run c tr c' a :
  sim c a → run cstep c tr c' → (∀ i k, Call i k ∈ tr → locked k = true) →
  ∃ a', sim c' a' ∧ run astep a tr a'.
Proof.
  intros Hsim Hrun. revert a Hsim. induction Hrun as [c|c c1 c2 tr Hs _ IH|c e c1 c2 tr Hs _ IH]; intros a Hsim Hl.
  - exists a. split; [done|constructor].
  - destruct (sim_cstep _ _ _ _ Hsim Hs ltac:(done)) as (a1 & Hsim1 & Hr1).
    destruct (IH a1 Hsim1 Hl) as (a2 & Hsim2 & Hr2). exists a2. split; [done|]. by apply (run_app _ _ [] a1).
  - destruct (sim_cstep _ _ _ _ Hsim Hs) as (a1 & Hsim1 & Hr1).
    { intros i k [= ->]. apply (Hl i). by left. }
    destruct (IH a1 Hsim1) as (a2 & Hsim2 & Hr2).
    { intros i k Hk. apply (Hl i). by right. }
    exists a2. split; [done|]. by apply (run_app _ _ [e] a1).
Qed.

(** When every thread is idle, the shared database is the atomic one. *)
Lemma sim_quiet c a : sim c a → Forall (λ t, t = None) (c_threads c) → c_db c = a_db a.
Proof.
  intros [_ Hfree Hth] Hidle. assert (Hnone : ∀ m, c_owner c m = None).
  { intros m. destruct (c_owner c m) as [i|] eqn:E; [|done]. specialize (Hth i).
    assert (Hh : holds (c_owner c) m i = true) by (by apply bool_decide_eq_true).
    destruct (c_threads c !! i) as [t|] eqn:Et.
    - assert (t = None) as -> by (by eapply Forall_lookup_1 in Hidle).
      destruct (a_status a !! i) as [[]|]; try done. destruct m, Hth; congruence.
    - destruct (a_status a !! i); [done|]. destruct m, Hth; congruence. }
  pose proof (Hfree gmutex_ (Hnone _)) as Eg. pose proof (Hfree umutex_ (Hnone _)) as Eu. simpl in *.
  destruct (c_db c), (a_db a). simpl in *. congruence.
Qed.
End machine.

(** C21: The shared database is linearizable: whatever the threads call, but
    the membership query, and however their steps interleave, the calls and
    returns observed are those of a database on which every call takes effect
    at once, at some moment between its start and its return; and when no call
    is running the two databases are equal. *)
Theorem database_linearizable d n tr c :
  mem_inv d → (∀ i k, Call i k ∈ tr → locked k = true) → run cstep (start d n) tr c →
  ∃ a, run astep (astart d n) tr a ∧ (Forall (λ t, t = None) (c_threads c) → c_db c = a_db a).
Proof.
  intros Hd Hl Hrun. destruct (sim_run _ _ _ _ (sim_start d n Hd) Hrun Hl) as (a & Hsim & Hr).
  exists a. split; [done|]. by apply sim_quiet.
Qed.

(** Every access to a container is made by the owner of its mutex, so no two
    threads race. *)
Definition race_free (c : conf) : Prop :=
  ∀ i, (∀ f k, c_threads c !! i = Some (Some (OnGroups f k)) → c_owner c gmutex_ = Some i)
     ∧ (∀ f k, c_threads c !! i = Some (Some (OnUsers f k)) → c_owner c umutex_ = Some i).

Lemma sim_race_free c a : sim c a → race_free c.
Proof.
  destruct c as [d o ts]. intros Hsim i. split; intros f k Hi;
    destruct (sim_active _ _ _ _ _ _ Hsim Hi) as (c & b & _ & _ & Hs);
    destruct (Hs (a_db a, d) (sim_inv _ _ Hsim) ltac:(reflexivity)) as [Hg _]; by apply bool_decide_eq_true in Hg.
Qed.

(** Calls other than the membership query never race. *)
Theorem locked_calls_race_free d n tr c :
  mem_inv d → (∀ i k, Call i k ∈ tr → locked k = true) → run cstep (start d n) tr c → race_free c.
Proof.
  intros Hd Hl Hrun. destruct (sim_run _ _ _ _ (sim_start d n Hd) Hrun Hl) as (a & Hsim & _).
  by eapply sim_race_free.
Qed.

(** *** A run of two threads, and the query that is not linearizable *)

Definition one_group : MemDatabase := Mem [("group", [("ann", tt)])] [("ann", "secret")].

Lemma one_group_inv : mem_inv one_group.
Proof.
  assert (Hsub : ∀ g s, map_find g (groups_ one_group) = Some s → s = [("ann", tt)]).
  { intros g s. simpl. by destruct (String.compare g "group"); intros [= <-]. }
  constructor.
  - repeat constructor.
  - repeat constructor.
  - intros g s ->%Hsub. repeat constructor.
  - intros g s u ->%Hsub. unfold set_mem, map_mem. simpl. by destruct (String.compare u "ann").
Qed.

Definition two_steps : list (nat * call) :=
  let get i := (i, Keys "group") in let new i := (i, Op (OpCreateUser "bob" "hidden")) in
  [get 0; new 1; get 0; get 0; get 0; new 1; new 1; new 1; new 1; get 0; get 0; get 0; get 0; get 0; new 1; get 0; get 0]%nat.

Lemma database_linearizable_witness :
  ∃ c, c_db c = Mem [("group", [("ann", tt)])] [("ann", "secret"); ("bob", "hidden")] ∧
  ∃ a, run astep (astart one_group 2)
      [Call 0 (Keys "group"); Call 1 (Op (OpCreateUser "bob" "hidden")); Ret 1 done_;
       Ret 0 (Ok (KeyList [key_array "secret"]))] a
    ∧ (Forall (λ t, t = None) (c_threads c) → c_db c = a_db a).
Proof.
  eexists. split; [|eapply (database_linearizable one_group 2);
    [apply one_group_inv
    |intros i k; rewrite !elem_of_cons, elem_of_nil; intros [[= _ ->]|[[= _ ->]|[[=]|[[=]|[]]]]]; reflexivity
    |apply (schedule_run two_steps); vm_compute; reflexivity]]. reflexivity.
Defined.

(** A query that finds the group just before another thread deletes
    everything, and reads it just after. *)
Definition member_query : call := Op (OpMember "ann" "group").

Definition racing_query : list event :=
  [Call 0 member_query; Call 1 (Op OpDeleteAll); Ret 1 done_; Ret 0 (Ok (Plain (Some false)))].

Definition race_steps : list (nat * call) :=
  let ask := (0%nat, member_query) in let clear := (1%nat, Op OpDeleteAll) in
  [ask; ask; clear; clear; clear; clear; clear; clear; clear; clear; ask; ask; ask].

(** On the atomic database the query never answers no: either the member is
    there or the group is not. *)
Definition never_no (a : astate) : Prop :=
  (a_db a = one_group ∨ a_db a = mem_empty) ∧
  ∀ i st, a_status a !! i = Some st →
    match st with
    | Idle => True
    | Called c => c = member_query ∨ c = Op OpDeleteAll
    | Answered r => r ≠ Ok (Plain (Some false))
    end.

Lemma never_no_set d ss i st :
  never_no (Atomic d ss) →
  match st with
  | Idle => True
  | Called c => c = member_query ∨ c = Op OpDeleteAll
  | Answered r => r ≠ Ok (Plain (Some false))
  end → ∀ d', d' = one_group ∨ d' = mem_empty → never_no (Atomic d' (<[i := st]> ss)).
Proof.
  intros [_ Hs] Hst d' Hd'. split; [done|]. intros j st' Hj. simpl in *.
  destruct (decide (i = j)) as [<-|]; [|rewrite list_lookup_insert_ne in Hj by done; by eapply Hs].
  apply list_lookup_insert_Some in Hj as [(_ & <- & _)|[]]; done.
Qed.

Lemma never_no_effect c d r d' :
  c = member_query ∨ c = Op OpDeleteAll → d = one_group ∨ d = mem_empty → atomic c d = (r, d') →
  r ≠ Ok (Plain (Some false)) ∧ (d' = one_group ∨ d' = mem_empty).
Proof. intros [-> | ->] [-> | ->]; vm_compute; intros [= <- <-]; split; try done; by (left + right). Qed.

Lemma never_no_run a tr a' :
  run astep a tr a' → never_no a → (∀ i c, Call i c ∈ tr → c = member_query ∨ c = Op OpDeleteAll) →
  ∀ i, Ret i (Ok (Plain (Some false))) ∉ tr.
Proof.
  induction 1 as [a|a a1 a2 tr Hs _ IH|a e a1 a2 tr Hs _ IH]; intros Hn Hc i.
  - apply not_elem_of_nil.
  - apply IH; [|done]. inversion Hs as [|d ss j c r d' Hj Hat|]; subst. destruct Hn as [Hd Hst].
    destruct (never_no_effect c d r d' (Hst j _ Hj) Hd Hat) as [Hr Hd'].
    by apply (never_no_set d); [by split|..].
  - assert (Hc' : ∀ i c, Call i c ∈ tr → c = member_query ∨ c = Op OpDeleteAll)
      by (intros j c Hj; apply (Hc j); by right).
    rewrite not_elem_of_cons. inversion Hs as [d ss j c Hj|?|d ss j r Hj]; subst; (split; [|apply IH; [|done]]).
    + done.
    + apply (never_no_set d); [done|apply (Hc j); by left|apply Hn].
    + intros [= <- <-]. destruct Hn as [_ Hst]. by specialize (Hst _ _ Hj).
    + apply (never_no_set d); [done|done|apply Hn].
Qed.

(** C32: The membership query takes no mutex and is not linearizable: while
    another thread deletes all data it can answer that a member of the group is
    not one, which no atomic database would answer, and it leaves the deleted
    group behind, empty. *)
Theorem membership_query_races :
  mem_inv one_group ∧
  (∃ c, run cstep (start one_group 2) racing_query c
        ∧ Forall (λ t, t = None) (c_threads c) ∧ c_db c = Mem [("group", [])] [])
  ∧ ¬ ∃ a, run astep (astart one_group 2) racing_query a.
Proof.
  split_and!; [apply one_group_inv| |].
  - eexists. split; [apply (schedule_run race_steps); vm_compute; reflexivity|]. split; [by repeat constructor|done].
  - intros [a Ha]. apply (never_no_run _ _ _ Ha) with 0%nat.
    + split; [by left|]. intros i st Hi. by apply lookup_replicate_1 in Hi as [-> _].
    + intros i c. unfold racing_query. rewrite !elem_of_cons, elem_of_nil. naive_solver.
    + unfold racing_query. rewrite !elem_of_cons. auto.
Qed.
