(* ===== verification/Locks.v ===== *)
(** * Do the calls return?

    The order in which the member functions take the two mutexes, on the
    threads of [Concurrent]: functions that take the group mutex first always
    return, however the threads are scheduled, while [delete_user] and
    [delete_all_data] take the mutexes in the other order and can block each
    of them for ever. *)

From stdpp Require Import base gmap strings list relations.
From Stdlib Require Import Lia.
From S2P Require Import Prelude Cxx StdMap Database MemDatabase Concurrent.

(** ** Steps of the calls that are running *)

Definition nstep (c c' : conf) : Prop :=
  ∃ l, cstep c l c' ∧ ∀ i k, l ≠ Some (Call i k).

Definition idle (c : conf) : Prop := Forall (λ t, t = None) (c_threads c).
Definition deadlocked (c : conf) : Prop := ¬ idle c ∧ ∀ c', ¬ nstep c c'.

(** *** Every call has finitely many steps *)

(** What a thread becomes in one step of its call. *)
Inductive child : option prog → option prog → Prop :=
| child_return r : child None (Some (Return r))
| child_acquire m k : child (Some k) (Some (Acquire m k))
| child_release m k : child (Some k) (Some (Release m k))
| child_groups f k gs : child (Some (k gs)) (Some (OnGroups f k))
| child_users f k us : child (Some (k us)) (Some (OnUsers f k)).

Lemma child_wf : well_founded child.
Proof.
  assert (Hnone : Acc child None) by (constructor; intros t Ht; inversion Ht).
  intros [p|]; [|done]. induction p; constructor; intros t Ht; inversion Ht; subst; auto.
Qed.

(** One element of a list goes down. *)
Definition one_down {A} (R : A → A → Prop) (l' l : list A) : Prop :=
  ∃ i x y, l !! i = Some x ∧ R y x ∧ l' = <[i := y]> l.

Lemma one_down_wf {A} (R : A → A → Prop) : well_founded R → well_founded (one_down R).
Proof.
  intros Hwf l. induction l as [|x l IH].
  { constructor. intros l' (i & x & y & Hi & _). by rewrite lookup_nil in Hi. }
  induction (Hwf x) as [x _ IHx] in l, IH |- *. induction IH as [l Hl IHl].
  constructor. intros l' ([|i] & x' & y & Hi & Hy & ->); simplify_eq/=.
  - apply IHx; [done|]. by constructor.
  - apply IHl. by exists i, x', y.
Qed.

Lemma nstep_down c c' : nstep c c' → one_down child (c_threads c') (c_threads c).
Proof.
  intros (l & Hs & Hl). inversion Hs as [d o ts i k Hi|d o ts i r Hi|d o ts i m k Hi Ho|d o ts i m k Hi Ho|d o ts i f k Hi|d o ts i f k Hi];
    subst; simpl; [by destruct (Hl i k)|..]; exists i; do 2 eexists; (split_and!; [exact Hi|constructor|done]).
Qed.

(** Without new calls, no run goes on for ever. *)
Lemma calls_terminate c : sn nstep c.
Proof.
  destruct c as [d o ts]. induction (one_down_wf child child_wf ts) as [ts _ IH] in d, o |- *.
  constructor. intros [d' o' ts'] Hs. apply nstep_down in Hs. by apply IH.
Qed.

(** ** Ordered programs

    [ordered g u p]: holding the group mutex iff [g] and the user mutex iff
    [u], the program takes the group mutex only when it holds nothing and the
    user mutex at most once at a time, and ends without holding one. *)
Fixpoint ordered (g u : bool) (p : prog) : Prop :=
  match p with
  | Return _ => g = false ∧ u = false
  | Acquire gmutex_ k => g = false ∧ u = false ∧ ordered true u k
  | Acquire umutex_ k => u = false ∧ ordered g true k
  | Release gmutex_ k => g = true ∧ ordered false u k
  | Release umutex_ k => u = true ∧ ordered g false k
  | OnGroups _ k => ∀ gs, ordered g u (k gs)
  | OnUsers _ k => ∀ us, ordered g u (k us)
  end.

(** The calls that are ordered: all but the deletions. *)
Definition ordered_call (c : call) : bool :=
  match c with Op (OpDeleteUser _) | Op OpDeleteAll => false | _ => true end.

Lemma ordered_keys_loop uids acc : ordered true false (keys_loop uids acc).
Proof.
  revert acc. induction uids as [|u uids IH]; intros acc; [done|]. cbn [keys_loop ordered].
  split_and!; [done|]. intros us. destruct (map_mem u us); cbn [ordered]; auto.
Qed.

Lemma ordered_call_ok c : ordered_call c = true → ordered false false (prog_of c).
Proof.
  destruct c as [[]|]; try done; intros _; repeat (cbn [ordered prog_of] || intros ? || split || done ||
    (progress unfold prog_create_user, prog_create_group, prog_add_user_to_group, prog_remove_user_from_group,
       prog_is_user_part_of_group, prog_get_keys_of_group, checking_user) || apply ordered_keys_loop || case_match).
Qed.

(** Every thread is ordered with respect to what it holds. *)
Definition thread_ordered (o : mutex → option nat) (i : nat) (t : option (option prog)) : Prop :=
  match t with
  | Some (Some p) => ordered (holds o gmutex_ i) (holds o umutex_ i) p
  | _ => holds o gmutex_ i = false ∧ holds o umutex_ i = false
  end.

Definition lock_inv (c : conf) : Prop := ∀ i, thread_ordered (c_owner c) i (c_threads c !! i).

Lemma lock_inv_step d o ts d' o' i p :
  lock_inv (Conf d o ts) → (i < length ts)%nat →
  (∀ m j, i ≠ j → holds o' m j = holds o m j) → thread_ordered o' i (Some p) →
  lock_inv (Conf d' o' (<[i := p]> ts)).
Proof.
  intros Hinv Hi Ho Hp j. simpl. destruct (decide (i = j)) as [<-|Hij].
  - by rewrite list_lookup_insert_eq.
  - rewrite list_lookup_insert_ne by done. specialize (Hinv j). simpl in Hinv.
    unfold thread_ordered in *. by rewrite !Ho.
Qed.

Lemma step_inv c l c' :
  cstep c l c' → (∀ i k, l = Some (Call i k) → ordered_call k = true) → lock_inv c → lock_inv c'.
Proof.
  intros Hs Hl Hinv. destruct Hs as [d o ts i k Hi|d o ts i r Hi|d o ts i m k Hi Ho|d o ts i m k Hi Ho|d o ts i f k Hi|d o ts i f k Hi];
    pose proof (Hinv i) as Ht; simpl in Ht; rewrite Hi in Ht; cbn in Ht;
    (eapply lock_inv_step; [exact Hinv|by eapply lookup_lt_Some| |cbn]).
  all: try (intros m' j Hij; done || (apply (holds_other _ _ _ _ i); [done|..]; auto)).
  - destruct Ht as [-> ->]. apply ordered_call_ok. by eapply Hl.
  - done.
  - rewrite !holds_set, !(bool_decide_true (Some i = Some i)) by done. destruct m; naive_solver.
  - rewrite !holds_set, !(bool_decide_false (None = Some i)) by done. destruct m; naive_solver.
  - apply Ht.
  - apply Ht.
Qed.

(** ** Progress *)

(** A running call is blocked only in front of a mutex that is taken. *)
Lemma thread_moves d o ts i p :
  ts !! i = Some (Some p) → ordered (holds o gmutex_ i) (holds o umutex_ i) p →
  (∀ m k, p = Acquire m k → o m = None) → ∃ c', nstep (Conf d o ts) c'.
Proof.
  intros Hi Hp Hm. destruct p as [r|m k|m k|f k|f k]; cbn in Hp.
  - eexists. exists (Some (Ret i r)). split; [by constructor|done].
  - eexists. exists None. split; [by eapply (cstep_acquire d o ts i); [|eapply Hm]|done].
  - eexists. exists None. split; [|done]. eapply (cstep_release d o ts i); [done|].
    destruct m; destruct Hp as [Hp _]; by apply bool_decide_eq_true in Hp.
  - eexists. exists None. split; [by eapply (cstep_groups d o ts i)|done].
  - eexists. exists None. split; [by eapply (cstep_users d o ts i)|done].
Qed.

(** Who holds the user mutex is never blocked; who holds the group mutex is
    blocked only by the user mutex. *)
Lemma owner_moves c m i :
  lock_inv c → c_owner c m = Some i → (m = umutex_ ∨ c_owner c umutex_ = None) → ∃ c', nstep c c'.
Proof.
  destruct c as [d o ts]. simpl. intros Hinv Ho Hu. specialize (Hinv i). simpl in Hinv.
  pose proof (holds_true _ _ _ Ho) as Hm.
  destruct (ts !! i) as [[p|]|] eqn:Hi; [|destruct m, Hinv; congruence|destruct m, Hinv; congruence].
  eapply thread_moves; [done|done|]. intros m' k ->. cbn in Hinv. destruct m'.
  - destruct Hinv as (Hg & Hh & _). destruct m; congruence.
  - destruct Hinv as (Hh & _). destruct Hu as [-> |Hu]; [congruence|done].
Qed.

Lemma progress c : lock_inv c → ¬ idle c → ∃ c', nstep c c'.
Proof.
  intros Hinv Hni. destruct (c_owner c umutex_) as [i|] eqn:Eu; [by eapply owner_moves; eauto|].
  destruct (c_owner c gmutex_) as [i|] eqn:Eg; [by eapply owner_moves; eauto|].
  apply not_Forall_Exists in Hni; [|intros [p|]; [by right|by left]].
  apply Exists_exists in Hni as ([p|] & Hin & Hne); [|by destruct Hne]. apply list_elem_of_lookup in Hin as [i Hi].
  destruct c as [d o ts]. simpl in *. pose proof (Hinv i) as Hp. simpl in Hp. rewrite Hi in Hp.
  eapply thread_moves; [done|exact Hp|]. by intros [] k _.
Qed.

Lemma start_inv d n : lock_inv (start d n).
Proof.
  intros i. simpl. unfold thread_ordered. destruct (replicate n None !! i) as [t|] eqn:E; [|done].
  by apply lookup_replicate_1 in E as [-> _].
Qed.

Lemma run_inv c tr c' :
  run cstep c tr c' → (∀ i k, Call i k ∈ tr → ordered_call k = true) → lock_inv c → lock_inv c'.
Proof.
  induction 1 as [c|c c1 c2 tr Hs _ IH|c e c1 c2 tr Hs _ IH]; intros Hc Hinv; [done|..].
  - apply IH; [done|]. by eapply step_inv.
  - apply IH; [intros i k Hk; apply (Hc i); by right|]. eapply step_inv; [done| |done].
    intros i k [= ->]. apply (Hc i). by left.
Qed.

Lemma nstep_inv c c' : nstep c c' → lock_inv c → lock_inv c'.
Proof. intros (l & Hs & Hl) Hinv. eapply step_inv; [done| |done]. intros i k ->. by destruct (Hl i k). Qed.

(** Threads that call any member functions but the two deletions always
    return, however they are scheduled: from every state they reach, no run
    without new calls goes on for ever, and none is stuck before all threads
    are idle again. *)
Theorem ordered_calls_return d n tr c :
  (∀ i k, Call i k ∈ tr → ordered_call k = true) → run cstep (start d n) tr c →
  sn nstep c ∧ ∀ c', rtc nstep c c' → ¬ deadlocked c'.
Proof.
  intros Hc Hrun. split; [apply calls_terminate|]. intros c' Hrtc [Hni Hstuck].
  assert (Hinv : lock_inv c').
  { assert (Hinv : lock_inv c) by (eapply run_inv; [done|done|apply start_inv]).
    clear -Hinv Hrtc. induction Hrtc; eauto using nstep_inv. }
  destruct (progress c' Hinv Hni) as [c'' Hs]. by apply (Hstuck c'').
Qed.

Lemma ordered_calls_return_witness :
  ∃ c, c_threads c !! 1%nat = Some (Some (prog_create_user "bob" "key"))
    ∧ sn nstep c ∧ ∀ c', rtc nstep c c' → ¬ deadlocked c'.
Proof.
  set (s := [(0, Keys "group"); (1, Op (OpCreateUser "bob" "key")); (0, Keys "group")]%nat).
  eexists. split; [|eapply (ordered_calls_return mem_empty 2
      [Call 0 (Keys "group"); Call 1 (Op (OpCreateUser "bob" "key"))]);
    [intros i k; rewrite !elem_of_cons, elem_of_nil; intros [[= _ ->]|[[= _ ->]|[]]]; reflexivity
    |apply (schedule_run s); vm_compute; reflexivity]]. reflexivity.
Defined.

(** Two threads that wait for the mutex the other one holds. *)
Lemma crossed_deadlock d k k' :
  deadlocked (Conf d (set_owner gmutex_ (Some 1%nat) (set_owner umutex_ (Some 0%nat) free))
    [Some (Acquire gmutex_ k); Some (Acquire umutex_ k')]).
Proof.
  split; [intros Hf; by apply Forall_cons in Hf as [[=] _]|]. intros c' (l & Hs & _).
  inversion Hs as [? ? ? i ? Hi|? ? ? i ? Hi|? ? ? i m ? Hi Ho|? ? ? i ? ? Hi|? ? ? i ? ? Hi|? ? ? i ? ? Hi]; subst;
    destruct i as [|[|i]]; simplify_eq/=; discriminate.
Qed.

(** C33: A deletion and an addition to a group that exists can block each
    other for ever: each holds the mutex the other waits for. *)
Theorem deletion_can_deadlock d k g u :
  ordered_call k = false → map_mem g (groups_ d) = true →
  ∃ c, run cstep (start d 2) [Call 0 k; Call 1 (Op (OpAdd g u))] c ∧ deadlocked c.
Proof.
  intros Hk Hg. destruct k as [[]|] eqn:Ek; try done; rewrite <-Ek;
    (eexists; split; [|apply crossed_deadlock]);
    apply (schedule_run [(0, k); (1, Op (OpAdd g u)); (0, k); (1, k); (1, k)]%nat);
    rewrite Ek; simpl; rewrite set_groups_id, Hg; reflexivity.
Qed.

Lemma deletion_can_deadlock_witness :
  ∃ c, run cstep (start (Mem [("group", [])] []) 2)
         [Call 0 (Op (OpDeleteUser "ann")); Call 1 (Op (OpAdd "group" "ann"))] c ∧ deadlocked c.
Proof. apply (deletion_can_deadlock (Mem [("group", [])] [])); reflexivity. Defined.
