(* ===== verification/Client.v ===== *)
(** * The prototype client (client.cpp, crypto.cpp)

    The search of a key envelope made of hints and keys: the sequential loop,
    the split of the work among threads, the simulated envelope of the test,
    and the random keys it uses.  A read outside of the ciphertext and an
    overflow of [int] are [Undefined]. *)

From stdpp Require Import base gmap strings list.
From Stdlib Require Import ZArith Ascii Lia.
From S2P Require Import Prelude Cxx.

Definition iv : string := "wWw456789012345678901234567890IV".
Definition positive_hint : string := "11111111111111111111111111111111".
Definition negative_hint : string := "00000000000000000000000000000000".
Definition THREADS_COUNT : Z := 4.

(** [int]: a result out of range is undefined. *)
Definition as_int (z : Z) : outcome exn Z :=
  if (- 2 ^ 31 <=? z) && (z <? 2 ^ 31) then Ok z else Undefined.

(** [(int) (c_size / 64)]: the conversion keeps the low 32 bits. *)
Definition trials_of (c_size : Z) : Z := wrap_signed 32 (c_size / 64).

(** [len] bytes at [pos] of a buffer. *)
Definition read_at (buf : string) (pos len : Z) : outcome exn string :=
  if (0 <=? pos) && (pos + len <=? Z.of_nat (String.length buf))
  then Ok (str_take (Z.to_nat len) (str_drop (Z.to_nat pos) buf)) else Undefined.

Section client.
(** AES-256 in counter mode, as the EVP functions compute it: the same
    function encrypts and decrypts. *)
Context (EVP_aes_256_ctr : string → string → string → string).

Definition aes_encrypt (plaintext key : string) : string := EVP_aes_256_ctr key iv plaintext.
Definition aes_decrypt (ciphertext key : string) : string := EVP_aes_256_ctr key iv ciphertext.

(** ** The sequential search *)

Inductive file_key_result : Type :=
| FileKey (key : string)      (** 0, with [*p_file_key] and [*p_fk_size = 32] *)
| NoHint.                     (** -1 *)

Fixpoint user_get_file_key_loop (trials : nat) (user_key ciphertext : string) (pos : Z)
    : outcome exn file_key_result :=
  match trials with
  | O => Ok NoHint
  | S n =>
      obind (read_at ciphertext pos 32) (λ hint,
      if (aes_decrypt hint user_key =? positive_hint)%string then
        obind (read_at ciphertext (pos + 32) 32) (λ fk, Ok (FileKey (aes_decrypt fk user_key)))
      else user_get_file_key_loop n user_key ciphertext (pos + 64))
  end.

Definition user_get_file_key (user_key ciphertext : string) (c_size : Z)
    : outcome exn file_key_result :=
  user_get_file_key_loop (Z.to_nat (trials_of c_size)) user_key ciphertext 0.

(** ** The search with threads *)

(** [myThreadFun] run without interruption from the flag [FOUND_POSITIVE]; the
    decrypted key goes to a local array and is lost. *)
Fixpoint thread_loop (trials : nat) (user_key ciphertext : string) (pos : Z) (found : bool)
    : outcome exn bool :=
  match trials with
  | O => Ok found
  | S n =>
      if (found : bool) then Ok found else
      obind (read_at ciphertext pos 32) (λ hint,
      if (aes_decrypt hint user_key =? positive_hint)%string then
        obind (read_at ciphertext (pos + 32) 32) (λ _, Ok true)
      else thread_loop n user_key ciphertext (pos + 64) found)
  end.

Definition myThreadFun (user_key ciphertext : string) (pos c_size : Z) (found : bool)
    : outcome exn bool :=
  thread_loop (Z.to_nat (trials_of c_size)) user_key ciphertext pos found.

(** The range of trials of thread [i]. *)
Definition thread_range (i trials : Z) : outcome exn (Z * Z) :=
  obind (as_int (i * trials)) (λ a,
  obind (as_int ((i + 1) * trials)) (λ b,
  let start_trials := Z.quot a THREADS_COUNT in
  let end_trials := Z.quot b THREADS_COUNT in
  Ok (start_trials, if trials <? end_trials then trials else end_trials))).

(** [_mt_user_get_file_key] when the threads run one after the other: the
    value of [FOUND_POSITIVE], and the return value.  Nothing is written to
    [p_file_key]. *)
Fixpoint mt_threads (ids : list Z) (user_key ciphertext : string) (trials : Z) (found : bool)
    : outcome exn bool :=
  match ids with
  | [] => Ok found
  | i :: ids =>
      obind (thread_range i trials) (λ r,
      obind (as_int ((r.2 - r.1) * 64)) (λ c_size,
      obind (as_int (64 * r.1)) (λ offset,
      obind (myThreadFun user_key ciphertext offset (wrap 64 c_size) found)
        (mt_threads ids user_key ciphertext trials))))
  end.

Definition mt_user_get_file_key (user_key ciphertext : string) (c_size : Z)
    : outcome exn (bool * Z) :=
  obind (mt_threads [0; 1; 2; 3] user_key ciphertext (trials_of c_size) false)
    (λ found, Ok (found, 0)).

(** ** The simulated reference monitor *)

Definition entry (hint file_key key : string) : string :=
  aes_encrypt hint key +:+ aes_encrypt file_key key.

(** The loop of [basic_user_validation_test]; [keys i] is the random key of
    entry [i]. *)
Fixpoint build_envelope (n : nat) (i : Z) (member : Z) (file_key user_key : string)
    (keys : Z → string) : string :=
  match n with
  | O => ""
  | S n =>
      (if i =? member then entry positive_hint file_key user_key
       else entry negative_hint file_key (keys i)) +:+
      build_envelope n (i + 1) member file_key user_key keys
  end.

(** The position of the member among [users_in_group]. *)
Definition member_position (users_in_group : Z) : Z := 2 * (users_in_group / 3).

Definition basic_envelope (users_in_group : nat) (file_key user_key : string)
    (keys : Z → string) : string :=
  build_envelope users_in_group 0 (member_position (Z.of_nat users_in_group)) file_key user_key keys.

(** ** The test program *)

Definition test_file_key : string := "12345678901234567890123456789012".
Definition test_user_key : string := "ux000000000000000000000000000000".

(** The test returns 0 before it compares the keys: the status of the search
    is not used. *)
Definition basic_user_validation_test (users_in_group : nat) (keys : Z → string) : outcome exn Z :=
  obind (as_int (Z.of_nat users_in_group * 32 * 2)) (λ size_of_ciphertext,
  obind (user_get_file_key test_user_key
           (basic_envelope users_in_group test_file_key test_user_key keys) size_of_ciphertext)
    (λ ret_status, Ok 0)).

(** [main] runs it on groups of four sizes; [keys g i] is the random key of
    entry [i] of group [g]. *)
Fixpoint run_tests (groups : list nat) (keys : nat → Z → string) : outcome exn Z :=
  match groups with
  | [] => Ok 0
  | n :: groups => obind (basic_user_validation_test n (keys n)) (λ _, run_tests groups keys)
  end.

Definition client_main (keys : nat → Z → string) : outcome exn Z :=
  run_tests (Z.to_nat <$> [100; 1000; 10000; 100000]) keys.
End client.

(** [random_stream]: bytes from [rand() % 255]. *)
Definition random_byte (r : Z) : Z := wrap 8 (Z.rem r 255).
Definition random_stream (draws : list Z) : string := string_of (random_byte <$> draws).

(** ** Correctness of the search *)

Section search.
Context (EVP_aes_256_ctr : string → string → string → string).
Let decrypt := aes_decrypt EVP_aes_256_ctr.

(** The hint and the key of entry [i] of a ciphertext. *)
Definition hint_at (ct : string) (i : Z) : string :=
  str_take 32 (str_drop (Z.to_nat (64 * i)) ct).
Definition key_at (ct : string) (i : Z) : string :=
  str_take 32 (str_drop (Z.to_nat (64 * i + 32)) ct).

(** Entry [i] is meant for the holder of [user_key]. *)
Definition opens (user_key ct : string) (i : Z) : bool :=
  (decrypt (hint_at ct i) user_key =? positive_hint)%string.

Lemma read_entry ct i k n :
  64 * n ≤ Z.of_nat (String.length ct) → 0 ≤ i < n → 0 ≤ k ≤ 32 →
  read_at ct (64 * i + k) 32 = Ok (str_take 32 (str_drop (Z.to_nat (64 * i + k)) ct)).
Proof.
  intros Hl Hi Hk. unfold read_at.
  rewrite (proj2 (Z.leb_le 0 (64 * i + k))), (proj2 (Z.leb_le (64 * i + k + 32) _)) by lia. done.
Qed.

(** The first entry from [i] on that [user_key] opens, among [n]. *)
Fixpoint first_open (n : nat) (user_key ct : string) (i : Z) : option Z :=
  match n with
  | O => None
  | S n => if opens user_key ct i then Some i else first_open n user_key ct (i + 1)
  end.

Lemma loop_first_open n user_key ct i :
  0 ≤ i → 64 * (i + Z.of_nat n) ≤ Z.of_nat (String.length ct) →
  user_get_file_key_loop EVP_aes_256_ctr n user_key ct (64 * i)
  = Ok (match first_open n user_key ct i with
        | Some j => FileKey (decrypt (key_at ct j) user_key)
        | None => NoHint
        end).
Proof.
  revert i. induction n as [|n IH]; intros i Hi Hl; [done|].
  cbn [user_get_file_key_loop first_open]. unfold opens, hint_at.
  pose proof (read_entry ct i 0 (i + Z.of_nat (S n)) Hl ltac:(lia) ltac:(lia)) as H0.
  rewrite Z.add_0_r in H0. rewrite H0. cbn [obind]. fold decrypt.
  case_match.
  - rewrite (read_entry ct i 32 (i + Z.of_nat (S n)) Hl) by lia. done.
  - replace (64 * i + 64) with (64 * (i + 1)) by lia. apply IH; lia.
Qed.

Lemma thread_first_open n user_key ct i found :
  0 ≤ i → 64 * (i + Z.of_nat n) ≤ Z.of_nat (String.length ct) →
  thread_loop EVP_aes_256_ctr n user_key ct (64 * i) found
  = Ok (found || bool_decide (is_Some (first_open n user_key ct i))).
Proof.
  revert i. induction n as [|n IH]; intros i Hi Hl; [by rewrite orb_false_r|].
  cbn [thread_loop first_open]. destruct found; [done|]. unfold opens, hint_at.
  pose proof (read_entry ct i 0 (i + Z.of_nat (S n)) Hl ltac:(lia) ltac:(lia)) as H0.
  rewrite Z.add_0_r in H0. rewrite H0. cbn [obind]. fold decrypt.
  case_match.
  - rewrite (read_entry ct i 32 (i + Z.of_nat (S n)) Hl) by lia. done.
  - replace (64 * i + 64) with (64 * (i + 1)) by lia. apply IH; lia.
Qed.

Lemma first_open_app n m user_key ct i :
  first_open (n + m) user_key ct i
  = match first_open n user_key ct i with
    | Some j => Some j
    | None => first_open m user_key ct (i + Z.of_nat n)
    end.
Proof.
  revert i. induction n as [|n IH]; intros i; simpl; [by rewrite Z.add_0_r|].
  case_match; [done|]. rewrite IH. case_match; [done|]. f_equal. lia.
Qed.

(** What the search finds: the first entry that opens. *)
Lemma first_open_spec n user_key ct i j :
  first_open n user_key ct i = Some j ↔
  i ≤ j < i + Z.of_nat n ∧ opens user_key ct j = true
  ∧ ∀ k, i ≤ k < j → opens user_key ct k = false.
Proof.
  revert i. induction n as [|n IH]; intros i; cbn [first_open]; [split; [done|lia]|].
  destruct (opens user_key ct i) eqn:E.
  - split.
    + intros [= <-]. split; [lia|]. split; [done|lia].
    + intros (Hj & Ho & Hn). destruct (decide (i = j)) as [->|]; [done|].
      rewrite Hn in E by lia. done.
  - rewrite IH. split.
    + intros (Hj & Ho & Hn). split; [lia|]. split; [done|]. intros k Hk.
      destruct (decide (k = i)) as [->|]; [done|]. apply Hn. lia.
    + intros (Hj & Ho & Hn). assert (i ≠ j) by (intros ->; congruence).
      split; [lia|]. split; [done|]. intros k Hk. apply Hn. lia.
Qed.

(** Some entry between [a] and [b] opens. *)
Definition some_open (user_key ct : string) (a b : Z) : bool :=
  bool_decide (is_Some (first_open (Z.to_nat (b - a)) user_key ct a)).

Lemma some_open_app user_key ct a b c :
  a ≤ b ≤ c →
  some_open user_key ct a c = some_open user_key ct a b || some_open user_key ct b c.
Proof.
  intros Habc. unfold some_open.
  replace (Z.to_nat (c - a)) with (Z.to_nat (b - a) + Z.to_nat (c - b))%nat by lia.
  rewrite first_open_app. replace (a + Z.of_nat (Z.to_nat (b - a))) with b by lia.
  destruct (first_open (Z.to_nat (b - a)) user_key ct a); [|done].
  by rewrite bool_decide_true by eauto.
Qed.

Lemma trials_of_small c : 0 ≤ c / 64 < 2 ^ 31 → trials_of c = c / 64.
Proof.
  intros Hc. unfold trials_of, wrap_signed. rewrite Z.mod_small by lia.
  rewrite (proj2 (Z.ltb_lt _ _)) by lia. done.
Qed.

Lemma as_int_ok z : - 2 ^ 31 ≤ z < 2 ^ 31 → as_int z = Ok z.
Proof.
  intros Hz. unfold as_int.
  by rewrite (proj2 (Z.leb_le (- 2 ^ 31) z)), (proj2 (Z.ltb_lt z (2 ^ 31))) by lia.
Qed.

(** One thread scans its range. *)
Lemma one_thread user_key ct trials i ids found :
  0 ≤ i < 4 → 0 ≤ trials < 2 ^ 25 → 64 * trials ≤ Z.of_nat (String.length ct) →
  mt_threads EVP_aes_256_ctr (i :: ids) user_key ct trials found
  = mt_threads EVP_aes_256_ctr ids user_key ct trials
      (found || some_open user_key ct (i * trials / 4) ((i + 1) * trials / 4)).
Proof.
  intros Hi Ht Hl. cbn [mt_threads]. unfold thread_range, THREADS_COUNT.
  rewrite !as_int_ok by nia. cbn [obind]. rewrite !Z.quot_div_nonneg by nia.
  pose proof (Z.div_le_mono (i * trials) ((i + 1) * trials) 4 ltac:(lia) ltac:(nia)) as Hle.
  pose proof (Z.div_le_mono ((i + 1) * trials) (4 * trials) 4 ltac:(lia) ltac:(nia)) as Hle2.
  rewrite (Z.mul_comm 4 trials), Z.div_mul in Hle2 by lia.
  pose proof (Z.div_pos (i * trials) 4 ltac:(nia) ltac:(lia)) as Hpos.
  rewrite (proj2 (Z.ltb_ge trials _)) by lia. cbn [fst snd].
  rewrite !as_int_ok by lia. cbn [obind]. rewrite wrap_small by lia.
  unfold myThreadFun. rewrite trials_of_small by (rewrite Z.div_mul by lia; lia).
  rewrite Z.div_mul by lia. rewrite thread_first_open by lia. done.
Qed.
End search.

(** ** Properties *)

Section properties.
Context (EVP_aes_256_ctr : string → string → string → string).

(** [user_get_file_key] on a ciphertext of [c_size] bytes returns the
    decrypted key of the first entry whose hint decrypts to the positive
    hint, or -1 when there is none; it reads nothing outside the ciphertext. *)
Theorem user_get_file_key_correct user_key ct c_size :
  0 ≤ c_size ≤ Z.of_nat (String.length ct) → c_size / 64 < 2 ^ 31 →
  (∃ j, user_get_file_key EVP_aes_256_ctr user_key ct c_size
        = Ok (FileKey (aes_decrypt EVP_aes_256_ctr (key_at ct j) user_key))
        ∧ 0 ≤ j < c_size / 64 ∧ opens EVP_aes_256_ctr user_key ct j = true
        ∧ ∀ k, 0 ≤ k < j → opens EVP_aes_256_ctr user_key ct k = false)
  ∨ (user_get_file_key EVP_aes_256_ctr user_key ct c_size = Ok NoHint
     ∧ ∀ k, 0 ≤ k < c_size / 64 → opens EVP_aes_256_ctr user_key ct k = false).
Proof.
  intros Hc Hs. pose proof (Z.div_pos c_size 64 ltac:(lia) ltac:(lia)).
  pose proof (Z.mul_div_le c_size 64 ltac:(lia)).
  unfold user_get_file_key. rewrite trials_of_small by lia.
  pose proof (loop_first_open EVP_aes_256_ctr (Z.to_nat (c_size / 64)) user_key ct 0
    ltac:(lia) ltac:(lia)) as Hloop. rewrite Z.mul_0_r in Hloop. rewrite Hloop.
  destruct (first_open EVP_aes_256_ctr (Z.to_nat (c_size / 64)) user_key ct 0) as [j|] eqn:E.
  - left. exists j. apply first_open_spec in E as (Hj & Ho & Hn).
    split; [done|]. split; [lia|]. done.
  - right. split; [done|]. intros k Hk.
    destruct (opens EVP_aes_256_ctr user_key ct k) eqn:Ek; [|done]. exfalso.
    clear Hloop. assert (Hex : ∀ n i, i ≤ k < i + Z.of_nat n →
      first_open EVP_aes_256_ctr n user_key ct i ≠ None).
    { induction n as [|n IH]; intros i Hi; [lia|]. cbn [first_open]. case_match; [done|].
      apply IH. destruct (decide (i = k)) as [->|]; [congruence|lia]. }
    apply (Hex (Z.to_nat (c_size / 64)) 0); [lia|done].
Qed.


(** *** The simulated envelope *)

Hypothesis ctr_length : ∀ key iv text, String.length (EVP_aes_256_ctr key iv text) = String.length text.
Hypothesis ctr_involutive : ∀ key iv text, EVP_aes_256_ctr key iv (EVP_aes_256_ctr key iv text) = text.

Lemma length_entry hint fk key :
  String.length hint = 32%nat → String.length fk = 32%nat →
  String.length (entry EVP_aes_256_ctr hint fk key) = 64%nat.
Proof. intros H1 H2. unfold entry, aes_encrypt. by rewrite length_append, !ctr_length, H1, H2. Qed.

Section envelope.
Context (file_key user_key : string) (keys : Z → string) (member : Z).
Hypothesis Hfk : String.length file_key = 32%nat.

#[local] Abbreviation built n i := (build_envelope EVP_aes_256_ctr n i member file_key user_key keys).

(** The hint and the key that encrypt entry [i]. *)
Definition entry_hint (i : Z) : string := if i =? member then positive_hint else negative_hint.
Definition entry_key (i : Z) : string := if i =? member then user_key else keys i.

Lemma built_S n i :
  built (S n) i = aes_encrypt EVP_aes_256_ctr (entry_hint i) (entry_key i) +:+
                  aes_encrypt EVP_aes_256_ctr file_key (entry_key i) +:+ built n (i + 1).
Proof.
  cbn [build_envelope]. unfold entry, entry_hint, entry_key.
  destruct (i =? member); by rewrite append_assoc.
Qed.

Lemma length_hint i : String.length (entry_hint i) = 32%nat.
Proof. unfold entry_hint. by case_match. Qed.

Lemma length_built n i : String.length (built n i) = (64 * n)%nat.
Proof.
  revert i. induction n as [|n IH]; intros i; [done|].
  rewrite built_S, !length_append, IH. unfold aes_encrypt.
  rewrite !ctr_length, Hfk, length_hint. lia.
Qed.

Lemma drop_built j n i :
  (j ≤ n)%nat → str_drop (64 * j) (built n i) = built (n - j) (i + Z.of_nat j).
Proof.
  revert n i. induction j as [|j IH]; intros n i Hj.
  { rewrite Nat.mul_0_r, Nat.sub_0_r, Z.add_0_r. done. }
  destruct n as [|n]; [lia|]. rewrite built_S, Nat.mul_succ_r, Nat.add_comm, str_drop_add.
  rewrite <-append_assoc, str_drop_app.
  - rewrite IH by lia. f_equal; lia.
  - rewrite length_append. unfold aes_encrypt. by rewrite !ctr_length, Hfk, length_hint.
Qed.

(** What the client reads at entry [k]. *)
Lemma entry_of_built n k :
  0 ≤ k < Z.of_nat n →
  hint_at (built n 0) k = aes_encrypt EVP_aes_256_ctr (entry_hint k) (entry_key k)
  ∧ key_at (built n 0) k = aes_encrypt EVP_aes_256_ctr file_key (entry_key k).
Proof.
  intros Hk. unfold hint_at, key_at.
  replace (Z.to_nat (64 * k + 32)) with (64 * Z.to_nat k + 32)%nat by lia.
  replace (Z.to_nat (64 * k)) with (64 * Z.to_nat k)%nat by lia.
  rewrite str_drop_add, drop_built by lia. rewrite Z.add_0_l, Z2Nat.id by lia.
  destruct (n - Z.to_nat k)%nat as [|m] eqn:E; [lia|]. rewrite built_S.
  split; [|rewrite str_drop_app]; try apply str_take_app;
    unfold aes_encrypt; by rewrite ctr_length, ?length_hint.
Qed.
End envelope.

(** The member finds its key: on the envelope the test simulates for
    any number of users, [user_get_file_key] returns the file key, if the
    member's key does not turn another entry's hint into the positive one. *)
Theorem member_finds_file_key n file_key user_key keys :
  (0 < n)%nat → Z.of_nat n < 2 ^ 31 → String.length file_key = 32%nat →
  (∀ i, aes_decrypt EVP_aes_256_ctr (aes_encrypt EVP_aes_256_ctr negative_hint (keys i)) user_key
        ≠ positive_hint) →
  user_get_file_key EVP_aes_256_ctr user_key (basic_envelope EVP_aes_256_ctr n file_key user_key keys)
    (64 * Z.of_nat n) = Ok (FileKey file_key).
Proof.
  intros Hn Hmax Hfk Hneg. unfold basic_envelope, user_get_file_key.
  set (member := member_position (Z.of_nat n)).
  assert (Hm : 0 ≤ member < Z.of_nat n).
  { subst member. unfold member_position. pose proof (Z.div_pos (Z.of_nat n) 3).
    pose proof (Z.mul_div_le (Z.of_nat n) 3). lia. }
  rewrite trials_of_small by (rewrite Z.mul_comm, Z.div_mul by lia; lia).
  rewrite (Z.mul_comm 64), Z.div_mul, Nat2Z.id by lia.
  pose proof (loop_first_open EVP_aes_256_ctr n user_key
    (build_envelope EVP_aes_256_ctr n 0 member file_key user_key keys) 0) as Hloop.
  rewrite Z.mul_0_r in Hloop. rewrite Hloop; [|lia|rewrite length_built by done; lia].
  assert (Hopen : ∀ k, 0 ≤ k < Z.of_nat n → opens EVP_aes_256_ctr user_key
    (build_envelope EVP_aes_256_ctr n 0 member file_key user_key keys) k = (k =? member)).
  { intros k Hk. unfold opens. destruct (entry_of_built file_key user_key keys member Hfk n k Hk) as [-> _].
    unfold entry_hint, entry_key. destruct (k =? member).
    - unfold aes_decrypt, aes_encrypt. rewrite ctr_involutive. apply String.eqb_refl.
    - by apply String.eqb_neq. }
  assert (Hfirst : first_open EVP_aes_256_ctr n user_key
    (build_envelope EVP_aes_256_ctr n 0 member file_key user_key keys) 0 = Some member).
  { apply first_open_spec. split; [lia|]. split; [rewrite Hopen by lia; apply Z.eqb_refl|].
    intros k Hk. rewrite Hopen by lia. apply Z.eqb_neq. lia. }
  rewrite Hfirst. destruct (entry_of_built file_key user_key keys member Hfk n member Hm) as [_ ->].
  unfold entry_key. rewrite Z.eqb_refl. unfold aes_decrypt, aes_encrypt. by rewrite ctr_involutive.
Qed.

(** The test of a group that fits an [int] stays inside its buffer and returns
    0, found or not. *)
Lemma basic_test_returns n keys :
  Z.of_nat n < 2 ^ 25 → basic_user_validation_test EVP_aes_256_ctr n keys = Ok 0.
Proof.
  intros Hn. unfold basic_user_validation_test, as_int, user_get_file_key.
  rewrite (proj2 (Z.leb_le _ _)), (proj2 (Z.ltb_lt _ _)) by lia. cbn [andb obind].
  replace (Z.of_nat n * 32 * 2) with (Z.of_nat n * 64) by lia.
  rewrite trials_of_small, Z.div_mul, Nat2Z.id by (rewrite ?Z.div_mul; lia).
  pose proof (loop_first_open EVP_aes_256_ctr n test_user_key
    (basic_envelope EVP_aes_256_ctr n test_file_key test_user_key keys) 0) as Hloop.
  rewrite Z.mul_0_r in Hloop. rewrite Hloop; [done|lia|].
  unfold basic_envelope. rewrite length_built by done. lia.
Qed.

(** The program ends with status 0 whatever the cipher does to the hints: its
    tests report nothing. *)
Theorem client_main_returns keys : client_main EVP_aes_256_ctr keys = Ok 0.
Proof.
  unfold client_main. assert (Hall : Forall (λ n, Z.of_nat n < 2 ^ 25) (Z.to_nat <$> [100; 1000; 10000; 100000])).
  { apply Forall_fmap. repeat constructor; cbn [compose]; rewrite Z2Nat.id by lia; lia. }
  induction Hall as [|n groups Hn _ IH]; [done|]. cbn [run_tests].
  rewrite basic_test_returns by done. exact IH.
Qed.
End properties.

(** [random_stream] never produces the byte 255: its keys use 255 of the
    256 values of a byte. *)
Theorem random_stream_bytes draws :
  Forall (λ r, 0 ≤ r) draws → Forall (λ b, 0 ≤ b ≤ 254) (bytes_of (random_stream draws)).
Proof.
  intros Hd. unfold random_stream. assert (Hb : Forall (λ b, 0 ≤ b ≤ 254) (random_byte <$> draws)).
  { apply Forall_fmap. eapply Forall_impl; [exact Hd|]. intros r Hr. simpl in *. unfold random_byte.
    pose proof (Z.rem_bound_pos r 255 ltac:(lia) ltac:(lia)). rewrite wrap_small by lia. lia. }
  rewrite bytes_of_string_of; [done|]. eapply Forall_impl; [exact Hb|].
  intros b Hbb. simpl in Hbb. unfold is_byte. lia.
Qed.

(** ** The properties at work *)

(** A cipher for the examples: the bytes are reflected at the first byte of
    the key. *)
Definition demo_ctr (key iv text : string) : string :=
  string_of ((λ b, (byte_of (match key with String c _ => c | _ => "000"%char end) - b) mod 256)
             <$> bytes_of text).

Lemma demo_ctr_length key iv text : String.length (demo_ctr key iv text) = String.length text.
Proof. unfold demo_ctr. by rewrite length_string_of, length_fmap, length_bytes_of. Qed.

Lemma demo_ctr_involutive key iv text : demo_ctr key iv (demo_ctr key iv text) = text.
Proof.
  unfold demo_ctr. set (k := byte_of _).
  assert (Hbytes : ∀ l, Forall is_byte ((λ b, (k - b) mod 256) <$> l)).
  { intros l. apply Forall_fmap, Forall_forall. intros b _. simpl. unfold is_byte.
    apply Z.mod_pos_bound. lia. }
  rewrite bytes_of_string_of by apply Hbytes. rewrite <-list_fmap_compose.
  rewrite <-(string_of_bytes_of text) at 2. f_equal.
  pose proof (bytes_of_is_byte text) as Hb. induction Hb as [|b l Hb Hl IH]; [done|].
  cbn [fmap list_fmap]. f_equal; [|exact IH]. unfold is_byte in Hb. cbn [compose].
  unfold compose. rewrite Zminus_mod_idemp_r. replace (k - (k - b)) with b by lia.
  by apply Z.mod_small.
Qed.

Definition demo_key (c : ascii) : string := str_repeat 32 c.
Definition demo_envelope (n : nat) : string :=
  basic_envelope demo_ctr n (demo_key "f") (demo_key "a") (λ _, demo_key "b").

Lemma member_finds_file_key_witness :
  user_get_file_key demo_ctr (demo_key "a") (demo_envelope 3) (64 * 3) = Ok (FileKey (demo_key "f")).
Proof.
  apply (member_finds_file_key demo_ctr demo_ctr_length demo_ctr_involutive 3 (demo_key "f")
    (demo_key "a") (λ _, demo_key "b")); [lia|lia|reflexivity|].
  intros i. vm_compute. discriminate.
Defined.

Lemma user_get_file_key_correct_witness :
  user_get_file_key demo_ctr (demo_key "z") (demo_envelope 3) 192 = Ok NoHint.
Proof.
  destruct (user_get_file_key_correct demo_ctr (demo_key "z") (demo_envelope 3) 192) as [H|H].
  - split; [lia|]. vm_compute. discriminate.
  - reflexivity.
  - exfalso. destruct H as (j & H & _).
    assert (E : user_get_file_key demo_ctr (demo_key "z") (demo_envelope 3) 192 = Ok NoHint)
      by (vm_compute; reflexivity). rewrite E in H. discriminate.
  - exact (proj1 H).
Defined.


Lemma random_stream_bytes_witness :
  Forall (λ b, 0 ≤ b ≤ 254) (bytes_of (random_stream [254; 255; 511])).
Proof. apply (random_stream_bytes [254; 255; 511]). repeat constructor; lia. Defined.
