(* ===== verification/WriterProxy.v ===== *)
(** * The writer proxy (writerproxy_service.h, writerproxy_service.cpp)

    [class WriterProxy]: initialization, request dispatch, forwarding of
    objects to the object store and generation of temporary credentials.  The
    network, the object store client and the HTTP library are parameters. *)

From stdpp Require Import base gmap strings list.
From Stdlib Require Import ZArith Ascii Lia.
From S2P Require Import Prelude Cxx StdMap JsonValue JsonSax JsonParser JsonParserSpec AnonymBE Args.

(** [HttpUrl], as far as the proxy reads it. *)
Record HttpUrl : Type := Url { host : string; url_port : Z }.

(** A [ResponseBuilder]. *)
Record builder : Type := Builder {
  b_protocol : string;
  b_headers : list (string * string);
  b_code : Z;
  b_message : string;
  b_body : string;
}.

Definition build (b : builder) : Response :=
  Built (b_protocol b) (b_code b) (b_message b) (b_headers b) (b_body b).
Definition code_message (c : Z) (m : string) (b : builder) : builder :=
  Builder (b_protocol b) (b_headers b) c m (b_body b).
Definition appendBody (s : string) (b : builder) : builder :=
  Builder (b_protocol b) (b_headers b) (b_code b) (b_message b) (b_body b +:+ s).

(** A request the proxy sends. *)
Record out_request : Type := Out {
  o_method : string;
  o_url : string;
  o_headers : list (string * string);
  o_body : string;
}.

(** What the object store answers to [forwardObject]. *)
Inductive minio_result : Type :=
| MinioOk
| MinioError (no_such_bucket : bool)     (** [ErrorResponseException] *)
| MinioException (what : string).        (** another [std::exception] *)

(** An answer of a remote server. *)
Record reply : Type := Reply { isSuccessful : bool; reply_body : string }.

(** The proxy's connections: [amconnection_], and the local one of
    [request_reply]. *)
Inductive channel : Type := AmConnection | ReplyConnection.

(** The libraries, the table of client connections ([IncomeSSLConnection], see
    [TlsConfig]) and the network; [W] is the state of the outside world and
    [D] a decoder of responses. *)
Class ProxyEnv (W D : Type) : Type := {
  HttpUrl_parse : string → HttpUrl;
  HttpUrl_default : HttpUrl;
  split_path : string → list string;
  base64_encode : string → string;
  addEncodedQuery : HttpUrl → list (string * string) → string;
  toString : out_request → string;
  auth : string;
  connect : channel → string → Z → W → bool * W;
  send : channel → string → W → Z * W;
  recv : channel → W → option string * W;   (** [None]: a negative result *)
  income_init : W → unit * W;
  income_finish : W → unit * W;
  decoder_new : D;
  addChunk : string → D → D;
  getResponse : D → option reply;
  forwardObject : Request → W → minio_result * W;
  makeBucket : string → W → bool * W;
  minio_new : string → string → string → W → bool * W;
}.

Section proxy.
Context {W D : Type} `{ProxyEnv W D} `{HttpStrings}.

Record WriterProxy : Type := Proxy {
  tuser_ : string;
  tpass_ : string;
  isendpoint_ : HttpUrl;
  minioendpoint_ : HttpUrl;
  amendpoint_ : HttpUrl;
  minioClient : bool;
  response_builder : builder;
  world : W;
}.

(** The constructor; the endpoints are default-constructed. *)
Definition WriterProxy_new (w : W) : WriterProxy :=
  Proxy "" "" HttpUrl_default HttpUrl_default HttpUrl_default false (Builder "" [] 0 "" "") w.

Definition set_builder (b : builder) (p : WriterProxy) : WriterProxy :=
  Proxy (tuser_ p) (tpass_ p) (isendpoint_ p) (minioendpoint_ p) (amendpoint_ p)
    (minioClient p) b (world p).
Definition set_world (w : W) (p : WriterProxy) : WriterProxy :=
  Proxy (tuser_ p) (tpass_ p) (isendpoint_ p) (minioendpoint_ p) (amendpoint_ p)
    (minioClient p) (response_builder p) w.

(** Exceptions: a [Response], or one of the library. *)
Inductive proxy_exn : Type :=
| ThrownResponse (r : Response)
| ThrownExn (e : exn).

Definition PM (A : Type) : Type := M proxy_exn WriterProxy A.

Definition outside {A} (f : W → A * W) : PM A := λ p,
  let '(a, w) := f (world p) in (Ok a, set_world w p).

(** [response_builder.code(c).message(m)], then [build()]. *)
Definition respond_with (c : Z) (m : string) : PM Response :=
  modify (λ p, set_builder (code_message c m (response_builder p)) p) ;;
  gets (λ p, build (response_builder p)).

(** ** Initialization *)

(** How [init] ends: a return value, or [exit]. *)
Inductive init_result : Type :=
| Returns (r : Z)
| Exits (status : Z).

Definition finish : PM unit :=
  modify (λ p, Proxy (tuser_ p) (tpass_ p) (isendpoint_ p) (minioendpoint_ p) (amendpoint_ p)
                 false (response_builder p) (world p)) ;;
  outside income_finish.

(** [init], with the arrays of the arguments read as C strings. *)
Definition proxy_init (a : Proxy.Arguments) : PM init_result :=
  let minio := c_str (Proxy.minioendpoint a) in
  let access := c_str (Proxy.minioaccesskey a) in
  let secret := c_str (Proxy.miniosecret a) in
  let user := c_str (Proxy.tokenuser a) in
  let pass := c_str (Proxy.tokenpass a) in
  let token := c_str (Proxy.tokenendpoint a) in
  let am := c_str (Proxy.amendpoint a) in
  if (minio =? "")%string || (access =? "")%string || (secret =? "")%string
  then ret (Returns (-1)) else
  modify (λ p, Proxy user pass (isendpoint_ p) (minioendpoint_ p) (amendpoint_ p)
                 (minioClient p) (response_builder p) (world p)) ;;
  if starts_with "http" minio || starts_with "http" am || starts_with "http" token
  then ret (Returns (-2)) else
  if negb (Bool.eqb (token =? "")%string (user =? "")%string)
     || negb (Bool.eqb (token =? "")%string (pass =? "")%string)
  then ret (Returns (-3)) else
  (if (token =? "")%string then ret tt else
   modify (λ p, Proxy (tuser_ p) (tpass_ p) (HttpUrl_parse ("https://" +:+ token))
                  (minioendpoint_ p) (amendpoint_ p) (minioClient p) (response_builder p) (world p))) ;;
  connected <-
    (if (am =? "")%string then ret true else
     modify (λ p, Proxy (tuser_ p) (tpass_ p) (isendpoint_ p) (minioendpoint_ p)
                    (HttpUrl_parse ("https://" +:+ am)) (minioClient p) (response_builder p) (world p)) ;;
     p <- get_state ;;
     outside (connect AmConnection (host (amendpoint_ p)) (url_port (amendpoint_ p)))) ;;
  if negb connected then ret (Exits 1) else
  outside income_init ;;
  modify (λ p, set_builder
                 (Builder http11 [(connection, keepalive); ("Server", "A-SKY WriterProxy")]
                    (b_code (response_builder p)) (b_message (response_builder p))
                    (b_body (response_builder p))) p) ;;
  modify (λ p, Proxy (tuser_ p) (tpass_ p) (isendpoint_ p) (HttpUrl_parse ("https://" +:+ minio))
                 (amendpoint_ p) (minioClient p) (response_builder p) (world p)) ;;
  created <- outside (minio_new ("https://" +:+ minio) access secret) ;;
  if negb created then ret (Exits 2) else
  modify (λ p, Proxy (tuser_ p) (tpass_ p) (isendpoint_ p) (minioendpoint_ p) (amendpoint_ p)
                 true (response_builder p) (world p)) ;;
  ret (Returns 0).

(** ** Requests *)

Definition endpoint_name (u : HttpUrl) : string := host u +:+ ":" +:+ to_string (url_port u).

(** [check_user] pings the access monitor and ignores the outcome. *)
Definition check_user : PM bool :=
  p <- get_state ;;
  (if 0 <? url_port (amendpoint_ p) then
     outside (send AmConnection (toString (Out "GET" "http://0:0/ping"
                                [("Host", endpoint_name (amendpoint_ p))] ""))) ;;
     outside (recv AmConnection) ;;
     ret tt
   else ret tt) ;;
  ret true.

Definition make_bucket (request : Request) : PM bool :=
  let bucket := match split_path (encodedPath request) with b :: _ => b | [] => "" end in
  if (bucket =? "")%string then ret false else outside (makeBucket bucket).

(** [forward]; the answer of the recursive call is dropped. *)
Fixpoint forward (fuel : nat) (request : Request) : PM Response :=
  match fuel with
  | O => out_of_fuel
  | S fuel =>
      ok <- check_user ;;
      if negb ok then respond_with 401 "Unauthorized" else
      p <- get_state ;;
      if negb (minioClient p) then lift Undefined else
      r <- outside (forwardObject request) ;;
      match r with
      | MinioOk => respond_with 200 "OK"
      | MinioError true =>
          made <- make_bucket request ;;
          if (made : bool) then forward fuel request ;; respond_with 200 "OK"
          else respond_with 409 "Conflict"
      | MinioError false => respond_with 409 "Conflict"
      | MinioException what =>
          if (what =? "No response")%string then respond_with 444 "No response"
          else respond_with 200 "OK"
      end
  end.

(** The loop of [request_reply] that collects the chunks of the reply. *)
Fixpoint receive (fuel : nat) (error : Response) (decoder : D) : PM reply :=
  match fuel with
  | O => out_of_fuel
  | S fuel =>
      len <- outside (recv ReplyConnection) ;;
      match len with
      | None => throw (ThrownResponse error)
      | Some chunk =>
          let decoder := addChunk chunk decoder in
          match getResponse decoder with
          | Some r => ret r
          | None => receive fuel error decoder
          end
      end
  end.

Definition request_reply (fuel : nat) (endpoint : HttpUrl) (request : out_request) : PM string :=
  if url_port endpoint =? -1 then
    r <- respond_with 405 "Method Not Allowed" ;; throw (ThrownResponse r)
  else
    error <- respond_with 504 "Gateway Timeout" ;;
    ok <- outside (connect ReplyConnection (host endpoint) (url_port endpoint)) ;;
    if negb ok then throw (ThrownResponse error) else
    sent <- outside (send ReplyConnection (toString request)) ;;
    if sent <=? 0 then throw (ThrownResponse error) else
    r <- receive fuel error decoder_new ;;
    ret (if isSuccessful r then reply_body r else "").

(** Run [m]; a [Response] it throws is answered with [text] appended. *)
Definition catch_response (m : PM string) (text : string) (k : string → PM Response)
    : PM Response := λ p,
  match m p with
  | (Ok s, p) => k s p
  | (Throw (ThrownResponse (Built pr c msg hs body)), p) => (Ok (Built pr c msg hs (body +:+ text)), p)
  | (Throw (ThrownResponse EmptyResponse), p) => (Ok (Built "" 0 "" [] text), p)
  | (Throw e, p) => (Throw e, p)
  | (OutOfFuel, p) => (OutOfFuel, p)
  | (Undefined, p) => (Undefined, p)
  end.

Definition lift_exn {A} (o : outcome exn A) : PM A :=
  match o with
  | Ok a => ret a
  | Throw e => throw (ThrownExn e)
  | OutOfFuel => out_of_fuel
  | Undefined => lift Undefined
  end.

(** The requests [generate_token] sends. *)
Definition token_request (p : WriterProxy) : out_request :=
  Out "POST" "http://0:0/oauth2/token"
    [("Host", endpoint_name (isendpoint_ p));
     (auth, "Basic " +:+ base64_encode (tuser_ p +:+ ":" +:+ tpass_ p));
     (contenttype, "application/x-www-form-urlencoded")]
    "grant_type=client_credentials".

Definition credentials_request (p : WriterProxy) (expires_in : Z) (token : string) : out_request :=
  Out "POST"
    (addEncodedQuery (minioendpoint_ p)
       [("Action", "AssumeRoleWithClientGrants");
        ("DurationSeconds", to_string expires_in); ("Token", token)])
    [("Host", endpoint_name (minioendpoint_ p))] "".

(** The fields of the token are read in one chain of calls, in this order or
    the other; it decides only which exception is thrown. *)
Definition generate_token (fuel : nat) (request : Request) : PM Response :=
  ok <- check_user ;;
  if negb ok then respond_with 401 "Unauthorized" else
  p <- get_state ;;
  catch_response (request_reply fuel (isendpoint_ p) (token_request p))
    ("Error communicating with Identity Server" +:+ String "010" "") (λ access_token,
  j <- lift_exn (json_parse access_token) ;;
  expires_in <- lift_exn (json_int j "expires_in") ;;
  token <- lift_exn (json_str j "access_token") ;;
  p <- get_state ;;
  catch_response (request_reply fuel (minioendpoint_ p) (credentials_request p expires_in token))
    ("Error communicating with minio" +:+ String "010" "") (λ credentials,
  gets (λ p, build (appendBody credentials (code_message 200 "OK" (response_builder p)))))).

Definition treat_request (fuel : nat) (request : Request) : PM Response :=
  if (method request =? "GET")%string then
    if (encodedPath request =? "/ping")%string then respond_with 200 "OK"
    else if (encodedPath request =? "/token")%string then generate_token fuel request
    else respond_with 400 "Bad Request"
  else if (method request =? "PUT")%string then forward fuel request
  else respond_with 400 "Bad Request".

(** ** What clients get *)

Definition response_code (r : Response) : Z :=
  match r with
  | Built _ c _ _ _ => c
  | EmptyResponse => 0
  end.

Lemma check_user_run p :
  ∃ w, check_user p = (Ok true, set_world w p).
Proof.
  unfold check_user, bind, get_state, ret. destruct p as [tu tp ise mi am mc rb w]. simpl.
  destruct (0 <? url_port am); [|by exists w].
  unfold outside. simpl. destruct (send _ _ w) as [n w1]. simpl.
  destruct (recv _ w1) as [r w2]. simpl. by exists w2.
Qed.

Lemma respond_with_run c m p :
  ∃ p', respond_with c m p = (Ok (build (code_message c m (response_builder p))), p').
Proof. unfold respond_with, bind, modify, gets. eexists. done. Qed.

(** The code the proxy answers to an upload, from what the store says first. *)
Definition forward_code (first : minio_result) (made : bool) : Z :=
  match first with
  | MinioOk => 200
  | MinioError no_such_bucket => if no_such_bucket && made then 200 else 409
  | MinioException what => if (what =? "No response")%string then 444 else 200
  end.

(** Run [respond_with] at the head of a goal. *)
Ltac run_respond :=
  match goal with
  | |- context [respond_with ?c ?m ?p] =>
      let p' := fresh "p" in destruct (respond_with_run c m p) as [p' ->]
  end.


(** A store that, once a bucket was created, does not miss it again. *)
Definition buckets_last (request : Request) : Prop :=
  ∀ p w made w1, make_bucket request p = (Ok made, set_world w p) → made = true →
    check_user (set_world w p) = (Ok true, set_world w1 (set_world w p)) →
    (forwardObject request w1).1 ≠ MinioError true.

Lemma make_bucket_run request p :
  ∃ made w, make_bucket request p = (Ok made, set_world w p).
Proof.
  unfold make_bucket. case_match.
  - exists false, (world p). by destruct p.
  - unfold outside. destruct (makeBucket _ (world p)) as [made w]. by exists made, w.
Qed.

(** Forwarding ends after at most one retry, if the store keeps the
    buckets it creates: two levels of recursion are enough. *)
Theorem forward_ends fuel request p :
  minioClient p = true → buckets_last request →
  ∃ r p', forward (S (S fuel)) request p = (Ok r, p').
Proof.
  intros Hclient Hlast. remember (S fuel) as n eqn:Hn. cbn [forward]. unfold bind at 1.
  destruct (check_user_run p) as [w Hw]. rewrite Hw. cbn [negb]. unfold bind at 1, get_state.
  cbn [minioClient set_world]. rewrite Hclient. cbn [negb]. unfold bind at 1, outside at 1.
  cbn [world set_world]. destruct (forwardObject request w) as [first w1].
  destruct first as [|[]|what]; [run_respond; eauto| |run_respond; eauto
    |case_match; run_respond; eauto].
  unfold bind at 1. destruct (make_bucket_run request (set_world w1 (set_world w p))) as (made & w2 & Hm).
  rewrite Hm. destruct made; [|run_respond; eauto]. unfold bind at 1. subst n. cbn [forward].
  unfold bind at 1. set (p2 := set_world w2 _). destruct (check_user_run p2) as [w3 Hw3].
  rewrite Hw3. cbn [negb]. unfold bind at 1, get_state. subst p2. cbn [minioClient set_world].
  rewrite Hclient. cbn [negb]. unfold bind at 1, outside at 1. cbn [world set_world].
  pose proof (Hlast _ _ _ w3 Hm eq_refl Hw3) as Hne.
  destruct (forwardObject request w3) as [[|[]|what] w4]; cbn [fst] in Hne; [|done| |];
    [..|destruct (what =? "No response")%string];
    run_respond; cbv beta iota; run_respond; eauto.
Qed.

(** *** Initialization *)

(** The arguments [init] accepts: the object store is complete, the identity
    server is complete or absent, and no endpoint has a scheme. *)
Definition init_accepts (a : Proxy.Arguments) : bool :=
  let set field := negb (c_str field =? "")%string in
  let plain field := negb (starts_with "http" (c_str field)) in
  set (Proxy.minioendpoint a) && set (Proxy.minioaccesskey a) && set (Proxy.miniosecret a)
  && plain (Proxy.minioendpoint a) && plain (Proxy.amendpoint a) && plain (Proxy.tokenendpoint a)
  && Bool.eqb (set (Proxy.tokenendpoint a)) (set (Proxy.tokenuser a))
  && Bool.eqb (set (Proxy.tokenendpoint a)) (set (Proxy.tokenpass a)).

(** A proxy that [init] has prepared from the arguments [a]. *)
Record ready (a : Proxy.Arguments) (p : WriterProxy) : Prop := {
  ready_client : minioClient p = true;
  ready_minio : minioendpoint_ p = HttpUrl_parse ("https://" +:+ c_str (Proxy.minioendpoint a));
  ready_user : tuser_ p = c_str (Proxy.tokenuser a);
  ready_pass : tpass_ p = c_str (Proxy.tokenpass a);
  ready_token : c_str (Proxy.tokenendpoint a) ≠ "" →
    isendpoint_ p = HttpUrl_parse ("https://" +:+ c_str (Proxy.tokenendpoint a));
  ready_monitor : c_str (Proxy.amendpoint a) ≠ "" →
    amendpoint_ p = HttpUrl_parse ("https://" +:+ c_str (Proxy.amendpoint a));
  ready_protocol : b_protocol (response_builder p) = http11;
}.

Lemma wp_outside {A} (f : W → A * W) p (Q : A → WriterProxy → Prop) X :
  (∀ a w, Q a (set_world w p)) → wp (outside f) p Q X.
Proof. intros HQ. unfold wp, outside. destruct (f (world p)) as [a w]. apply HQ. Qed.

(** What [init] does on every branch. *)
Definition init_post (a : Proxy.Arguments) (p : WriterProxy) (r : init_result) (p' : WriterProxy)
    : Prop :=
  match r with
  | Returns z =>
      if init_accepts a then z = 0 ∧ ready a p'
      else (z = -1 ∨ z = -2 ∨ z = -3) ∧ minioClient p' = minioClient p ∧ world p' = world p
  | Exits z =>
      init_accepts a = true
      ∧ (z = 1 ∧ c_str (Proxy.amendpoint a) ≠ "" ∨ z = 2) ∧ minioClient p' = minioClient p
  end.

Lemma wp_proxy_init a p : wp (proxy_init a) p (init_post a p) no_exn.
Proof.
  unfold proxy_init, init_post, init_accepts.
  destruct (String.eqb_spec (c_str (Proxy.minioendpoint a)) "") as [|H1]; cbn [orb]; [wp_step; simpl; auto|].
  destruct (String.eqb_spec (c_str (Proxy.minioaccesskey a)) "") as [|H2]; cbn [orb]; [wp_step; simpl; auto|].
  destruct (String.eqb_spec (c_str (Proxy.miniosecret a)) "") as [|H3]; cbn [orb]; [wp_step; simpl; auto|].
  do 2 wp_step. destruct (starts_with "http" (c_str (Proxy.minioendpoint a))); cbn [orb];
    [wp_step; simpl; auto|].
  destruct (starts_with "http" (c_str (Proxy.amendpoint a))); cbn [orb]; [wp_step; simpl; auto|].
  destruct (starts_with "http" (c_str (Proxy.tokenendpoint a))); cbn [orb]; [wp_step; simpl; auto|].
  cbn [negb andb].
  destruct (String.eqb_spec (c_str (Proxy.tokenendpoint a)) "") as [Ht|Ht],
    (c_str (Proxy.tokenuser a) =? "")%string, (c_str (Proxy.tokenpass a) =? "")%string;
    cbn [Bool.eqb negb orb andb]; try (wp_step; simpl; by auto); wp_step; wp_step.
  all: wp_step; destruct (String.eqb_spec (c_str (Proxy.amendpoint a)) "") as [Ha|Ha].
  all: try (wp_step; cbn [negb]).
  all: try (wp_step; wp_step; wp_step; apply wp_outside; intros [] w1; cbn [negb];
            [|wp_step; simpl; naive_solver]).
  all: wp_step; apply wp_outside; intros [] w2; do 5 wp_step; apply wp_outside; intros [] w3;
    cbn [negb]; [|wp_step; simpl; naive_solver].
  all: do 3 wp_step; cbv beta iota; split; [done|]; by constructor.
Qed.

(** [WriterProxy::init] ends on every argument.  It returns 0 exactly
    when the arguments are acceptable and both remote services could be
    reached, and then the proxy has its client and endpoints; it returns a
    negative code without contacting anybody otherwise, and exits with 1 or 2
    when the access monitor or the client cannot be set up. *)
Theorem proxy_init_correct a p :
  ∃ r p', proxy_init a p = (Ok r, p') ∧ init_post a p r p'.
Proof.
  destruct (wp_inv _ _ _ _ (wp_proxy_init a p)) as [?|(e & p' & _ & [])]. done.
Qed.

(** A proxy without an identity server answers GET /token with 405; it
    contacts nobody but the access monitor. *)
Theorem token_without_identity_server fuel request p :
  url_port (isendpoint_ p) = -1 →
  ∃ p', generate_token fuel request p
    = (Ok (build (appendBody ("Error communicating with Identity Server" +:+ String "010" "")
             (code_message 405 "Method Not Allowed" (response_builder p)))), p').
Proof.
  intros Hport. unfold generate_token, bind at 1. destruct (check_user_run p) as [w ->].
  cbn [negb]. unfold bind at 1, get_state, catch_response, request_reply.
  cbn [isendpoint_ set_world]. rewrite Hport. cbn [Z.eqb]. unfold bind at 1, respond_with, bind at 1.
  unfold modify, gets, throw. eexists. done.
Qed.

(** When the identity server refuses, the proxy parses the empty string
    as its answer: an exception leaves [treat_request] and the client gets no
    response at all. *)
Theorem refused_token_escapes fuel request p p1 p2 :
  check_user p = (Ok true, p1) →
  request_reply fuel (isendpoint_ p1) (token_request p1) p1 = (Ok "", p2) →
  ∃ msg, generate_token fuel request p
         = (Throw (ThrownExn (json_exception parse_error 101 msg)), p2).
Proof.
  intros Hc Hr. unfold generate_token. rewrite (bind_run _ _ _ _ _ Hc). cbn [negb].
  unfold bind at 1, get_state, catch_response. rewrite Hr. unfold bind at 1.
  eexists. vm_compute (json_parse ""). unfold lift_exn, throw. done.
Qed.

(** A server that closes its connection before the reply is complete
    keeps the proxy in its loop for ever: reading nothing is not an error. *)
Theorem closed_connection_loops fuel error decoder p :
  (∀ w, recv ReplyConnection w = (Some "", w)) → addChunk "" decoder = decoder → getResponse decoder = None →
  (receive fuel error decoder p).1 = OutOfFuel.
Proof.
  intros Hrecv Hadd Hget. revert p. induction fuel as [|fuel IH]; intros p; [done|].
  cbn [receive]. unfold bind, outside. rewrite Hrecv. cbn [fst snd]. rewrite Hadd, Hget. apply IH.
Qed.
End proxy.

Arguments WriterProxy W : clear implicits.

(** ** The properties at work

    A small world: a store with one bucket that may refuse objects, and the
    bytes that remote servers will send. *)
Module ProxyDemo.

Record demo_world : Type := World {
  bucket_exists : bool;
  conflicts : bool;
  inbox : list string;
}.

#[export] Instance demo_env : ProxyEnv demo_world string := {
  HttpUrl_parse s := Url s 443;
  HttpUrl_default := Url "" (-1);
  split_path s := [str_drop 1 s];
  base64_encode s := s;
  addEncodedQuery u q := host u;
  toString r := o_url r;
  auth := "authorization";
  connect c h p w := (true, w);
  send c s w := (1, w);
  income_init w := (tt, w);
  income_finish w := (tt, w);
  recv c w := match inbox w with
            | [] => (Some "", w)
            | c :: cs => (Some c, World (bucket_exists w) (conflicts w) cs)
            end;
  decoder_new := "";
  addChunk s d := d +:+ s;
  getResponse d := if (d =? "")%string then None else Some (Reply (negb (d =? "refused")%string) d);
  forwardObject r w :=
    (if bucket_exists w then if conflicts w then MinioError false else MinioOk
     else MinioError true, w);
  makeBucket b w := (true, World true (conflicts w) (inbox w));
  minio_new e a s w := (true, w);
}.

#[export] Instance demo_http : HttpStrings := {
  http11 := "HTTP/1.1"; connection := "connection"; keepalive := "keep-alive";
  contenttype := "content-type";
}.

(** A proxy in front of a store that has no bucket and refuses the object. *)
Definition demo_proxy (token_server : bool) (inbox : list string) : WriterProxy demo_world :=
  Proxy "" "" (if token_server then Url "is" 443 else Url "" (-1)) (Url "minio" 443) (Url "" (-1))
    true (Builder "HTTP/1.1" [] 0 "" "") (World false true inbox).

Definition upload : Request := Req "PUT" "/bucket/object" "data".

(** The store refuses the object in the end; the answer is still 200. *)
Example refused_upload_is_ok :
  match treat_request 5 upload (demo_proxy false []) with
  | (Ok r, _) => response_code r
  | _ => 0
  end = 200.
Proof. vm_compute. reflexivity. Qed.


Lemma forward_ends_witness :
  ∃ r p', forward 2 upload (demo_proxy false []) = (Ok r, p').
Proof.
  apply (forward_ends 0 upload (demo_proxy false [])); [reflexivity|].
  intros p w made w1 Hm -> Hc. unfold make_bucket in Hm. simpl in Hm.
  unfold outside in Hm. simpl in Hm. injection Hm as Hm.
  assert (Hw : bucket_exists w = true) by (destruct p, w; simpl in *; congruence).
  unfold check_user, bind, get_state in Hc. simpl in Hc.
  assert (Hw1 : bucket_exists w1 = true).
  { destruct (0 <? url_port (amendpoint_ p)); unfold outside in Hc; simpl in Hc.
    - destruct (inbox w); simpl in Hc; injection Hc as Hc; destruct w1; simpl in *; congruence.
    - injection Hc as Hc. destruct w1; simpl in *; congruence. }
  simpl. rewrite Hw1. by destruct (conflicts w1).
Defined.

Definition ask_token : Request := Req "GET" "/token" "".

Lemma token_without_identity_server_witness :
  ∃ p', generate_token 5 ask_token (demo_proxy false [])
    = (Ok (Built "HTTP/1.1" 405 "Method Not Allowed" []
             ("Error communicating with Identity Server" +:+ String "010" "")), p').
Proof. apply (token_without_identity_server 5 ask_token (demo_proxy false [])). reflexivity. Defined.

Lemma refused_token_escapes_witness :
  ∃ msg, generate_token 5 ask_token (demo_proxy true ["refused"])
         = (Throw (ThrownExn (json_exception parse_error 101 msg)),
            (request_reply 5 (Url "is" 443) (token_request (demo_proxy true ["refused"]))
               (demo_proxy true ["refused"])).2).
Proof.
  apply (refused_token_escapes 5 ask_token (demo_proxy true ["refused"])
           (demo_proxy true ["refused"])); vm_compute; reflexivity.
Defined.

(** A world where every read returns nothing. *)
#[export] Instance closed_env : ProxyEnv unit unit := {
  HttpUrl_parse s := Url s 443; HttpUrl_default := Url "" (-1); split_path s := [];
  base64_encode s := s; addEncodedQuery u q := host u; toString r := o_url r; auth := "";
  connect c h p w := (true, w); send c s w := (1, w); recv c w := (Some "", w);
  income_init w := (tt, w); income_finish w := (tt, w);
  decoder_new := tt; addChunk s d := d; getResponse d := None;
  forwardObject r w := (MinioOk, w); makeBucket b w := (true, w); minio_new e a s w := (true, w);
}.

Definition closed_proxy : WriterProxy unit :=
  Proxy "" "" (Url "is" 443) (Url "minio" 443) (Url "" (-1)) true (Builder "" [] 0 "" "") tt.

Lemma closed_connection_loops_witness :
  (receive (D := unit) 1000 EmptyResponse tt closed_proxy).1 = OutOfFuel.
Proof.
  apply (closed_connection_loops (D := unit) 1000 EmptyResponse tt closed_proxy); reflexivity.
Defined.
End ProxyDemo.
