(* ===== verification/TlsConfig.v ===== *)
(** * TLS connections (tls_config.h, tls_config.cpp)

    The table of [IncomeSSLConnection]s: who owns a file descriptor and an
    [SSL] object, when they are released, and the read loop of
    [ecall_tls_recv].  OpenSSL and the HTTP decoder are parameters; using an
    [SSL] object that was freed, freeing it twice or dereferencing a null
    pointer is [Undefined]. *)

From stdpp Require Import base gmap strings list.
From Stdlib Require Import ZArith Ascii Lia.
From S2P Require Import Prelude Cxx.

(** ** The objects *)

(** The result of [SSL_read]. *)
Inductive read_result : Type :=
| Data (bytes : string)   (** the count is the length: 0 is the end *)
| ReadError (e : Z).      (** negative, with the answer of [SSL_get_error] *)

(** The codes of [SSL_get_error] (openssl/ssl.h) and their names. *)
Definition SSL_ERROR_WANT_READ : Z := 2.

Definition err_str (e : Z) : string :=
  match e with
  | 0 => "SSL_ERROR_NONE"
  | 1 => "SSL_ERROR_SSL"
  | 2 => "SSL_ERROR_WANT_READ"
  | 3 => "SSL_ERROR_WANT_WRITE"
  | 4 => "SSL_ERROR_WANT_X509_LOOKUP"
  | 5 => "SSL_ERROR_SYSCALL"
  | 6 => "SSL_ERROR_ZERO_RETURN"
  | 7 => "SSL_ERROR_WANT_CONNECT"
  | 8 => "SSL_ERROR_WANT_ACCEPT"
  | _ => "UNKKNOWN"
  end.

Inductive tls_exn : Type :=
| NOT_FOUND
| CONNECTION_CLOSED
| runtime_error (what : string).

Section tls.
(** The decoder kept with a connection. *)
Context {Decoder : Type} (new_decoder : Decoder).

Record connection : Type := Conn {
  fd_ : Z;
  ssl_ : option nat;
  decoder_ : Decoder;
}.

(** The static members, and what the process has released so far: [freed]
    lists the [SSL] objects given to [SSL_free], [closed] the descriptors given
    to [close]. *)
Record tls : Type := Tls {
  ssl_ctx : bool;
  connection_table : gmap Z connection;
  next_ssl : nat;
  freed : list nat;
  closed : list Z;
}.

Definition TM (A : Type) : Type := M tls_exn tls A.

Definition set_table (t : gmap Z connection) (s : tls) : tls :=
  Tls (ssl_ctx s) t (next_ssl s) (freed s) (closed s).

(** [SSL_new] and [SSL_free]. *)
Definition SSL_new : TM nat := λ s,
  (Ok (next_ssl s), Tls (ssl_ctx s) (connection_table s) (S (next_ssl s)) (freed s) (closed s)).
Definition SSL_free (n : nat) : TM unit := λ s,
  if decide (n ∈ freed s) then (Undefined, s)
  else (Ok tt, Tls (ssl_ctx s) (connection_table s) (next_ssl s) (n :: freed s) (closed s)).

(** [SSL_get_error], through [err_str]: the object must be alive. *)
Definition use_ssl (n : nat) : TM unit := λ s,
  if decide (n ∈ freed s) then (Undefined, s) else (Ok tt, s).

Definition close_fd (fd : Z) : TM unit :=
  modify (λ s, Tls (ssl_ctx s) (connection_table s) (next_ssl s) (freed s) (fd :: closed s)).

(** [IncomeSSLConnection::close], on the object [c]. *)
Definition close (c : connection) : TM connection :=
  (match ssl_ c with Some n => SSL_free n | None => ret tt end) ;;
  (if decide (fd_ c ≠ -1) then close_fd (fd_ c) else ret tt) ;;
  ret (Conn (-1) None (decoder_ c)).

(** The move constructor: the new object and what is left of the old one. *)
Definition move_construct (c : connection) : connection * connection :=
  (Conn (fd_ c) (ssl_ c) (decoder_ c), Conn (-1) None (decoder_ c)).

(** The destructor. *)
Definition destroy (c : connection) : TM unit := close c ;; ret tt.

(** The move assignment. *)
Definition move_assign (this c : connection) : TM (connection * connection) :=
  close this ;; ret (move_construct c).

(** ** The table *)

Definition init : TM unit :=
  modify (λ s, Tls true (connection_table s) (next_ssl s) (freed s) (closed s)).

(** [connection_table.erase(fd)]: the element is destroyed. *)
Definition erase (fd : Z) : TM unit := λ s,
  match connection_table s !! fd with
  | Some c => destroy c (set_table (delete fd (connection_table s)) s)
  | None => (Ok tt, s)
  end.

(** [connection_table.insert(make_pair(fd, c))]: the object is moved into the
    pair and from there into the table, unless the key is present; then the
    pair is destroyed with the object. *)
Definition insert_connection (fd : Z) (c : connection) : TM unit := λ s,
  let '(value, c) := move_construct c in
  match connection_table s !! fd with
  | Some _ => (destroy value ;; destroy c) s
  | None =>
      let '(element, value) := move_construct value in
      (destroy value ;; destroy c) (set_table (<[fd := element]> (connection_table s)) s)
  end.

(** [addConnection]; [r] is the result of [SSL_accept]. *)
Definition addConnection (fd : Z) (r : Z) : TM Z :=
  s <- get_state ;;
  if negb (ssl_ctx s) then ret (-1) else
  erase fd ;;
  cli <- SSL_new ;;
  if r <=? 0 then
    SSL_free cli ;;
    use_ssl cli ;;
    close_fd fd ;;
    ret (-2)
  else
    insert_connection fd (Conn fd (Some cli) new_decoder) ;;
    ret 0.

Definition getConnection (fd : Z) : TM connection := λ s,
  match connection_table s !! fd with
  | Some c => (Ok c, s)
  | None => (Throw NOT_FOUND, s)
  end.

(** Write back through the reference [getConnection] returned. *)
Definition put_connection (fd : Z) (c : connection) : TM unit :=
  modify (λ s, set_table (<[fd := c]> (connection_table s)) s).

Definition removeConnection (fd : Z) : TM unit := λ s,
  match connection_table s !! fd with
  | Some _ => erase fd s
  | None => (Throw NOT_FOUND, s)
  end.

(** [finish]: close every connection, then clear the table. *)
Fixpoint close_all (l : list (Z * connection)) : TM unit :=
  match l with
  | [] => ret tt
  | (fd, c) :: l => c <- close c ;; put_connection fd c ;; close_all l
  end.

Fixpoint destroy_all (l : list (Z * connection)) : TM unit :=
  match l with
  | [] => ret tt
  | (_, c) :: l => destroy c ;; destroy_all l
  end.

Definition finish : TM unit :=
  s <- get_state ;;
  close_all (map_to_list (connection_table s)) ;;
  s <- get_state ;;
  modify (set_table ∅) ;;
  destroy_all (map_to_list (connection_table s)).

(** ** Reading and writing *)

(** [recv] on the connection registered as [fd]. *)
Definition recv (fd : Z) (r : read_result) : TM string :=
  c <- getConnection fd ;;
  match ssl_ c with
  | None => lift Undefined
  | Some n =>
      use_ssl n ;;
      match r with
      | Data bytes =>
          if (bytes =? "")%string
          then c <- close c ;; put_connection fd c ;; throw CONNECTION_CLOSED
          else ret bytes
      | ReadError e => throw (runtime_error (err_str e))
      end
  end.

(** [send]: [SSL_write] is tried again while it wants to write, at most
    [tries] times; [write i] is the error of the [i]-th attempt ([true]: none,
    [false] other) or [None] for SSL_ERROR_WANT_WRITE.  The result is the
    return value and the number of attempts. *)
Definition tries : Z := 1000000.

Fixpoint send_loop (fuel : nat) (write : Z → option bool) (i : Z) : outcome tls_exn (Z * Z) :=
  match fuel with
  | O => OutOfFuel
  | S fuel =>
      let i := i + 1 in
      match write i with
      | None => if i <? tries then send_loop fuel write i else Ok (-1, i)
      | Some true => Ok (0, i)
      | Some false => Ok (-1, i)
      end
  end.

Definition send (write : Z → option bool) : outcome tls_exn (Z * Z) :=
  send_loop (Z.to_nat tries) write 0.

(** [ecall_tls_recv]: [process] is the [process_input] of the service, which
    works on the decoder of the connection and does not throw; reads beyond
    the list would block, and a non-blocking socket reports that. *)
Fixpoint tls_recv_loop (process : string → connection → connection) (fd : Z)
    (reads : list read_result) : TM unit :=
  match reads with
  | [] => recv fd (ReadError SSL_ERROR_WANT_READ) ;; ret tt
  | r :: reads =>
      bytes <- recv fd r ;;
      c <- getConnection fd ;;
      put_connection fd (process bytes c) ;;
      tls_recv_loop process fd reads
  end.

Definition ecall_tls_recv (process : string → connection → connection) (fd : Z)
    (reads : list read_result) : TM Z := λ s,
  match (getConnection fd ;; tls_recv_loop process fd reads) s with
  | (Ok _, s) => (Ok 0, s)
  | (Throw NOT_FOUND, s) => (Ok (-1), s)
  | (Throw CONNECTION_CLOSED, s) => (removeConnection fd ;; ret (-2)) s
  | (Throw (runtime_error _), s) => (Ok (-4), s)
  | (OutOfFuel, s) => (OutOfFuel, s)
  | (Undefined, s) => (Undefined, s)
  end.

(** ** Ownership

    Between the calls from outside, every connection of the table is open
    under its own descriptor, each [SSL] object belongs to one connection and
    was not freed, and none is lost: an object was freed once or is in the
    table. *)
Record tls_inv (s : tls) : Prop := {
  inv_open fd c : connection_table s !! fd = Some c → fd_ c = fd ∧ fd ≠ -1 ∧
    ∃ n, ssl_ c = Some n ∧ (n < next_ssl s)%nat ∧ n ∉ freed s;
  inv_unique fd1 fd2 c1 c2 : connection_table s !! fd1 = Some c1 →
    connection_table s !! fd2 = Some c2 → ssl_ c1 = ssl_ c2 → fd1 = fd2;
  inv_freed n : n ∈ freed s → (n < next_ssl s)%nat;
  inv_once : NoDup (freed s);
  inv_owned n : (n < next_ssl s)%nat → n ∈ freed s ∨
    ∃ fd c, connection_table s !! fd = Some c ∧ ssl_ c = Some n;
}.

(** The state after a connection was released. *)
Definition release (n : nat) (fd : Z) (s : tls) : tls :=
  Tls (ssl_ctx s) (connection_table s) (next_ssl s) (n :: freed s) (fd :: closed s).

Lemma close_run c n s :
  ssl_ c = Some n → n ∉ freed s → fd_ c ≠ -1 →
  close c s = (Ok (Conn (-1) None (decoder_ c)), release n (fd_ c) s).
Proof.
  intros Hs Hn Hf. unfold close, bind. rewrite Hs. unfold SSL_free. rewrite decide_False by done.
  simpl. by rewrite decide_True by done.
Qed.

Lemma close_closed d s : close (Conn (-1) None d) s = (Ok (Conn (-1) None d), s).
Proof. done. Qed.

Lemma destroy_closed d s : destroy (Conn (-1) None d) s = (Ok tt, s).
Proof. done. Qed.

Lemma release_inv fd c n s :
  tls_inv s → connection_table s !! fd = Some c → ssl_ c = Some n →
  tls_inv (release n fd (set_table (delete fd (connection_table s)) s)).
Proof.
  intros [Ho Hu Hf Hone Hown] Hc Hn. destruct (Ho _ _ Hc) as (_ & _ & n0 & Hn0 & Hlt & Hfree).
  assert (n0 = n) as -> by congruence. constructor; simpl.
  - intros fd' c' [Hne Hc']%lookup_delete_Some. destruct (Ho _ _ Hc') as (? & ? & n' & Hn' & ? & Hfr).
    split_and!; [done|done|]. exists n'. split_and!; [done|done|].
    rewrite not_elem_of_cons. split; [|done]. intros ->. apply Hne.
    apply (Hu fd fd' c c' Hc Hc'). congruence.
  - intros fd1 fd2 c1 c2 [? H1]%lookup_delete_Some [? H2]%lookup_delete_Some. eauto.
  - intros n' [->|Hin]%elem_of_cons; eauto.
  - by constructor.
  - intros n' Hn'. rewrite elem_of_cons. destruct (Hown n' Hn') as [Hin|(fd' & c' & Hc' & Hs')]; [by auto|].
    destruct (decide (n' = n)) as [->|Hne]; [by auto|]. right. exists fd', c'. split; [|done].
    rewrite lookup_delete_ne; [done|]. intros ->. congruence.
Qed.

(** [erase] releases the connection once and keeps the others. *)
Lemma erase_run fd s :
  tls_inv s → ∃ s', erase fd s = (Ok tt, s') ∧ tls_inv s' ∧ ssl_ctx s' = ssl_ctx s
    ∧ connection_table s' = delete fd (connection_table s).
Proof.
  intros Hinv. unfold erase. destruct (connection_table s !! fd) as [c|] eqn:E.
  - destruct (inv_open s Hinv fd c E) as (Hfd & Hne & n & Hn & _ & Hfr).
    exists (release n fd (set_table (delete fd (connection_table s)) s)).
    unfold destroy, bind. rewrite (close_run c n) by (rewrite ?Hfd; done).
    rewrite Hfd. split_and!; try done. by eapply release_inv.
  - exists s. split_and!; try done. by rewrite delete_id.
Qed.

Lemma insert_run fd n d s :
  connection_table s !! fd = None →
  insert_connection fd (Conn fd (Some n) d) s
  = (Ok tt, set_table (<[fd := Conn fd (Some n) d]> (connection_table s)) s).
Proof. intros Hn. unfold insert_connection. simpl. by rewrite Hn. Qed.

(** Once a stale connection is gone, the new one is registered. *)
Lemma add_after_erase fd r s s1 :
  ssl_ctx s = true → 0 < r → fd ≠ -1 → erase fd s = (Ok tt, s1) → tls_inv s1 →
  connection_table s1 !! fd = None →
  ∃ s' n, addConnection fd r s = (Ok 0, s') ∧ tls_inv s'
    ∧ connection_table s' = <[fd := Conn fd (Some n) new_decoder]> (connection_table s1).
Proof.
  intros Hctx Hr Hfd He [Ho Hu Hf Hone Hown] Hnone. unfold addConnection, bind at 1, get_state.
  rewrite Hctx. cbn [negb]. rewrite (bind_run _ _ _ _ _ He). unfold bind at 1, SSL_new.
  rewrite (proj2 (Z.leb_gt r 0)) by lia. unfold bind.
  rewrite insert_run by done. simpl. eexists _, (next_ssl s1). split; [done|]. split; [|done].
  constructor; simpl.
  - intros fd' c'. rewrite lookup_insert. case_decide as E.
    + intros [= <-]. subst. split_and!; [done|done|]. exists (next_ssl s1).
      split_and!; [done|lia|]. intros Hin. apply Hf in Hin. lia.
    + intros Hc'. destruct (Ho _ _ Hc') as (? & ? & n & ? & ? & ?).
      split_and!; try done. exists n. split_and!; [done|lia|done].
  - assert (Hnew : ∀ fd' c', connection_table s1 !! fd' = Some c' → ssl_ c' ≠ Some (next_ssl s1)).
    { intros fd' c' Hc' Heq. destruct (Ho _ _ Hc') as (_ & _ & n & ? & ? & _).
      simplify_eq. lia. }
    intros fd1 fd2 c1 c2. rewrite !lookup_insert. repeat case_decide; intros; simplify_eq/=;
      [done| | |by eapply Hu]; exfalso; eapply Hnew; eauto.
  - intros n Hin. apply Hf in Hin. lia.
  - done.
  - intros n Hn. destruct (decide (n = next_ssl s1)) as [->|Hne].
    + right. exists fd. eexists. by rewrite lookup_insert_eq.
    + destruct (Hown n) as [Hin|(fd' & c' & Hc' & Hs')]; [lia|by left|]. right. exists fd', c'.
      rewrite lookup_insert_ne; [done|]. intros ->. congruence.
Qed.

(** A completed handshake registers the connection under its descriptor;
    a stale connection with the same descriptor is released first, the others
    stay, and every connection keeps its own live [SSL] object. *)
Theorem addConnection_registers fd r s :
  tls_inv s → ssl_ctx s = true → 0 < r → fd ≠ -1 →
  ∃ s' n, addConnection fd r s = (Ok 0, s') ∧ tls_inv s'
    ∧ connection_table s' = <[fd := Conn fd (Some n) new_decoder]> (connection_table s).
Proof.
  intros Hinv Hctx Hr Hfd.
  destruct (erase_run fd s Hinv) as (s1 & He & Hinv1 & _ & Ht1).
  destruct (add_after_erase fd r s s1) as (s' & n & Hadd & Hinv' & Ht); try done.
  { by rewrite Ht1, lookup_delete_eq. }
  exists s', n. split_and!; try done. by rewrite Ht, Ht1, insert_delete_eq.
Qed.

(** When the handshake fails, the error is looked up in the [SSL] object
    after it was freed. *)
Theorem failed_handshake_uses_freed_object fd r s :
  tls_inv s → ssl_ctx s = true → r ≤ 0 → (addConnection fd r s).1 = Undefined.
Proof.
  intros Hinv Hctx Hr. unfold addConnection, bind at 1, get_state. rewrite Hctx. cbn [negb].
  destruct (erase_run fd s Hinv) as (s1 & He & Hinv1 & _ & _).
  rewrite (bind_run _ _ _ _ _ He). unfold bind at 1, SSL_new.
  rewrite (proj2 (Z.leb_le r 0)) by lia. unfold bind at 1, SSL_free. simpl.
  rewrite decide_False. 2:{ intros Hin. apply (inv_freed s1 Hinv1) in Hin. lia. }
  unfold bind, use_ssl. simpl. rewrite decide_True; [done|]. by left.
Qed.

(** ** The read loop *)

Section recv.
Context (process : string → connection → connection).
Hypothesis process_keeps : ∀ b c, fd_ (process b c) = fd_ c ∧ ssl_ (process b c) = ssl_ c.

Lemma put_inv fd c c' s :
  tls_inv s → connection_table s !! fd = Some c → fd_ c' = fd_ c → ssl_ c' = ssl_ c →
  tls_inv (set_table (<[fd := c']> (connection_table s)) s).
Proof.
  intros [Ho Hu Hf Hone Hown] Hc Hfd Hssl. constructor; simpl; [| |done|done|].
  - intros fd0 c0. rewrite lookup_insert. case_decide; [|apply Ho].
    intros [= <-]. subst. rewrite Hfd, Hssl. by apply Ho.
  - intros fd1 fd2 c1 c2. rewrite !lookup_insert. repeat case_decide; intros H1 H2 He;
      simplify_eq; [done| | |by eapply Hu]; [eapply (Hu _ _ c c2)|eapply (Hu _ _ c1 c)];
      congruence.
  - intros n Hn. destruct (Hown n Hn) as [Hin|(fd' & c0 & Hc0 & Hs0)]; [by left|right].
    destruct (decide (fd = fd')) as [<-|Hne].
    + exists fd, c'. rewrite lookup_insert_eq. split; [done|]. congruence.
    + exists fd', c0. by rewrite lookup_insert_ne.
Qed.

(** How the loop on an open connection ends. *)
Definition recv_ends (fd : Z) (s : tls) (o : outcome tls_exn unit) (s' : tls) : Prop :=
  delete fd (connection_table s') = delete fd (connection_table s) ∧
  ((∃ name, o = Throw (runtime_error name) ∧ tls_inv s' ∧ is_Some (connection_table s' !! fd))
   ∨ (∃ d, o = Throw CONNECTION_CLOSED
        ∧ connection_table s' !! fd = Some (Conn (-1) None d)
        ∧ tls_inv (set_table (delete fd (connection_table s')) s'))).

Lemma recv_open fd c s r :
  tls_inv s → connection_table s !! fd = Some c →
  match r with
  | Data "" => ∃ s', recv fd r s = (Throw CONNECTION_CLOSED, s')
      ∧ recv_ends fd s (Throw CONNECTION_CLOSED) s'
  | Data b => recv fd r s = (Ok b, s)
  | ReadError e => recv fd r s = (Throw (runtime_error (err_str e)), s)
  end.
Proof.
  intros Hinv Hc. destruct (inv_open s Hinv fd c Hc) as (Hfd & Hne & n & Hn & Hlt & Hfr).
  destruct r as [[|a b]|name]; unfold recv, bind at 1, getConnection; rewrite Hc, Hn;
    unfold bind at 1, use_ssl; rewrite decide_False by done; [|reflexivity..]. simpl.
  unfold bind at 1. rewrite (close_run c n) by (rewrite ?Hfd; done).
  eexists. split; [done|]. unfold recv_ends. simpl. rewrite Hfd. split.
  { by rewrite delete_insert_eq. }
  right. exists (decoder_ c). split_and!; [done|by rewrite lookup_insert_eq|].
  rewrite delete_insert_eq. by apply (release_inv fd c n s).
Qed.

Lemma recv_loop_ends fd reads s c :
  tls_inv s → connection_table s !! fd = Some c →
  ∃ o s', tls_recv_loop process fd reads s = (o, s') ∧ recv_ends fd s o s'.
Proof.
  revert s c. induction reads as [|r reads IH]; intros s c Hinv Hc; cbn [tls_recv_loop].
  { unfold bind. rewrite (recv_open fd c s (ReadError _) Hinv Hc). eexists _, _.
    split; [done|]. split; [done|]. left. eauto. }
  pose proof (recv_open fd c s r Hinv Hc) as Hr. unfold bind at 1.
  destruct r as [[|a b]|name].
  - destruct Hr as (s' & -> & Hends). eauto.
  - rewrite Hr. unfold bind at 1, getConnection. rewrite Hc. unfold bind at 1, put_connection, modify.
    destruct (process_keeps (String a b) c) as [Hf Hs].
    destruct (IH _ (process (String a b) c) (put_inv fd c _ s Hinv Hc Hf Hs)) as (o & s' & Ho & Hd & Hcases).
    { simpl. by rewrite lookup_insert_eq. }
    exists o, s'. split; [exact Ho|]. split; [|done]. rewrite Hd. simpl. by rewrite delete_insert_eq.
  - rewrite Hr. eexists _, _. split; [done|]. split; [done|]. left. eauto.
Qed.

(** [ecall_tls_recv] reads until the connection is closed or would
    block, whatever arrives: it returns -1 for an unknown descriptor, -2 after
    removing a closed connection and -4 otherwise, never leaves an exception
    or a closed connection behind and does not touch other connections. *)
Theorem ecall_tls_recv_ends fd reads s :
  tls_inv s →
  ∃ v s', ecall_tls_recv process fd reads s = (Ok v, s') ∧ tls_inv s'
    ∧ delete fd (connection_table s') = delete fd (connection_table s)
    ∧ match connection_table s !! fd with
      | None => v = -1 ∧ s' = s
      | Some _ => (v = -2 ∧ connection_table s' !! fd = None)
                  ∨ (v = -4 ∧ is_Some (connection_table s' !! fd))
      end.
Proof.
  intros Hinv. unfold ecall_tls_recv, bind at 1, getConnection.
  destruct (connection_table s !! fd) as [c|] eqn:Hc.
  2:{ exists (-1), s. by split_and!. }
  destruct (recv_loop_ends fd reads s c Hinv Hc) as (o & s' & -> & Hd & Hcases).
  destruct Hcases as [(name & -> & Hinv' & Hin)|(d & -> & Hin & Hinv')].
  - exists (-4), s'. split_and!; try done. by right.
  - exists (-2), (set_table (delete fd (connection_table s')) s').
    unfold bind, removeConnection, erase. rewrite Hin, destroy_closed. split_and!; try done.
    + simpl. by rewrite Hd, delete_delete_eq.
    + left. split; [done|]. simpl. by rewrite lookup_delete_eq.
Qed.
End recv.

(** A thread that finds its connection closed by the peer releases the
    descriptor before it takes the connection out of the table.  If the
    descriptor is given to a new client in between, the new connection, just
    registered, is the one that is removed and closed. *)
Theorem reused_descriptor_is_removed fd c r s :
  tls_inv s → ssl_ctx s = true → connection_table s !! fd = Some c → 0 < r →
  ∃ s1 s2 s3, recv fd (Data "") s = (Throw CONNECTION_CLOSED, s1)
    ∧ addConnection fd r s1 = (Ok 0, s2)
    ∧ (∃ n, connection_table s2 !! fd = Some (Conn fd (Some n) new_decoder))
    ∧ removeConnection fd s2 = (Ok tt, s3) ∧ connection_table s3 !! fd = None
    ∧ head (closed s3) = Some fd.
Proof.
  intros Hinv Hctx Hc Hr. destruct (inv_open s Hinv fd c Hc) as (Hfd & Hne & n0 & Hn & Hlt & Hfr).
  destruct (recv_open fd c s (Data "") Hinv Hc) as (s1 & Hrecv & Hd & Hcases).
  destruct Hcases as [(? & [=] & _)|(d & _ & Hin & Hinv1)].
  assert (Hctx1 : ssl_ctx s1 = true).
  { revert Hrecv. unfold recv, bind at 1, getConnection. rewrite Hc, Hn. unfold bind at 1, use_ssl.
    rewrite decide_False by done. simpl. unfold bind at 1.
    rewrite (close_run c n0) by (rewrite ?Hfd; done). simpl. intros [= <-]. done. }
  destruct (add_after_erase fd r s1 (set_table (delete fd (connection_table s1)) s1))
    as (s2 & n & Hadd & Hinv2 & Ht2); try done.
  { unfold erase. by rewrite Hin, destroy_closed. }
  { simpl. by rewrite lookup_delete_eq. }
  assert (Hin2 : connection_table s2 !! fd = Some (Conn fd (Some n) new_decoder)).
  { rewrite Ht2. by rewrite lookup_insert_eq. }
  destruct (inv_open s2 Hinv2 fd _ Hin2) as (_ & _ & n' & [= <-] & _ & Hfr2).
  exists s1, s2, (release n fd (set_table (delete fd (connection_table s2)) s2)).
  split_and!; try done; [by exists n| |].
  - unfold removeConnection, erase. rewrite Hin2. unfold destroy, bind.
    by rewrite (close_run _ n).
  - simpl. by rewrite lookup_delete_eq.
Qed.

(** ** Writing *)

Lemma send_loop_ends fuel write i :
  0 ≤ i → i < tries → tries - i ≤ Z.of_nat fuel →
  ∃ v k, send_loop fuel write i = Ok (v, k) ∧ i < k ≤ tries
    ∧ (∀ j, i < j < k → write j = None)
    ∧ (v = 0 ∧ write k = Some true ∨ v = -1 ∧ write k ≠ Some true).
Proof.
  revert i. induction fuel as [|fuel IH]; intros i Hi Ht Hf; [lia|]. cbn [send_loop].
  destruct (write (i + 1)) as [[]|] eqn:E.
  - exists 0, (i + 1). split; [done|]. split; [lia|]. split; [lia|]. by left.
  - exists (-1), (i + 1). split; [done|]. split; [lia|]. split; [lia|]. right. by rewrite E.
  - destruct (i + 1 <? tries) eqn:El; zify_cmp.
    + destruct (IH (i + 1)) as (v & k & Hrun & Hk & Hn & Hv); [lia..|].
      exists v, k. split; [done|]. split; [lia|]. split; [|done].
      intros j Hj. destruct (decide (j = i + 1)) as [->|]; [done|]. apply Hn. lia.
    + exists (-1), (i + 1). split; [done|]. split; [lia|]. split; [lia|]. right. by rewrite E.
Qed.
End tls.

Arguments tls Decoder : clear implicits.
Arguments connection Decoder : clear implicits.

(** ** The properties at work *)

Definition empty_tls : tls unit := Tls true ∅ 0 [] [].

Lemma empty_tls_inv : tls_inv empty_tls.
Proof.
  constructor; simpl; [intros fd c Hc; done|intros fd1 fd2 c1 c2 Hc; done| |constructor|intros n Hn; lia].
  by intros n ?%not_elem_of_nil.
Qed.

Lemma addConnection_registers_witness :
  ∃ s' n, addConnection tt 5 1 empty_tls = (Ok 0, s') ∧ tls_inv s'
    ∧ connection_table s' = <[5 := Conn 5 (Some n) tt]> ∅.
Proof. by apply (addConnection_registers tt 5 1 empty_tls empty_tls_inv). Defined.

Lemma failed_handshake_uses_freed_object_witness :
  (addConnection tt 5 0 empty_tls).1 = Undefined.
Proof.
  apply (failed_handshake_uses_freed_object tt 5 0 empty_tls empty_tls_inv); [reflexivity|lia].
Defined.

(** A table with one connection. *)
Definition one_tls : tls unit := (addConnection tt 5 1 empty_tls).2.

Lemma one_tls_inv : tls_inv one_tls.
Proof.
  destruct (erase_run 5 empty_tls empty_tls_inv) as (s1 & He & Hinv1 & _ & Ht1).
  destruct (add_after_erase tt 5 1 empty_tls s1) as (s' & n & Hadd & Hinv' & Ht); try done.
  { by rewrite Ht1. }
  unfold one_tls. by rewrite Hadd.
Qed.

Lemma ecall_tls_recv_ends_witness :
  ∃ v s', ecall_tls_recv (λ _ c, c) 5 [Data "GET"; Data ""] one_tls = (Ok v, s') ∧ tls_inv s'
    ∧ delete 5 (connection_table s') = delete 5 (connection_table one_tls)
    ∧ match connection_table one_tls !! 5 with
      | None => v = -1 ∧ s' = one_tls
      | Some _ => (v = -2 ∧ connection_table s' !! 5 = None)
                  ∨ (v = -4 ∧ is_Some (connection_table s' !! 5))
      end.
Proof.
  exact (ecall_tls_recv_ends (λ _ c, c) (λ _ _, conj eq_refl eq_refl) 5 [Data "GET"; Data ""]
           one_tls one_tls_inv).
Defined.

Lemma reused_descriptor_is_removed_witness :
  ∃ s1 s2 s3, recv 5 (Data "") one_tls = (Throw CONNECTION_CLOSED, s1)
    ∧ addConnection tt 5 1 s1 = (Ok 0, s2)
    ∧ (∃ n, connection_table s2 !! 5 = Some (Conn 5 (Some n) tt))
    ∧ removeConnection 5 s2 = (Ok tt, s3) ∧ connection_table s3 !! 5 = None
    ∧ head (closed s3) = Some 5.
Proof.
  apply (reused_descriptor_is_removed tt 5 (Conn 5 (Some 0%nat) tt) 1 one_tls one_tls_inv);
    [reflexivity|reflexivity|lia].
Defined.
