(* ===== verification/TlsOwnership.v ===== *)
(** * The [SSL] objects of the server

    The calls the event loop makes on the table of [TlsConfig], in any order,
    and the end of the enclave: an [SSL] object is freed exactly once, at the
    latest by [finish]. *)

From stdpp Require Import base gmap strings list.
From Stdlib Require Import ZArith Lia.
From S2P Require Import Prelude Cxx TlsConfig.

Section ownership.
Context {Decoder : Type}.

Local Abbreviation tls := (tls Decoder).
Local Abbreviation connection := (connection Decoder).

(** ** [finish] *)

Definition is_closed (c : connection) : Prop := fd_ c = -1 ∧ ssl_ c = None.

(** Closing the connections [l] that are still open. *)
Lemma close_all_run (l : list (Z * connection)) (s : tls) :
  NoDup l.*1 → tls_inv (set_table (list_to_map l) s) →
  (∀ fd c, connection_table s !! fd = Some c → (fd, c) ∈ l ∨ is_closed c) →
  ∃ s', close_all l s = (Ok tt, s') ∧ tls_inv (set_table ∅ s')
    ∧ ∀ fd c, connection_table s' !! fd = Some c → is_closed c.
Proof.
  revert s. induction l as [|[fd c] l IH]; intros s Hnd Hinv Hall.
  { exists s. split_and!; [done|done|]. intros fd c Hc. by destruct (Hall fd c Hc) as [?%not_elem_of_nil|]. }
  apply NoDup_cons in Hnd as [Hfd Hnd]. set (t := set_table _ s) in Hinv.
  assert (Hc : connection_table t !! fd = Some c) by (simpl; by rewrite lookup_insert_eq).
  destruct (inv_open t Hinv fd c Hc) as (Hf & Hne & n & Hn & _ & Hfr).
  cbn [close_all]. rewrite (bind_run _ _ _ _ _ (close_run c n s Hn Hfr ltac:(congruence))).
  unfold bind, put_connection, modify. apply IH; [done| |].
  - pose proof (release_inv fd c n t Hinv Hc Hn) as Hrel. unfold release, set_table in *. simpl in *.
    rewrite Hf. rewrite delete_insert_id in Hrel; [done|]. by apply not_elem_of_list_to_map_1.
  - simpl. intros fd' c'. rewrite lookup_insert. case_decide as E; [intros [= <-]; by right|].
    intros Hc'. destruct (Hall fd' c' Hc') as [[[= -> ->]|Hin]%elem_of_cons|]; [done|by left|by right].
Qed.

Lemma destroy_all_run (l : list (Z * connection)) (s : tls) :
  (∀ fd c, (fd, c) ∈ l → is_closed c) → destroy_all l s = (Ok tt, s).
Proof.
  induction l as [|[fd [f x d]] l IH]; intros Hl; [done|]. cbn [destroy_all].
  destruct (Hl fd (Conn f x d)) as [Ef Ex]; [by left|]. simpl in *. subst.
  rewrite (bind_run _ _ _ _ _ (destroy_closed d s)). apply IH. intros fd' c' Hin. eapply Hl. by right.
Qed.

Lemma finish_run (s : tls) :
  tls_inv s → ∃ s', finish s = (Ok tt, s') ∧ tls_inv s' ∧ connection_table s' = ∅.
Proof.
  intros Hinv. destruct (close_all_run (map_to_list (connection_table s)) s) as (s' & Hrun & Hinv' & Hall).
  - apply NoDup_fst_map_to_list.
  - rewrite list_to_map_to_list. by destruct s.
  - intros fd c Hc. left. by apply elem_of_map_to_list.
  - exists (set_table ∅ s'). split_and!; [|done|done]. unfold finish, bind at 1, get_state.
    rewrite (bind_run _ _ _ _ _ Hrun). unfold bind, get_state, modify. apply destroy_all_run.
    intros fd c Hin. eapply Hall. by apply elem_of_map_to_list.
Qed.

(** An empty table: every object was freed, once. *)
Lemma all_freed (s : tls) : tls_inv s → connection_table s = ∅ → freed s ≡ₚ seq 0 (next_ssl s).
Proof.
  intros Hinv He. apply NoDup_Permutation; [apply (inv_once s Hinv)|apply NoDup_seq|].
  intros n. rewrite elem_of_seq. split.
  - intros Hn. apply (inv_freed s Hinv) in Hn. lia.
  - intros [_ Hn]. destruct (inv_owned s Hinv n Hn) as [|(fd & c & Hc & _)]; [done|].
    by rewrite He, lookup_empty in Hc.
Qed.

(** ** The calls of the event loop *)

(** [ecall_tls_accept] with the result of the handshake, and [ecall_tls_recv]
    with what the socket holds. *)
Inductive tls_call : Type :=
| Accept (fd : Z) (r : Z)
| Receive (fd : Z) (reads : list read_result).

Context (new_decoder : Decoder) (process : string → connection → connection).

Definition tls_exec (c : tls_call) : TM Z :=
  match c with
  | Accept fd r => addConnection new_decoder fd r
  | Receive fd reads => ecall_tls_recv process fd reads
  end.

Fixpoint tls_execs (l : list tls_call) : TM (list Z) :=
  match l with
  | [] => ret []
  | c :: l => v <- tls_exec c ;; vs <- tls_execs l ;; ret (v :: vs)
  end.

(** A descriptor of the system, and a handshake that completed. *)
Definition proper (c : tls_call) : Prop :=
  match c with Accept fd r => 0 ≤ fd ∧ 0 < r | Receive _ _ => True end.

Hypothesis process_keeps : ∀ b c, fd_ (process b c) = fd_ c ∧ ssl_ (process b c) = ssl_ c.

(** The values the calls return. *)
Definition tls_codes : list Z := [0; -1; -2; -4].

Lemma tls_exec_run c (s : tls) :
  proper c → tls_inv s → ∃ v s', tls_exec c s = (Ok v, s') ∧ v ∈ tls_codes ∧ tls_inv s'.
Proof.
  intros Hc Hinv. destruct c as [fd r|fd reads]; simpl in *.
  - destruct (ssl_ctx s) eqn:Hctx.
    + destruct (addConnection_registers new_decoder fd r s) as (s' & n & Hrun & Hinv' & _); [done|done|lia|lia|].
      exists 0, s'. split_and!; [done|set_solver|done].
    + exists (-1), s. split_and!; [|set_solver|done]. unfold addConnection, bind at 1, get_state. by rewrite Hctx.
  - destruct (ecall_tls_recv_ends process process_keeps fd reads s Hinv) as (v & s' & Hrun & Hinv' & _ & Hv). exists v, s'. split_and!; [done| |done].
    unfold tls_codes. case_match; [destruct Hv as [[-> _]|[-> _]]|destruct Hv as [-> _]]; set_solver.
Qed.

Lemma tls_execs_run l (s : tls) :
  Forall proper l → tls_inv s →
  ∃ vs s', tls_execs l s = (Ok vs, s') ∧ Forall (.∈ tls_codes) vs ∧ tls_inv s'.
Proof.
  intros Hl. revert s. induction Hl as [|c l Hc _ IH]; intros s Hinv; cbn [tls_execs]; [by eexists [], s|].
  destruct (tls_exec_run c s Hc Hinv) as (v & s1 & Hrun & Hv & Hinv1).
  destruct (IH s1 Hinv1) as (vs & s2 & Hrun2 & Hvs & Hinv2). exists (v :: vs), s2. split_and!; [|by constructor|done].
  by rewrite (bind_run _ _ _ _ _ Hrun), (bind_run _ _ _ _ _ Hrun2).
Qed.

(** C36: Whatever the event loop asks of the TLS connections, in any order and
    with any bytes received, each call returns one of its codes, each connection
    keeps a live [SSL] object of its own and none is lost: when the enclave
    finishes, the objects freed are exactly the objects created, each freed
    once.  (Handshakes that fail are
    excepted.) *)
Theorem ssl_objects_owned l (s : tls) :
  tls_inv s → Forall proper l →
  ∃ vs s1 s2, tls_execs l s = (Ok vs, s1) ∧ Forall (.∈ tls_codes) vs ∧ tls_inv s1
    ∧ finish s1 = (Ok tt, s2) ∧ connection_table s2 = ∅ ∧ freed s2 ≡ₚ seq 0 (next_ssl s2).
Proof.
  intros Hinv Hl. destruct (tls_execs_run l s Hl Hinv) as (vs & s1 & Hrun & Hvs & Hinv1).
  destruct (finish_run s1 Hinv1) as (s2 & Hfin & Hinv2 & He). exists vs, s1, s2.
  split_and!; try done. by apply all_freed.
Qed.
End ownership.

(** Two clients, one of which leaves, and a third that gets its descriptor. *)
Definition visits : list tls_call :=
  [Accept 5 1; Accept 6 1; Receive 5 [Data "GET"; Data ""]; Accept 5 1; Receive 6 [Data "PUT"]].

Lemma ssl_objects_owned_witness :
  ∃ vs s1 s2, tls_execs tt (λ _ c, c) visits empty_tls = (Ok vs, s1) ∧ Forall (.∈ tls_codes) vs ∧ tls_inv s1
    ∧ finish s1 = (Ok tt, s2) ∧ connection_table s2 = ∅ ∧ freed s2 ≡ₚ seq 0 (next_ssl s2).
Proof.
  apply (ssl_objects_owned tt (λ _ c, c) (λ _ _, conj eq_refl eq_refl) visits empty_tls empty_tls_inv).
  repeat constructor; lia.
Defined.

Example visits_result : (tls_execs tt (λ _ c, c) visits empty_tls).1 = Ok [0; 0; -2; 0; -4].
Proof. vm_compute. reflexivity. Qed.
