(* ===== verification/TlsContext.v ===== *)
(** * The TLS context of the server (tls_config.cpp)

    What [IncomeSSLConnection::init] sets up before connections are accepted:
    a fresh key, a certificate it signs itself, and the context that uses both.
    The cryptography of OpenSSL is a parameter; the setters of its structures
    are fields of records. *)

From stdpp Require Import base strings list.
From Stdlib Require Import ZArith Ascii Lia.
From S2P Require Import Prelude Cxx Args.

(** ** The callback for pass phrases *)

(** [buf[i] = c]. *)
Definition set_char (i : nat) (c : ascii) (buf : string) : string :=
  str_take i buf +:+ String c (str_drop (S i) buf).

(** The length returned and the buffer; writing outside the buffer is
    undefined. *)
Definition password_cb (buf : string) (size : Z) (password : string) : outcome exn (Z * string) :=
  if (size <? 1) || (Z.of_nat (String.length buf) <? size) then Undefined else
  let n := Z.to_nat size in
  let buf := set_char (n - 1) NUL (strncpy buf password n) in
  obind (read_cstr buf) (λ s, Ok (Z.of_nat (String.length s), buf)).

Lemma set_char_nul i buf : has_nul (set_char i NUL buf) = true.
Proof. unfold set_char. rewrite has_nul_app. simpl. by rewrite orb_true_r. Qed.

Lemma length_set_char i c buf : (i < String.length buf)%nat → String.length (set_char i c buf) = String.length buf.
Proof. intros Hi. unfold set_char. rewrite length_append. cbn [String.length]. rewrite length_str_take, length_str_drop. lia. Qed.

Lemma c_str_stop s t : c_str (s +:+ String NUL t) = c_str s.
Proof. induction s as [|c s IH]; simpl; [done|]. by rewrite IH. Qed.

(** A copied text, cut before its padding ends. *)
Lemma c_str_copied p n k t :
  has_nul p = false → (k ≤ n)%nat → c_str (str_take k (resize p n NUL +:+ t)) = str_take k p.
Proof.
  revert n k. induction p as [|c p IH]; intros [|n] [|k] Hp Hk; try lia; try done.
  cbn in Hp. apply orb_false_iff in Hp as [Hc Hp].
  change (resize (String c p) (S n) NUL) with (String c (resize p n NUL)). cbn. unfold NUL in Hc.
  rewrite Hc. f_equal. apply IH; [done|lia].
Qed.

(** Within a buffer of the given size, the callback keeps to the buffer,
    terminates it and returns the length of the text it copied: what fits of
    the password before its own end. *)
Theorem password_cb_fits buf size password :
  1 ≤ size ≤ Z.of_nat (String.length buf) →
  ∃ buf', password_cb buf size password
      = Ok (Z.min (Z.of_nat (String.length (c_str password))) (size - 1), buf')
    ∧ String.length buf' = String.length buf
    ∧ c_str buf' = str_take (Z.to_nat size - 1) (c_str password).
Proof.
  intros Hsize. unfold password_cb. rewrite (proj2 (Z.ltb_ge size 1)), (proj2 (Z.ltb_ge _ size)) by lia. simpl.
  set (n := Z.to_nat size). set (buf' := set_char (n - 1) NUL (strncpy buf password n)).
  assert (Hn : (1 ≤ n ≤ String.length buf)%nat) by lia.
  assert (Hc : c_str buf' = str_take (n - 1) (c_str password)).
  { unfold buf', set_char, strncpy. rewrite c_str_stop. apply c_str_copied; [apply has_nul_c_str|lia]. }
  exists buf'. split_and!; [|unfold buf'; rewrite length_set_char, length_strncpy; [done|lia|rewrite length_strncpy; lia]|done].
  unfold read_cstr. rewrite (set_char_nul _ _ : has_nul buf' = true), Hc. simpl. do 2 f_equal.
  rewrite length_str_take. lia.
Qed.

Lemma password_cb_fits_witness :
  ∃ buf', password_cb (zeros 4) 4 "secret" = Ok (3, buf') ∧ String.length buf' = 4%nat ∧ c_str buf' = "sec".
Proof. apply (password_cb_fits (zeros 4) 4 "secret"). split; [lia|]. vm_compute. discriminate. Defined.

(** ** The certificate *)

Section context.
(** Keys of OpenSSL: generation, the public half, signatures and their
    verification over the signed fields. *)
Context {Key Pub Sig : Type} (keygen : Z → Key) (public : Key → Pub).

(** The fields of an X.509 certificate the server sets; times are seconds. *)
Record tbs : Type := Tbs {
  version : Z;
  serialNumber : Z;
  notBefore : Z;
  notAfter : Z;
  pubkey : option Pub;
  subject : list (string * string);
  issuer : list (string * string);
}.

Context (sign : Key → tbs → Sig) (verify : Pub → tbs → Sig → bool).

Record X509 : Type := Cert { cert_info : tbs; signature : option Sig }.

Definition generatePrivateKey : Key := keygen 2048.

(** [now] is the time [X509_gmtime_adj] reads; [X509_get_subject_name] gives
    the name inside the certificate, to which the entries are added. *)
Definition generateCertificate (now : Z) (pkey : Key) : X509 :=
  let name := [("C", "CH"); ("CN", "A-SKY")] in
  let info := Tbs 2 0 (now + 0) (now + 60 * 60 * 24 * 365) (Some (public pkey)) name name in
  Cert info (Some (sign pkey info)).

(** [SSL_CTX]: what the server configures. *)
Record SSL_CTX : Type := SslCtx {
  method : string;
  certificate : option X509;
  private_key : option Key;
  verify_peer : bool;
  ecdh_auto : bool;
}.

(** [create_context]; the process ends with the status thrown when
    [SSL_CTX_new] fails. *)
Definition create_context (new_ok : bool) : outcome Z SSL_CTX :=
  if new_ok then Ok (SslCtx "TLSv1_2_server_method" None None false false) else Throw 1.

Definition configure_context (now : Z) (ctx : SSL_CTX) : SSL_CTX :=
  let pkey := generatePrivateKey in
  let x509 := generateCertificate now pkey in
  SslCtx (method ctx) (Some x509) (Some pkey) false (ecdh_auto ctx).

(** [IncomeSSLConnection::init]: the value of [ssl_ctx]. *)
Definition init_context (new_ok : bool) (now : Z) : outcome Z SSL_CTX :=
  obind (create_context new_ok) (λ ctx,
  Ok (configure_context now (SslCtx (method ctx) (certificate ctx) (private_key ctx) (verify_peer ctx) true))).

Context (verify_sign : ∀ k t, verify (public k) t (sign k t) = true).

(** A server that starts serves TLS 1.2 with a certificate for its own private
    key, which verifies under the public key it carries, names itself as the
    issuer and is valid for 365 days; no certificate is asked of clients. *)
Theorem context_ready (new_ok : bool) now :
  if new_ok then ∃ ctx cert k sg,
    init_context new_ok now = Ok ctx ∧ certificate ctx = Some cert ∧ private_key ctx = Some k
    ∧ pubkey (cert_info cert) = Some (public k)
    ∧ signature cert = Some sg ∧ verify (public k) (cert_info cert) sg = true
    ∧ issuer (cert_info cert) = subject (cert_info cert)
    ∧ notAfter (cert_info cert) - notBefore (cert_info cert) = 31536000
    ∧ verify_peer ctx = false ∧ method ctx = "TLSv1_2_server_method"
  else init_context new_ok now = Throw 1.
Proof.
  destruct new_ok; [|done]. eexists _, _, _, _. split; [reflexivity|]. split_and!; try reflexivity; [apply verify_sign|].
  cbn. lia.
Qed.
End context.
