(* ===== verification/Ecalls.v ===== *)
(** * Entering the enclave (ecalls_anonymbe.cpp, ecalls_writeproxy.cpp)

    [process_input] feeds the bytes of a connection to its decoder and answers
    every request that becomes complete.  The decoder is a parameter; what the
    code relies on is that it cuts a stream of bytes into requests.  However
    the bytes of a session are split into reads, the service sees the requests
    of the stream, once each and in order. *)

From stdpp Require Import base gmap strings list.
From Stdlib Require Import ZArith Ascii Lia.
From S2P Require Import Prelude Cxx StdMap Database MemDatabase JsonValue JsonDump JsonSax JsonParser AnonymBE AnonymBESpec Demo AnonymBECorrect Args WriterProxy TlsConfig.

(** [Http1Decoder] of a connection: [addChunk] and [getRequest]. *)
Class Decoder (D : Type) : Type := {
  decoder_init : D;
  add_chunk : string → D → D;
  get_request : D → option (Request * D);
}.

(** What a decoder promises: it keeps the bytes it has not consumed, and the
    first request of a stream does not depend on what follows it. *)
Class DecoderSpec (D : Type) `{Decoder D} : Type := {
  undecoded : D → string;
  next_request : string → option (Request * string);
  undecoded_init : undecoded decoder_init = "";
  undecoded_chunk s d : undecoded (add_chunk s d) = undecoded d +:+ s;
  get_request_next d :
    match next_request (undecoded d) with
    | Some (req, rest) => ∃ d', get_request d = Some (req, d') ∧ undecoded d' = rest
    | None => get_request d = None
    end;
  next_request_shrinks s req rest :
    next_request s = Some (req, rest) → (String.length rest < String.length s)%nat;
  next_request_stable s t req rest :
    next_request s = Some (req, rest) → next_request (s +:+ t) = Some (req, rest +:+ t);
}.

(** The global counter, the service and what was written to a connection. *)
Record enclave (S D : Type) : Type := Enclave {
  requests_received : Z;
  service : S;
  decoder : D;
  sent : list Response;
  printed : list string;
}.
Arguments Enclave {S D} _ _ _ _ _.
Arguments requests_received {S D} _.
Arguments service {S D} _.
Arguments decoder {S D} _.
Arguments sent {S D} _.
Arguments printed {S D} _.

Section process.
Context {E S D : Type} `{Decoder D}.
(** The service's handler of one request: [anonymbe.process_input] or
    [writerproxy.treat_request]. *)
Context (treat : Request → M E S Response).
(** The exceptions [process_input] catches: all of them in the key manager,
    those of type [std::exception] in the proxy. *)
Context (caught : E → bool).

Definition count_request : M E (enclave S D) unit := λ c,
  let n := wrap 64 (requests_received c + 1) in
  let p := if n mod 100000 =? 0 then [to_string (n / 1000) +:+ "k Requests"] else [] in
  (Ok tt, Enclave n (service c) (decoder c) (sent c) (printed c ++ p)).

Definition treat_one (req : Request) : M E (enclave S D) Response :=
  zoom service (λ s c, Enclave (requests_received c) s (decoder c) (sent c) (printed c)) (treat req).

(** [conn.send]; its result is not used. *)
Definition conn_send (r : Response) : M E (enclave S D) unit :=
  modify (λ c, Enclave (requests_received c) (service c) (decoder c) (sent c ++ [r]) (printed c)).

(** The loop on the requests that are complete. *)
Fixpoint request_loop (fuel : nat) : M E (enclave S D) unit :=
  match fuel with
  | O => out_of_fuel
  | Datatypes.S fuel =>
      c <- get_state ;;
      match get_request (decoder c) with
      | None => ret tt
      | Some (req, d) =>
          modify (λ c, Enclave (requests_received c) (service c) d (sent c) (printed c)) ;;
          count_request ;;
          r <- treat_one req ;;
          conn_send r ;;
          request_loop fuel
      end
  end.

(** An exception ends the loop and is printed. *)
Definition conn_process_input (fuel : nat) (buff : string) : M E (enclave S D) unit := λ c,
  match (modify (λ c, Enclave (requests_received c) (service c) (add_chunk buff (decoder c))
                        (sent c) (printed c)) ;;
         request_loop fuel) c with
  | (Throw e, c) =>
      if negb (caught e) then (Throw e, c) else
      (Ok tt, Enclave (requests_received c) (service c) (decoder c) (sent c) (printed c ++ ["Error"]))
  | r => r
  end.

(** The reads of a session, one call each. *)
Fixpoint session (fuel : nat) (chunks : list string) : M E (enclave S D) unit :=
  match chunks with
  | [] => ret tt
  | b :: bs => conn_process_input fuel b ;; session fuel bs
  end.
End process.

(** ** The stream of requests *)

Section stream.
Context {D : Type} `{DecoderSpec D}.

(** [splits s reqs rest]: the stream [s] holds the requests [reqs], and the
    bytes [rest] of an incomplete one. *)
Inductive splits : string → list Request → string → Prop :=
| splits_end s : next_request s = None → splits s [] s
| splits_next s req rest reqs s' :
    next_request s = Some (req, rest) → splits rest reqs s' → splits s (req :: reqs) s'.

Lemma splits_total s : ∃ reqs rest, splits s reqs rest.
Proof.
  remember (String.length s) as n eqn:Hn. revert s Hn. induction (lt_wf n) as [n _ IH]. intros s ->.
  destruct (next_request s) as [[req rest]|] eqn:E; [|eexists _, _; by apply splits_end].
  destruct (IH _ (next_request_shrinks _ _ _ E) rest eq_refl) as (reqs & s' & Hs).
  eexists _, _. by eapply splits_next.
Qed.

Lemma splits_app s t r1 e1 r2 e2 :
  splits s r1 e1 → splits (e1 +:+ t) r2 e2 → splits (s +:+ t) (r1 ++ r2) e2.
Proof.
  induction 1 as [s Hn|s req rest reqs s' Hn Hs IH]; intros H2; [done|].
  simpl. eapply splits_next; [by apply next_request_stable|]. by apply IH.
Qed.

Lemma splits_rest s reqs rest :
  splits s reqs rest → next_request rest = None ∧ (String.length rest ≤ String.length s)%nat.
Proof.
  induction 1 as [s Hn|s req rest reqs s' Hn Hs [IH1 IH2]]; [done|].
  apply next_request_shrinks in Hn. split; [done|lia].
Qed.

Lemma next_request_empty : next_request "" = None.
Proof.
  destruct (next_request "") as [[req rest]|] eqn:E; [|done].
  apply next_request_shrinks in E. simpl in E. lia.
Qed.
End stream.

(** ** The ecalls of the key manager *)

Section key_manager.
Context {R : Type} `{Crypto R} `{HttpStrings} `{Build}.
Context {DB : Type} `{Database DB} {D : Type} `{Decoder D}.

(** The state of the enclave: the table of connections and the service. *)
Definition km_state : Type := tls D * AnonymBE R DB.

(** [ecall_init]; the [mongo] array becomes a string. *)
Definition km_ecall_init (a : KeyManager.Arguments) (s : km_state) : outcome exn Z * km_state :=
  let t := (TlsConfig.init s.1).2 in
  let '(r, svc) :=
    (mongo <- lift (read_cstr (KeyManager.mongo a)) ;; service_init mongo (KeyManager.indexed a)) s.2 in
  (r, (t, svc)).

(** [ecall_finish]; [AnonymBE::finish] is empty. *)
Definition km_ecall_finish (s : km_state) : outcome tls_exn unit * km_state :=
  let '(r, t) := TlsConfig.finish s.1 in (r, (t, s.2)).

Definition km_process_input (fuel : nat) (buff : string) : M exn (enclave (AnonymBE R DB) D) unit :=
  conn_process_input AnonymBE.process_input (λ _, true) fuel buff.
End key_manager.

(** ** The ecalls of the proxy *)

Section writeproxy.
Context {W RD : Type} `{ProxyEnv W RD} `{HttpStrings} {D : Type} `{Decoder D}.

Definition proxy_ecall_init (a : Proxy.Arguments) : M proxy_exn (WriterProxy W) init_result :=
  proxy_init (Proxy.ecall_terminate a).

Definition proxy_ecall_finish : M proxy_exn (WriterProxy W) unit := WriterProxy.finish.

Definition proxy_process_input (treat_fuel fuel : nat) (buff : string)
    : M proxy_exn (enclave (WriterProxy W) D) unit :=
  conn_process_input (treat_request treat_fuel)
    (λ e, match e with ThrownExn _ => true | ThrownResponse _ => false end) fuel buff.
End writeproxy.

(** ** Sessions *)

Section sessions.
Context {R : Type} `{Crypto R} `{HttpStrings} `{Build}.
Context {DB : Type} `{DatabaseSpec DB} {D : Type} `{DecoderSpec D}.
Implicit Types (c : enclave (AnonymBE R DB) D).

Lemma process_all_app r1 r2 (s : AnonymBE R DB) rs1 s1 rs2 s2 :
  process_all r1 s = (Ok rs1, s1) → process_all r2 s1 = (Ok rs2, s2) →
  process_all (r1 ++ r2) s = (Ok (rs1 ++ rs2), s2).
Proof.
  revert s rs1. induction r1 as [|req r1 IH]; intros s rs1 Hp1 Hp2.
  - by injection Hp1 as <- <-.
  - cbn [process_all app] in Hp1 |- *.
    apply bind_ok in Hp1 as (r & s0 & Hr & Hp1). apply bind_ok in Hp1 as (rs & s3 & Hrs & Hp1).
    injection Hp1 as <- <-. rewrite (bind_run _ _ _ _ _ Hr).
    by rewrite (bind_run _ _ _ _ _ (IH _ _ Hrs Hp2)).
Qed.

(** What a part of a session has done: answered [rs] to the requests [reqs],
    and kept the bytes [rest]. *)
Definition handled (c c' : enclave (AnonymBE R DB) D) (reqs : list Request) (rest : string) : Prop :=
  ∃ rs, process_all reqs (service c) = (Ok rs, service c') ∧ sent c' = sent c ++ rs
    ∧ undecoded (decoder c') = rest
    ∧ requests_received c' = wrap 64 (requests_received c + Z.of_nat (length reqs)).

Definition count_ok c : Prop := wrap 64 (requests_received c) = requests_received c.

Lemma wrap_add a b : wrap 64 (wrap 64 a + b) = wrap 64 (a + b).
Proof. unfold wrap. apply Zplus_mod_idemp_l. Qed.

Lemma request_loop_run fuel c st reqs rest :
  splits (undecoded (decoder c)) reqs rest → serving (service c) st → count_ok c →
  (String.length (undecoded (decoder c)) < fuel)%nat →
  ∃ c' st', request_loop AnonymBE.process_input fuel c = (Ok tt, c') ∧ handled c c' reqs rest
    ∧ serving (service c') st' ∧ count_ok c'.
Proof.
  intros Hsp. remember (undecoded (decoder c)) as s eqn:Hs. revert fuel c st Hs.
  induction Hsp as [s Hn|s req rest reqs s' Hn Hsp IH]; intros fuel c st -> Hserv Hcount Hf;
    (destruct fuel as [|fuel]; [lia|]); cbn [request_loop];
    pose proof (get_request_next (decoder c)) as Hget; rewrite Hn in Hget.
  - exists c, st. unfold bind, get_state. rewrite Hget. split; [done|]. split; [|done].
    exists []. rewrite app_nil_r. simpl. rewrite Z.add_0_r. by split_and!.
  - destruct Hget as (d' & Hget & Hd'). unfold bind at 1, get_state. rewrite Hget.
    destruct (serving_run req (service c) st Hserv) as (r & s1 & Hrun).
    destruct (serving_step _ _ _ _ _ Hserv Hrun) as (Hserv1 & _ & _).
    unfold bind at 1, modify, bind at 1, count_request. cbn [service decoder].
    unfold bind at 1, treat_one, zoom. cbn [service]. rewrite Hrun.
    unfold bind at 1, conn_send, modify. cbn [service decoder sent requests_received printed].
    match goal with |- ∃ c' st', request_loop _ fuel ?c1 = _ ∧ _ =>
      destruct (IH fuel c1 (serve req (fresh_key (service c)) st).2) as (c' & st' & Hl & Hh & ? & ?) end.
    + by rewrite <-Hd'.
    + done.
    + unfold count_ok. simpl. unfold wrap. by rewrite Z.mod_mod.
    + apply next_request_shrinks in Hn. lia.
    + exists c', st'. split; [exact Hl|]. split; [|done].
      destruct Hh as (rs & Hall & Hsent & Hund & Hcnt). cbn [service sent requests_received] in *.
      exists (r :: rs). split_and!; [|by rewrite Hsent, <-app_assoc|done|].
      * cbn [process_all]. rewrite (bind_run _ _ _ _ _ Hrun). by rewrite (bind_run _ _ _ _ _ Hall).
      * rewrite Hcnt, wrap_add. f_equal. cbn [length]. lia.
Qed.

Lemma handled_trans c1 c2 c3 r1 r2 e1 e2 :
  handled c1 c2 r1 e1 → handled c2 c3 r2 e2 → handled c1 c3 (r1 ++ r2) e2.
Proof.
  intros (rs1 & Hp1 & Hs1 & _ & Hc1) (rs2 & Hp2 & Hs2 & Hu2 & Hc2). exists (rs1 ++ rs2).
  split_and!; [by eapply process_all_app|by rewrite Hs2, Hs1, app_assoc|done|].
  rewrite Hc2, Hc1, wrap_add, length_app. f_equal. lia.
Qed.

Fixpoint concat_chunks (chunks : list string) : string :=
  match chunks with [] => "" | b :: bs => b +:+ concat_chunks bs end.

Lemma session_run fuel chunks c st :
  next_request (undecoded (decoder c)) = None → serving (service c) st → count_ok c →
  (String.length (undecoded (decoder c) +:+ concat_chunks chunks) < fuel)%nat →
  ∃ reqs rest c' st', splits (undecoded (decoder c) +:+ concat_chunks chunks) reqs rest
    ∧ session AnonymBE.process_input (λ _, true) fuel chunks c = (Ok tt, c')
    ∧ handled c c' reqs rest ∧ serving (service c') st'.
Proof.
  revert c st. induction chunks as [|b bs IH]; intros c st Hnone Hserv Hcount Hf;
    cbn [session concat_chunks] in *.
  - exists [], (undecoded (decoder c)), c, st. rewrite append_nil_r.
    split_and!; [by apply splits_end|done| |done]. exists []. rewrite app_nil_r. simpl.
    rewrite Z.add_0_r. by split_and!.
  - set (c0 := Enclave (requests_received c) (service c) (add_chunk b (decoder c)) (sent c) (printed c)).
    assert (Hu0 : undecoded (decoder c0) = undecoded (decoder c) +:+ b) by apply undecoded_chunk.
    destruct (splits_total (undecoded (decoder c0))) as (r1 & e1 & Hsp1).
    rewrite !length_append in Hf.
    destruct (request_loop_run fuel c0 st r1 e1 Hsp1) as (c1 & st1 & Hl & Hh & Hserv1 & Hcount1).
    { done. } { done. } { rewrite Hu0, length_append. lia. }
    destruct (splits_rest _ _ _ Hsp1) as [Hnone1 Hlen1]. rewrite Hu0, length_append in Hlen1.
    assert (Hu1 : undecoded (decoder c1) = e1) by (by destruct Hh as (? & _ & _ & ? & _)).
    destruct (IH c1 st1) as (r2 & e2 & c2 & st2 & Hsp2 & Hl2 & Hh2 & Hserv2).
    { by rewrite Hu1. } { done. } { done. } { rewrite Hu1, length_append. lia. }
    exists (r1 ++ r2), e2, c2, st2. split_and!; [| |by eapply (handled_trans c0 c1 c2)|done].
    + rewrite <-append_assoc, <-Hu0. eapply splits_app; [exact Hsp1|]. by rewrite <-Hu1.
    + unfold bind at 1, conn_process_input, bind at 1, modify. fold c0. rewrite Hl. exact Hl2.
Qed.

(** C23: However the bytes of a connection are cut into reads, the key manager
    answers each complete request of the stream exactly once and in order, as
    if the requests had been given to the service one after the other; the
    bytes of an unfinished request wait in the decoder. *)
Theorem chunks_do_not_matter fuel chunks n (s : AnonymBE R DB) st :
  serving s st → 0 ≤ n < 2 ^ 64 → (String.length (concat_chunks chunks) < fuel)%nat →
  ∃ reqs rest rs c', splits (concat_chunks chunks) reqs rest
    ∧ session AnonymBE.process_input (λ _, true) fuel chunks (Enclave n s decoder_init [] []) = (Ok tt, c')
    ∧ process_all reqs s = (Ok rs, service c') ∧ sent c' = rs ∧ undecoded (decoder c') = rest.
Proof.
  intros Hserv Hn Hf.
  destruct (session_run fuel chunks (Enclave n s decoder_init [] []) st)
    as (reqs & rest & c' & st' & Hsp & Hrun & (rs & Hall & Hsent & Hu & _) & _);
    cbn [decoder]; rewrite ?undecoded_init; [apply next_request_empty|done| |done|].
  - unfold count_ok. cbn [requests_received]. by rewrite wrap_small.
  - cbn [decoder] in Hsp. rewrite undecoded_init in Hsp. by exists reqs, rest, rs, c'.
Qed.
End sessions.

(** ** Starting up *)

Section startup.
Context {R : Type} `{Crypto R} `{HttpStrings} `{Build} {D : Type}.

(** The options that turn the index off. *)
Definition wants_linear (opts : list (ascii * string)) : bool :=
  existsb (λ o, Ascii.eqb o.1 "i" && (c_str o.2 =? "false")%string) opts.

(** The arguments of [-m] fit in their array. *)
Definition mongo_fits (opts : list (ascii * string)) : Prop :=
  Forall (λ o, o.1 = "m"%char → (String.length (c_str o.2) < KeyManager.mongo_size)%nat) opts.

Lemma parse_all_startup opts a args :
  String.length (KeyManager.mongo a) = KeyManager.mongo_size → mongo_fits opts →
  has_nul (KeyManager.mongo a) = true → KeyManager.parse_all opts a = OptOk args →
  has_nul (KeyManager.mongo args) = true
  ∧ (KeyManager.indexed args =? 0) = (KeyManager.indexed a =? 0) || wants_linear opts.
Proof.
  intros Hlen Hfit. revert a Hlen.
  induction Hfit as [|[key arg] opts Hm Hfit IH]; intros a Hlen Hnul Hparse.
  { injection Hparse as <-. by rewrite orb_false_r. }
  cbn [KeyManager.parse_all] in Hparse. destruct (KeyManager.parse_opt key arg a) as [a1| |] eqn:E; try done.
  pose proof (KeyManager.parse_opt_size _ _ _ _ Hlen E) as Hlen1.
  assert (Hone : has_nul (KeyManager.mongo a1) = true ∧ (KeyManager.indexed a1 =? 0)
    = (KeyManager.indexed a =? 0) || (Ascii.eqb key "i" && (c_str arg =? "false")%string)).
  { unfold KeyManager.parse_opt, with_stoi in E. cbn [fst snd] in Hm.
    destruct (Ascii.eqb_spec key "p") as [->|].
    { destruct (stoi arg); [|done|done]. injection E as <-. simpl. by rewrite orb_false_r. }
    destruct (Ascii.eqb_spec key "m") as [->|].
    { injection E as <-. cbn [KeyManager.mongo KeyManager.indexed]. rewrite has_nul_strncpy.
      rewrite (proj2 (Nat.leb_gt _ _) (Hm eq_refl)). by rewrite orb_false_r. }
    destruct (Ascii.eqb key "i"); [|done]. injection E as <-.
    destruct (c_str arg =? "false")%string; simpl; [by rewrite orb_true_r|by rewrite orb_false_r]. }
  destruct Hone as [Hnul1 Hidx1]. destruct (IH a1 Hlen1 Hnul1 Hparse) as [Hn Hi].
  split; [done|]. rewrite Hi, Hidx1. cbn [wants_linear existsb fst snd]. by rewrite orb_assoc.
Qed.

(** After the options were parsed, their connection strings fitting in
    the array, [ecall_init] of a key manager with the in-memory database
    returns 0 and leaves a service that stands for the empty store, ready to
    accept connections, with indexed envelopes unless [-i false] was given. *)
Theorem km_starts_serving uninit opts args (t : tls D) (r : R) :
  String.length uninit = KeyManager.mongo_size → mongo_fits opts →
  KeyManager.parse_all opts (KeyManager.init_args uninit) = OptOk args →
  ∃ s, km_ecall_init args (t, AnonymBE_new mem_empty r)
       = (Ok 0, (Tls true (connection_table t) (next_ssl t) (freed t) (closed t), s))
  ∧ serving s empty_store ∧ indexed_ s = Some (negb (wants_linear opts)).
Proof.
  intros Hlen Hfit Hparse.
  destruct (parse_all_startup opts (KeyManager.init_args uninit) args) as [Hnul Hidx]; try done.
  { unfold KeyManager.init_args. cbn [KeyManager.mongo]. rewrite length_strncpy; [done|]. by rewrite Hlen. }
  unfold km_ecall_init, bind, lift, read_cstr. cbn [fst snd]. rewrite Hnul.
  eexists. split; [reflexivity|]. cbn in Hidx.
  split; [split_and!; [apply mem_empty_represents|done|done]|]. simpl. by rewrite Hidx.
Qed.
End startup.

(** ** A decoder

    Requests are lines: the verb, the path and the body, separated by tabs. *)
Module LineDecoder.

Fixpoint cut (sep : ascii) (s : string) : option (string * string) :=
  match s with
  | EmptyString => None
  | String c s =>
      if Ascii.eqb c sep then Some ("", s)
      else match cut sep s with Some (a, b) => Some (String c a, b) | None => None end
  end.

Definition tab : ascii := "009".
Definition eol : ascii := "010".

Definition line_request (line : string) : Request :=
  match cut tab line with
  | Some (verb, line) =>
      match cut tab line with Some (path, body) => Req verb path body | None => Req verb line "" end
  | None => Req line "" ""
  end.

Definition next_line (s : string) : option (Request * string) :=
  match cut eol s with Some (line, rest) => Some (line_request line, rest) | None => None end.

#[export] Instance line_decoder : Decoder string := {
  decoder_init := ""; add_chunk s d := d +:+ s; get_request := next_line;
}.

Lemma cut_shrinks sep s a b : cut sep s = Some (a, b) → (String.length b < String.length s)%nat.
Proof.
  revert a. induction s as [|c s IH]; intros a Hc; [done|]. simpl in *.
  destruct (Ascii.eqb c sep); [injection Hc as <- <-; lia|].
  destruct (cut sep s) as [[a' b']|]; [|done]. injection Hc as <- <-. specialize (IH _ eq_refl). lia.
Qed.

Lemma cut_stable sep s t a b : cut sep s = Some (a, b) → cut sep (s +:+ t) = Some (a, b +:+ t).
Proof.
  revert a. induction s as [|c s IH]; intros a Hc; [done|]. simpl in *.
  destruct (Ascii.eqb c sep); [by injection Hc as <- <-|].
  destruct (cut sep s) as [[a' b']|]; [|done]. injection Hc as <- <-. by rewrite (IH a' eq_refl).
Qed.

#[export] Instance line_decoder_spec : DecoderSpec string.
Proof.
  refine {| undecoded := λ d, d; next_request := next_line |}; try done.
  - intros d. simpl. destruct (next_line d) as [[req rest]|]; eauto.
  - unfold next_line. intros s req rest Hn. destruct (cut eol s) as [[line b]|] eqn:E; [|done].
    injection Hn as _ <-. by eapply cut_shrinks.
  - unfold next_line. intros s t req rest Hn. destruct (cut eol s) as [[line b]|] eqn:E; [|done].
    injection Hn as <- <-. by rewrite (cut_stable _ _ t _ _ E).
Defined.

(** Two pings and the start of a third, in three reads. *)
Definition ping : string := "GET" +:+ String tab ("/ping" +:+ String eol "").
Definition reads : list string := ["GE"; "T" +:+ str_drop 3 ping +:+ str_take 6 ping; str_drop 6 ping +:+ "GET"].

Example reads_answered :
  length (sent (session AnonymBE.process_input (λ _, true) 50 reads
                  (Enclave 0 demo_two decoder_init [] [])).2) = 2%nat.
Proof. vm_compute. reflexivity. Qed.

Lemma chunks_do_not_matter_witness :
  ∃ reqs rest rs c', splits (concat_chunks reads) reqs rest
    ∧ session AnonymBE.process_input (λ _, true) 50 reads (Enclave 0 demo_service decoder_init [] [])
      = (Ok tt, c')
    ∧ process_all reqs demo_service = (Ok rs, service c') ∧ sent c' = rs
    ∧ undecoded (decoder c') = rest.
Proof.
  apply (chunks_do_not_matter 50 reads 0 demo_service empty_store).
  - apply demo_serving.
  - lia.
  - vm_compute. lia.
Defined.
End LineDecoder.

Lemma km_starts_serving_witness :
  ∃ s, km_ecall_init (R := Z) (D := string)
         (KeyManager.Args 4444 0 (KeyManager.mongo (KeyManager.init_args (zeros 1024))))
         (Tls false ∅ 0 [] [], AnonymBE_new mem_empty 7)
       = (Ok 0, (Tls true ∅ 0 [] [], s))
  ∧ serving s empty_store ∧ indexed_ s = Some false.
Proof.
  apply (km_starts_serving (zeros 1024) [("i"%char, "false")]
           (KeyManager.Args 4444 0 (KeyManager.mongo (KeyManager.init_args (zeros 1024))))
           (Tls false ∅ 0 [] []) 7).
  - reflexivity.
  - by repeat constructor.
  - reflexivity.
Defined.
