(* ===== verification/Profile.v ===== *)
(** * The profiling program (profile.cpp)

    A driver that fills a key manager with one group of users through the text
    of HTTP requests and asks for one envelope.  The texts go through the
    decoder, the JSON parser, the service and the in-memory database; the group
    that results is computed here for any number of users.  [MyConnection::send]
    has no [return] statement, so the program as written is undefined at its
    first answer. *)

From stdpp Require Import base gmap strings list.
From Stdlib Require Import ZArith Ascii Lia.
From S2P Require Import Prelude Cxx StdMap Database MemDatabase JsonValue Utf8 JsonLexer JsonGrammar JsonSax JsonParser JsonAccepts AnonymBE AnonymBESpec Demo AnonymBECorrect Args Ecalls.

(** The parts of the HTTP library the program calls: the path of
    [UrlBuilder::parse(url)] and the text of a built request. *)
Class HttpClient : Type := {
  url_path : string → string;
  request_text : Request → string;
}.

(** ** The requests *)

Section requests.
Context {R : Type} `{Crypto R} `{HttpClient}.

(** A [RequestBuilder] that was given its method. *)
Definition put : string := "PUT".
Definition post : string := "POST".

Definition user_body (u : Z) : string := quoted "{|user_id|: |user" +:+ to_string u +:+ quoted "|}".

Definition usergroup (g u : Z) : string :=
  quoted "{|user_id|: |user" +:+ to_string u +:+ quoted "|,|group_name|: |group" +:+ to_string g +:+ quoted "|}".

Definition envelope_body (i : Z) (key : string) : string :=
  quoted "{|group_id|: |group" +:+ to_string i +:+ quoted "|, |bucket_key|: |" +:+ b64_encode key +:+ quoted "| }".

Definition usergroup_req (r : string) (gid uid : Z) : Request :=
  Req r (url_path "https://localhost/access/usergroup") (usergroup gid uid).
Definition group_req (r : string) (gid uid : Z) : Request :=
  Req r (url_path "https://localhost/access/group") (usergroup gid uid).
Definition user_req (r : string) (i : Z) : Request :=
  Req r (url_path "https://localhost/access/user") (user_body i).
Definition envelope_req (r : string) (i : Z) (key : string) : Request :=
  Req r (url_path "https://localhost/verifier/envelope") (envelope_body i key).

Definition make_usergroup_req (r : string) (gid uid : Z) : string := request_text (usergroup_req r gid uid).
Definition make_group_req (r : string) (gid uid : Z) : string := request_text (group_req r gid uid).
Definition make_user_req (r : string) (i : Z) : string := request_text (user_req r i).
Definition make_envelope_req (r : string) (i : Z) (key : string) : string := request_text (envelope_req r i key).
End requests.

(** ** The program *)

Section program.
Context {R : Type} `{Crypto R} `{HttpStrings} `{Build} `{HttpClient} {D : Type} `{Decoder D}.
(** The text of a response, [Response::toString]. *)
Context (response_text : Response → string).

Definition process : Type := enclave (AnonymBE R MemDatabase) D.

Definition say (line : string) : M exn process unit :=
  modify (λ c, Enclave (requests_received c) (service c) (decoder c) (sent c) (printed c ++ [line])).

(** [MyConnection::send], [p] being its member: it prints the response or
    nothing, and ends without a value. *)
Definition my_send (p : bool) (r : Response) : M exn process unit :=
  (if p then say (response_text r) else ret tt) ;; lift Undefined.

Section connection.
(** The connection's [send]. *)
Context (send : bool → Response → M exn process unit).

Fixpoint profile_loop (p : bool) (fuel : nat) : M exn process unit :=
  match fuel with
  | O => out_of_fuel
  | S fuel =>
      c <- get_state ;;
      match get_request (decoder c) with
      | None => ret tt
      | Some (req, d) =>
          modify (λ c, Enclave (requests_received c) (service c) d (sent c) (printed c)) ;;
          count_request ;;
          r <- treat_one AnonymBE.process_input req ;;
          send p r ;;
          profile_loop p fuel
      end
  end.

(** [process_input] of the program: every exception is caught and printed. *)
Definition profile_process_input (p : bool) (fuel : nat) (buff : string) : M exn process unit := λ c,
  match (modify (λ c, Enclave (requests_received c) (service c) (add_chunk buff (decoder c))
                        (sent c) (printed c)) ;;
         profile_loop p fuel) c with
  | (Throw _, c) =>
      (Ok tt, Enclave (requests_received c) (service c) (decoder c) (sent c) (printed c ++ ["Error"]))
  | r => r
  end.

Definition doreq (p : bool) (request : string) : M exn process unit :=
  profile_process_input p (S (String.length request)) request.

(** The loop of [main] that adds users. *)
Fixpoint add_users (n : nat) (i : Z) : M exn process unit :=
  match n with
  | O => ret tt
  | S n =>
      (if i mod 1000 =? 0 then say (to_string i) else ret tt) ;;
      doreq false (make_user_req post i) ;;
      doreq false (make_usergroup_req put 1 i) ;;
      add_users n (i + 1)
  end.

Definition main_requests (n : nat) (key : string) : M exn process unit :=
  doreq true (make_user_req post 0) ;;
  doreq true (make_group_req post 1 0) ;;
  add_users n 1 ;;
  doreq false (make_envelope_req post 1 key).

(** [main]: [args.indexed] is not set, [garbage] is what it happens to hold. *)
Definition profile_main (garbage : Z) (n : nat) (key : string) : M exn process unit :=
  zoom service (λ s c, Enclave (requests_received c) s (decoder c) (sent c) (printed c))
    (service_init "" garbage) ;;
  main_requests n key.
End connection.

(** The number of users of the source, and its key. *)
Definition profile_users : nat := Z.to_nat 10000.
Definition profile_key : string := "klsdfja" +:+ string_of [0xC3; 0xA7] +:+ "lvk".

(** The program with its own connection. *)
Definition profile_program (garbage : Z) : M exn process unit :=
  profile_main my_send garbage profile_users profile_key.
End program.

(** ** The bodies are JSON *)

Definition plain (s : string) : bool := forallb is_plain_ascii (bytes_of s).

Lemma plain_app s t : plain (s +:+ t) = plain s && plain t.
Proof. unfold plain. by rewrite bytes_of_app, forallb_app. Qed.

Definition in_quotes (s : string) : string := String dquote (s +:+ String dquote "").

Lemma plain_chars s : plain s = true → chars_text s s.
Proof.
  induction s as [|c s IH]; [constructor|]. unfold plain. cbn [bytes_of forallb]. intros [Hc Hs]%andb_true_iff.
  assert (Hu : utf8_of (byte_of c) = String c "").
  { unfold is_plain_ascii in Hc. rewrite !andb_true_iff in Hc. destruct Hc as [[[_ Hc] _] _]. apply Z.leb_le in Hc.
    unfold utf8_of, encode. rewrite (proj2 (Z.ltb_lt _ 0x80)) by lia. cbn [string_of]. by rewrite char_of_byte_of. }
  apply (chars_cons (String c "") (String c "")); [|by apply IH]. rewrite <-Hu.
  unfold is_plain_ascii in Hc. rewrite !andb_true_iff, !negb_true_iff in Hc. destruct Hc as [[[??]?]?]. zify_cmp.
  apply char_unescaped; [unfold scalar_value; lia|lia|lia|lia].
Qed.

Lemma in_quotes_text s : plain s = true → string_text (in_quotes s) s.
Proof. intros Hs. by constructor; apply plain_chars. Qed.

Lemma in_quotes_json s : plain s = true → json_text (in_quotes s) (jstring s).
Proof. intros Hs. apply text_scalar; [by apply scalar_string, in_quotes_text|done]. Qed.

(** An object alone is a document. *)
Lemma parse_object t kvs : members_text t kvs → json_parse ("{" +:+ t +:+ "}") = Ok (jobject (put_members [] kvs)).
Proof.
  intros Ht. apply document_accepted.
  pose proof (Document "" "" ("{" +:+ t +:+ "}") _ "" "" ltac:(by left) eq_refl (text_object t kvs Ht) eq_refl ltac:(by left)) as H.
  by rewrite !append_nil_r in H.
Qed.

Lemma plain_to_string n : 0 ≤ n → plain (to_string n) = true.
Proof.
  intros Hn. destruct (to_string_nonneg n Hn) as (_ & Ha & _). revert Ha. generalize (to_string n).
  induction s as [|c s IH]; [done|]. cbn [all_digits]. intros [Hc Hs]%andb_true_iff. unfold plain in *. cbn [bytes_of forallb].
  rewrite IH, andb_true_r by done. unfold is_digit in Hc. zify_cmp. unfold is_plain_ascii.
  by rewrite !(proj2 (Z.leb_le _ _)), !(proj2 (Z.eqb_neq _ _)) by lia.
Qed.

Definition user_name (u : Z) : string := "user" +:+ to_string u.
Definition group_name (g : Z) : string := "group" +:+ to_string g.

Lemma user_body_parses u : 0 ≤ u → json_parse (user_body u) = Ok (jobject [("user_id", jstring (user_name u))]).
Proof.
  intros Hu. replace (user_body u)
    with ("{" +:+ ("" +:+ in_quotes "user_id" +:+ "" +:+ ":" +:+ " " +:+ in_quotes (user_name u) +:+ "") +:+ "}").
  2:{ unfold user_body, user_name, in_quotes. cbn. by rewrite !append_assoc. }
  rewrite (parse_object _ [("user_id", jstring (user_name u))]); [done|].
  apply members_one; try done; [by apply in_quotes_text|apply in_quotes_json].
  unfold user_name. rewrite plain_app. by rewrite plain_to_string.
Qed.

Lemma usergroup_parses g u : 0 ≤ g → 0 ≤ u →
  json_parse (usergroup g u)
  = Ok (jobject [("group_name", jstring (group_name g)); ("user_id", jstring (user_name u))]).
Proof.
  intros Hg Hu. replace (usergroup g u)
    with ("{" +:+ ("" +:+ in_quotes "user_id" +:+ "" +:+ ":" +:+ " " +:+ in_quotes (user_name u) +:+ "" +:+ "," +:+
           ("" +:+ in_quotes "group_name" +:+ "" +:+ ":" +:+ " " +:+ in_quotes (group_name g) +:+ "")) +:+ "}").
  2:{ unfold usergroup, user_name, group_name, in_quotes. cbn. rewrite !append_assoc. cbn. by rewrite !append_assoc. }
  rewrite (parse_object _ [("user_id", jstring (user_name u)); ("group_name", jstring (group_name g))]); [done|].
  apply members_cons; try done; [by apply in_quotes_text|apply in_quotes_json|apply members_one; try done; [by apply in_quotes_text|apply in_quotes_json]];
    unfold user_name, group_name; rewrite plain_app; by rewrite plain_to_string.
Qed.

Lemma envelope_body_parses {R : Type} `{Crypto R} i key : 0 ≤ i → plain (b64_encode key) = true →
  json_parse (envelope_body i key)
  = Ok (jobject [("bucket_key", jstring (b64_encode key)); ("group_id", jstring (group_name i))]).
Proof.
  intros Hi Hk. replace (envelope_body i key)
    with ("{" +:+ ("" +:+ in_quotes "group_id" +:+ "" +:+ ":" +:+ " " +:+ in_quotes (group_name i) +:+ "" +:+ "," +:+
           (" " +:+ in_quotes "bucket_key" +:+ "" +:+ ":" +:+ " " +:+ in_quotes (b64_encode key) +:+ " ")) +:+ "}").
  2:{ unfold envelope_body, group_name, in_quotes. cbn. rewrite !append_assoc. cbn. by rewrite !append_assoc. }
  rewrite (parse_object _ [("group_id", jstring (group_name i)); ("bucket_key", jstring (b64_encode key))]); [done|].
  apply members_cons; try done; [by apply in_quotes_text|apply in_quotes_json|apply members_one; try done; [by apply in_quotes_text|by apply in_quotes_json]].
  unfold group_name. rewrite plain_app. by rewrite plain_to_string.
Qed.

(** ** What the program does if [send] returns *)

Definition printable (s : string) : bool := forallb (λ b, (0x20 <=? b) && (b <=? 0x7E)) (bytes_of s).

(** The requests of the program: their methods, their paths and bodies of
    printable characters. *)
Definition simple_request (r : Request) : Prop :=
  (method r = "PUT" ∨ method r = "POST")
  ∧ encodedPath r ∈ ["/access/usergroup"; "/access/group"; "/access/user"; "/verifier/envelope"]
  ∧ printable (stringBody r) = true.

(** What the program relies on: the path of a URL of the local host, and a
    decoder that reads back the text of a request. *)
Class HttpClientSpec (D : Type) `{DecoderSpec D} `{HttpClient} : Prop := {
  local_path p :
    p ∈ ["/access/usergroup"; "/access/group"; "/access/user"; "/verifier/envelope"] →
    url_path ("https://localhost" +:+ p) = p;
  request_text_next r : simple_request r → next_request (request_text r) = Some (r, "");
}.

Lemma printable_app s t : printable (s +:+ t) = printable s && printable t.
Proof. unfold printable. by rewrite bytes_of_app, forallb_app. Qed.

Lemma printable_to_string n : 0 ≤ n → printable (to_string n) = true.
Proof.
  intros Hn. destruct (to_string_nonneg n Hn) as (_ & Ha & _). revert Ha. generalize (to_string n).
  induction s as [|c s IH]; [done|]. cbn [all_digits]. intros [Hc Hs]%andb_true_iff. unfold printable in *. cbn [bytes_of forallb].
  rewrite IH, andb_true_r by done. unfold is_digit in Hc. zify_cmp. by rewrite !(proj2 (Z.leb_le _ _)) by lia.
Qed.

(** A connection that prints like [MyConnection] and returns. *)
Definition returning {R} `{Crypto R} {D} (response_text : Response → string) (p : bool) (r : Response)
    : M exn (process (R := R) (D := D)) unit :=
  (if p then say (response_text r) else ret tt) ;; conn_send r.

Section workload.
Context {R : Type} `{Crypto R} `{HttpStrings} `{Build} {D : Type} `{HttpClientSpec D}.
Context (response_text : Response → string).
(** Base64 needs no escapes. *)
Context (b64_plain : ∀ s, plain (b64_encode s) = true ∧ printable (b64_encode s) = true).
Implicit Types (c : process (R := R) (D := D)) (st : store).

Notation send := (returning response_text).

(** One request, from its text to the answer. *)
Lemma doreq_run p req c st :
  undecoded (decoder c) = "" → serving (service c) st → simple_request req →
  ∃ r c', AnonymBE.process_input req (service c) = (Ok r, service c')
    ∧ doreq send p (request_text req) c = (Ok tt, c')
    ∧ undecoded (decoder c') = "" ∧ sent c' = sent c ++ [r].
Proof.
  intros Hu Hs Hreq. destruct (serving_run req (service c) st Hs) as (r & s' & Hrun).
  pose proof (request_text_next req Hreq) as Hnext. set (text := request_text req) in *.
  set (d := add_chunk text (decoder c)).
  assert (Hd : undecoded d = text) by (unfold d; by rewrite undecoded_chunk, Hu).
  pose proof (get_request_next d) as Hget. rewrite Hd, Hnext in Hget. destruct Hget as (d' & Hget & Hd').
  pose proof (get_request_next d') as Hnone. rewrite Hd', next_request_empty in Hnone.
  apply next_request_shrinks in Hnext. destruct (String.length text) as [|m] eqn:El; [simpl in Hnext; lia|].
  exists r. unfold doreq, profile_process_input. rewrite El. cbn [profile_loop].
  unfold bind at 1, modify at 1. fold d. unfold bind at 1, get_state at 1. cbn [decoder]. rewrite Hget.
  unfold bind at 1, modify at 1, bind at 1, count_request at 1, bind at 1, treat_one, zoom.
  cbn [service decoder sent requests_received printed]. rewrite Hrun.
  unfold returning, bind, say, conn_send, modify, get_state. destruct p; cbn; rewrite Hnone;
    eexists; split_and!; try reflexivity; done.
Qed.

(** One request whose command is known. *)
Lemma doreq_command p req cmd c st :
  undecoded (decoder c) = "" → serving (service c) st → simple_request req → route req = Ok cmd →
  (st_exec (fresh_key (service c)) cmd st).1 = Served →
  ∃ resp c', doreq send p (request_text req) c = (Ok tt, c')
    ∧ undecoded (decoder c') = "" ∧ serving (service c') (st_exec (fresh_key (service c)) cmd st).2
    ∧ reply_spec (service c) st cmd resp ∧ sent c' = sent c ++ [ok_response resp].
Proof.
  intros Hu Hs Hreq Hroute Hserved. destruct (doreq_run p req c st Hu Hs Hreq) as (r & c' & Hrun & Hdo & Hu' & Hsent).
  destruct (serving_command req cmd _ _ Hs Hroute) as (r' & s' & Hrun' & Hs' & Hans).
  rewrite Hrun in Hrun'. injection Hrun' as <- <-. rewrite Hserved in Hans. destruct Hans as (resp & Hreply & ->).
  exists resp, c'. by split_and!.
Qed.

(** *** The requests and their commands *)

Lemma user_simple i : 0 ≤ i → simple_request (user_req post i).
Proof.
  intros Hi. split_and!; [by right| |].
  - cbn [encodedPath user_req]. change "https://localhost/access/user" with ("https://localhost" +:+ "/access/user").
    rewrite local_path; set_solver.
  - unfold user_req, user_body. cbn [stringBody]. rewrite !printable_app, printable_to_string by done. done.
Qed.

Lemma usergroup_printable g u : 0 ≤ g → 0 ≤ u → printable (usergroup g u) = true.
Proof. intros Hg Hu. unfold usergroup. by rewrite !printable_app, !printable_to_string. Qed.

Lemma group_simple g u : 0 ≤ g → 0 ≤ u → simple_request (group_req post g u).
Proof.
  intros Hg Hu. split_and!; [by right| |by apply usergroup_printable].
  cbn [encodedPath group_req]. change "https://localhost/access/group" with ("https://localhost" +:+ "/access/group").
  rewrite local_path; set_solver.
Qed.

Lemma usergroup_simple g u : 0 ≤ g → 0 ≤ u → simple_request (usergroup_req put g u).
Proof.
  intros Hg Hu. split_and!; [by left| |by apply usergroup_printable].
  cbn [encodedPath usergroup_req].
  change "https://localhost/access/usergroup" with ("https://localhost" +:+ "/access/usergroup").
  rewrite local_path; set_solver.
Qed.

Lemma envelope_simple i key : 0 ≤ i → simple_request (envelope_req post i key).
Proof.
  intros Hi. split_and!; [by right| |].
  - cbn [encodedPath envelope_req].
    change "https://localhost/verifier/envelope" with ("https://localhost" +:+ "/verifier/envelope").
    rewrite local_path; set_solver.
  - unfold envelope_req, envelope_body. cbn [stringBody]. rewrite !printable_app, printable_to_string by done.
    by rewrite (proj2 (b64_plain key)).
Qed.

Lemma local_access p : p ∈ ["/access/usergroup"; "/access/group"; "/access/user"; "/verifier/envelope"] →
  url_path ("https://localhost" +:+ p) = p.
Proof. apply local_path. Qed.

Lemma user_command i : 0 ≤ i → route (user_req post i) = Ok (CreateUser (user_name i)).
Proof.
  intros Hi. apply (route_create_user _ (jobject [("user_id", jstring (user_name i))])); [|done].
  split_and!; [done|by apply (local_access "/access/user"); set_solver|by apply user_body_parses].
Qed.

Lemma group_command g u : 0 ≤ g → 0 ≤ u →
  route (group_req post g u) = Ok (CreateGroup (group_name g) (user_name u)).
Proof.
  intros Hg Hu. pose proof (usergroup_parses g u Hg Hu) as Hp. unfold group_req. revert Hp.
  generalize (usergroup g u). intros body Hp.
  change "https://localhost/access/group" with ("https://localhost" +:+ "/access/group").
  rewrite local_access by set_solver. unfold route, route_post, fields. cbn. rewrite Hp. cbn.
  by destruct arguments_right_to_left.
Qed.

Lemma usergroup_command g u : 0 ≤ g → 0 ≤ u →
  route (usergroup_req put g u) = Ok (AddMember (group_name g) (user_name u)).
Proof.
  intros Hg Hu. pose proof (usergroup_parses g u Hg Hu) as Hp. unfold usergroup_req. revert Hp.
  generalize (usergroup g u). intros body Hp.
  change "https://localhost/access/usergroup" with ("https://localhost" +:+ "/access/usergroup").
  rewrite local_access by set_solver. unfold route, route_put, fields. cbn. rewrite Hp. cbn.
  by destruct arguments_right_to_left.
Qed.

Lemma envelope_command i key : 0 ≤ i →
  route (envelope_req post i key) = Ok (MakeEnvelope (b64_encode key) (group_name i)).
Proof.
  intros Hi. eapply route_envelope; [split_and!; [done|by apply (local_access "/verifier/envelope"); set_solver|]| |].
  - apply envelope_body_parses; [done|by apply b64_plain].
  - done.
  - done.
Qed.

(** *** The group *)

(** The users 0 to k. *)
Definition names (k : nat) : gset string := list_to_set ((λ i, user_name (Z.of_nat i)) <$> seq 0 (S k)).

Lemma user_name_inj i j : 0 ≤ i → 0 ≤ j → user_name i = user_name j → i = j.
Proof.
  unfold user_name. intros Hi Hj E. simpl in E. injection E as E. by apply to_string_inj_nonneg.
Qed.

Lemma names_S k : names (S k) = {[user_name (Z.of_nat (S k))]} ∪ names k.
Proof.
  unfold names. replace (seq 0 (S (S k))) with (seq 0 (S k) ++ [S k]) by (by rewrite (seq_S (S k) 0)).
  rewrite fmap_app, list_to_set_app_L. set_solver.
Qed.

Lemma names_fresh k : user_name (Z.of_nat (S k)) ∉ names k.
Proof.
  unfold names. rewrite elem_of_list_to_set, list_elem_of_fmap. intros (i & E & Hi).
  apply user_name_inj in E; [|lia|lia]. apply elem_of_seq in Hi. lia.
Qed.

Lemma size_names k : size (names k) = S k.
Proof.
  induction k as [|k IH]; [done|]. rewrite names_S, size_union by (apply disjoint_singleton_l, names_fresh).
  rewrite size_singleton, IH. lia.
Qed.

(** The process after the users 0 to k have joined the group. *)
Definition filled (k : nat) c : Prop :=
  undecoded (decoder c) = "" ∧ ∃ st, serving (service c) st ∧ dom (st_users st) = names k
    ∧ st_groups st = {[group_name 1 := names k]}.

(** One turn of the loop of [main]. *)
Lemma fill_user k c : filled k c →
  ∃ c', (doreq send false (make_user_req post (Z.of_nat (S k))) ;;
         doreq send false (make_usergroup_req put 1 (Z.of_nat (S k)))) c = (Ok tt, c')
    ∧ filled (S k) c' ∧ length (sent c') = (length (sent c) + 2)%nat.
Proof.
  intros (Hu & st & Hs & Hdom & Hgr). pose proof (names_fresh k) as Hnew. set (u := user_name (Z.of_nat (S k))) in *.
  assert (Hnone : st_users st !! u = None) by (apply not_elem_of_dom; by rewrite Hdom).
  destruct (doreq_command false (user_req post (Z.of_nat (S k))) (CreateUser u) c st)
    as (resp1 & c1 & Hdo1 & Hu1 & Hs1 & _ & Hsent1); [done|done|by apply user_simple; lia|by apply user_command; lia| |].
  { cbn [st_exec]. unfold st_run, st_create_user. by rewrite Hnone. }
  cbn [st_exec] in Hs1. unfold st_run, st_create_user in Hs1. rewrite Hnone in Hs1. cbn [snd] in Hs1.
  set (key := fresh_key (service c)) in *.
  assert (Hadd : st_add (group_name 1) u (Store (<[u := key]> (st_users st)) (st_groups st))
    = (Done tt, Store (<[u := key]> (st_users st)) {[group_name 1 := {[u]} ∪ names k]})).
  { unfold st_add. cbn [st_groups st_users]. rewrite Hgr, lookup_singleton_eq, lookup_insert_eq.
    rewrite decide_False by done. by rewrite insert_singleton_eq. }
  destruct (doreq_command false (usergroup_req put 1 (Z.of_nat (S k))) (AddMember (group_name 1) u) c1
    (Store (<[u := key]> (st_users st)) (st_groups st)))
    as (resp2 & c2 & Hdo2 & Hu2 & Hs2 & _ & Hsent2); [done|done|by apply usergroup_simple; lia|by apply usergroup_command; lia| |].
  { cbn [st_exec]. unfold st_run. by rewrite Hadd. }
  cbn [st_exec] in Hs2. unfold st_run in Hs2. rewrite Hadd in Hs2. cbn [snd] in Hs2.
  exists c2. split_and!.
  - rewrite (bind_run _ _ _ _ _ Hdo1). exact Hdo2.
  - split; [done|]. eexists. split_and!; [exact Hs2| |by rewrite names_S].
    cbn [st_users]. by rewrite dom_insert_L, Hdom, names_S.
  - rewrite Hsent2, Hsent1, !length_app. simpl. lia.
Qed.

Lemma fill_users n k c : filled k c →
  ∃ c', add_users send n (Z.of_nat (S k)) c = (Ok tt, c') ∧ filled (k + n) c'
    ∧ length (sent c') = (length (sent c) + 2 * n)%nat.
Proof.
  revert k c. induction n as [|n IH]; intros k c Hf.
  { exists c. rewrite !Nat.add_0_r. by split_and!. }
  cbn [add_users]. set (c0 := (if Z.of_nat (S k) mod 1000 =? 0
    then Enclave (requests_received c) (service c) (decoder c) (sent c) (printed c ++ [to_string (Z.of_nat (S k))])
    else c)).
  assert (Hsay : (if Z.of_nat (S k) mod 1000 =? 0 then say (to_string (Z.of_nat (S k))) else ret tt) c = (Ok tt, c0))
    by (unfold c0; by case_match).
  assert (Hf0 : filled k c0 ∧ sent c0 = sent c) by (unfold c0; by case_match).
  rewrite (bind_run _ _ _ _ _ Hsay). destruct Hf0 as [Hf0 Hsent0].
  destruct (fill_user k c0 Hf0) as (c1 & Hdo & Hf1 & Hl1).
  apply bind_ok in Hdo as ([] & c2 & Hdo1 & Hdo2). rewrite (bind_run _ _ _ _ _ Hdo1), (bind_run _ _ _ _ _ Hdo2).
  destruct (IH (S k) c1 Hf1) as (c3 & Hrun & Hf3 & Hl3). exists c3.
  replace (Z.of_nat (S k) + 1) with (Z.of_nat (S (S k))) by lia.
  replace (k + S n)%nat with (S k + n)%nat by lia. split_and!; [done|done|]. rewrite Hl3, Hl1, Hsent0. lia.
Qed.

(** The first two requests: user 0, who founds the group. *)
Lemma found_group c :
  undecoded (decoder c) = "" → serving (service c) empty_store →
  ∃ c', (doreq send true (make_user_req post 0) ;; doreq send true (make_group_req post 1 0)) c = (Ok tt, c')
    ∧ filled 0 c' ∧ length (sent c') = (length (sent c) + 2)%nat.
Proof.
  intros Hu Hs. destruct (doreq_command true (user_req post 0) (CreateUser (user_name 0)) c empty_store)
    as (resp1 & c1 & Hdo1 & Hu1 & Hs1 & _ & Hsent1); [done|done|by apply user_simple|by apply user_command|done|].
  destruct (doreq_command true (group_req post 1 0) (CreateGroup (group_name 1) (user_name 0)) c1 _ Hu1 Hs1)
    as (resp2 & c2 & Hdo2 & Hu2 & Hs2 & _ & Hsent2); [by apply group_simple|by apply group_command|done|].
  exists c2. split_and!.
  - rewrite (bind_run _ _ _ _ _ Hdo1). exact Hdo2.
  - split; [done|]. eexists. split_and!; [exact Hs2|by vm_compute|by vm_compute].
  - rewrite Hsent2, Hsent1, !length_app. simpl. lia.
Qed.


(** As written, the program is undefined at its first answer. *)
Theorem profile_is_undefined garbage r :
  (profile_program response_text garbage (Enclave 0 (AnonymBE_new mem_empty r) decoder_init [] [])).1 = Undefined.
Proof.
  unfold profile_program, profile_main, main_requests.
  set (s0 := set_init true (set_indexed (negb (garbage =? 0)) (AnonymBE_new mem_empty r))).
  set (c0 := Enclave 0 s0 decoder_init [] [] : process (R := R) (D := D)).
  assert (Hinit : zoom service (λ s c, Enclave (requests_received c) s (decoder c) (sent c) (printed c))
    (service_init "" garbage) (Enclave 0 (AnonymBE_new mem_empty r) decoder_init [] [] : process (R := R) (D := D))
    = (Ok 0, c0)) by done.
  rewrite (bind_run _ _ _ _ _ Hinit).
  assert (Hfirst : ∃ c1, doreq (my_send response_text) true (make_user_req post 0) c0 = (Undefined, c1)).
  { unfold doreq, profile_process_input, make_user_req. set (text := request_text _).
    pose proof (request_text_next (user_req post 0) (user_simple 0 ltac:(lia))) as Hnext. fold text in Hnext.
    pose proof (get_request_next (add_chunk text (decoder c0))) as Hget.
    rewrite undecoded_chunk in Hget. cbn [decoder c0] in Hget. rewrite undecoded_init in Hget. cbn [String.append] in Hget.
    rewrite Hnext in Hget. destruct Hget as (d' & Hget & _).
    destruct (serving_run (user_req post 0) s0 empty_store) as (resp & s1 & Hrun).
    { split_and!; [apply mem_empty_represents|done|done]. }
    cbn [profile_loop]. unfold bind at 1, modify at 1. cbn [requests_received service decoder sent printed c0].
    unfold bind at 1, get_state at 1. cbn [decoder]. rewrite Hget.
    unfold bind at 1, modify at 1, bind at 1, count_request at 1, bind at 1, treat_one, zoom.
    cbn [service decoder sent requests_received printed]. rewrite Hrun. by eexists. }
  destruct Hfirst as [c1 Hfirst]. unfold bind. by rewrite Hfirst.
Qed.
End workload.

(** ** A client for the line decoder *)

Module LineClient.
Import LineDecoder.

Lemma cut_found sep a b : forallb (λ z, negb (z =? byte_of sep)) (bytes_of a) = true →
  cut sep (a +:+ String sep b) = Some (a, b).
Proof.
  induction a as [|c a IH]; cbn [bytes_of forallb String.append cut]; [by rewrite Ascii.eqb_refl|].
  intros [Hc Ha]%andb_true_iff. destruct (Ascii.eqb_spec c sep) as [->|]; [by rewrite Z.eqb_refl in Hc|].
  by rewrite IH.
Qed.

Lemma printable_no s sep : printable s = true → byte_of sep < 0x20 →
  forallb (λ z, negb (z =? byte_of sep)) (bytes_of s) = true.
Proof.
  unfold printable. intros Hs Hsep. rewrite forallb_forall in *. intros z Hz. specialize (Hs z Hz).
  apply andb_true_iff in Hs as [H1 _]. apply Z.leb_le in H1. apply negb_true_iff, Z.eqb_neq. lia.
Qed.

#[export] Instance line_client : HttpClient := {
  url_path := str_drop 17;
  request_text r :=
    method r +:+ String tab (encodedPath r +:+ String tab (stringBody r +:+ String eol ""));
}.

#[export] Instance line_client_spec : HttpClientSpec string.
Proof.
  split; [done|]. intros [m p b] (Hm & Hp & Hb). cbn [method encodedPath stringBody] in *.
  assert (Hmp : printable m = true ∧ printable p = true).
  { split; [by destruct Hm as [->| ->]|]. rewrite !elem_of_cons in Hp.
    destruct Hp as [->|[->|[->|[->|Hp]]]]; try done. by apply not_elem_of_nil in Hp. }
  destruct Hmp as [Hm' Hp']. cbn [next_request line_decoder_spec request_text line_client method encodedPath stringBody].
  unfold next_line.
  assert (Hcut : cut eol (m +:+ String tab (p +:+ String tab (b +:+ String eol "")))
    = Some (m +:+ String tab (p +:+ String tab b), "")).
  { replace (m +:+ String tab (p +:+ String tab (b +:+ String eol "")))
      with ((m +:+ String tab (p +:+ String tab b)) +:+ String eol "")
      by (repeat (rewrite !append_assoc; cbn [String.append]); done).
    apply cut_found. rewrite bytes_of_app, forallb_app, printable_no by done. cbn [bytes_of forallb].
    rewrite bytes_of_app, forallb_app, printable_no by done. cbn [bytes_of forallb]. by rewrite printable_no. }
  rewrite Hcut. unfold line_request. rewrite cut_found by (by apply printable_no).
  by rewrite cut_found by (by apply printable_no).
Qed.

Lemma hex_plain s : plain (hex_encode s) = true ∧ printable (hex_encode s) = true.
Proof.
  induction s as [|c s [IH1 IH2]]; [done|]. cbn [hex_encode]. rewrite plain_app, printable_app, IH1, IH2, !andb_true_r.
  destruct c as [[] [] [] [] [] [] [] []]; done.
Qed.

Lemma demo_plain s : plain (b64_encode (R := Z) s) = true ∧ printable (b64_encode (R := Z) s) = true.
Proof. apply hex_plain. Qed.

End LineClient.
