(* ===== verification/Server.v ===== *)
(** * Requests served by several threads

    The threads of the server call [process_input] on one service object.  A
    handler computes on its own data, calls the database at most once, and
    builds the response from the answer; the database is shared and its calls
    interleave as in [Concurrent].  The theorem: the requests and responses
    observed are those of a service that handles each request at once, at some
    moment between its arrival and its answer. *)

From stdpp Require Import base gmap strings list.
From Stdlib Require Import ZArith Ascii Lia.
From S2P Require Import Prelude Cxx StdMap Database MemDatabase Concurrent Linearizable Locks JsonValue JsonSax JsonParser AnonymBE AnonymBESpec Demo AnonymBECorrect.

(** ** A handler up to its database call, and after it

    The handlers are written against the interface of [Database].  Run on the
    database below they stop at their first call, if no answer is given, and
    go on with the answer otherwise. *)

Record pending : Type := Pending {
  answer : option result;
  asked : list call;
}.

Definition ask (c : call) : M exn pending value := λ p,
  match asked p, answer p with
  | [], Some r => (r, Pending (Some r) [c])
  | [], None => (OutOfFuel, Pending None [c])
  | _, _ => (Undefined, p)
  end.

Definition to_unit (v : value) : outcome exn unit :=
  match v with Plain None => Ok tt | _ => Undefined end.
Definition to_bool (v : value) : outcome exn bool :=
  match v with Plain (Some b) => Ok b | _ => Undefined end.
Definition to_keys (v : value) : outcome exn KeyArray :=
  match v with KeyList ks => Ok ks | _ => Undefined end.

Definition asking {A} (conv : value → outcome exn A) (c : call) : M exn pending A :=
  v <- ask c ;; lift (conv v).

#[export] Instance pending_database : Database pending := {
  Database.init _ := ret true;
  add_user_to_group g u := asking to_unit (Op (OpAdd g u));
  create_user u k := asking to_unit (Op (OpCreateUser u k));
  delete_user u := asking to_unit (Op (OpDeleteUser u));
  create_group g u := asking to_unit (Op (OpCreateGroup g u));
  is_user_part_of_group u g := asking to_bool (Op (OpMember u g));
  remove_user_from_group g u := asking to_unit (Op (OpRemove g u));
  get_keys_of_group g := asking to_keys (Keys g);
  delete_all_data := asking to_unit (Op OpDeleteAll);
}.

Section handlers.
Context {R : Type} `{Crypto R} `{HttpStrings} `{Build}.

(** The same context over the pending database. *)
Definition over (p : pending) (c : context R MemDatabase) : context R pending :=
  let s := svc c in Ctx (Svc (init_ s) (indexed_ s) (die_ s) (error_ s) p (rng s)) (response c).

(** A computation that leaves the database alone. *)
Definition local {A} (m : M exn (context R MemDatabase) A) (m' : M exn (context R pending) A) : Prop :=
  ∀ c, database_ (svc (m c).2) = database_ (svc c) ∧ ∀ p, m' (over p c) = ((m c).1, over p (m c).2).

(** The calls a handler may make. *)
Context (P : call → Prop).

(** A computation that calls the database at most once: on the pending
    database it either ends without a call or stops at the call, and given the
    answer it does what it does on the database. *)
Inductive calls_once {A} (m : M exn (context R MemDatabase) A) (m' : M exn (context R pending) A)
    (c : context R MemDatabase) : Prop :=
| once_local :
    database_ (svc (m c).2) = database_ (svc c) →
    (∀ a, m' (over (Pending a []) c) = ((m c).1, over (Pending a []) (m c).2)) → calls_once m m' c
| once_call k :
    P k →
    (∃ c', m' (over (Pending None []) c) = (OutOfFuel, c') ∧ asked (database_ (svc c')) = [k]) →
    database_ (svc (m c).2) = (atomic k (database_ (svc c))).2 →
    (let r := (atomic k (database_ (svc c))).1 in
     m' (over (Pending (Some r) []) c) = ((m c).1, over (Pending (Some r) [k]) (m c).2)) → calls_once m m' c.

Definition once {A} (m : M exn (context R MemDatabase) A) (m' : M exn (context R pending) A) : Prop :=
  ∀ c, calls_once m m' c.

Lemma local_once {A} (m : M exn (context R MemDatabase) A) m' : local m m' → once m m'.
Proof. intros Hl c. destruct (Hl c) as [Hd Hm]. by apply once_local. Qed.

Lemma local_bind {A B} (m : M exn (context R MemDatabase) A) m' (k : A → M exn (context R MemDatabase) B) k' :
  local m m' → (∀ a, local (k a) (k' a)) → local (bind m k) (bind m' k').
Proof.
  intros Hm Hk c. destruct (Hm c) as [Hd Hm']. unfold bind. destruct (m c) as [[a|e| |] c1]; simpl in *.
  2-4: split; [done|]; intros p; by rewrite Hm'.
  destruct (Hk a c1) as [Hd1 Hk']. split; [congruence|]. intros p. by rewrite Hm', Hk'.
Qed.

Lemma once_bind_local {A B} (m : M exn (context R MemDatabase) A) m' (k : A → M exn (context R MemDatabase) B) k' :
  local m m' → (∀ a, once (k a) (k' a)) → once (bind m k) (bind m' k').
Proof.
  intros Hm Hk c. destruct (Hm c) as [Hd Hm'].
  destruct (m c) as [[a|e| |] c1] eqn:E; simpl in *.
  2-4: apply once_local; unfold bind; rewrite E; simpl; [done|]; intros p; by rewrite Hm'.
  assert (Eb : bind m k c = k a c1) by (unfold bind; by rewrite E).
  assert (Eb' : ∀ p, bind m' k' (over p c) = k' a (over p c1)) by (intros p; unfold bind; by rewrite Hm').
  destruct (Hk a c1) as [Hd1 Hk1|q Pq (c' & Hs & Hq) Hd1 Hk1].
  - apply once_local; rewrite Eb; [congruence|]. intros b. by rewrite Eb'.
  - cbv zeta in Hk1. rewrite Hd in Hd1, Hk1.
    apply (once_call _ _ _ q Pq); cbv zeta; rewrite ?Eb, ?Eb'; [by exists c'|done|done].
Qed.

Lemma once_bind_call {A B} (m : M exn (context R MemDatabase) A) m' (k : A → M exn (context R MemDatabase) B) k' :
  once m m' → (∀ a, local (k a) (k' a)) → once (bind m k) (bind m' k').
Proof.
  intros Hm Hk c. destruct (Hm c) as [Hd Hm'|q Pq (c' & Hs & Hq) Hd Hm'].
  - apply once_local; unfold bind; destruct (m c) as [[a|e| |] c1]; simpl in *; try done.
    + by destruct (Hk a c1) as [-> _].
    + intros p. rewrite Hm'. by destruct (Hk a c1) as [_ Hk1].
    + intros p. by rewrite Hm'.
    + intros p. by rewrite Hm'.
    + intros p. by rewrite Hm'.
  - apply (once_call _ _ _ q Pq).
    + exists c'. unfold bind. by rewrite Hs.
    + unfold bind. destruct (m c) as [[a|e| |] c1]; simpl in *; try done. by destruct (Hk a c1) as [-> _].
    + unfold bind. cbv zeta in *. rewrite Hm'. destruct (m c) as [[a|e| |] c1]; simpl in *; try done.
      by destruct (Hk a c1) as [_ Hk1].
Qed.

(** *** The steps of the handlers *)

Lemma local_ret {A} (a : A) : local (ret a) (ret a).
Proof. by intros c. Qed.

Lemma local_lift {A} (o : outcome exn A) : local (lift o) (lift o).
Proof. by intros c. Qed.

Lemma local_draw {A} (f : R → A * R) : local (draw f) (draw f).
Proof. intros c. unfold draw. simpl. destruct (f (rng (svc c))) as [a r]. split; [done|]. intros p. by destruct c. Qed.

Lemma local_respond k v : local (respond k v) (respond k v).
Proof. by intros c. Qed.

Lemma local_arguments {A B} (a : outcome exn A) (b : outcome exn B) : local (arguments a b) (arguments a b).
Proof.
  unfold arguments. destruct arguments_right_to_left;
    (apply local_bind; [apply local_lift|intros ?]; apply local_bind; [apply local_lift|intros ?]; apply local_ret).
Qed.

Lemma local_indexed {A} (f : option bool → M exn (context R MemDatabase) A) f' :
  (∀ b, local (f b) (f' b)) →
  local (c <- get_state ;; f (indexed_ (svc c))) (c <- get_state ;; f' (indexed_ (svc c))).
Proof. intros Hf c. unfold bind, get_state. apply Hf. Qed.

(** A call of the interface is the call of the same name. *)
Lemma once_database {A} (op : M exn MemDatabase A) conv k :
  P k → (∀ d, op d = (obind (atomic k d).1 conv, (atomic k d).2)) →
  once (on_database op) (on_database (asking conv k)).
Proof.
  intros Pk Hop c. apply (once_call _ _ _ k Pk).
  - eexists. split; [reflexivity|done].
  - unfold on_database, zoom. by rewrite Hop.
  - cbv zeta. unfold on_database, zoom. rewrite Hop. unfold asking, bind, ask, lift. simpl.
    by destruct (atomic k (database_ (svc c))) as [[] d].
Qed.

Lemma once_unit (op : M exn MemDatabase unit) o :
  P (Op o) → mem_exec o = (op ;; ret None) → once (on_database op) (on_database (asking to_unit (Op o))).
Proof.
  intros Po Ho. apply once_database; [done|]. intros d. cbn [atomic]. rewrite Ho. unfold bind, ret.
  by destruct (op d) as [[[]| | |] d'].
Qed.

Lemma once_member u g :
  P (Op (OpMember u g)) → once (on_database (mem_is_user_part_of_group u g)) (on_database (asking to_bool (Op (OpMember u g)))).
Proof.
  intros Po. apply once_database; [done|]. intros d. cbn [atomic mem_exec]. unfold bind, ret.
  by destruct (mem_is_user_part_of_group u g d) as [[] d'].
Qed.

Lemma once_keys g : P (Keys g) → once (on_database (mem_get_keys_of_group g)) (on_database (asking to_keys (Keys g))).
Proof.
  intros Po. apply once_database; [done|]. intros d. cbn [atomic]. unfold bind, ret. by destruct (mem_get_keys_of_group g d) as [[] d'].
Qed.

Lemma local_index_keys nonce bk ka m : local (index_keys nonce bk ka m) (index_keys nonce bk ka m).
Proof.
  revert m. induction ka as [|k ka IH]; intros m; [apply local_ret|].
  apply local_bind; [apply local_draw|]. intros ct. apply IH.
Qed.

Lemma local_encrypt_keys bk ka t : local (encrypt_keys bk ka t) (encrypt_keys bk ka t).
Proof.
  revert t. induction ka as [|k ka IH]; intros t; [apply local_ret|].
  apply local_bind; [apply local_draw|]. intros ct. apply IH.
Qed.

Lemma local_random_key : local random_key random_key.
Proof.
  unfold random_key. destruct NATIVE; [|apply local_draw]. generalize 8%nat; intros words; induction words as [|n IH]; [apply local_ret|].
  apply local_bind; [apply local_draw|]. intros w. apply local_bind; [apply IH|]. intros rest. apply local_ret.
Qed.
End handlers.

Create HintDb local discriminated.
#[export] Hint Resolve local_ret local_lift local_draw local_respond local_arguments local_index_keys
  local_encrypt_keys local_random_key : local.

(** The membership query. *)
Definition is_query (req : Request) : bool :=
  (method req =? "POST")%string && (encodedPath req =? "/verifier/usergroup")%string.

(** The deletions. *)
Definition is_deletion (req : Request) : bool :=
  (method req =? "DELETE")%string &&
  ((encodedPath req =? "/access/user")%string || (encodedPath req =? "/access/all")%string).

(** The calls a request makes: membership queries apart they take the
    mutexes, and deletions apart they take them in order. *)
Definition call_of (req : Request) (k : call) : Prop :=
  (is_query req = false → locked k = true) ∧ (is_deletion req = false → ordered_call k = true).

(** Follow a handler from step to step. *)
Ltac local_step :=
  lazymatch goal with
  | |- local (if ?b then _ else _) _ => destruct b
  | |- local (bind _ _) _ => apply local_bind; [auto with local|intros ?]
  | |- local _ _ => auto with local
  end.
Ltac call_ok :=
  unfold call_of, is_query, is_deletion; repeat match goal with E : (_ =? _)%string = true |- _ => rewrite E; clear E end;
  rewrite ?orb_true_r; by split.
Ltac once_step :=
  lazymatch goal with
  | |- once _ (if ?b then _ else _) _ => destruct b eqn:?
  | |- once _ (bind (on_database _) _) _ =>
      apply once_bind_call; [first [apply once_unit; [call_ok|done]|apply once_member; call_ok|apply once_keys; call_ok]|intros ?]
  | |- once _ (bind _ _) _ => apply once_bind_local; [auto with local|intros ?]
  | |- once _ _ _ => apply local_once
  end.

Section requests.
Context {R : Type} `{Crypto R} `{HttpStrings} `{Build}.

Lemma once_envelope P j : (∀ g, P (Keys g)) → once (R := R) P (generate_envelope j) (generate_envelope j).
Proof.
  intros Pk. unfold generate_envelope. do 2 once_step. apply once_bind_call; [by apply once_keys|].
  intros [|key ka]; [by repeat local_step|].
  eapply (local_indexed (λ b, match b with None => lift Undefined | Some b => if b then _ else _ end)
                        (λ b, match b with None => lift Undefined | Some b => if b then _ else _ end)).
  intros [[]|]; by repeat local_step.
Qed.

Lemma once_verb req :
  once (R := R) (call_of req) (process_verb req) (process_verb req).
Proof.
  unfold process_verb, process_get, process_put, process_post, process_delete, service_create_user.
  repeat ((by apply once_envelope) || once_step || local_step).
Qed.

(** ** The server

    The service after [init], over any database. *)

Context (indexed : bool).

Definition service_at {D} (d : D) (r : R) : AnonymBE R D := Svc true (Some indexed) false ASKY_NOERROR d r.

(** A request handled by a thread: up to the call, which is the answer when
    there is none, and from the answer of the call on.  [r] is what the random
    sources will give. *)
Definition until_call (req : Request) (r : R) : outcome exn Response * list call :=
  let '(o, s) := process_input req (service_at (Pending None []) r) in (o, asked (database_ s)).

Definition after_call (req : Request) (r : R) (a : result) : outcome exn Response :=
  (process_input req (service_at (Pending (Some a) []) r)).1.

(** The two halves are [process_input] of the service. *)
Lemma request_halves req d r :
  (let '(o, s) := process_input req (service_at d r) in database_ s = d ∧ until_call req r = (o, [])) ∨
  (∃ k, until_call req r = (OutOfFuel, [k]) ∧ call_of req k ∧
     let '(o, s) := process_input req (service_at d r) in
     o = after_call req r (atomic k d).1 ∧ database_ s = (atomic k d).2).
Proof.
  unfold until_call, after_call, process_input. cbn [init_ service_at negb andb].
  assert (E : ∀ {D} (d : D), set_init true (service_at d r) = service_at d r) by done. rewrite !E.
  set (c := Ctx (service_at d r) [] : context R MemDatabase).
  assert (Eo : ∀ p, Ctx (service_at p r) [] = over p c) by done. rewrite !Eo.
  destruct (once_verb req c) as [Hd Hm|k Hk (c' & Hs & Hq) Hd Hm].
  - left. rewrite Hm. destruct (process_verb req c) as [[e|e| |] c1]; simpl in *; try done.
    by destruct (catch_exn e (response c1)) as [[??]?].
  - right. exists k. rewrite Hs. split_and!; [by rewrite Hq|done|]. cbv zeta in Hm.
    change (database_ (svc c)) with d in Hm, Hd.
    assert (Ei : ∀ p, Ctx (set_init true (service_at p r)) [] = over p c) by done. rewrite Ei, Hm. destruct (process_verb req c) as [[e|e| |] c1]; simpl in *; try done.
    by destruct (catch_exn e (response c1)) as [[??]?].
Qed.

(** *** The threads

    A thread waits for a request, for the database, or has a response to
    send.  Requests and responses are observed. *)

Inductive sevent : Type :=
| Recv (i : nat) (req : Request) (r : R)
| Send (i : nat) (resp : Response).

Inductive client : Type :=
| Ready
| Waiting (req : Request) (r : R)
| Replying (o : outcome exn Response).

Record server : Type := Server {
  v_conf : conf;
  v_clients : list client;
}.

Definition server_start (d : MemDatabase) (n : nat) : server := Server (start d n) (replicate n Ready).

Inductive vstep : server → option sevent → server → Prop :=
| vstep_local c cls i req r o :
    cls !! i = Some Ready → until_call req r = (o, []) →
    vstep (Server c cls) (Some (Recv i req r)) (Server c (<[i := Replying o]> cls))
| vstep_call c c' cls i req r o k :
    cls !! i = Some Ready → until_call req r = (o, [k]) → cstep c (Some (Call i k)) c' →
    vstep (Server c cls) (Some (Recv i req r)) (Server c' (<[i := Waiting req r]> cls))
| vstep_database c c' cls :
    cstep c None c' → vstep (Server c cls) None (Server c' cls)
| vstep_return c c' cls i req r a :
    cls !! i = Some (Waiting req r) → cstep c (Some (Ret i a)) c' →
    vstep (Server c cls) None (Server c' (<[i := Replying (after_call req r a)]> cls))
| vstep_send c cls i resp :
    cls !! i = Some (Replying (Ok resp)) →
    vstep (Server c cls) (Some (Send i resp)) (Server c (<[i := Ready]> cls)).

(** *** The atomic server: a request is handled by [process_input] at once. *)

Inductive sstatus : Type :=
| SReady
| SReceived (req : Request) (r : R)
| SDone (o : outcome exn Response).

Record aserver : Type := AServer {
  w_db : MemDatabase;
  w_status : list sstatus;
}.

Definition aserver_start (d : MemDatabase) (n : nat) : aserver := AServer d (replicate n SReady).

Inductive wstep : aserver → option sevent → aserver → Prop :=
| wstep_recv d ss i req r :
    ss !! i = Some SReady → wstep (AServer d ss) (Some (Recv i req r)) (AServer d (<[i := SReceived req r]> ss))
| wstep_handle d ss i req r o s :
    ss !! i = Some (SReceived req r) → process_input req (service_at d r) = (o, s) →
    wstep (AServer d ss) None (AServer (database_ s) (<[i := SDone o]> ss))
| wstep_send d ss i resp :
    ss !! i = Some (SDone (Ok resp)) → wstep (AServer d ss) (Some (Send i resp)) (AServer d (<[i := SReady]> ss)).

(** ** The simulation *)

(** A client of the server, of the atomic server and of the atomic database. *)
Inductive client_ok : option client → option sstatus → option phase → Prop :=
| ok_absent : client_ok None None None
| ok_ready : client_ok (Some Ready) (Some SReady) (Some Idle)
| ok_waiting req r o k :
    until_call req r = (o, [k]) → client_ok (Some (Waiting req r)) (Some (SReceived req r)) (Some (Called k))
| ok_answered req r a :
    client_ok (Some (Waiting req r)) (Some (SDone (after_call req r a))) (Some (Answered a))
| ok_replying o : client_ok (Some (Replying o)) (Some (SDone o)) (Some Idle).

Definition clients_ok (cls : list client) (ss : list sstatus) (st : list phase) : Prop :=
  ∀ i, client_ok (cls !! i) (ss !! i) (st !! i).

Lemma clients_ok_set cls ss st i x y z :
  clients_ok cls ss st → is_Some (cls !! i) → client_ok (Some x) (Some y) (Some z) →
  clients_ok (<[i := x]> cls) (<[i := y]> ss) (<[i := z]> st).
Proof.
  intros Hall [x0 Hx] Hnew j. pose proof (Hall i) as Hi. rewrite Hx in Hi.
  destruct (decide (i = j)) as [<-|Hij]; [|by rewrite !list_lookup_insert_ne].
  assert (Hlt : (i < length cls)%nat ∧ (i < length ss)%nat ∧ (i < length st)%nat).
  { split; [by eapply lookup_lt_Some|]. inversion Hi as [|Hy Hz|req r o k Hu Hx' Hy Hz|req r a Hx' Hy Hz|o Hx' Hy Hz];
      subst; split; eapply lookup_lt_Some; symmetry; eassumption. }
  destruct Hlt as (? & ? & ?). by rewrite !list_lookup_insert_eq.
Qed.

(** An effect of the atomic database is a request handled by the atomic server. *)
Lemma effect_handled cls ss a a' :
  run astep a [] a' → clients_ok cls ss (a_status a) →
  ∃ ss', run wstep (AServer (a_db a) ss) [] (AServer (a_db a') ss') ∧ clients_ok cls ss' (a_status a').
Proof.
  intros Hrun. remember [] as tr eqn:Htr. revert ss. induction Hrun as [a|a a1 a2 tr Hs _ IH|]; intros ss Hcls; [|subst tr|done].
  { exists ss. split; [constructor|done]. }
  inversion Hs as [|d st i k r d' Hi Hat|]; subst. simpl in *.
  pose proof (Hcls i) as Hc. rewrite Hi in Hc. inversion Hc as [| |req r0 o k0 Hu Hx Hy Hz| |]; subst.
  destruct (request_halves req d r0) as [Hl|(k' & Hu' & _ & Hp)].
  { destruct (process_input req (service_at d r0)) as [o1 s1]. destruct Hl as [_ Hl]. congruence. }
  rewrite Hu in Hu'. injection Hu' as -> <-. rewrite Hat in Hp. simpl in Hp.
  destruct (process_input req (service_at d r0)) as [o1 s1] eqn:Ep. destruct Hp as [-> Hd1].
  destruct (IH eq_refl (<[i := SDone (after_call req r0 r)]> ss)) as (ss' & Hr & Hok).
  - rewrite <-(list_insert_id cls i (Waiting req r0)) by done. apply clients_ok_set; [done|by eexists|constructor].
  - exists ss'. split; [|done]. eapply run_silent; [|exact Hr]. rewrite <-Hd1. by eapply wstep_handle.
Qed.

(** The server, the atomic database under it, and the atomic server. *)
Definition vsim (v : server) (w : aserver) : Prop :=
  ∃ st, sim (v_conf v) (Atomic (w_db w) st) ∧ clients_ok (v_clients v) (w_status w) st.

Lemma client_is cls ss st i x :
  clients_ok cls ss st → cls !! i = Some x → client_ok (Some x) (ss !! i) (st !! i).
Proof. intros Hall <-. apply Hall. Qed.

(** A request that needs no call is handled where it arrives. *)
Lemma vsim_local c cls d ss i req r o :
  vsim (Server c cls) (AServer d ss) → cls !! i = Some Ready → until_call req r = (o, []) →
  ∃ w', vsim (Server c (<[i := Replying o]> cls)) w' ∧ run wstep (AServer d ss) [Recv i req r] w'.
Proof.
  intros (st & Hsim & Hcls) Hi Hu. simpl in *. pose proof (client_is _ _ _ _ _ Hcls Hi) as Hc.
  inversion Hc as [|Hy Hz| | |]; subst. exists (AServer d (<[i := SDone o]> ss)). split.
  - exists st. split; [done|]. simpl. rewrite <-(list_insert_id st i Idle) by done.
    apply clients_ok_set; [done|by eexists|constructor].
  - eapply run_event; [by apply wstep_recv|]. eapply run_silent; [|constructor].
    destruct (request_halves req d r) as [Hl|(k & Hu' & _)]; [|congruence].
    destruct (process_input req (service_at d r)) as [o1 s1] eqn:Ep. destruct Hl as [Hd Hl].
    rewrite Hu in Hl. injection Hl as <-. rewrite <-(list_insert_insert_eq ss i (SDone o) (SReceived req r)).
    rewrite <-Hd at 2. eapply wstep_handle; [|by rewrite Ep].
    apply list_lookup_insert_eq. by eapply lookup_lt_Some.
Qed.

Lemma vsim_call c c' cls d ss i req r o k :
  vsim (Server c cls) (AServer d ss) → is_query req = false →
  cls !! i = Some Ready → until_call req r = (o, [k]) → cstep c (Some (Call i k)) c' →
  ∃ w', vsim (Server c' (<[i := Waiting req r]> cls)) w' ∧ run wstep (AServer d ss) [Recv i req r] w'.
Proof.
  intros (st & Hsim & Hcls) Hq Hi Hu Hs. simpl in *. pose proof (client_is _ _ _ _ _ Hcls Hi) as Hc.
  inversion Hc as [|Hy Hz| | |]; subst.
  assert (Hk : locked k = true).
  { destruct (request_halves req d r) as [Hl|(k' & Hu' & Hk & _)].
    - destruct (process_input req (service_at d r)) as [o1 s1]. destruct Hl. congruence.
    - rewrite Hu in Hu'. injection Hu' as -> <-. by apply Hk. }
  inversion Hs as [d0 o0 ts j k0 Hj| | | | |]; subst.
  destruct (sim_call _ _ _ _ _ _ Hsim Hj Hk) as (Hsim' & _ & _). simpl in Hsim'.
  exists (AServer d (<[i := SReceived req r]> ss)). split.
  - exists (<[i := Called k]> st). split; [done|]. apply clients_ok_set; [done|by eexists|by econstructor].
  - eapply run_event; [by apply wstep_recv|constructor].
Qed.

Lemma vsim_return c c' cls d ss i req r a :
  vsim (Server c cls) (AServer d ss) → cls !! i = Some (Waiting req r) → cstep c (Some (Ret i a)) c' →
  vsim (Server c' (<[i := Replying (after_call req r a)]> cls)) (AServer d ss).
Proof.
  intros (st & Hsim & Hcls) Hi Hs. simpl in *. inversion Hs as [|d0 o0 ts j a0 Hj| | | |]; subst.
  destruct (sim_return _ _ _ _ _ _ Hsim Hj) as (Hsim' & Hst & _). simpl in Hsim', Hst.
  pose proof (client_is _ _ _ _ _ Hcls Hi) as Hc. rewrite Hst in Hc. inversion Hc as [| | |req0 r0 a1 Hx Hy Hz|]; subst.
  exists (<[i := Idle]> st). split; [done|]. simpl. rewrite <-(list_insert_id ss i (SDone (after_call req r a))) by done.
  apply clients_ok_set; [done|by eexists|constructor].
Qed.

Lemma vsim_send c cls d ss i resp :
  vsim (Server c cls) (AServer d ss) → cls !! i = Some (Replying (Ok resp)) →
  ∃ w', vsim (Server c (<[i := Ready]> cls)) w' ∧ run wstep (AServer d ss) [Send i resp] w'.
Proof.
  intros (st & Hsim & Hcls) Hi. simpl in *. pose proof (client_is _ _ _ _ _ Hcls Hi) as Hc.
  inversion Hc as [| | | |o Hx Hy Hz]; subst. exists (AServer d (<[i := SReady]> ss)). split.
  - exists st. split; [done|]. simpl. rewrite <-(list_insert_id st i Idle) by done.
    apply clients_ok_set; [done|by eexists|constructor].
  - eapply run_event; [by apply wstep_send|constructor].
Qed.

Lemma vsim_step v l v' w :
  vsim v w → vstep v l v' → (∀ i req r, l = Some (Recv i req r) → is_query req = false) →
  ∃ w', vsim v' w' ∧ run wstep w (option_list l) w'.
Proof.
  destruct w as [d ss]. intros Hv Hs Hq.
  destruct Hs as [c cls i req r o Hi Hu|c c' cls i req r o k Hi Hu Hc|c c' cls Hc|c c' cls i req r a Hi Hc|c cls i resp Hi].
  - by apply vsim_local.
  - by eapply vsim_call; [|eapply Hq|..].
  - destruct Hv as (st & Hsim & Hcls). destruct (sim_cstep _ _ _ _ Hsim Hc ltac:(done)) as (a' & Hsim' & Hr).
    destruct (effect_handled _ ss _ _ Hr Hcls) as (ss' & Hr' & Hcls').
    exists (AServer (a_db a') ss'). split; [|done]. exists (a_status a'). by destruct a'.
  - exists (AServer d ss). split; [by apply (vsim_return c)|constructor].
  - by apply vsim_send.
Qed.

Lemma vsim_start d n : mem_inv d → vsim (server_start d n) (aserver_start d n).
Proof.
  intros Hd. exists (replicate n Idle). split; [by apply sim_start|]. intros i. simpl.
  destruct (decide (i < n)%nat).
  - rewrite !lookup_replicate_2 by done. constructor.
  - rewrite !lookup_ge_None_2 by (rewrite length_replicate; lia). constructor.
Qed.

Lemma vsim_run v tr v' w :
  run vstep v tr v' → vsim v w → (∀ i req r, Recv i req r ∈ tr → is_query req = false) →
  ∃ w', vsim v' w' ∧ run wstep w tr w'.
Proof.
  intros Hrun. revert w. induction Hrun as [v|v v1 v2 tr Hs _ IH|v e v1 v2 tr Hs _ IH]; intros w Hv Hq.
  - exists w. split; [done|constructor].
  - destruct (vsim_step _ _ _ _ Hv Hs ltac:(done)) as (w1 & Hv1 & Hr1).
    destruct (IH w1 Hv1 Hq) as (w2 & Hv2 & Hr2). exists w2. split; [done|]. by apply (run_app _ _ [] w1).
  - destruct (vsim_step _ _ _ _ Hv Hs) as (w1 & Hv1 & Hr1).
    { intros i req r [= ->]. apply (Hq i req r). by left. }
    destruct (IH w1 Hv1) as (w2 & Hv2 & Hr2).
    { intros i req r Hin. apply (Hq i req r). by right. }
    exists w2. split; [done|]. by apply (run_app _ _ [e] w1).
Qed.

(** Threads that share the database answer as the atomic server. *)
Lemma server_atomic d n tr v :
  mem_inv d → (∀ i req r, Recv i req r ∈ tr → is_query req = false) →
  run vstep (server_start d n) tr v →
  ∃ w, run wstep (aserver_start d n) tr w
    ∧ (Forall (λ t, t = None) (c_threads (v_conf v)) → c_db (v_conf v) = w_db w).
Proof.
  intros Hd Hq Hrun. destruct (vsim_run _ _ _ _ Hrun (vsim_start d n Hd) Hq) as (w & (st & Hsim & _) & Hr).
  exists w. split; [done|]. by apply (sim_quiet _ _ Hsim).
Qed.

(** ** The ideal server

    The abstract service of [AnonymBESpec] under the same observations: a
    request is served at once on the store of users and groups, with an answer
    that the specification allows. *)

Record ideal : Type := Ideal {
  i_store : store;
  i_status : list sstatus;
}.

Definition ideal_start (st : store) (n : nat) : ideal := Ideal st (replicate n SReady).

(** The service that draws from [r]; its database does not matter. *)
Definition drawing (r : R) : AnonymBE R MemDatabase := service_at mem_empty r.

Inductive istep : ideal → option sevent → ideal → Prop :=
| istep_recv st ss i req r :
    ss !! i = Some SReady → istep (Ideal st ss) (Some (Recv i req r)) (Ideal st (<[i := SReceived req r]> ss))
| istep_serve st ss i req r resp :
    ss !! i = Some (SReceived req r) → answer_spec req (drawing r) st resp →
    istep (Ideal st ss) None
      (Ideal (serve req (fresh_key (drawing r)) st).2 (<[i := SDone (Ok resp)]> ss))
| istep_send st ss i resp :
    ss !! i = Some (SDone (Ok resp)) → istep (Ideal st ss) (Some (Send i resp)) (Ideal st (<[i := SReady]> ss)).

Lemma fresh_key_at (d : MemDatabase) r : fresh_key (service_at d r) = fresh_key (drawing r).
Proof.
  pose proof (λ d, proj2 (local_random_key (Ctx (service_at (d : MemDatabase) r) [])) (Pending None [])) as Hl.
  pose proof (Hl d) as E1. pose proof (Hl mem_empty) as E2.
  change (over (Pending None []) (Ctx (service_at d r) [])) with (over (Pending None []) (Ctx (drawing r) [])) in E1.
  unfold drawing in *. rewrite E2 in E1. injection E1 as E _. unfold fresh_key.
  destruct (random_key (Ctx (service_at d r) [])) as [? ?], (random_key (Ctx (service_at mem_empty r) [])) as [? ?].
  simpl in E. by subst.
Qed.

Lemma answer_at (d : MemDatabase) r req st resp :
  answer_spec req (service_at d r) st resp → answer_spec req (drawing r) st resp.
Proof.
  unfold answer_spec. rewrite fresh_key_at. case_match; [|done..].
  intros (cmd & kvs & Hr & Hs & ->). exists cmd, kvs. split_and!; [done| |done].
  destruct cmd; try done. simpl in *. by rewrite fresh_key_at in Hs.
Qed.

(** What the atomic server does is what the specification asks for. *)
Lemma atomic_ideal w tr w' :
  run wstep w tr w' → mem_inv (w_db w) →
  ∃ v, run istep (Ideal (abstraction (w_db w)) (w_status w)) tr v ∧ i_store v = abstraction (w_db w') ∧ mem_inv (w_db w').
Proof.
  induction 1 as [w|w w1 w2 tr Hs _ IH|w e w1 w2 tr Hs _ IH]; intros Hinv.
  { eexists. split; [constructor|done]. }
  all: inversion Hs as [d ss i req r Hi|d ss i req r o s Hi Hp|d ss i resp Hi]; subst; simpl in *.
  - assert (Hserv : serving (service_at d r) (abstraction d)) by done.
    destruct (serving_run req _ _ Hserv) as (resp & s' & Hp'). rewrite Hp in Hp'. simplify_eq.
    destruct (serving_step _ _ _ _ _ Hserv Hp) as ((Hrep & _) & Ha & _). destruct Hrep as [Hinv' Hst].
    destruct (IH Hinv') as (v & Hr & Hv). exists v. split; [|done]. eapply run_silent; [|exact Hr].
    rewrite <-Hst, fresh_key_at. eapply istep_serve; [done|by eapply answer_at].
  - destruct (IH Hinv) as (v & Hr & Hv). exists v. split; [|done]. eapply run_event; [|exact Hr]. by apply istep_recv.
  - destruct (IH Hinv) as (v & Hr & Hv). exists v. split; [|done]. eapply run_event; [|exact Hr]. by apply istep_send.
Qed.

(** C3: Requests served by any number of threads on one shared database, with
    their steps interleaved in any way, get the answers of the abstract
    service: each request is served at once on the abstract store, at some
    moment between its arrival and its answer, and when no thread is in the
    database it stands for that store.  Membership queries are excepted: they
    take no mutex. *)
Theorem service_linearizable d n tr v :
  mem_inv d → (∀ i req r, Recv i req r ∈ tr → is_query req = false) →
  run vstep (server_start d n) tr v →
  ∃ w, run istep (ideal_start (abstraction d) n) tr w
    ∧ (Forall (λ t, t = None) (c_threads (v_conf v)) → mem_represents (c_db (v_conf v)) (i_store w)).
Proof.
  intros Hd Hq Hrun. destruct (server_atomic _ _ _ _ Hd Hq Hrun) as (w & Hr & Hquiet).
  destruct (atomic_ideal _ _ _ Hr Hd) as (w' & Hr' & Hst & Hinv). exists w'. split; [done|].
  intros Hidle. rewrite (Hquiet Hidle). by split.
Qed.
End requests.

(** *** Two requests at once *)

Definition new_user (name : string) : Request := post "/access/user" ("{|user_id|: |" +:+ name +:+ "|}").

(** The next step of thread [i]. *)
Ltac thread_step i :=
  first
  [ eapply run_event; [eapply (vstep_call _ _ _ _ i); [reflexivity|vm_compute; reflexivity|apply cstep_call; reflexivity]|]
  | eapply run_silent; [eapply vstep_database; first
      [ eapply (cstep_acquire _ _ _ i); reflexivity | eapply (cstep_release _ _ _ i); reflexivity
      | eapply (cstep_groups _ _ _ i); reflexivity | eapply (cstep_users _ _ _ i); reflexivity ]|]
  | eapply run_silent; [eapply (vstep_return _ _ _ _ i); [reflexivity|apply cstep_return; reflexivity]|]
  | eapply run_event; [eapply (vstep_send _ _ _ i); vm_compute; reflexivity|] ];
  cbn [insert list_insert prog_of].

Lemma service_linearizable_witness :
  ∃ (v : server (R := Z)) ra rb,
    users_ (c_db (v_conf v)) = [("ann", str_repeat 32 (char_of 5)); ("bob", str_repeat 32 (char_of 6))]
    ∧ ∃ w, run (istep true) (ideal_start (abstraction mem_empty) 2)
             [Recv 0 (new_user "ann") 5; Recv 1 (new_user "bob") 6; Send 1 rb; Send 0 ra] w
         ∧ (Forall (λ t, t = None) (c_threads (v_conf v)) → mem_represents (c_db (v_conf v)) (i_store w)).
Proof.
  eexists _, _, _. split; [|eapply (service_linearizable true mem_empty 2);
    [apply mem_empty_inv
    |intros i req r; rewrite !elem_of_cons, elem_of_nil; intros [[= _ -> _]|[[= _ -> _]|[[=]|[[=]|[]]]]]; reflexivity
    |thread_step 0%nat; do 7 thread_step 1%nat; do 6 thread_step 0%nat; apply run_nil]].
  reflexivity.
Defined.
