(* ===== verification/ServerLive.v ===== *)
(** * Is every request answered?

    The threads of [Server] and the order of the mutexes of [Locks]: a server
    whose clients ask neither a membership query nor a deletion answers every
    request it has received, however its threads are scheduled. *)

From stdpp Require Import base gmap strings list relations.
From Stdlib Require Import ZArith Lia.
From S2P Require Import Prelude Cxx StdMap Database MemDatabase Concurrent Linearizable Locks JsonValue JsonSax JsonParser AnonymBE AnonymBESpec Demo AnonymBECorrect Server.

Section live.
Context {R : Type} `{Crypto R} `{HttpStrings} `{Build}.
Context (indexed : bool).

Local Abbreviation server := (server (R := R)).
Local Abbreviation vstep := (vstep (R := R) indexed).
Local Abbreviation wstep := (wstep (R := R) indexed).

(** ** Steps of a server that receives nothing new *)

Definition vnext (v v' : server) : Prop :=
  ∃ l, vstep v l v' ∧ ∀ i req r, l ≠ Some (Recv i req r).

Definition all_answered (v : server) : Prop := Forall (λ c, c = Ready) (v_clients v).
Definition blocked (v : server) : Prop := ¬ all_answered v ∧ ∀ v', ¬ vnext v v'.

(** A client that has its answer. *)
Inductive answered_client : client (R := R) → client (R := R) → Prop :=
| client_answered o : answered_client Ready (Replying o).

Lemma answered_client_wf : well_founded answered_client.
Proof. intros c. constructor. intros c' Hc. destruct Hc. constructor. intros c'' Hc. inversion Hc. Qed.

(** A step brings a call of the database forward, or sends an answer. *)
Lemma vnext_down v v' :
  vnext v v' →
  one_down child (c_threads (v_conf v')) (c_threads (v_conf v)) ∨
  v_conf v' = v_conf v ∧ one_down answered_client (v_clients v') (v_clients v).
Proof.
  intros (l & Hs & Hl). destruct Hs as [c cls i req r o Hi Hu|c c' cls i req r o k Hi Hu Hc|c c' cls Hc|c c' cls i req r a Hi Hc|c cls i resp Hi].
  - by destruct (Hl i req r).
  - by destruct (Hl i req r).
  - left. apply nstep_down. by exists None.
  - left. apply nstep_down. by exists (Some (Ret i a)).
  - right. split; [done|]. exists i, (Replying (Ok resp)), Ready. by split_and!; [|constructor|].
Qed.

(** Without new requests, no run goes on for ever. *)
Lemma answers_terminate v : sn vnext v.
Proof.
  destruct v as [[d o ts] cls]. revert d o cls.
  induction (one_down_wf child child_wf ts) as [ts _ IHt]. intros d o cls.
  induction (one_down_wf _ answered_client_wf cls) as [cls _ IHc].
  constructor. intros [[d' o' ts'] cls'] Hs. apply vnext_down in Hs as [Hs|[[= -> -> ->] Hs]]; auto.
Qed.

(** ** What holds between the steps *)

(** The atomic server has only answers to send. *)
Definition has_answers (w : aserver (R := R)) : Prop :=
  mem_inv (w_db w) ∧ ∀ i o, w_status w !! i = Some (SDone o) → ∃ resp, o = Ok resp.

Lemma wstep_answers w l w' : wstep w l w' → has_answers w → has_answers w'.
Proof.
  intros Hs [Hinv Hok]. destruct Hs as [d ss i req r Hi|d ss i req r o s Hi Hp|d ss i resp Hi]; simpl in *.
  - split; [done|]. intros j o Hj. apply list_lookup_insert_Some in Hj as [(_ & [=] & _)|[_ Hj]]. by eapply Hok.
  - assert (Hserv : serving (service_at indexed d r) (abstraction d)) by done.
    destruct (serving_run req _ _ Hserv) as (resp & s' & Hp'). rewrite Hp in Hp'. simplify_eq.
    destruct (serving_step _ _ _ _ _ Hserv Hp) as (([Hinv' _] & _) & _). split; [done|].
    intros j o Hj. apply list_lookup_insert_Some in Hj as [(_ & [= <-] & _)|[_ Hj]]; [by eexists|by eapply Hok].
  - split; [done|]. intros j o Hj. apply list_lookup_insert_Some in Hj as [(_ & [=] & _)|[_ Hj]]. by eapply Hok.
Qed.

Lemma run_answers w tr w' : run wstep w tr w' → has_answers w → has_answers w'.
Proof. induction 1; eauto using wstep_answers. Qed.

(** The requests of the theorem. *)
Definition ordered_request (req : Request) : Prop := is_query req = false ∧ is_deletion req = false.

(** The server, the atomic server beside it, and the mutexes. *)
Definition live_inv (v : server) : Prop :=
  lock_inv (v_conf v) ∧ ∃ w, vsim indexed v w ∧ has_answers w.

Lemma request_call_ordered req r o k :
  ordered_request req → until_call indexed req r = (o, [k]) → ordered_call k = true.
Proof.
  intros [_ Hd] Hu. destruct (request_halves indexed req mem_empty r) as [Hl|(k' & Hu' & Hk & _)].
  - destruct (process_input req _) as [o1 s1]. destruct Hl. congruence.
  - rewrite Hu in Hu'. injection Hu' as -> <-. by apply Hk.
Qed.

Lemma vstep_lock_inv v l v' :
  vstep v l v' → (∀ i req r, l = Some (Recv i req r) → ordered_request req) →
  lock_inv (v_conf v) → lock_inv (v_conf v').
Proof.
  intros Hs Hl Hinv. destruct Hs as [c cls i req r o Hi Hu|c c' cls i req r o k Hi Hu Hc|c c' cls Hc|c c' cls i req r a Hi Hc|c cls i resp Hi];
    simpl in *; [done|eapply step_inv; [done| |done]..|done]; [|done|done].
  intros j k' [= -> ->]. eapply request_call_ordered; [by eapply Hl|done].
Qed.

Lemma vstep_live v l v' :
  vstep v l v' → (∀ i req r, l = Some (Recv i req r) → ordered_request req) → live_inv v → live_inv v'.
Proof.
  intros Hs Hl (Hlock & w & Hsim & Ha). split; [by eapply vstep_lock_inv|].
  destruct (vsim_step _ _ _ _ _ Hsim Hs) as (w' & Hsim' & Hr); [by intros; eapply Hl|].
  exists w'. split; [done|]. by eapply run_answers.
Qed.

Lemma run_live v tr v' :
  run vstep v tr v' → (∀ i req r, Recv i req r ∈ tr → ordered_request req) → live_inv v → live_inv v'.
Proof.
  induction 1 as [v|v v1 v2 tr Hs _ IH|v e v1 v2 tr Hs _ IH]; intros Hq Hv; [done|..]; apply IH.
  - done.
  - by eapply vstep_live.
  - intros i req r Hin. apply (Hq i req r). by right.
  - eapply vstep_live; [done| |done]. intros i req r [= ->]. apply (Hq i req r). by left.
Qed.

Lemma vnext_live v v' : vnext v v' → live_inv v → live_inv v'.
Proof. intros (l & Hs & Hl). eapply vstep_live; [done|]. intros i req r ->. by destruct (Hl i req r). Qed.

Lemma start_live d n : mem_inv d → live_inv (server_start d n).
Proof.
  intros Hd. split; [apply start_inv|]. exists (aserver_start d n). split; [by apply vsim_start|].
  split; [done|]. intros i o Hi. by apply lookup_replicate_1 in Hi as [[=] _].
Qed.

(** ** Progress *)

(** The database moves on: so does the server. *)
Lemma database_moves v c' : live_inv v → nstep (v_conf v) c' → ∃ v', vnext v v'.
Proof.
  destruct v as [c cls]. intros (_ & [d ss] & (st & Hsim & Hcls) & _) (l & Hs & Hl). simpl in *.
  destruct l as [[i k|i a]|]; [by destruct (Hl i k)| |eexists; exists None; by split; [apply vstep_database|]].
  inversion Hs as [|d0 o0 ts j a0 Hj| | | |]; subst.
  destruct (sim_return _ _ _ _ _ _ Hsim Hj) as (_ & Hst & _). simpl in Hst.
  pose proof (Hcls i) as Hc. rewrite Hst in Hc. inversion Hc as [| | |req r a1 Hx Hy Hz|]; subst.
  eexists. exists None. split; [by eapply vstep_return|done].
Qed.

(** No thread is in the database: who is not ready has an answer to send. *)
Lemma answer_moves v : live_inv v → idle (v_conf v) → ¬ all_answered v → ∃ v', vnext v v'.
Proof.
  destruct v as [c cls]. intros (_ & [d ss] & (st & Hsim & Hcls) & _ & Hok) Hidle Hna. simpl in *.
  apply not_Forall_Exists in Hna; [|intros []; (by left) || (by right)].
  apply Exists_exists in Hna as (cl & Hin & Hne). apply list_elem_of_lookup in Hin as [i Hi].
  pose proof (client_is _ _ _ _ _ _ Hcls Hi) as Hc.
  assert (Hnot : ∀ p, st !! i = Some p → p = Idle).
  { intros p Hp. pose proof (sim_threads _ _ Hsim i) as Ht. simpl in Ht. rewrite Hp in Ht.
    destruct (c_threads c !! i) as [t|] eqn:Et; [|done].
    assert (t = None) as -> by (by eapply Forall_lookup_1 in Hidle). by destruct p. }
  inversion Hc as [|Hy Hz|req r o k Hu Hx Hy Hz|req r a Hx Hy Hz|o Hx Hy Hz]; subst.
  - by destruct Hne.
  - by specialize (Hnot _ (eq_sym Hz)).
  - by specialize (Hnot _ (eq_sym Hz)).
  - destruct (Hok i o) as [resp ->]; [done|]. eexists. exists (Some (Send i resp)). split; [by eapply vstep_send|done].
Qed.

Lemma server_moves v : live_inv v → ¬ all_answered v → ∃ v', vnext v v'.
Proof.
  intros Hv Hna. destruct (decide (Forall (λ t, t = None) (c_threads (v_conf v)))) as [Hi|Hi]; [by apply answer_moves|].
  destruct (progress _ (proj1 Hv) Hi) as [c' Hs]. by eapply database_moves.
Qed.

(** C34: A server whose clients ask neither a membership query nor a deletion
    answers every request it has received, however its threads are scheduled:
    from every state it reaches, no run without new requests goes on for ever,
    and none is blocked before each client has its answer. *)
Theorem requests_are_answered d n tr v :
  mem_inv d → (∀ i req r, Recv i req r ∈ tr → ordered_request req) →
  run vstep (server_start d n) tr v →
  sn vnext v ∧ ∀ v', rtc vnext v v' → ¬ blocked v'.
Proof.
  intros Hd Hq Hrun. split; [apply answers_terminate|]. intros v' Hrtc [Hna Hb].
  assert (Hv : live_inv v') by
    (eapply (rtc_ind_r live_inv v); [eapply run_live; eauto using start_live|intros; by eapply vnext_live|done]).
  destruct (server_moves v' Hv Hna) as [v'' Hs]. by apply (Hb v'').
Qed.
End live.

(** Two clients that register, the first one overtaken inside the database. *)
Lemma requests_are_answered_witness :
  ∃ v : server (R := Z), v_clients v !! 0%nat = Some (Waiting (new_user "ann") 5)
    ∧ sn (vnext true) v ∧ ∀ v', rtc (vnext true) v v' → ¬ blocked true v'.
Proof.
  eexists. split; [|eapply (requests_are_answered true mem_empty 2
      [Recv 0%nat (new_user "ann") 5%Z; Recv 1%nat (new_user "bob") 6%Z]);
    [apply mem_empty_inv
    |intros i req r; rewrite !elem_of_cons, elem_of_nil; intros [[= _ -> _]|[[= _ -> _]|[]]]; split; reflexivity
    |thread_step 0%nat; do 3 thread_step 1%nat; apply run_nil]].
  reflexivity.
Defined.
