(* ===== verification/EventLoop.v ===== *)
(** * The event loop and its worker threads (event_loop.cpp, sgxserver_bootstrap.cpp)

    [SocketEventLoop] waits for events on the listening socket and on the
    connections, and pushes the descriptors that are ready to a queue; the
    threads started by [main] take them from the queue.  The answers of the
    operating system and of the enclave are arguments of the definitions;
    ending the process is an exception that carries the exit status. *)

From stdpp Require Import base gmap strings list.
From Stdlib Require Import ZArith Ascii Lia.
From S2P Require Import Prelude Cxx Args.

Definition EXIT_FAILURE : Z := 1.

(** ** Addresses *)

Definition htons (z : Z) : Z := Z.shiftl (Z.land z 0xFF) 8 + Z.shiftr z 8.

Record sockaddr_in : Type := SockAddr { s_addr : Z; sin_port : Z }.

(** [SocketEventLoop] with the set of descriptors registered in its epoll
    instance, each with its [EPOLLET] flag. *)
Record SocketEventLoop : Type := Loop {
  epollfd_ : Z;
  localserver_ : sockaddr_in;
  remoteserver_ : sockaddr_in;
  listendpoint_ : string;
  connectendpoint_ : string;
  registered : list (Z * bool);
  iqueue_ : list Z;
}.

Definition loop_new : SocketEventLoop := Loop (-1) (SockAddr 0 0) (SockAddr 0 0) "" "" [] [].

Definition with_queue (q : list Z) (l : SocketEventLoop) : SocketEventLoop :=
  Loop (epollfd_ l) (localserver_ l) (remoteserver_ l) (listendpoint_ l) (connectendpoint_ l) (registered l) q.

Abbreviation LM := (M Z SocketEventLoop).

Definition exit_error {A} (status : Z) : LM A := throw status.

(** [inet_addr] and the value of [INADDR_ANY] in network order. *)
Section addresses.
Context (inet_addr : string → Z).

Definition set_listener (host : string) (port : Z) : LM unit :=
  modify (λ l, Loop (epollfd_ l)
                 (SockAddr (if (host =? "*")%string then 0 else inet_addr host) (htons port)) (remoteserver_ l)
                 (host +:+ ":" +:+ to_string port) (connectendpoint_ l) (registered l) (iqueue_ l)).

Definition set_server (host : string) (port : Z) : LM unit :=
  modify (λ l, Loop (epollfd_ l) (localserver_ l) (SockAddr (inet_addr host) (htons port))
                 (listendpoint_ l) (host +:+ ":" +:+ to_string port) (registered l) (iqueue_ l)).
End addresses.

(** ** Registering descriptors *)

(** What the system answers when a descriptor is registered. *)
Record ctl : Type := Ctl { fcntl_ok : bool; epoll_ctl_ok : bool }.

Definition create_epoll (fd : Z) : LM unit :=
  if fd =? -1 then exit_error EXIT_FAILURE else
  modify (λ l, Loop fd (localserver_ l) (remoteserver_ l) (listendpoint_ l) (connectendpoint_ l)
                 (registered l) (iqueue_ l)).

Definition setnonblocking (ok : bool) : LM unit :=
  if ok then ret tt else exit_error 1.

Definition addto_epoll (fd : Z) (edge : bool) (c : ctl) : LM unit :=
  (if edge then setnonblocking (fcntl_ok c) else ret tt) ;;
  if epoll_ctl_ok c then
    modify (λ l, Loop (epollfd_ l) (localserver_ l) (remoteserver_ l) (listendpoint_ l) (connectendpoint_ l)
                   (registered l ++ [(fd, edge)]) (iqueue_ l))
  else exit_error EXIT_FAILURE.

Definition bind_n_listen (bind_ok : bool) : LM unit :=
  if bind_ok then ret tt else exit_error 1.

(** [connect]: the descriptor [socket] returned, and the warning when the
    server cannot be reached. *)
Definition connect (fd : Z) (connect_ok : bool) : LM (Z * option string) :=
  l <- get_state ;;
  ret (fd, if connect_ok then None else Some ("Unable to connect to server " +:+ connectendpoint_ l +:+ String "010" "")).

(** ** Events *)

(** An event; for the listening socket, the descriptor [accept] returns and
    the result of [ecall_tls_accept]. *)
Record epoll_event : Type := Event {
  ev_fd : Z;
  conn_sock : Z;
  tls_accept : Z;
  ev_ctl : ctl;
}.

Definition handle_event (listen_sock : Z) (e : epoll_event) : LM unit :=
  if ev_fd e =? listen_sock then
    if conn_sock e =? -1 then exit_error EXIT_FAILURE
    else if negb (tls_accept e =? 0) then ret tt
    else addto_epoll (conn_sock e) true (ev_ctl e)
  else modify (λ l, with_queue (iqueue_ l ++ [ev_fd e]) l).

Fixpoint handle_events (listen_sock : Z) (es : list epoll_event) : LM unit :=
  match es with
  | [] => ret tt
  | e :: es => handle_event listen_sock e ;; handle_events listen_sock es
  end.

(** [epoll_wait]: an error, interrupted or not, has no events. *)
Inductive wait_result : Type :=
| WaitError (eintr : bool)
| WaitEvents (events : list epoll_event).

Fixpoint event_loop_body (listen_sock : Z) (waits : list wait_result) : LM unit :=
  match waits with
  | [] => ret tt
  | WaitError _ :: waits => event_loop_body listen_sock waits
  | WaitEvents es :: waits =>
      handle_events listen_sock es ;; event_loop_body listen_sock waits
  end.

(** The answers of the system before the loop. *)
Record setup : Type := Setup {
  epoll_create1 : Z;
  socket_fd : Z;
  bind_ok : bool;
  listen_ctl : ctl;
}.

(** [event_loop] until the waits of the list are over. *)
Definition event_loop (env : setup) (waits : list wait_result) : LM unit :=
  l <- get_state ;;
  (if epollfd_ l <? 0 then create_epoll (epoll_create1 env) else ret tt) ;;
  l <- get_state ;;
  listen_sock <-
    (if (listendpoint_ l =? "")%string then ret (-1)
     else bind_n_listen (bind_ok env) ;;
          addto_epoll (socket_fd env) false (listen_ctl env) ;;
          ret (socket_fd env)) ;;
  event_loop_body listen_sock waits.

(** [main] after the arguments were parsed and the enclave created: the result
    of [ecall_init], the port of the arguments. *)
Definition main_body (inet_addr : string → Z) (init_ret port : Z) (env : setup)
    (waits : list wait_result) : LM unit :=
  if negb (init_ret =? 0) then throw 2 else
  set_listener inet_addr "*" (to_port port) ;;
  event_loop env waits.

(** The handler of [SIGINT]: the enclave is finished, then the process ends. *)
Definition ctrlc_handler (ecall_finish : LM unit) : LM unit := ecall_finish ;; throw 0.

(** ** Reading a plain socket *)

Inductive recv_result : Type :=
| RecvData (bytes : string)
| RecvClosed
| RecvError (errno : Z).

Definition ECONNRESET : Z := 104.

(** [consume_fd] without TLS: the message and whether the descriptor is
    closed; reads beyond the list would block, which ends the loop. *)
Fixpoint consume_fd (reads : list recv_result) (msg : string) : string * bool :=
  match reads with
  | [] => (msg, false)
  | RecvData bytes :: reads => consume_fd reads (msg +:+ bytes)
  | RecvClosed :: _ => (msg, true)
  | RecvError errno :: _ => (msg, errno =? ECONNRESET)
  end.

(** One turn of [enclave_thread] without TLS: what is handed to [ecall_query],
    and whether the descriptor was closed. *)
Definition plain_turn (reads : list recv_result) : option string * bool :=
  let '(msg, closed) := consume_fd reads "" in
  (if (msg =? "")%string then None else Some msg, closed).

(** ** The threads

    [enclave_thread] waits until the queue is not empty, takes its first
    descriptor and consumes it.  Each thread is idle or consumes a descriptor;
    [pushed] and [consumed] are the descriptors the loop has queued and the
    threads have finished, in order. *)
Record machine : Type := Machine {
  loop : SocketEventLoop;
  workers : list (option Z);
  pushed : list Z;
  consumed : list Z;
}.

Definition main_threads (n : nat) (l : SocketEventLoop) : machine :=
  Machine l (replicate n None) [] [].

(** A thread's half of the loop body. *)
Inductive thread_step : machine → machine → Prop :=
| take i l ws ps cs fd q :
    ws !! i = Some None → iqueue_ l = fd :: q →
    thread_step (Machine l ws ps cs) (Machine (with_queue q l) (<[i := Some fd]> ws) ps cs)
| finish_fd i l ws ps cs fd :
    ws !! i = Some (Some fd) →
    thread_step (Machine l ws ps cs) (Machine l (<[i := None]> ws) ps (cs ++ [fd])).

(** The event loop handles one event. *)
Inductive loop_step (listen_sock : Z) : machine → machine → Prop :=
| event e l l' ws ps cs :
    handle_event listen_sock e l = (Ok tt, l') →
    loop_step listen_sock (Machine l ws ps cs)
      (Machine l' ws (ps ++ if ev_fd e =? listen_sock then [] else [ev_fd e]) cs).

Definition server_step (listen_sock : Z) (c c' : machine) : Prop :=
  thread_step c c' ∨ loop_step listen_sock c c'.

(** ** Every event is served once *)

Definition busy (c : machine) : list Z := omap id (workers c).

(** What is queued was pushed, and what was pushed is consumed, in work or
    queued. *)
Definition accounted (c : machine) : Prop :=
  pushed c ≡ₚ consumed c ++ busy c ++ iqueue_ (loop c).

(** With one thread, in the order of the events. *)
Definition in_order (c : machine) : Prop :=
  length (workers c) = 1%nat → pushed c = consumed c ++ busy c ++ iqueue_ (loop c).

Lemma omap_replicate_None {A} n : omap id (replicate n (None : option A)) = [].
Proof. by induction n. Qed.

(** Changing the state of one thread. *)
Lemma omap_insert_perm (ws : list (option Z)) i o x :
  ws !! i = Some o → option_list o ++ omap id (<[i := x]> ws) ≡ₚ option_list x ++ omap id ws.
Proof.
  revert i. induction ws as [|w ws IH]; intros [|i] Hi; try done; simpl in *.
  - injection Hi as ->. destruct o, x; simpl; try done. apply Permutation_swap.
  - specialize (IH i Hi). destruct w as [z|]; simpl; [|done].
    rewrite <-(Permutation_middle (option_list o)), <-(Permutation_middle (option_list x)).
    by rewrite IH.
Qed.

Lemma handle_event_queue listen_sock e l l' :
  handle_event listen_sock e l = (Ok tt, l') →
  iqueue_ l' = iqueue_ l ++ (if ev_fd e =? listen_sock then [] else [ev_fd e]).
Proof.
  unfold handle_event. destruct (ev_fd e =? listen_sock).
  - destruct (conn_sock e =? -1); [done|]. destruct (tls_accept e =? 0); simpl.
    + unfold addto_epoll, setnonblocking, bind. destruct (fcntl_ok (ev_ctl e)); [|done].
      simpl. destruct (epoll_ctl_ok (ev_ctl e)); [|done]. intros [= <-]. by rewrite app_nil_r.
    + intros [= <-]. by rewrite app_nil_r.
  - by intros [= <-].
Qed.

Lemma thread_step_accounted c c' : thread_step c c' → accounted c → accounted c'.
Proof.
  unfold accounted, busy. intros [i l ws ps cs fd q Hi Hq|i l ws ps cs fd Hi]; simpl; intros Hacc.
  - pose proof (omap_insert_perm ws i None (Some fd) Hi) as Hp. simpl in Hp.
    rewrite Hacc, Hq, Hp. simpl. by rewrite <-Permutation_middle.
  - pose proof (omap_insert_perm ws i (Some fd) None Hi) as Hp. simpl in Hp.
    rewrite Hacc, <-Hp. by rewrite <-app_assoc.
Qed.

Lemma thread_step_workers c c' : thread_step c c' → length (workers c') = length (workers c).
Proof. intros []; simpl; by rewrite length_insert. Qed.

Lemma thread_step_pushed c c' : thread_step c c' → pushed c' = pushed c.
Proof. by intros []. Qed.

Lemma loop_step_accounted ls c c' : loop_step ls c c' → accounted c → accounted c'.
Proof.
  unfold accounted, busy. intros [e l l' ws ps cs He]; simpl; intros Hacc.
  rewrite (handle_event_queue _ _ _ _ He), Hacc. by rewrite !app_assoc.
Qed.

Lemma server_step_accounted ls c c' : server_step ls c c' → accounted c → accounted c'.
Proof. intros [?|?]; eauto using thread_step_accounted, loop_step_accounted. Qed.

Lemma server_step_in_order ls c c' : server_step ls c c' → in_order c → in_order c'.
Proof.
  unfold in_order, busy. intros Hstep Ho Hlen. destruct Hstep as [Hstep|Hstep].
  - rewrite (thread_step_workers _ _ Hstep) in Hlen. specialize (Ho Hlen).
    destruct Hstep as [i l ws ps cs fd q Hi Hq|i l ws ps cs fd Hi]; simpl in *;
      destruct ws as [|w [|]]; try done; destruct i; try done; simpl in *; injection Hi as ->;
      rewrite Ho; simpl; [by rewrite Hq|by rewrite <-app_assoc].
  - destruct Hstep as [e l l' ws ps cs He]. simpl in *. rewrite (handle_event_queue _ _ _ _ He), Ho by done. by rewrite !app_assoc.
Qed.

(** The threads finish what is queued. *)
Definition work (c : machine) : nat := 2 * length (iqueue_ (loop c)) + length (busy c).

Definition all_idle (c : machine) : Prop := iqueue_ (loop c) = [] ∧ Forall (λ w, w = None) (workers c).

Lemma busy_or_idle (ws : list (option Z)) :
  Forall (λ w, w = None) ws ∨ ∃ i fd, ws !! i = Some (Some fd).
Proof.
  induction ws as [|[fd|] ws IH]; [by left|right; by exists 0%nat, fd|].
  destruct IH as [IH|(i & fd & Hi)]; [left; by constructor|right; by exists (S i), fd].
Qed.

Lemma threads_progress c :
  workers c ≠ [] → all_idle c ∨ ∃ c', thread_step c c' ∧ (work c' < work c)%nat.
Proof.
  destruct c as [l ws ps cs]. unfold all_idle, work, busy. simpl. intros Hws.
  destruct (busy_or_idle ws) as [Hidle|(i & fd & Hi)].
  - destruct (iqueue_ l) as [|fd q] eqn:Hq; [by left|]. right.
    destruct ws as [|w ws]; [done|]. apply Forall_cons in Hidle as [-> Hidle].
    pose proof (omap_insert_perm (None :: ws) 0 None (Some fd) eq_refl) as Hp.
    apply Permutation_length in Hp. rewrite !length_app in Hp.
    change (length (option_list None)) with 0%nat in Hp.
    change (length (option_list (Some fd))) with 1%nat in Hp.
    eexists. split; [eapply (take 0); [done|exact Hq]|]. cbn [loop workers iqueue_ with_queue length].
    lia.
  - right. eexists. split; [by eapply (finish_fd i)|]. simpl.
    pose proof (omap_insert_perm ws i (Some fd) None Hi) as Hp.
    apply Permutation_length in Hp. simpl in Hp. lia.
Qed.

Lemma threads_drain c :
  workers c ≠ [] → ∃ c', rtc thread_step c c' ∧ all_idle c'.
Proof.
  remember (work c) as n eqn:Hn. revert c Hn. induction (lt_wf n) as [n _ IH]. intros c -> Hws.
  destruct (threads_progress c Hws) as [Hidle|(c' & Hstep & Hlt)]; [exists c; split; [apply rtc_refl|done]|].
  destruct (IH _ Hlt c' eq_refl) as (c2 & Hsteps & Hidle).
  { intros E. apply Hws. apply length_zero_iff_nil. rewrite <-(thread_step_workers _ _ Hstep). by rewrite E. }
  exists c2. split; [by eapply rtc_l|done].
Qed.

Lemma rtc_invariant {A} (R : relation A) (P : A → Prop) x y :
  (∀ x y, R x y → P x → P y) → rtc R x y → P x → P y.
Proof. intros Hstep. induction 1; eauto. Qed.


(** With the single thread of the key manager and of the proxy, the
    descriptors are consumed in the order of their events. *)
Theorem events_served_in_order ls l c :
  iqueue_ l = [] → rtc (server_step ls) (main_threads 1 l) c →
  pushed c = consumed c ++ busy c ++ iqueue_ (loop c).
Proof.
  intros Hl Hreach.
  assert (H : in_order c ∧ length (workers c) = 1%nat).
  { eapply (rtc_invariant _ (λ c, in_order c ∧ length (workers c) = 1%nat)); [|exact Hreach|].
    - intros x y Hstep [Ho Hlen]. split; [by eapply server_step_in_order|].
      destruct Hstep as [Hstep|Hstep]; [by rewrite (thread_step_workers _ _ Hstep)|by destruct Hstep].
    - split; [|done]. intros _. unfold busy. simpl. by rewrite Hl. }
  destruct H as [Ho Hlen]. exact (Ho Hlen).
Qed.

(** With two threads or more, nothing keeps them from serving the same
    connection at once: descriptors are registered without EPOLLONESHOT, so
    data that arrives while one thread reads queues the descriptor again. *)
Theorem connection_served_twice l n fd ls :
  iqueue_ l = [] → fd ≠ ls →
  ∃ c, rtc (server_step ls) (main_threads (S (S n)) l) c ∧ workers c = Some fd :: Some fd :: replicate n None.
Proof.
  intros Hq Hfd. set (e := Event fd 0 0 (Ctl true true)).
  assert (He : ∀ l, handle_event ls e l = (Ok tt, with_queue (iqueue_ l ++ [fd]) l)).
  { intros l'. unfold handle_event. cbn [ev_fd e]. by rewrite (proj2 (Z.eqb_neq fd ls)). }
  eexists. split; [|shelve]. (* the last state is found by the run *)
  eapply rtc_l; [right; apply (event ls e), He|]. eapply rtc_l; [right; apply (event ls e), He|].
  eapply rtc_l; [left; eapply (take 0); [reflexivity|cbn; by rewrite Hq]|].
  eapply rtc_l; [left; eapply (take 1); reflexivity|]. apply rtc_refl.
  Unshelve. reflexivity.
Qed.

(** What a thread hands to the enclave is what was read before the first
    error or the end, in order. *)
Theorem plain_turn_reads reads :
  ∃ datas rest, reads = (RecvData <$> datas) ++ rest ∧ (rest = [] ∨ ∃ r rest', rest = r :: rest' ∧ ∀ b, r ≠ RecvData b)
    ∧ default "" (plain_turn reads).1 = foldr String.append "" datas.
Proof.
  assert (Hc : ∀ reads msg, ∃ datas rest, reads = (RecvData <$> datas) ++ rest
    ∧ (rest = [] ∨ ∃ r rest', rest = r :: rest' ∧ ∀ b, r ≠ RecvData b)
    ∧ (consume_fd reads msg).1 = msg +:+ foldr String.append "" datas).
  { clear. induction reads as [|[b| |e] reads IH]; intros msg.
    - exists [], []. split_and!; [done|by left|by rewrite append_nil_r].
    - destruct (IH (msg +:+ b)) as (datas & rest & -> & Hr & Hc). exists (b :: datas), rest.
      split_and!; [done|done|]. simpl. by rewrite Hc, append_assoc.
    - exists [], (RecvClosed :: reads). split_and!; [done|right; by eexists _, _|by rewrite append_nil_r].
    - exists [], (RecvError e :: reads). split_and!; [done|right; by eexists _, _|by rewrite append_nil_r]. }
  destruct (Hc reads "") as (datas & rest & -> & Hr & Hm). exists datas, rest. split_and!; [done|done|].
  unfold plain_turn. destruct (consume_fd _ "") as [msg closed]. simpl in *. subst msg.
  by destruct (String.eqb_spec (foldr String.append "" datas) "") as [->|].
Qed.

(** ** A run *)

Definition ok_ctl : ctl := Ctl true true.
Definition listening : SocketEventLoop :=
  (main_body (λ _, 0) 0 4444 (Setup 3 4 true ok_ctl) [WaitEvents [Event 4 7 0 ok_ctl]] loop_new).2.

Example main_listens :
  main_body (λ _, 0) 0 4444 (Setup 3 4 true ok_ctl) [WaitError true; WaitEvents [Event 4 7 0 ok_ctl]] loop_new
  = (Ok tt, Loop 3 (SockAddr 0 0x5C11) (SockAddr 0 0) "*:4444" "" [(4, false); (7, true)] []).
Proof. vm_compute. reflexivity. Qed.

Example failed_init_ends : (main_body (λ _, 0) (-1) 4444 (Setup 3 4 true ok_ctl) [] loop_new).1 = Throw 2.
Proof. reflexivity. Qed.

(** Two events on descriptor 7; the thread has taken the first. *)
Lemma demo_reach :
  rtc (server_step 4) (main_threads 1 listening)
    (Machine (with_queue [7] listening) [Some 7] [7; 7] []).
Proof.
  eapply rtc_l; [right; apply (event 4 (Event 7 0 0 ok_ctl)); vm_compute; reflexivity|].
  eapply rtc_l; [right; apply (event 4 (Event 7 0 0 ok_ctl)); vm_compute; reflexivity|].
  eapply rtc_l; [left; apply (take 0 _ [None] [7; 7] [] 7 [7]); reflexivity|].
  apply rtc_refl.
Qed.


Lemma events_served_in_order_witness : [7; 7] = [] ++ [7] ++ [7].
Proof.
  apply (events_served_in_order 4 listening (Machine (with_queue [7] listening) [Some 7] [7; 7] []));
    [reflexivity|apply demo_reach].
Defined.
